(** * ProcPortManager: process categorisation, snapshots, port lookup and
      safe process-tree termination

    A shallow embedding of [modules/process_manager.py],
    [modules/port_manager.py], the save menu of [modules/utils.py], the
    branches of [modules/menu.py] and the table of [modules/monitor.py].
    The host (psutil, sockets, the console) is an oracle over an abstract
    world; Python exceptions are values of [pyresult]; every call into the
    host is written to a log, so that the order of signals and waits can
    be stated.  Text is a byte string, and the string methods are modelled
    as Python's act on ASCII text; a statement that depends on it says
    so. *)

From Stdlib Require Import ZArith QArith Qabs List String Ascii Bool Lia Lqa.
From Stdlib Require Import DecimalString DecimalPos Permutation Sorted.
Import ListNotations.

Local Open Scope string_scope.
Local Open Scope Z_scope.
Local Open Scope list_scope.

(** ** Python values and exceptions *)

(** The exception classes the two modules distinguish.  psutil's
    [NoSuchProcess] and [AccessDenied] are named in [except] clauses; all
    kinds below are subclasses of [Exception]. *)
Inductive exn_kind : Type :=
| NoSuchProcess
| AccessDenied
| ValueError
| TypeError
| AttributeError
| EOFError
| OSError
| ZeroDivisionError.

Record exn : Type := mkExn { kind : exn_kind; str_exn : string }.

Inductive pyresult (A : Type) : Type :=
| Ok (a : A)
| Raise (e : exn).
Arguments Ok {A} a.
Arguments Raise {A} e.

Definition exn_kind_eqb (k1 k2 : exn_kind) : bool :=
  match k1, k2 with
  | NoSuchProcess, NoSuchProcess | AccessDenied, AccessDenied
  | ValueError, ValueError | TypeError, TypeError
  | AttributeError, AttributeError | EOFError, EOFError
  | OSError, OSError | ZeroDivisionError, ZeroDivisionError => true
  | _, _ => false
  end.

Definition is_kind (k : exn_kind) (e : exn) : bool := exn_kind_eqb (kind e) k.

(** The dynamically typed values that reach [categorize_process]: [None],
    an [int], or a [str]. *)
Inductive pyval : Type :=
| PyNone
| PyInt (z : Z)
| PyStr (s : string).

(** Truth value of an object: [None], [0] and the empty string are false. *)
Definition truthy (v : pyval) : bool :=
  match v with
  | PyNone => false
  | PyInt z => negb (z =? 0)
  | PyStr s => negb (String.eqb s EmptyString)
  end.

(** [v == 0] never raises. *)
Definition py_eq_int (v : pyval) (n : Z) : bool :=
  match v with
  | PyInt z => z =? n
  | _ => false
  end.

(** [v <= n] for an int [n]: [None] and [str] operands raise [TypeError]. *)
Definition py_le_int (v : pyval) (n : Z) : pyresult bool :=
  match v with
  | PyInt z => Ok (z <=? n)
  | PyNone =>
      Raise (mkExn TypeError
        "'<=' not supported between instances of 'NoneType' and 'int'")
  | PyStr _ =>
      Raise (mkExn TypeError
        "'<=' not supported between instances of 'str' and 'int'")
  end.

Definition string_of_Z (z : Z) : string := NilZero.string_of_int (Z.to_int z).

(** [str(v)] *)
Definition py_str (v : pyval) : string :=
  match v with
  | PyNone => "None"
  | PyInt z => string_of_Z z
  | PyStr s => s
  end.

(** Strings are byte strings, a [str] being its UTF-8 encoding.  Case
    mapping acts on the ASCII letters and leaves every other byte alone:
    on ASCII strings [lower] and [upper] are [str.lower()] and
    [str.upper()]; on other strings they need not be (the upper case of
    U+017F is "S"). *)
Definition is_upper (c : ascii) : bool :=
  let n := nat_of_ascii c in (65 <=? n)%nat && (n <=? 90)%nat.
Definition is_lower (c : ascii) : bool :=
  let n := nat_of_ascii c in (97 <=? n)%nat && (n <=? 122)%nat.
Definition lower_ascii (c : ascii) : ascii :=
  if is_upper c then ascii_of_nat (nat_of_ascii c + 32) else c.
Definition upper_ascii (c : ascii) : ascii :=
  if is_lower c then ascii_of_nat (nat_of_ascii c - 32) else c.

Fixpoint map_string (f : ascii -> ascii) (s : string) : string :=
  match s with
  | EmptyString => EmptyString
  | String c s' => String (f c) (map_string f s')
  end.

Definition lower (s : string) : string := map_string lower_ascii s.
Definition upper (s : string) : string := map_string upper_ascii s.

(** [v.lower()]: only [str] has the method. *)
Definition py_lower (v : pyval) : pyresult string :=
  match v with
  | PyStr s => Ok (lower s)
  | PyNone =>
      Raise (mkExn AttributeError "'NoneType' object has no attribute 'lower'")
  | PyInt _ =>
      Raise (mkExn AttributeError "'int' object has no attribute 'lower'")
  end.

(** [needle in hay] on strings *)
Fixpoint contains (needle hay : string) : bool :=
  String.prefix needle hay ||
  match hay with
  | EmptyString => false
  | String _ hay' => contains needle hay'
  end.

(** [s.startswith(p)] *)
Definition startswith (s p : string) : bool := String.prefix p s.

(** A string of ASCII characters. *)
Definition is_ascii (s : string) : bool :=
  forallb (fun c => (nat_of_ascii c <? 128)%nat) (list_ascii_of_string s).

(** *** Letter case, in the words of the specification

    The letters of the alphabet, each in lower and in upper case. *)
Definition case_pairs : list (ascii * ascii) :=
  [("a", "A"); ("b", "B"); ("c", "C"); ("d", "D"); ("e", "E"); ("f", "F");
   ("g", "G"); ("h", "H"); ("i", "I"); ("j", "J"); ("k", "K"); ("l", "L");
   ("m", "M"); ("n", "N"); ("o", "O"); ("p", "P"); ("q", "Q"); ("r", "R");
   ("s", "S"); ("t", "T"); ("u", "U"); ("v", "V"); ("w", "W"); ("x", "X");
   ("y", "Y"); ("z", "Z")]%char.

(** The same character, or the same letter in its two cases. *)
Definition same_letter (a b : ascii) : bool :=
  Ascii.eqb a b
  || existsb (fun lu : ascii * ascii =>
                (Ascii.eqb a (fst lu) && Ascii.eqb b (snd lu))
                || (Ascii.eqb a (snd lu) && Ascii.eqb b (fst lu)))
       case_pairs.

(** [s] starts with [word], letter case ignored. *)
Fixpoint starts_spelling (word s : string) : bool :=
  match word with
  | EmptyString => true
  | String t word' =>
      match s with
      | EmptyString => false
      | String c s' => same_letter t c && starts_spelling word' s'
      end
  end.


(** [word] occurs in [s], letter case ignored. *)
Fixpoint mentions (word s : string) : bool :=
  starts_spelling word s
  || match s with
     | EmptyString => false
     | String _ s' => mentions word s'
     end.

(** ** Categorizer: [categorize_process] *)

Module Categorizer.

(** The body of the [try] block. *)
Definition categorize_try (pid name username : pyval) : pyresult string :=
  if py_eq_int pid 0 then Ok "System Idle"
  else
    match py_le_int pid 4 with
    | Raise e => Raise e
    | Ok true => Ok "System"
    | Ok false =>
        match username with
        | PyNone => Ok "Background"
        | _ =>
            let uname := upper (py_str username) in
            match py_lower (if truthy name then name else PyStr EmptyString) with
            | Raise e => Raise e
            | Ok lname =>
                if contains "service" lname
                   || String.eqb uname "SYSTEM"
                   || startswith uname "NT AUTHORITY"
                then Ok "Services"
                else Ok "User"
            end
        end
    end.

(** [try: ... except Exception: return "Other"] *)
Definition categorize_process (pid name username : pyval) : string :=
  match categorize_try pid name username with
  | Ok category => category
  | Raise _ => "Other"
  end.




End Categorizer.

(** ** The host

    A [Process] is a psutil handle: the pid it was created for and the
    creation time psutil reads to tell a reused pid apart. *)
Record Process : Type := mkProcess { pid : Z; create_time : nat }.

(** [p.info] as filled in by [process_iter(attrs=...)]: a field the host
    could not read is [None]. *)
Record Info : Type := mkInfo {
  info_pid : option Z;
  info_name : option string;
  info_username : option string;
  info_memory_info : option Z;      (* the [rss] field of [memory_info] *)
  info_exe : option string;
  info_cmdline : option (list string)
}.

(** An element of [p.threads()]. *)
Record Thread : Type := mkThread {
  thread_id : Z; user_time : Q; system_time : Q
}.

(** An element of [psutil.net_connections(kind='inet')]: [laddr] is the
    empty tuple or an [(ip, port)] pair, [pid] may be [None]. *)
Record sconn : Type := mkConn {
  laddr : option (string * Z);
  conn_pid : option Z
}.

(** Every call the modules make into psutil, [socket], [time] and the
    console, with the arguments they pass. *)
Inductive call : Type :=
| CProcess (n : Z)                                (* psutil.Process(n) *)
| CChildren (p : Process)                         (* p.children(recursive=True) *)
| CTerminate (p : Process)                        (* p.terminate() *)
| CKill (p : Process)                             (* p.kill() *)
| CWaitProcs (ps : list Process) (timeout : Q)    (* psutil.wait_procs *)
| CIsRunning (p : Process)                        (* p.is_running() *)
| CProcessIter                                    (* psutil.process_iter *)
| CCpuPercent (p : Process)                       (* p.cpu_percent(interval=None) *)
| CThreads (p : Process)                          (* p.threads() *)
| CSleep (secs : Q)                               (* time.sleep *)
| CNetConnections                                 (* psutil.net_connections *)
| CConnectEx (port : Z)                           (* s.connect_ex(("127.0.0.1", port)) *)
| CExe (p : Process)
| CUsername (p : Process)
| CName (p : Process)
| CCmdline (p : Process)
| CInput                                          (* input(prompt) *)
| CSave (filename : string)                       (* open(path, "w"); json.dump *)
| CFindProcessesUsingPort (port : Z).             (* entry of find_processes_using_port *)

Record event : Type := mkEvent { ev_call : call; ev_raised : option exn }.

(** The host as an oracle over a world [W]: each call answers from the
    current world and moves it on.  Nothing is assumed about the answers.
    [process_iter] hands out handles whose [info] is already filled in, and
    [time.sleep] of a constant cannot fail; every other call may raise. *)
Class Host (W : Type) : Type := {
  psutil_Process : Z -> W -> pyresult nat * W;
  proc_children : Process -> W -> pyresult (list Process) * W;
  proc_terminate : Process -> W -> pyresult unit * W;
  proc_kill : Process -> W -> pyresult unit * W;
  psutil_wait_procs :
    list Process -> Q -> W -> pyresult (list Process * list Process) * W;
  proc_is_running : Process -> W -> pyresult bool * W;
  psutil_process_iter : W -> list (Process * Info) * W;
  proc_cpu_percent : Process -> W -> pyresult Q * W;
  proc_threads : Process -> W -> pyresult (list Thread) * W;
  time_sleep : Q -> W -> W;
  psutil_net_connections : W -> pyresult (list sconn) * W;
  socket_connect_ex : Z -> W -> pyresult Z * W;
  proc_exe : Process -> W -> pyresult (option string) * W;
  proc_username : Process -> W -> pyresult string * W;
  proc_name : Process -> W -> pyresult string * W;
  proc_cmdline : Process -> W -> pyresult (list string) * W;
  timestamp_str : W -> string;
  save_file : string -> W -> pyresult unit * W
}.

(** ** The monad of the embedding: world, console input, log; exceptions *)

Record St (W : Type) : Type := mkSt {
  world : W;
  stdin : list string;
  log : list event
}.
Arguments mkSt {W} _ _ _.
Arguments world {W} _.
Arguments stdin {W} _.
Arguments log {W} _.

Definition M (W A : Type) : Type := St W -> pyresult A * St W.

Definition ret {W A} (a : A) : M W A := fun s => (Ok a, s).

Definition bind {W A B} (m : M W A) (k : A -> M W B) : M W B :=
  fun s =>
    match m s with
    | (Ok a, s') => k a s'
    | (Raise e, s') => (Raise e, s')
    end.

(** [try: m] with the outcome handed to the [except] clauses. *)
Definition try_ {W A} (m : M W A) : M W (pyresult A) :=
  fun s => let (r, s') := m s in (Ok r, s').

Definition raised {A} (r : pyresult A) : option exn :=
  match r with
  | Ok _ => None
  | Raise e => Some e
  end.

(** A call into the host: answered by the oracle, then logged. *)
Definition host {W A} (c : call) (f : W -> pyresult A * W) : M W A :=
  fun s =>
    let (r, w') := f (world s) in
    (r, mkSt w' (stdin s) (log s ++ [mkEvent c (raised r)])).

Declare Scope monad_scope.
Delimit Scope monad_scope with monad.
Notation "x <- m ;; k" := (bind m (fun x => k))
  (at level 100, m at next level, right associativity) : monad_scope.
Notation "m ;;; k" := (bind m (fun _ => k))
  (at level 100, right associativity) : monad_scope.
Local Open Scope monad_scope.

(** [for x in l: acc = body x acc] *)
Fixpoint for_each {W A S} (l : list A) (body : A -> S -> M W S) (acc : S)
  : M W S :=
  match l with
  | [] => ret acc
  | x :: l' => acc' <- body x acc ;; for_each l' body acc'
  end.

(** [[x for x in l if test x]] *)
Fixpoint filter_m {W A} (test : A -> M W bool) (l : list A) : M W (list A) :=
  match l with
  | [] => ret []
  | x :: l' =>
      b <- test x ;;
      rest <- filter_m test l' ;;
      ret (if b then x :: rest else rest)
  end.

(** Reads the world without a call; used for pure reads such as the
    clock behind [timestamp_str]. *)
Definition get_world {W} : M W W := fun s => (Ok (world s), s).

Definition init {W} (w : W) (input : list string) : St W := mkSt w input [].

(** A host call that cannot raise. *)
Definition host_total {W A} (c : call) (f : W -> A * W) : M W A :=
  host c (fun w => let (a, w') := f w in (Ok a, w')).

(** ** Process-tree terminator: [terminate_process_tree] *)

(** A value stored in a bucket: an [int], or the [None] that
    [getattr(p, 'pid', None)] falls back to. *)
Definition pyint : Type := option Z.

(** [if x] on a bucket value *)
Definition pyint_truthy (x : pyint) : bool :=
  match x with
  | Some z => negb (z =? 0)
  | None => false
  end.

Definition pyint_eqb (x y : pyint) : bool :=
  match x, y with
  | Some a, Some b => a =? b
  | None, None => true
  | _, _ => false
  end.

(** [x in l] *)
Definition pyint_in (x : pyint) (l : list pyint) : bool :=
  existsb (pyint_eqb x) l.

(** [getattr(p, 'pid', None)]: a psutil handle always has the attribute. *)
Definition getattr_pid (p : Process) : pyint := Some (pid p).

(** The dict [result]. *)
Record Outcome : Type := mkOutcome {
  terminated : list pyint;
  killed : list pyint;
  failed : list (pyint * string)
}.

Definition empty_outcome : Outcome := mkOutcome [] [] [].

Definition append_terminated (r : Outcome) (x : pyint) : Outcome :=
  mkOutcome (terminated r ++ [x]) (killed r) (failed r).
Definition append_killed (r : Outcome) (x : pyint) : Outcome :=
  mkOutcome (terminated r) (killed r ++ [x]) (failed r).
Definition append_failed (r : Outcome) (x : pyint * string) : Outcome :=
  mkOutcome (terminated r) (killed r) (failed r ++ [x]).

(** [list(dict.fromkeys(l))]: first occurrences, in order. *)
Fixpoint fromkeys_acc (seen l : list pyint) : list pyint :=
  match l with
  | [] => []
  | x :: l' =>
      if pyint_in x seen then fromkeys_acc seen l'
      else x :: fromkeys_acc (x :: seen) l'
  end.
Definition dict_fromkeys (l : list pyint) : list pyint := fromkeys_acc [] l.

(** The three assignments under [# clean lists]; the second one reads the
    [terminated] list the first one has just stored. *)
Definition clean_lists (r : Outcome) : Outcome :=
  let terminated' := dict_fromkeys (filter pyint_truthy (terminated r)) in
  let killed' :=
    dict_fromkeys
      (filter (fun x => pyint_truthy x && negb (pyint_in x terminated'))
              (killed r)) in
  let failed' := filter (fun '(pid, msg) => pyint_truthy pid) (failed r) in
  mkOutcome terminated' killed' failed'.

(** The constant passed to the second [wait_procs]. *)
Definition kill_wait_timeout : Q := 3%Q.

Section Terminator.
Context {W : Type} {H : Host W}.

Definition Process_ (n : Z) : M W Process :=
  ct <- host (CProcess n) (psutil_Process n) ;; ret (mkProcess n ct).

(** [for c in children: try: all_procs.append(psutil.Process(c.pid))
    except Exception: continue] *)
Definition resolve_children (children : list Process) : M W (list Process) :=
  for_each children
    (fun c all_procs =>
       r <- try_ (Process_ (pid c)) ;;
       match r with
       | Ok p => ret (all_procs ++ [p])
       | Raise _ => ret all_procs
       end)
    [].

(** [# attempt graceful terminate] *)
Definition graceful_phase (all_procs : list Process) (result : Outcome)
  : M W Outcome :=
  for_each all_procs
    (fun p result =>
       r <- try_ (host (CTerminate p) (proc_terminate p)) ;;
       match r with
       | Ok _ => ret result
       | Raise e =>
           ret (append_failed result
                  (getattr_pid p, ("terminate error: " ++ str_exn e)%string))
       end)
    result.

(** [# wait for termination]: [(gone, alive)] *)
Definition wait_phase (all_procs : list Process) (timeout : Q)
  : M W (list Process * list Process) :=
  r <- try_ (host (CWaitProcs all_procs timeout)
                  (psutil_wait_procs all_procs timeout)) ;;
  match r with
  | Ok ga => ret ga
  | Raise _ =>
      alive <- filter_m (fun p => host (CIsRunning p) (proc_is_running p))
                        all_procs ;;
      ret ([], alive)
  end.

(** [for p in gone: result["terminated"].append(p.pid)] *)
Definition record_gone (gone : list Process) (result : Outcome) : Outcome :=
  fold_left (fun result p => append_terminated result (Some (pid p)))
            gone result.

(** The [for p in alive: p.kill()] loop. *)
Definition kill_loop (alive : list Process) (result : Outcome) : M W Outcome :=
  for_each alive
    (fun p result =>
       r <- try_ (host (CKill p) (proc_kill p)) ;;
       match r with
       | Ok _ => ret result
       | Raise e =>
           if is_kind NoSuchProcess e
           then ret (append_terminated result (getattr_pid p))
           else ret (append_failed result
                       (getattr_pid p, ("kill error: " ++ str_exn e)%string))
       end)
    result.

(** The two loops over [gone2] and [alive2]. *)
Definition record_gone2 (gone2 : list Process) (result : Outcome) : Outcome :=
  fold_left
    (fun result p =>
       if negb (pyint_in (Some (pid p)) (terminated result))
       then append_killed result (Some (pid p))
       else result)
    gone2 result.
Definition record_alive2 (alive2 : list Process) (result : Outcome) : Outcome :=
  fold_left
    (fun result p =>
       append_failed result (getattr_pid p, "still alive after kill"))
    alive2 result.

(** The [except Exception] fallback of the second wait. *)
Definition rewait_fallback (alive : list Process) (result : Outcome)
  : M W Outcome :=
  for_each alive
    (fun p result =>
       r <- try_ (host (CIsRunning p) (proc_is_running p)) ;;
       match r with
       | Ok false =>
           if negb (pyint_in (Some (pid p)) (terminated result))
           then ret (append_killed result (Some (pid p)))
           else ret result
       | Ok true =>
           ret (append_failed result (getattr_pid p, "still alive after kill"))
       | Raise _ =>
           ret (append_failed result (getattr_pid p, "unknown state"))
       end)
    result.

(** The body of the [if alive:] block: forced kills, then the second
    wait. *)
Definition force_kill (alive : list Process) (result : Outcome)
  : M W Outcome :=
  result <- kill_loop alive result ;;
  r <- try_ (host (CWaitProcs alive kill_wait_timeout)
                  (psutil_wait_procs alive kill_wait_timeout)) ;;
  match r with
  | Ok (gone2, alive2) =>
      ret (record_alive2 alive2 (record_gone2 gone2 result))
  | Raise _ => rewait_fallback alive result
  end.

(** [# force kill remaining alive]: [if alive:] *)
Definition escalation_phase (alive : list Process) (result : Outcome)
  : M W Outcome :=
  match alive with
  | [] => ret result
  | _ :: _ => force_kill alive result
  end.

(** [# stable list children first]: the descendants that can be resolved
    again, then the root. *)
Definition collect_tree (parent : Process) : M W (list Process) :=
  r <- try_ (host (CChildren parent) (proc_children parent)) ;;
  let children := match r with Ok cs => cs | Raise _ => [] end in
  resolved <- resolve_children children ;;
  ret (resolved ++ [parent]).

(** Graceful phase, wait, escalation. *)
Definition signal_tree (all_procs : list Process) (timeout : Q)
  (result : Outcome) : M W Outcome :=
  result <- graceful_phase all_procs result ;;
  ga <- wait_phase all_procs timeout ;;
  let '(gone, alive) := ga in
  let result := record_gone gone result in
  escalation_phase alive result.

(** Everything after the root has been resolved, up to [# clean lists]. *)
Definition terminate_resolved (parent : Process) (timeout : Q) (result : Outcome)
  : M W Outcome :=
  all_procs <- collect_tree parent ;;
  signal_tree all_procs timeout result.

Definition terminate_process_tree (root : Z) (timeout : Q) : M W Outcome :=
  let result := empty_outcome in
  r <- try_ (Process_ root) ;;
  match r with
  | Raise e =>
      if is_kind NoSuchProcess e then ret result
      else ret (append_failed result
                  (Some root, ("cannot access process: " ++ str_exn e)%string))
  | Ok parent =>
      result <- terminate_resolved parent timeout result ;;
      ret (clean_lists result)
  end.

End Terminator.

(** ** Process snapshot provider: [fetch_processes_real_time] *)

Definition raise {W A} (e : exn) : M W A := fun s => (Raise e, s).

(** [f"{n/1024/1024:.1f} MB"].  For [0 <= n < 2^53], the sizes in bytes
    a host reports, the quotient is an exact binary fraction, which [.1f]
    rounds to the nearest tenth, ties to the even one.  Outside this range
    the model is not the format: a negative [n] prints with its sign in
    front, and from [2^53] on the division rounds before [.1f] does. *)
Definition human_mem_mb (n : Z) : string :=
  let q := (n * 10) / 1048576 in
  let r := (n * 10) mod 1048576 in
  let tenths :=
    if (524288 <? r) || ((r =? 524288) && Z.odd q) then q + 1 else q in
  (string_of_Z (tenths / 10) ++ "." ++ string_of_Z (tenths mod 10) ++ " MB")%string.

(** One dict of the returned list. *)
Record Entry : Type := mkEntry {
  entry_pid : Z;
  entry_name : string;
  entry_user : option string;
  entry_cpu : Q;
  entry_mem : Z;
  entry_mem_human : string;
  entry_category : string;
  entry_exe : option string;
  entry_cmdline : list string;
  entry_threads : list Z
}.

(** [x or default] on an optional string *)
Definition str_or (x : option string) (default : string) : string :=
  match x with
  | Some s => if String.eqb s EmptyString then default else s
  | None => default
  end.

Definition pyval_of_user (user : option string) : pyval :=
  match user with
  | Some s => PyStr s
  | None => PyNone
  end.

Section Snapshot.
Context {W : Type} {H : Host W}.

(** The body of the outer [try] of the second loop. *)
Definition snapshot_entry (p : Process) (info : Info) : M W Entry :=
  let pid := match info_pid info with Some z => z | None => 0 end in
  let name := str_or (info_name info) "<unknown>" in
  let user := info_username info in
  r <- try_ (host (CCpuPercent p) (proc_cpu_percent p)) ;;
  let cpu := match r with Ok c => c | Raise _ => 0%Q end in
  let mem := match info_memory_info info with Some rss => rss | None => 0 end in
  let exe := info_exe info in
  let cmdline := match info_cmdline info with Some l => l | None => [] end in
  let category :=
    Categorizer.categorize_process (PyInt pid) (PyStr name) (pyval_of_user user) in
  r <- try_ (host (CThreads p) (proc_threads p)) ;;
  let threads := match r with Ok ts => map thread_id ts | Raise _ => [] end in
  ret (mkEntry pid name user cpu mem (human_mem_mb mem) category exe cmdline
               threads).

(** [# prepare cpu sampling] and the warm-up delay. *)
Definition warm_up : M W unit :=
  ps <- host_total CProcessIter psutil_process_iter ;;
  for_each ps
    (fun '(p, _) (_ : unit) =>
       _ <- try_ (host (CCpuPercent p) (proc_cpu_percent p)) ;; ret tt)
    tt ;;;
  host_total (CSleep (1 # 10)) (fun w => (tt, time_sleep (1 # 10) w)).

(** The second loop, over the handles [process_iter] yields. *)
Definition snapshot_all (ps : list (Process * Info)) : M W (list Entry) :=
  for_each ps
    (fun '(p, info) procs =>
       r <- try_ (snapshot_entry p info) ;;
       match r with
       | Ok entry => ret (procs ++ [entry])
       | Raise e =>
           if is_kind NoSuchProcess e || is_kind AccessDenied e
           then ret procs                      (* continue *)
           else raise e
       end)
    [].

Definition fetch_processes_real_time : M W (list Entry) :=
  warm_up ;;;
  ps <- host_total CProcessIter psutil_process_iter ;;
  snapshot_all ps.

End Snapshot.

(** ** Port probe: [find_processes_using_port] *)

(** [conn.laddr and getattr(conn.laddr, 'port', None) == port and conn.pid]:
    the pid to resolve, when the test passes. *)
Definition conn_match (conn : sconn) (port : Z) : option Z :=
  match laddr conn with
  | Some (_, lport) =>
      if lport =? port then
        match conn_pid conn with
        | Some n => if n =? 0 then None else Some n
        | None => None
        end
      else None
  | None => None
  end.

(** [unique[k] = v] on a dict kept in insertion order. *)
Fixpoint dict_set (d : list (Z * Process)) (k : Z) (v : Process)
  : list (Z * Process) :=
  match d with
  | [] => [(k, v)]
  | (k', v') :: d' =>
      if k' =? k then (k, v) :: d' else (k', v') :: dict_set d' k v
  end.

(** [# dedupe by pid] *)
Definition dedupe_by_pid (procs : list Process) : list Process :=
  let unique := fold_left (fun unique p => dict_set unique (pid p) p) procs [] in
  map snd unique.

Section PortProbe.
Context {W : Type} {H : Host W}.

Definition scan_connections (port : Z) : M W (list Process) :=
  conns <- host CNetConnections psutil_net_connections ;;
  for_each conns
    (fun conn procs =>
       r <- try_ (match conn_match conn port with
                  | Some n => p <- Process_ n ;; ret (procs ++ [p])
                  | None => ret procs
                  end) ;;
       match r with
       | Ok procs' => ret procs'
       | Raise _ => ret procs                  (* continue *)
       end)
    [].

Definition find_processes_using_port (port : Z) : M W (list Process) :=
  host_total (CFindProcessesUsingPort port) (fun w => (tt, w)) ;;;
  r <- try_ (scan_connections port) ;;
  let procs := match r with Ok procs => procs | Raise _ => [] end in
  ret (dedupe_by_pid procs).

End PortProbe.

(** ** Operator input *)

(** The ASCII characters [str.strip()] and [int()] treat as white space.
    The lines of the console are taken to be ASCII text: Python strips
    the white space outside ASCII as well, of which the model knows
    nothing. *)
Definition is_space (c : ascii) : bool :=
  let n := nat_of_ascii c in
  ((9 <=? n)%nat && (n <=? 13)%nat) || ((28 <=? n)%nat && (n <=? 32)%nat).

Fixpoint lstrip (s : string) : string :=
  match s with
  | EmptyString => EmptyString
  | String c s' => if is_space c then lstrip s' else s
  end.

Fixpoint rev_string (s acc : string) : string :=
  match s with
  | EmptyString => acc
  | String c s' => rev_string s' (String c acc)
  end.

Definition rstrip (s : string) : string :=
  rev_string (lstrip (rev_string s EmptyString)) EmptyString.

(** [s.strip()] *)
Definition strip (s : string) : string := rstrip (lstrip s).

Definition is_digit (c : ascii) : bool :=
  let n := nat_of_ascii c in (48 <=? n)%nat && (n <=? 57)%nat.
Definition digit_value (c : ascii) : Z := Z.of_nat (nat_of_ascii c - 48).

(** Decimal digits with single underscores between them. *)
Fixpoint parse_digits (s : string) (acc : Z) (after_digit : bool) : option Z :=
  match s with
  | EmptyString => if after_digit then Some acc else None
  | String c s' =>
      if is_digit c then parse_digits s' (acc * 10 + digit_value c) true
      else if Ascii.eqb c "_" && after_digit then parse_digits s' acc false
      else None
  end.

(** [int(s)] on a string of ASCII text: surrounding white space, an
    optional sign, and decimal digits; anything else is a [ValueError].
    Python reads the decimal digits outside ASCII as well, and from 3.11
    on refuses a literal of more than 4300 digits
    ([sys.int_max_str_digits]) with [ValueError]; the model does
    neither. *)
Definition int_of_string (s : string) : pyresult Z :=
  let body := strip s in
  let '(sign, digits) :=
    match body with
    | String c rest =>
        if Ascii.eqb c "-" then (-1, rest)
        else if Ascii.eqb c "+" then (1, rest)
        else (1, body)
    | EmptyString => (1, body)
    end in
  match parse_digits digits 0 false with
  | Some n => Ok (sign * n)
  | None =>
      Raise (mkExn ValueError
        ("invalid literal for int() with base 10: '" ++ s ++ "'")%string)
  end.

(** [range(start, stop)] *)
Definition range (start stop : Z) : list Z :=
  map (fun i => start + Z.of_nat i) (seq 0 (Z.to_nat (stop - start))).

(** An element of [candidates] in [free_port_interactive]. *)
Record Candidate : Type := mkCandidate {
  cand_pid : Z;
  cand_name : string;
  cand_user : option string;
  cand_exe : option string;
  cand_cmdline : list string
}.

(** An element of [results] in [show_ports_range]. *)
Record PortStatus : Type := mkPortStatus { ps_port : Z; ps_status : string }.

Section Console.
Context {W : Type} {H : Host W}.

(** [input(prompt)]: the next line the operator types; [EOFError] when the
    console is closed.  Console output is not part of the model. *)
Definition input : M W string :=
  fun s =>
    match stdin s with
    | [] =>
        let e := mkExn EOFError "EOF when reading a line" in
        (Raise e, mkSt (world s) [] (log s ++ [mkEvent CInput (Some e)]))
    | line :: rest =>
        (Ok line, mkSt (world s) rest (log s ++ [mkEvent CInput None]))
    end.

(** [int(...)] inside the monad *)
Definition int_ (s : string) : M W Z :=
  match int_of_string s with
  | Ok n => ret n
  | Raise e => raise e
  end.

(** One turn of the [while True] loop of [save_or_return_menu]; [None]
    means the loop goes round again. *)
Definition save_menu_turn (default_name : string) : M W (option unit) :=
  line <- input ;;
  let choice := strip line in
  if String.eqb choice "1" then
    line <- input ;;
    let fname := str_or (Some (strip line)) default_name in
    w <- get_world ;;
    let filename := (fname ++ "_" ++ timestamp_str w ++ ".json")%string in
    r <- try_ (host (CSave filename) (save_file filename) ;;; input) ;;
    match r with
    | Ok _ => ret (Some tt)
    | Raise _ => input ;;; ret (Some tt)
    end
  else if String.eqb choice "2" then ret (Some tt)
  else ret None.

(** The loop reads a line on every turn, so the lines still to come bound
    the number of turns. *)
Fixpoint save_menu_loop (turns : nat) (default_name : string) : M W unit :=
  match turns with
  | O => raise (mkExn EOFError "EOF when reading a line")
  | S turns' =>
      r <- save_menu_turn default_name ;;
      match r with
      | Some _ => ret tt
      | None => save_menu_loop turns' default_name
      end
  end.

Definition save_or_return_menu (default_name : string) : M W unit :=
  fun s => save_menu_loop (S (List.length (stdin s))) default_name s.

(** The per-process part of the listing loop of [free_port_interactive]. *)
Definition describe_candidate (p : Process) : M W Candidate :=
  r <- try_ (host (CExe p) (proc_exe p)) ;;
  let exe :=
    match r with
    | Ok (Some e) => if String.eqb e EmptyString then None else Some e
    | _ => None
    end in
  r <- try_ (host (CUsername p) (proc_username p)) ;;
  let user := match r with Ok u => Some u | Raise _ => None end in
  _ <- host (CName p) (proc_name p) ;;            (* for [display] *)
  name <- host (CName p) (proc_name p) ;;
  cmdline <- host (CCmdline p) (proc_cmdline p) ;;
  ret (mkCandidate (pid p) name user exe cmdline).

Definition extend_summary (total res : Outcome) : Outcome :=
  mkOutcome (terminated total ++ terminated res)
            (killed total ++ killed res)
            (failed total ++ failed res).

Definition free_port_interactive : M W unit :=
  r <- try_ (line <- input ;;
             let s := strip line in
             if String.eqb s EmptyString then ret None
             else port <- int_ s ;; ret (Some port)) ;;
  match r with
  | Raise e => if is_kind ValueError e then ret tt else raise e
  | Ok None => ret tt
  | Ok (Some port) =>
      procs <- find_processes_using_port port ;;
      match procs with
      | [] => ret tt
      | _ :: _ =>
          candidates <-
            for_each procs
              (fun p candidates =>
                 c <- describe_candidate p ;; ret (candidates ++ [c]))
              [] ;;
          line <- input ;;
          let confirm := lower (strip line) in
          if negb (String.eqb confirm "y") then ret tt
          else
            total_summary <-
              for_each candidates
                (fun c total_summary =>
                   res <- terminate_process_tree (cand_pid c) 5%Q ;;
                   ret (extend_summary total_summary res))
                empty_outcome ;;
            host_total (CSleep (3 # 10)) (fun w => (tt, time_sleep (3 # 10) w)) ;;;
            still <- find_processes_using_port port ;;
            save_or_return_menu
              ("port_" ++ string_of_Z port ++ "_processes")%string
      end
  end.

Definition show_ports_range : M W unit :=
  r <- try_ (line <- input ;;
             start <- int_ (strip line) ;;
             line <- input ;;
             end_ <- int_ (strip line) ;;
             ret (start, end_)) ;;
  match r with
  | Raise e => if is_kind ValueError e then ret tt else raise e
  | Ok (start, end_) =>
      if (start <? 1) || (end_ >? 65535) || (start >? end_) then ret tt
      else
        results <-
          for_each (range start (end_ + 1))
            (fun port results =>
               rc <- host (CConnectEx port) (socket_connect_ex port) ;;
               let occupied := rc =? 0 in
               let status := if occupied then "OCCUPIED" else "FREE" in
               ret (results ++ [mkPortStatus port status]))
            [] ;;
        save_or_return_menu
          ("ports_" ++ string_of_Z start ++ "_" ++ string_of_Z end_)%string
  end.

End Console.

(** ** Vocabulary of the specifications *)

(** The calls a run has made, in order. *)
Definition calls {W} (s : St W) : list call := map ev_call (log s).

(** [m] only adds to the log, and every call it adds satisfies [P]. *)
Definition emits {W A} (P : call -> Prop) (m : M W A) : Prop :=
  forall s, exists evs,
    log (snd (m s)) = log s ++ evs /\ Forall (fun ev => P (ev_call ev)) evs.

(** [m] returns normally from every state. *)
Definition returns {W A} (m : M W A) : Prop :=
  forall s, exists a s', m s = (Ok a, s').

Definition is_terminate (c : call) : bool :=
  match c with CTerminate _ => true | _ => false end.
Definition is_kill (c : call) : bool :=
  match c with CKill _ => true | _ => false end.
Definition is_wait (c : call) : bool :=
  match c with CWaitProcs _ _ => true | _ => false end.
Definition is_signal (c : call) : bool := is_terminate c || is_kill c.

(** The timeouts of the [wait_procs] calls, in order. *)
Fixpoint wait_timeouts (cs : list call) : list Q :=
  match cs with
  | [] => []
  | CWaitProcs _ t :: cs' => t :: wait_timeouts cs'
  | _ :: cs' => wait_timeouts cs'
  end.

(** The pids held by the three buckets. *)
Definition bucket_pids (o : Outcome) : list pyint :=
  terminated o ++ killed o ++ map fst (failed o).

(** No pid in two buckets. *)
Definition pairwise_disjoint (o : Outcome) : Prop :=
  (forall x, In x (terminated o) -> ~ In x (killed o)) /\
  (forall x, In x (terminated o) -> ~ In x (map fst (failed o))) /\
  (forall x, In x (killed o) -> ~ In x (map fst (failed o))).

(** From [r] to [r'] the buckets only grew, and only by pids of [ps]. *)
Definition grows_within (ps : list Process) (r r' : Outcome) : Prop :=
  incl (terminated r) (terminated r') /\
  incl (killed r) (killed r') /\
  incl (failed r) (failed r') /\
  forall x, In x (bucket_pids r') ->
    In x (bucket_pids r) \/ In x (map getattr_pid ps).

(** The root and the descendants [children(recursive=True)] reports for
    it, as the call finds them. *)
Definition discovered_pids {W} {H : Host W} (root : Z) (w : W) : list Z :=
  match psutil_Process root w with
  | (Ok ct, w1) =>
      match proc_children (mkProcess root ct) w1 with
      | (Ok cs, _) => root :: map pid cs
      | (Raise _, _) => [root]
      end
  | (Raise _, _) => [root]
  end.

(** The handles the call signals: [all_procs]. *)
Definition discover {W} {H : Host W} (root : Z) : M W (list Process) :=
  parent <- Process_ root ;; collect_tree parent.

(** The state right after [psutil.Process(root)]. *)
Definition after_Process {W} {H : Host W} (root : Z) (s : St W) : St W :=
  mkSt (snd (psutil_Process root (world s))) (stdin s)
       (log s ++
        [mkEvent (CProcess root)
           (raised (fst (psutil_Process root (world s))))]).

Definition is_probe (c : call) : bool :=
  match c with CIsRunning _ => true | _ => false end.

(** "Approximately 3/5 of the primary": within a tenth of the primary. *)
Definition about_three_fifths (primary secondary : Q) : Prop :=
  (Qabs (secondary - (3 # 5) * primary) <= (1 # 10) * primary)%Q.

(** The claim that the second wait scales with the primary timeout. *)
Definition secondary_wait_scales {W} {H : Host W}
  (w : W) (root : Z) (timeout : Q) : Prop :=
  forall primary secondary,
    wait_timeouts
      (calls (snd (terminate_process_tree root timeout (init w [])))) =
      [primary; secondary] ->
    about_three_fifths primary secondary.

(** The dict built for a handle whose [info] is [info], from a CPU sample
    and a list of thread ids. *)
Definition entry_of (info : Info) (cpu : Q) (threads : list Z) : Entry :=
  let pid := match info_pid info with Some z => z | None => 0 end in
  let name := str_or (info_name info) "<unknown>" in
  let mem := match info_memory_info info with Some rss => rss | None => 0 end in
  mkEntry pid name (info_username info) cpu mem (human_mem_mb mem)
    (Categorizer.categorize_process (PyInt pid) (PyStr name)
       (pyval_of_user (info_username info)))
    (info_exe info)
    (match info_cmdline info with Some l => l | None => [] end)
    threads.

(** The entry of one handle: the two reads in turn, a failed read replaced
    by its default. *)
Definition read_entry {W} {H : Host W} (p : Process) (info : Info) (w : W)
  : Entry * W :=
  let (r1, w1) := proc_cpu_percent p w in
  let (r2, w2) := proc_threads p w1 in
  (entry_of info
     (match r1 with Ok c => c | Raise _ => 0%Q end)
     (match r2 with Ok ts => map thread_id ts | Raise _ => [] end),
   w2).

(** One entry for every handle, in order. *)
Fixpoint read_all {W} {H : Host W} (ps : list (Process * Info)) (w : W)
  : list Entry :=
  match ps with
  | [] => []
  | (p, info) :: ps' =>
      let (entry, w') := read_entry p info w in entry :: read_all ps' w'
  end.

(** The claim that a process whose read fails is left out of the
    snapshot. *)
Definition omits_failed_reads {W} {H : Host W} (w : W) : Prop :=
  forall entries s',
    fetch_processes_real_time (init w []) = (Ok entries, s') ->
    forall p e,
      In (mkEvent (CThreads p) (Some e)) (log s') ->
      kind e = NoSuchProcess \/ kind e = AccessDenied ->
      ~ In (pid p) (map entry_pid entries).

(** The pids of the connections [find_processes_using_port] tries to
    resolve. *)
Fixpoint matching_pids (conns : list sconn) (port : Z) : list Z :=
  match conns with
  | [] => []
  | conn :: conns' =>
      match conn_match conn port with
      | Some n => n :: matching_pids conns' port
      | None => matching_pids conns' port
      end
  end.

(** The claim that the listeners are exactly the owners of the matching
    connections. *)
Definition listeners_exact {W} {H : Host W} (w : W) (port : Z) : Prop :=
  forall conns procs s',
    fst (psutil_net_connections w) = Ok conns ->
    find_processes_using_port port (init w []) = (Ok procs, s') ->
    forall n, In n (map pid procs) <-> In n (matching_pids conns port).

Definition valid_port (port : Z) : Prop := 1 <= port <= 65535.

(** Any call at all. *)
Definition any_call (c : call) : Prop := True.

(** A call that is not a port probe, or probes a valid port. *)
Definition probes_valid_port (c : call) : Prop :=
  forall port, c = CConnectEx port -> valid_port port.

(** ** Scripted hosts for concrete runs

    A script answers every call from a fixed table and never changes. *)
Record Script : Type := mkScript {
  on_Process : Z -> pyresult nat;
  on_children : Process -> pyresult (list Process);
  on_terminate : Process -> pyresult unit;
  on_kill : Process -> pyresult unit;
  on_wait_procs : list Process -> Q -> pyresult (list Process * list Process);
  on_is_running : Process -> pyresult bool;
  on_process_iter : list (Process * Info);
  on_cpu_percent : Process -> pyresult Q;
  on_threads : Process -> pyresult (list Thread);
  on_net_connections : pyresult (list sconn)
}.

#[export] Instance Script_Host : Host Script := {
  psutil_Process n w := (on_Process w n, w);
  proc_children p w := (on_children w p, w);
  proc_terminate p w := (on_terminate w p, w);
  proc_kill p w := (on_kill w p, w);
  psutil_wait_procs ps t w := (on_wait_procs w ps t, w);
  proc_is_running p w := (on_is_running w p, w);
  psutil_process_iter w := (on_process_iter w, w);
  proc_cpu_percent p w := (on_cpu_percent w p, w);
  proc_threads p w := (on_threads w p, w);
  time_sleep _ w := w;
  psutil_net_connections w := (on_net_connections w, w);
  socket_connect_ex _ w := (Ok 111, w);
  proc_exe _ w := (Ok None, w);
  proc_username _ w := (Ok "alice", w);
  proc_name _ w := (Ok "python", w);
  proc_cmdline _ w := (Ok [], w);
  timestamp_str _ := "20240101_000000";
  save_file _ w := (Ok tt, w)
}.

Definition no_such_process (n : Z) : exn :=
  mkExn NoSuchProcess ("process no longer exists (pid=" ++ string_of_Z n ++ ")")%string.
Definition access_denied (n : Z) : exn :=
  mkExn AccessDenied ("(pid=" ++ string_of_Z n ++ ")")%string.

Definition has_pid (n : Z) (p : Process) : bool := pid p =? n.

(** A script for the terminator: [tree] maps the root to its descendants;
    the other calls are given per scenario. *)
Definition terminator_script
  (alive_pids : list Z) (tree : list Process)
  (terminate kill : Process -> pyresult unit)
  (wait : list Process -> Q -> pyresult (list Process * list Process))
  : Script :=
  mkScript
    (fun n => if existsb (Z.eqb n) alive_pids then Ok 1%nat
              else Raise (no_such_process n))
    (fun _ => Ok tree)
    terminate kill wait
    (fun _ => Ok false)
    [] (fun _ => Ok 0%Q) (fun _ => Ok []) (Ok []).

(** Root 100 with children 101 and 102: 101 exits on the graceful request,
    102 ignores it and exits on the forced one. *)
Definition stubborn_child : Script :=
  terminator_script [100; 101; 102] [mkProcess 101 1; mkProcess 102 1]
    (fun _ => Ok tt) (fun _ => Ok tt)
    (fun ps t =>
       if Qeq_bool t kill_wait_timeout then Ok (ps, [])
       else Ok (filter (fun p => negb (has_pid 102 p)) ps,
                filter (has_pid 102) ps)).

(** Root 100 with child 101; 101 has exited by the time it is sent the
    graceful request, and [wait_procs] then finds both gone. *)
Definition child_already_gone : Script :=
  terminator_script [100; 101] [mkProcess 101 1]
    (fun p => if has_pid 101 p then Raise (no_such_process 101) else Ok tt)
    (fun _ => Ok tt)
    (fun ps _ => Ok (ps, [])).

(** A lone root 100 that only the forced kill stops. *)
Definition stubborn_root : Script :=
  terminator_script [100] []
    (fun _ => Ok tt) (fun _ => Ok tt)
    (fun ps t =>
       if Qeq_bool t kill_wait_timeout then Ok (ps, []) else Ok ([], ps)).

(** A lone root 100 that survives the wait and is gone when the forced
    kill is sent. *)
Definition gone_at_kill : Script :=
  terminator_script [100] []
    (fun _ => Ok tt) (fun _ => Raise (no_such_process 100))
    (fun ps t =>
       if Qeq_bool t kill_wait_timeout then Ok (ps, []) else Ok ([], ps)).

(** One process, pid 7, that exits after [process_iter] has yielded it. *)
Definition vanishing_process : Script :=
  mkScript
    (fun n => Raise (no_such_process n)) (fun _ => Ok [])
    (fun _ => Ok tt) (fun _ => Ok tt) (fun ps _ => Ok (ps, []))
    (fun _ => Ok false)
    [(mkProcess 7 1,
      mkInfo (Some 7) (Some "worker") (Some "alice") (Some 1048576)
             (Some "/usr/bin/worker") (Some ["worker"]))]
    (fun _ => Raise (no_such_process 7))
    (fun _ => Raise (no_such_process 7))
    (Ok []).

(** Port 8080 is held by pid 42, which cannot be opened. *)
Definition unreadable_owner : Script :=
  mkScript
    (fun n => Raise (access_denied n)) (fun _ => Ok [])
    (fun _ => Ok tt) (fun _ => Ok tt) (fun ps _ => Ok (ps, []))
    (fun _ => Ok false)
    [] (fun _ => Ok 0%Q) (fun _ => Ok [])
    (Ok [mkConn (Some ("0.0.0.0", 8080)) (Some 42)]).

(** Port 8080 is held by pids 42 (two sockets) and 43. *)
Definition two_listeners : Script :=
  mkScript
    (fun n => Ok 1%nat) (fun _ => Ok [])
    (fun _ => Ok tt) (fun _ => Ok tt) (fun ps _ => Ok (ps, []))
    (fun _ => Ok false)
    [] (fun _ => Ok 0%Q) (fun _ => Ok [])
    (Ok [mkConn (Some ("0.0.0.0", 8080)) (Some 42);
         mkConn (Some ("127.0.0.1", 9090)) (Some 50);
         mkConn (Some ("::", 8080)) (Some 43);
         mkConn (Some ("127.0.0.1", 8080)) (Some 42);
         mkConn (Some ("127.0.0.1", 8080)) None]).

(** *** A host whose [wait_procs] keeps psutil's contract

    A world lists the live pids, the descendants reported for any root,
    the pids that ignore a graceful request, and the pids that have exited
    by the time they are sent one.  [wait_procs] raises [ValueError] for a
    negative timeout, as psutil's does; otherwise the first wait finds
    every handle gone but the stubborn ones, and the second wait, after
    the forced kills, finds all of them gone. *)
Record Tame : Type := mkTame {
  tame_pids : list Z;
  tame_children : list Process;
  tame_stubborn : list Z;
  tame_exited : list Z
}.

Definition mem_pid (l : list Z) (p : Process) : bool :=
  existsb (Z.eqb (pid p)) l.

#[export] Instance Tame_Host : Host Tame := {
  psutil_Process n w :=
    (if existsb (Z.eqb n) (tame_pids w) then Ok 1%nat
     else Raise (no_such_process n), w);
  proc_children p w := (Ok (tame_children w), w);
  proc_terminate p w :=
    (if mem_pid (tame_exited w) p then Raise (no_such_process (pid p))
     else Ok tt, w);
  proc_kill p w := (Ok tt, w);
  psutil_wait_procs ps t w :=
    (if Qle_bool 0 t
     then Ok (if Qeq_bool t kill_wait_timeout then (ps, [])
              else partition (fun p => negb (mem_pid (tame_stubborn w) p)) ps)
     else Raise (mkExn ValueError "timeout must be a positive integer"), w);
  proc_is_running p w := (Ok false, w);
  psutil_process_iter w := ([], w);
  proc_cpu_percent p w := (Ok 0%Q, w);
  proc_threads p w := (Ok [], w);
  time_sleep _ w := w;
  psutil_net_connections w := (Ok [], w);
  socket_connect_ex _ w := (Ok 111, w);
  proc_exe _ w := (Ok None, w);
  proc_username _ w := (Ok "alice", w);
  proc_name _ w := (Ok "python", w);
  proc_cmdline _ w := (Ok [], w);
  timestamp_str _ := "20240101_000000";
  save_file _ w := (Ok tt, w)
}.

(** Root 100 with children 101 and 102: 101 has exited before it is sent
    the graceful request, 102 ignores the request. *)
Definition exited_and_stubborn : Tame :=
  mkTame [100; 101; 102] [mkProcess 101 1; mkProcess 102 1] [102] [101].

(** ** Further vocabulary for the terminator *)

(** The part of psutil's contract for [wait_procs] that concerns which
    handles it hands back: only handles it was given. *)
Definition wait_procs_sound {W} {H : Host W} : Prop :=
  forall ps t w gone alive w',
    psutil_wait_procs ps t w = (Ok (gone, alive), w') ->
    incl gone ps /\ incl alive ps.

(** The part of psutil's contract for [wait_procs] that concerns which
    handles it accounts for: when it returns, every handle it was given is
    among the gone or among the alive. *)
Definition wait_procs_complete {W} {H : Host W} : Prop :=
  forall ps t w gone alive w',
    psutil_wait_procs ps t w = (Ok (gone, alive), w') ->
    forall p, In p ps -> In p gone \/ In p alive.

(** [a] occurs in [l], and [b] occurs somewhere after it. *)
Definition occurs_before {A} (a b : A) (l : list A) : Prop :=
  exists l1 l2 l3, l = l1 ++ a :: l2 ++ b :: l3.

(** A lone root 100 for which both the wait and the fallback probe fail. *)
Definition wait_and_probe_fail : Script :=
  mkScript
    (fun n => Ok 1%nat) (fun _ => Ok [])
    (fun _ => Ok tt) (fun _ => Ok tt)
    (fun _ _ => Raise (mkExn ValueError "timeout must be a positive integer"))
    (fun p => Raise (access_denied (pid p)))
    [] (fun _ => Ok 0%Q) (fun _ => Ok []) (Ok []).

(** ** The menu: listing by category (choice 1 of [main_menu]) *)

(** [config.THREAD_TYPES] *)
Definition THREAD_TYPES : list string :=
  ["System"; "User"; "Services"; "Background"; "Other"].

(** [[p for p in procs if p['category'] == cat]] *)
Definition of_category (cat : string) (procs : list Entry) : list Entry :=
  filter (fun p => String.eqb (entry_category p) cat) procs.

(** The list [filtered] that choice 1 builds from the snapshot and the
    operator's selection [sel], and hands to [save_or_return_menu]: every
    category in turn for "0", one category for "1".."5", nothing
    otherwise.  [int(sel)] cannot fail on the second branch. *)
Definition select_by_category (sel : string) (procs : list Entry)
  : list Entry :=
  if String.eqb sel "0" then
    flat_map (fun cat => of_category cat procs) THREAD_TYPES
  else if existsb (String.eqb sel)
            (map string_of_Z
                 (range 1 (Z.of_nat (List.length THREAD_TYPES) + 1)))
  then
    match int_of_string sel with
    | Ok i =>
        of_category (nth (Z.to_nat (i - 1)) THREAD_TYPES EmptyString) procs
    | Raise _ => []
    end
  else [].

(** The categories [categorize_process] gives a process of the
    snapshot. *)
Definition snapshot_categories : list string :=
  ["System Idle"; "System"; "Background"; "Services"; "User"].

(** ** Vocabulary for the console flows *)

Definition is_save (c : call) : bool :=
  match c with CSave _ => true | _ => false end.
Definition is_connect (c : call) : bool :=
  match c with CConnectEx _ => true | _ => false end.

(** A line [save_or_return_menu] answers with "Invalid selection". *)
Definition invalid_choice (line : string) : Prop :=
  strip line <> "1" /\ strip line <> "2".

(** [f"{fname}_{timestamp_str()}.json"], with [fname] the stripped answer
    or, when that is empty, the default name. *)
Definition save_filename {W} {H : Host W} (w : W) (default_name answer : string)
  : string :=
  (str_or (Some (strip answer)) default_name ++ "_" ++ timestamp_str w
   ++ ".json")%string.

(** [m] leaves the console input alone, only adds to the log, and every
    call it adds satisfies [P]. *)
Definition quiet {W A} (P : call -> Prop) (m : M W A) : Prop :=
  forall s,
    stdin (snd (m s)) = stdin s /\
    exists evs,
      log (snd (m s)) = log s ++ evs /\ Forall (fun ev => P (ev_call ev)) evs.

(** A call that sends no signal. *)
Definition no_signal (c : call) : Prop := is_signal c = false.

(** [m] does not look at the log: run after a longer log it does the same
    and leaves the same log with the longer one in front. *)
Definition frames {W A} (m : M W A) : Prop :=
  forall w inp l0 l,
    m (mkSt w inp (l0 ++ l)) =
    (fst (m (mkSt w inp l)),
     mkSt (world (snd (m (mkSt w inp l))))
          (stdin (snd (m (mkSt w inp l))))
          (l0 ++ log (snd (m (mkSt w inp l))))).

(** ** The menu: killing by PID and by name (choices 3 and 4 of
    [main_menu]) *)

(** [frag.lower() in (p['name'] or '').lower()] *)
Definition name_matches (frag : string) (p : Entry) : bool :=
  contains (lower frag) (lower (str_or (Some (entry_name p)) EmptyString)).

Section MenuKill.
Context {W : Type} {H : Host W}.

(** Choice 3.  What is printed is not part of the model; [continue] ends
    the branch. *)
Definition kill_by_pid : M W unit :=
  line <- input ;;
  let s := strip line in
  r <- try_ (int_ s) ;;
  match r with
  | Raise _ => ret tt
  | Ok pid =>
      r <- try_ (p <- Process_ pid ;;
                 _ <- host (CName p) (proc_name p) ;;
                 _ <- host (CCmdline p) (proc_cmdline p) ;;
                 ret tt) ;;
      match r with
      | Raise _ => ret tt
      | Ok _ =>
          line <- input ;;
          let confirm := lower (strip line) in
          if negb (String.eqb confirm "y") then ret tt
          else _ <- terminate_process_tree pid 5%Q ;; ret tt
      end
  end.

(** Choice 4. *)
Definition kill_by_name : M W unit :=
  line <- input ;;
  let frag := strip line in
  if String.eqb frag EmptyString then ret tt
  else
    procs <- fetch_processes_real_time ;;
    let targets := filter (name_matches frag) procs in
    match targets with
    | [] => ret tt
    | _ :: _ =>
        line <- input ;;
        let confirm := lower (strip line) in
        if negb (String.eqb confirm "y") then ret tt
        else
          for_each targets
            (fun p (_ : unit) =>
               _ <- terminate_process_tree (entry_pid p) 5%Q ;; ret tt)
            tt
    end.

End MenuKill.

(** Pid 7, "worker", is running and exits on the graceful request. *)
Definition worker_running : Script :=
  mkScript
    (fun n => Ok 1%nat) (fun _ => Ok [])
    (fun _ => Ok tt) (fun _ => Ok tt) (fun ps _ => Ok (ps, []))
    (fun _ => Ok false)
    [(mkProcess 7 1,
      mkInfo (Some 7) (Some "Worker") (Some "alice") (Some 1048576)
             (Some "/usr/bin/worker") (Some ["worker"]))]
    (fun _ => Ok 0%Q) (fun _ => Ok []) (Ok []).

(** The host as choice 3 leaves it when it asks for the confirmation:
    after the process has been opened and its name and command line
    read. *)
Definition world_after_lookup {W} {H : Host W} (root : Z) (ct : nat) (w : W)
  : W :=
  let p := mkProcess root ct in
  snd (proc_cmdline p (snd (proc_name p (snd (psutil_Process root w))))).

(** The roots of a loop of terminations, each with the host as the loop
    finds it when it hands the root to [terminate_process_tree]: the first
    in the state the loop starts in, each later one in the state the tree
    before it has left. *)
Fixpoint handled_in {W} {H : Host W} (timeout : Q) (roots : list Z)
  (s : St W) : list (Z * W) :=
  match roots with
  | [] => []
  | root :: roots' =>
      (root, world s)
      :: handled_in timeout roots'
           (snd (terminate_process_tree root timeout s))
  end.

(** The 256 characters. *)
Definition all_ascii : list ascii := map ascii_of_nat (seq 0 256).

(** ** The menu: top processes (choice 5 of [main_menu]) *)

(** [l.sort(key=..., reverse=True)]: a stable sort into descending order,
    by insertion.  [leb a b] is [key(a) <= key(b)]; an element goes in
    front of the first one whose key is not greater, so elements with
    equal keys keep the order they had. *)
Fixpoint insert_desc {A} (leb : A -> A -> bool) (x : A) (l : list A)
  : list A :=
  match l with
  | [] => [x]
  | y :: l' => if leb y x then x :: l else y :: insert_desc leb x l'
  end.

Definition sort_desc {A} (leb : A -> A -> bool) (l : list A) : list A :=
  fold_right (insert_desc leb) [] l.

(** [l[start:stop]] with both bounds given: a negative bound counts from
    the end, and both are clipped to the list. *)
Definition slice_index (len i : Z) : Z :=
  if i <? 0 then Z.max 0 (i + len) else Z.min i len.

Definition slice {A} (l : list A) (start stop : Z) : list A :=
  let len := Z.of_nat (List.length l) in
  let a := slice_index len start in
  let b := slice_index len stop in
  firstn (Z.to_nat (b - a)) (skipn (Z.to_nat a) l).

(** [n = input(...).strip()], then [int(n)], with 5 in place of a number
    that is not positive or does not parse. *)
Definition top_count (line : string) : Z :=
  match int_of_string (strip line) with
  | Ok n => if n <=? 0 then 5 else n
  | Raise _ => 5
  end.

Definition cpu_leb (a b : Entry) : bool :=
  Qle_bool (entry_cpu a) (entry_cpu b).
Definition mem_leb (a b : Entry) : bool := entry_mem a <=? entry_mem b.

(** The list [out] that choice 5 prints and hands to
    [save_or_return_menu], from the two answers and the snapshot. *)
Definition top_processes (sort_line count_line : string) (procs : list Entry)
  : list Entry :=
  let sort_choice := str_or (Some (strip sort_line)) "1" in
  let n := top_count count_line in
  if String.eqb sort_choice "1"
  then slice (sort_desc cpu_leb procs) 0 n
  else slice (sort_desc mem_leb procs) 0 n.

(** ** The thread monitor: [monitor.py] *)

(** One dict of [_fetch_matching_processes]. *)
Record Row : Type := mkRow {
  row_pid : Z;
  row_name : string;
  row_thread_count : Z;
  row_cpu : Q;
  row_mem : Z
}.

Section Monitor.
Context {W : Type} {H : Host W}.

(** The body of the outer [try] of the second loop of
    [_fetch_matching_processes]; [None] is the [continue] of a name that
    does not match. *)
Definition matching_row (filter_name : string) (p : Process) (info : Info)
  : M W (option Row) :=
  let name := str_or (info_name info) "<unknown>" in
  if negb (String.eqb filter_name EmptyString)
     && negb (contains (lower filter_name) (lower name))
  then ret None
  else
    let pid := match info_pid info with Some z => z | None => 0 end in
    r <- try_ (host (CCpuPercent p) (proc_cpu_percent p)) ;;
    let cpu := match r with Ok c => c | Raise _ => 0%Q end in
    let mem := match info_memory_info info with Some rss => rss | None => 0 end in
    r <- try_ (host (CThreads p) (proc_threads p)) ;;
    let thread_count :=
      match r with Ok ts => Z.of_nat (List.length ts) | Raise _ => 0 end in
    ret (Some (mkRow pid name thread_count cpu mem)).

Definition fetch_matching_processes (filter_name : string) : M W (list Row) :=
  ps <- host_total CProcessIter psutil_process_iter ;;
  for_each ps
    (fun '(p, _) (_ : unit) =>
       _ <- try_ (host (CCpuPercent p) (proc_cpu_percent p)) ;; ret tt)
    tt ;;;
  host_total (CSleep (1 # 20)) (fun w => (tt, time_sleep (1 # 20) w)) ;;;
  ps <- host_total CProcessIter psutil_process_iter ;;
  for_each ps
    (fun '(p, info) procs =>
       r <- try_ (matching_row filter_name p info) ;;
       match r with
       | Ok (Some row) => ret (procs ++ [row])
       | Ok None => ret procs
       | Raise e =>
           if is_kind NoSuchProcess e || is_kind AccessDenied e
           then ret procs
           else raise e
       end)
    [].

End Monitor.

(** [a // b] on ints: the floor of the quotient, [ZeroDivisionError] for
    a zero divisor. *)
Definition floordiv (a b : Z) : pyresult Z :=
  if b =? 0
  then Raise (mkExn ZeroDivisionError "integer division or modulo by zero")
  else Ok (a / b).

(** [max(1, (len(procs) + page_size - 1) // page_size)] *)
Definition total_pages (n page_size : Z) : pyresult Z :=
  match floordiv (n + page_size - 1) page_size with
  | Ok q => Ok (Z.max 1 q)
  | Raise e => Raise e
  end.

(** The rows [_print_table] prints for a page, each with the index it
    prints beside it: [enumerate(rows[start:end], start=1+start)]. *)
Definition print_table_rows {A} (rows : list A) (page_size page : Z)
  : list (Z * A) :=
  let start := page * page_size in
  let end_ := start + page_size in
  let subset := slice rows start end_ in
  combine (map (fun i => 1 + start + Z.of_nat i) (seq 0 (List.length subset)))
          subset.

(** The commands [n] and [p]. *)
Definition next_page (current_page total : Z) : Z :=
  (current_page + 1) mod total.
Definition prev_page (current_page total : Z) : Z :=
  (current_page - 1) mod total.

(** A number typed at the prompt: the pid whose threads are shown.  A pid
    of the list is taken first, an index into the list second. *)
Definition select_row (procs : list Row) (num : Z) : option Z :=
  if existsb (fun r => row_pid r =? num) procs then Some num
  else if (1 <=? num) && (num <=? Z.of_nat (List.length procs))
  then option_map row_pid (nth_error procs (Z.to_nat (num - 1)))
  else None.

(** *** The monitor loop: [monitor_threads_by_process_name] *)

(** The variables the loop carries from one turn to the next. *)
Record MonitorState : Type := mkMonitorState {
  current_filter : string;
  current_page : Z;
  current_page_size : Z
}.

(** How a turn of the [while True] loop ends: [continue], or falling off
    the end of the body, with the variables as they are then; or
    [break]. *)
Inductive loop_step : Type :=
| Continue (st : MonitorState)
| Break.

(** [cmd.isdigit()] on ASCII text.  Python's also holds of digits outside
    ASCII, some of which, like the superscript two, [int] then refuses. *)
Definition isdigit (s : string) : bool :=
  negb (String.eqb s EmptyString) && forallb is_digit (list_ascii_of_string s).

(** [key=lambda x: (x['thread_count'], x['cpu'])]: [key(a) <= key(b)] on
    the pairs. *)
Definition row_key_leb (a b : Row) : bool :=
  (row_thread_count a <? row_thread_count b)
  || ((row_thread_count a =? row_thread_count b)
      && Qle_bool (row_cpu a) (row_cpu b)).

Section MonitorLoop.
Context {W : Type} {H : Host W}.

(** [_show_threads_of_pid]: what it prints is not part of the model. *)
Definition show_threads_of_pid (n : Z) : M W unit :=
  r <- try_ (Process_ n) ;;
  match r with
  | Raise _ => ret tt
  | Ok p =>
      r <- try_ (host (CThreads p) (proc_threads p)) ;;
      match r with
      | Raise _ => ret tt
      | Ok tlist => _ <- host (CName p) (proc_name p) ;; ret tt
      end
  end.

(** The prompt at the bottom of the loop body ([# if no procs]). *)
Definition short_prompt (st : MonitorState) : M W loop_step :=
  line <- input ;;
  let cmd := strip line in
  if String.eqb cmd EmptyString then ret (Continue st)
  else if String.eqb (lower cmd) "q" then ret Break
  else if String.eqb (lower cmd) "r" then
    line <- input ;;
    ret (Continue (mkMonitorState (strip line) 0 (current_page_size st)))
  else ret (Continue st).

(** The prompt below the table.  An unknown command falls through to the
    prompt at the bottom of the body. *)
Definition table_prompt (procs : list Row) (total : Z) (st : MonitorState)
  : M W loop_step :=
  line <- input ;;
  let cmd := strip line in
  if String.eqb cmd EmptyString then ret (Continue st)
  else if String.eqb (lower cmd) "q" then ret Break
  else if String.eqb (lower cmd) "n" then
    ret (Continue (mkMonitorState (current_filter st)
                     (next_page (current_page st) total)
                     (current_page_size st)))
  else if String.eqb (lower cmd) "p" then
    ret (Continue (mkMonitorState (current_filter st)
                     (prev_page (current_page st) total)
                     (current_page_size st)))
  else if String.eqb (lower cmd) "r" then
    line <- input ;;
    ret (Continue (mkMonitorState (strip line) 0 (current_page_size st)))
  else if String.eqb (lower cmd) "s" then
    r <- try_ (line <- input ;; int_ (strip line)) ;;
    match r with
    | Ok newsize =>
        if newsize >? 0
        then ret (Continue (mkMonitorState (current_filter st) 0 newsize))
        else ret (Continue st)
    | Raise _ => ret (Continue st)
    end
  else if isdigit cmd then
    num <- int_ cmd ;;
    match select_row procs num with
    | Some n =>
        show_threads_of_pid n ;;; _ <- input ;; ret (Continue st)
    | None =>
        host_total (CSleep 1) (fun w => (tt, time_sleep 1 w)) ;;;
        ret (Continue st)
    end
  else
    host_total (CSleep (6 # 10)) (fun w => (tt, time_sleep (6 # 10) w)) ;;;
    short_prompt st.

(** One turn of the loop.  With processes listed, a page size of 0 ends
    the turn, and the monitor, in the [ZeroDivisionError] of the page
    count. *)
Definition monitor_turn (st : MonitorState) : M W loop_step :=
  procs <- fetch_matching_processes (current_filter st) ;;
  match procs with
  | [] => short_prompt st
  | _ :: _ =>
      let procs := sort_desc row_key_leb procs in
      match total_pages (Z.of_nat (List.length procs))
              (current_page_size st) with
      | Raise e => raise e
      | Ok total =>
          let st :=
            if current_page st >=? total
            then mkMonitorState (current_filter st) 0 (current_page_size st)
            else st in
          table_prompt procs total st
      end
  end.

(** Every turn reads a line or raises, so the lines still to come bound
    the number of turns. *)
Fixpoint monitor_loop (turns : nat) (st : MonitorState) : M W unit :=
  match turns with
  | O => raise (mkExn EOFError "EOF when reading a line")
  | S turns' =>
      step <- monitor_turn st ;;
      match step with
      | Break => ret tt
      | Continue st' => monitor_loop turns' st'
      end
  end.

(** [interval] is not used by the function. *)
Definition monitor_threads_by_process_name (filter_name : string)
  (page_size : Z) : M W unit :=
  fun s =>
    monitor_loop (S (List.length (stdin s)))
      (mkMonitorState filter_name 0 page_size) s.

(** The states of the loop in a run: [monitor_run st s st' s'] when some
    number of turns, none of which breaks or raises, leads from the
    variables [st] in state [s] to [st'] in [s']. *)
Inductive monitor_run : MonitorState -> St W -> MonitorState -> St W -> Prop :=
| run_here st s : monitor_run st s st s
| run_turn st s st1 s1 st2 s2 :
    monitor_turn st s = (Ok (Continue st1), s1) ->
    monitor_run st1 s1 st2 s2 ->
    monitor_run st s st2 s2.

End MonitorLoop.

(** A call that only reads from the host or the console, or sleeps. *)
Definition is_read (c : call) : Prop :=
  match c with
  | CProcess _ | CProcessIter | CCpuPercent _ | CThreads _ | CName _
  | CSleep _ | CInput => True
  | _ => False
  end.

(** The variables of the monitor loop are in order: the page size is
    positive and the page index is not negative. *)
Definition page_state_valid (st : MonitorState) : Prop :=
  0 < current_page_size st /\ 0 <= current_page st.

(** [m] takes lines from the console input and puts none back. *)
Definition reads_on {W A} (m : M W A) : Prop :=
  forall s, (List.length (stdin (snd (m s))) <= List.length (stdin s))%nat.

(** [m] cannot return without having taken a line. *)
Definition consumes {W A} (m : M W A) : Prop :=
  forall s a s',
    m s = (Ok a, s') ->
    (List.length (stdin s') < List.length (stdin s))%nat.

(** *** A host where every call succeeds

    A world lists the processes [process_iter] yields, the inet
    connections, and the descendants reported for any root; every process
    can be opened and exits on the graceful request, and [wait_procs]
    finds every handle gone. *)
Record Calm : Type := mkCalm {
  calm_procs : list (Process * Info);
  calm_conns : list sconn;
  calm_children : list Process
}.

#[export] Instance Calm_Host : Host Calm := {
  psutil_Process n w := (Ok 1%nat, w);
  proc_children p w := (Ok (calm_children w), w);
  proc_terminate p w := (Ok tt, w);
  proc_kill p w := (Ok tt, w);
  psutil_wait_procs ps t w := (Ok (ps, []), w);
  proc_is_running p w := (Ok false, w);
  psutil_process_iter w := (calm_procs w, w);
  proc_cpu_percent p w := (Ok 0%Q, w);
  proc_threads p w := (Ok [], w);
  time_sleep _ w := w;
  psutil_net_connections w := (Ok (calm_conns w), w);
  socket_connect_ex _ w := (Ok 111, w);
  proc_exe _ w := (Ok None, w);
  proc_username _ w := (Ok "alice", w);
  proc_name _ w := (Ok "python", w);
  proc_cmdline _ w := (Ok [], w);
  timestamp_str _ := "20240101_000000";
  save_file _ w := (Ok tt, w)
}.

(** Pid 7, "Worker", with a child 8, listens on port 8080. *)
Definition worker_with_child : Calm :=
  mkCalm
    [(mkProcess 7 1,
      mkInfo (Some 7) (Some "Worker") (Some "alice") (Some 1048576)
             (Some "/usr/bin/worker") (Some ["worker"]))]
    [mkConn (Some ("0.0.0.0", 8080)) (Some 7)]
    [mkProcess 8 1].

(** ** Vocabulary for the order of the requests *)

(** The descendants the call can open again: for each child that
    [children(recursive=True)] reported, in order, the handle that
    [psutil.Process(c.pid)] returns for it; a child for which it raises
    is left out. *)
Fixpoint reopened {W} {H : Host W} (children : list Process) (w : W)
  : list Process :=
  match children with
  | [] => []
  | c :: children' =>
      match psutil_Process (pid c) w with
      | (Ok ct, w1) => mkProcess (pid c) ct :: reopened children' w1
      | (Raise _, w1) => reopened children' w1
      end
  end.

(** "Each descendant is sent its graceful termination request strictly
    before the root is sent its graceful termination request": for every
    pid discovered below the root, the calls hold a graceful request to a
    handle of that pid, and after it one to a handle of the root. *)
Definition descendants_asked_before_root {W} {H : Host W}
  (root : Z) (w : W) (cs : list call) : Prop :=
  forall n,
    In n (discovered_pids root w) -> n <> root ->
    exists p parent,
      pid p = n /\ pid parent = root /\
      occurs_before (CTerminate p) (CTerminate parent) cs.

(** "No forced kill is sent to any process before the full primary wait
    has elapsed": before every forced kill in the log there is a
    [wait_procs] that came back without raising. *)
Definition kills_follow_completed_wait (evs : list event) : Prop :=
  forall pre p r post,
    evs = pre ++ mkEvent (CKill p) r :: post ->
    exists ps t, In (mkEvent (CWaitProcs ps t) None) pre.

(** Root 100 with child 101.  The child is reported by [children] and has
    exited by the time the loop opens it again; [wait_procs] raises for a
    negative timeout, as psutil's does, and the root is found running. *)
Definition unopenable_child : Script :=
  mkScript
    (fun n => if n =? 101 then Raise (no_such_process 101) else Ok 1%nat)
    (fun _ => Ok [mkProcess 101 1])
    (fun _ => Ok tt) (fun _ => Ok tt)
    (fun ps t =>
       if Qle_bool 0 t then Ok (ps, [])
       else Raise (mkExn ValueError "timeout must be a positive integer"))
    (fun _ => Ok true)
    [] (fun _ => Ok 0%Q) (fun _ => Ok []) (Ok []).

(** * Proofs *)

Example run_stubborn_child :
  fst (terminate_process_tree 100 5%Q (init stubborn_child [])) =
  Ok (mkOutcome [Some 101; Some 100] [Some 102] []).
Proof. vm_compute. reflexivity. Qed.

Example run_child_already_gone :
  fst (terminate_process_tree 100 5%Q (init child_already_gone [])) =
  Ok (mkOutcome [Some 101; Some 100] []
        [(Some 101, "terminate error: process no longer exists (pid=101)")]).
Proof. vm_compute. reflexivity. Qed.

Example run_gone_at_kill :
  fst (terminate_process_tree 100 5%Q (init gone_at_kill [])) =
  Ok (mkOutcome [Some 100] [] []).
Proof. vm_compute. reflexivity. Qed.

Example calls_stubborn_root :
  calls (snd (terminate_process_tree 100 10%Q (init stubborn_root []))) =
  [CProcess 100; CChildren (mkProcess 100 1); CTerminate (mkProcess 100 1);
   CWaitProcs [mkProcess 100 1] 10%Q; CKill (mkProcess 100 1);
   CWaitProcs [mkProcess 100 1] 3%Q].
Proof. vm_compute. reflexivity. Qed.

Example run_vanishing_process :
  fst (fetch_processes_real_time (init vanishing_process [])) =
  Ok [mkEntry 7 "worker" (Some "alice") 0%Q 1048576 "1.0 MB" "User"
        (Some "/usr/bin/worker") ["worker"] []].
Proof. vm_compute. reflexivity. Qed.

Example run_two_listeners :
  fst (find_processes_using_port 8080 (init two_listeners [])) =
  Ok [mkProcess 42 1; mkProcess 43 1].
Proof. vm_compute. reflexivity. Qed.

Example run_unreadable_owner :
  fst (find_processes_using_port 8080 (init unreadable_owner [])) = Ok [].
Proof. vm_compute. reflexivity. Qed.

Example int_of_string_examples :
  int_of_string " 8080 " = Ok 8080 /\ int_of_string "-5" = Ok (-5) /\
  int_of_string "1_000" = Ok 1000 /\ int_of_string "70000" = Ok 70000 /\
  raised (int_of_string "80a") <> None /\ raised (int_of_string EmptyString) <> None /\
  raised (int_of_string "1__0") <> None.
Proof. vm_compute. repeat split; discriminate. Qed.

Example human_mem_mb_examples :
  human_mem_mb 1048576 = "1.0 MB" /\ human_mem_mb 1572864 = "1.5 MB" /\
  human_mem_mb 0 = "0.0 MB" /\ human_mem_mb 131072 = "0.1 MB" /\
  human_mem_mb 12345678 = "11.8 MB".
Proof. vm_compute. repeat split. Qed.

(** ** The monad and its loops *)

Lemma exn_kind_eqb_eq k1 k2 : exn_kind_eqb k1 k2 = true <-> k1 = k2.
Proof. destruct k1, k2; simpl; split; congruence. Qed.

Lemma is_kind_true k e : is_kind k e = true <-> kind e = k.
Proof. unfold is_kind. apply exn_kind_eqb_eq. Qed.

Section MonadFacts.
Context {W : Type}.

Lemma bind_ok {A B} (m : M W A) (k : A -> M W B) s a s1 :
  m s = (Ok a, s1) -> bind m k s = k a s1.
Proof. unfold bind. intros ->. reflexivity. Qed.

Lemma bind_raise {A B} (m : M W A) (k : A -> M W B) s e s1 :
  m s = (Raise e, s1) -> bind m k s = (Raise e, s1).
Proof. unfold bind. intros ->. reflexivity. Qed.

Lemma bind_inv {A B} (m : M W A) (k : A -> M W B) s b s2 :
  bind m k s = (Ok b, s2) ->
  exists a s1, m s = (Ok a, s1) /\ k a s1 = (Ok b, s2).
Proof.
  unfold bind. destruct (m s) as [[a|e] s1]; intros E.
  - exists a, s1. split; [reflexivity | exact E].
  - discriminate E.
Qed.

Lemma try_eq {A} (m : M W A) s : try_ m s = (Ok (fst (m s)), snd (m s)).
Proof. unfold try_. destruct (m s). reflexivity. Qed.

Lemma host_eq {A} (c : call) (f : W -> pyresult A * W) s :
  host c f s =
  (fst (f (world s)),
   mkSt (snd (f (world s))) (stdin s)
        (log s ++ [mkEvent c (raised (fst (f (world s))))])).
Proof. unfold host. destruct (f (world s)). reflexivity. Qed.

(** *** What a computation adds to the log *)

Lemma emits_ret {A} P (a : A) : emits (W := W) P (ret a).
Proof. intros s. exists []. simpl. rewrite app_nil_r. auto. Qed.

Lemma emits_raise {A} P e : emits (W := W) (A := A) P (raise e).
Proof. intros s. exists []. simpl. rewrite app_nil_r. auto. Qed.

Lemma emits_bind {A B} P (m : M W A) (k : A -> M W B) :
  emits P m -> (forall a, emits P (k a)) -> emits P (bind m k).
Proof.
  intros Hm Hk s. destruct (Hm s) as [evs [E F]].
  unfold bind. destruct (m s) as [[a|e] s1]; simpl in E.
  - destruct (Hk a s1) as [evs' [E' F']].
    exists (evs ++ evs'). rewrite E', E, app_assoc.
    split; [reflexivity | apply Forall_app; auto].
  - exists evs. simpl. auto.
Qed.

Lemma emits_try {A} P (m : M W A) : emits P m -> emits P (try_ m).
Proof.
  intros Hm s. destruct (Hm s) as [evs [E F]].
  exists evs. rewrite try_eq. simpl. auto.
Qed.

Lemma emits_host {A} (P : call -> Prop) c (f : W -> pyresult A * W) :
  P c -> emits P (host c f).
Proof.
  intros Pc s. rewrite host_eq. simpl.
  eexists. split; [reflexivity | repeat constructor; exact Pc].
Qed.

Lemma emits_host_total {A} (P : call -> Prop) c (f : W -> A * W) :
  P c -> emits P (host_total c f).
Proof. intros Pc. unfold host_total. apply emits_host, Pc. Qed.

Lemma emits_for_each {A S} P (l : list A) (body : A -> S -> M W S) :
  (forall x acc, emits P (body x acc)) ->
  forall acc, emits P (for_each l body acc).
Proof.
  intros Hb. induction l as [|x l IH]; intros acc; simpl.
  - apply emits_ret.
  - apply emits_bind; auto.
Qed.

Lemma emits_filter_m {A} P (test : A -> M W bool) (l : list A) :
  (forall x, emits P (test x)) -> emits P (filter_m test l).
Proof.
  intros Ht. induction l as [|x l IH]; simpl.
  - apply emits_ret.
  - apply emits_bind; [apply Ht | intros b].
    apply emits_bind; [exact IH | intros rest; apply emits_ret].
Qed.

Lemma emits_weaken {A} (P Q : call -> Prop) (m : M W A) :
  (forall c, P c -> Q c) -> emits P m -> emits Q m.
Proof.
  intros PQ Hm s. destruct (Hm s) as [evs [E F]].
  exists evs. split; [exact E|].
  eapply Forall_impl; [|exact F]. intros ev; apply PQ.
Qed.

(** *** Loops that cannot raise *)

Lemma returns_ret {A} (a : A) : returns (W := W) (ret a).
Proof. intros s. exists a, s. reflexivity. Qed.

Lemma returns_bind {A B} (m : M W A) (k : A -> M W B) :
  returns m -> (forall a, returns (k a)) -> returns (bind m k).
Proof.
  intros Hm Hk s. destruct (Hm s) as [a [s1 E]].
  rewrite (bind_ok _ _ _ _ _ E). apply Hk.
Qed.

Lemma returns_try {A} (m : M W A) : returns (try_ m).
Proof. intros s. rewrite try_eq. eauto. Qed.

Lemma returns_host_total {A} c (f : W -> A * W) : returns (host_total c f).
Proof.
  intros s. unfold host_total. rewrite host_eq.
  destruct (f (world s)) as [a w']. simpl. eauto.
Qed.

Lemma returns_for_each {A S} (l : list A) (body : A -> S -> M W S) :
  (forall x acc, returns (body x acc)) ->
  forall acc, returns (for_each l body acc).
Proof.
  intros Hb. induction l as [|x l IH]; intros acc; simpl.
  - apply returns_ret.
  - apply returns_bind; auto.
Qed.

(** An invariant of the accumulator that every turn of a loop keeps is
    kept by the loop. *)
Lemma for_each_invariant {A S} (I : S -> Prop) (l : list A)
  (body : A -> S -> M W S) :
  (forall x acc s acc' s',
      In x l -> I acc -> body x acc s = (Ok acc', s') -> I acc') ->
  forall acc s acc' s',
    I acc -> for_each l body acc s = (Ok acc', s') -> I acc'.
Proof.
  induction l as [|x l IH]; intros Hb acc s acc' s' Hacc E; simpl in E.
  - unfold ret in E. inversion E; subst. exact Hacc.
  - apply bind_inv in E. destruct E as [a [s1 [E1 E2]]].
    eapply IH; [| |exact E2].
    + intros y b t b' t' Hy. apply Hb. right; exact Hy.
    + eapply Hb; [left; reflexivity | exact Hacc | exact E1].
Qed.

(** A loop whose turns each make exactly one call makes the calls of its
    list, in order. *)
Lemma for_each_calls {A S} (c : A -> call) (l : list A)
  (body : A -> S -> M W S) :
  (forall x acc s, exists acc' s' ev,
      body x acc s = (Ok acc', s') /\
      log s' = log s ++ [ev] /\ ev_call ev = c x) ->
  forall acc s, exists acc' s' evs,
    for_each l body acc s = (Ok acc', s') /\
    log s' = log s ++ evs /\ map ev_call evs = map c l.
Proof.
  intros Hb. induction l as [|x l IH]; intros acc s; simpl.
  - exists acc, s, []. rewrite app_nil_r. auto.
  - destruct (Hb x acc s) as [a1 [s1 [ev [E1 [L1 C1]]]]].
    destruct (IH a1 s1) as [a2 [s2 [evs [E2 [L2 C2]]]]].
    exists a2, s2, (ev :: evs).
    rewrite (bind_ok _ _ _ _ _ E1). split; [exact E2|].
    rewrite L2, L1, <- app_assoc. simpl. rewrite C1, C2. auto.
Qed.

End MonadFacts.

(** ** The categorizer *)

Section CategorizerFacts.
Import Categorizer.



(** *** The case mapping of the code against the table of letters *)












End CategorizerFacts.

(** ** Bucket values and the final cleanup *)

Lemma pyint_eqb_eq x y : pyint_eqb x y = true <-> x = y.
Proof.
  destruct x as [a|], y as [b|]; simpl; split; try congruence.
  - intros E. apply Z.eqb_eq in E. congruence.
  - intros E. inversion E. apply Z.eqb_refl.
Qed.

Lemma pyint_in_In x l : pyint_in x l = true <-> In x l.
Proof.
  unfold pyint_in. rewrite existsb_exists. split.
  - intros [y [Hy E]]. apply pyint_eqb_eq in E. subst. exact Hy.
  - intros Hx. exists x. split; [exact Hx | apply pyint_eqb_eq; reflexivity].
Qed.

Lemma pyint_in_not_In x l : pyint_in x l = false <-> ~ In x l.
Proof.
  rewrite <- pyint_in_In. destruct (pyint_in x l); split; congruence.
Qed.

Lemma pyint_truthy_spec x :
  pyint_truthy x = true <-> x <> None /\ x <> Some 0.
Proof.
  destruct x as [z|]; simpl.
  - rewrite negb_true_iff, Z.eqb_neq. split.
    + intros Hz. split; congruence.
    + intros [_ Hz] E. apply Hz. congruence.
  - split; [discriminate | intros [E _]; congruence].
Qed.

Lemma pyint_truthy_some n : n <> 0 -> pyint_truthy (Some n) = true.
Proof. intros Hn. apply pyint_truthy_spec. split; congruence. Qed.

Lemma fromkeys_acc_In seen l x :
  In x (fromkeys_acc seen l) <-> In x l /\ ~ In x seen.
Proof.
  revert seen. induction l as [|y l IH]; intros seen; simpl.
  - tauto.
  - destruct (pyint_in y seen) eqn:E.
    + apply pyint_in_In in E. rewrite IH. split.
      * tauto.
      * intros [[->|Hx] Hn]; [contradiction | tauto].
    + apply pyint_in_not_In in E. simpl. rewrite IH. simpl. split.
      * intros [->|[Hx Hn]]; tauto.
      * intros [[->|Hx] Hn]; [tauto|].
        destruct (pyint_in y [x]) eqn:Eyx.
        -- apply pyint_in_In in Eyx. destruct Eyx as [->|[]]. tauto.
        -- apply pyint_in_not_In in Eyx. right. split; [exact Hx|].
           intros [->|Hs]; [apply Eyx; left; reflexivity | tauto].
Qed.

Lemma fromkeys_acc_NoDup seen l : NoDup (fromkeys_acc seen l).
Proof.
  revert seen. induction l as [|y l IH]; intros seen; simpl.
  - constructor.
  - destruct (pyint_in y seen); [apply IH|].
    constructor; [|apply IH].
    rewrite fromkeys_acc_In. simpl. tauto.
Qed.

Lemma dict_fromkeys_In l x : In x (dict_fromkeys l) <-> In x l.
Proof. unfold dict_fromkeys. rewrite fromkeys_acc_In. simpl. tauto. Qed.

Lemma dict_fromkeys_NoDup l : NoDup (dict_fromkeys l).
Proof. apply fromkeys_acc_NoDup. Qed.

Lemma clean_terminated_In r x :
  In x (terminated (clean_lists r)) <->
  In x (terminated r) /\ pyint_truthy x = true.
Proof. simpl. rewrite dict_fromkeys_In, filter_In. tauto. Qed.

Lemma clean_killed_In r x :
  In x (killed (clean_lists r)) <->
  In x (killed r) /\ pyint_truthy x = true /\
  ~ In x (terminated (clean_lists r)).
Proof.
  simpl. rewrite dict_fromkeys_In, filter_In, andb_true_iff, negb_true_iff.
  rewrite pyint_in_not_In. tauto.
Qed.

Lemma clean_failed_In r x msg :
  In (x, msg) (failed (clean_lists r)) <->
  In (x, msg) (failed r) /\ pyint_truthy x = true.
Proof. simpl. rewrite filter_In. tauto. Qed.

(** What the cleanup guarantees, whatever it is given. *)
Lemma clean_lists_invariants r :
  let out := clean_lists r in
  NoDup (terminated out) /\ NoDup (killed out) /\
  (forall x, In x (killed out) -> ~ In x (terminated out)) /\
  (forall x, In x (terminated out) -> x <> None /\ x <> Some 0) /\
  (forall x, In x (killed out) -> x <> None /\ x <> Some 0) /\
  (forall x msg, In (x, msg) (failed out) -> x <> None /\ x <> Some 0).
Proof.
  intros out. subst out. repeat split.
  - apply dict_fromkeys_NoDup.
  - apply dict_fromkeys_NoDup.
  - intros x Hx. apply clean_killed_In in Hx. tauto.
  - apply clean_terminated_In in H. apply pyint_truthy_spec. tauto.
  - apply clean_terminated_In in H. apply pyint_truthy_spec. tauto.
  - apply clean_killed_In in H. apply pyint_truthy_spec. tauto.
  - apply clean_killed_In in H. apply pyint_truthy_spec. tauto.
  - apply clean_failed_In in H. apply pyint_truthy_spec. tauto.
  - apply clean_failed_In in H. apply pyint_truthy_spec. tauto.
Qed.

(** ** The terminator: how a run unfolds *)

Section TerminatorFacts.
Context {W : Type} {H : Host W}.

Lemma Process_eq n (s : St W) :
  Process_ n s =
  (match fst (psutil_Process n (world s)) with
   | Ok ct => Ok (mkProcess n ct)
   | Raise e => Raise e
   end,
   mkSt (snd (psutil_Process n (world s))) (stdin s)
        (log s ++
         [mkEvent (CProcess n) (raised (fst (psutil_Process n (world s))))])).
Proof.
  unfold Process_, bind. rewrite host_eq.
  destruct (psutil_Process n (world s)) as [[ct|e] w']; reflexivity.
Qed.

(** The three ways a call ends: the root is gone, the root cannot be
    opened, or the tree is signalled and the lists are cleaned. *)
Lemma terminate_process_tree_eq root timeout (s : St W) :
  terminate_process_tree root timeout s =
  match fst (psutil_Process root (world s)) with
  | Raise e =>
      (Ok (if is_kind NoSuchProcess e then empty_outcome
           else append_failed empty_outcome
                  (Some root, ("cannot access process: " ++ str_exn e)%string)),
       after_Process root s)
  | Ok ct =>
      match terminate_resolved (mkProcess root ct) timeout empty_outcome
              (after_Process root s) with
      | (Ok raw, s') => (Ok (clean_lists raw), s')
      | (Raise e, s') => (Raise e, s')
      end
  end.
Proof.
  unfold terminate_process_tree, bind at 1. rewrite try_eq, Process_eq.
  unfold after_Process. simpl.
  destruct (psutil_Process root (world s)) as [[ct|e] w']; simpl.
  - unfold bind. destruct (terminate_resolved _ _ _ _) as [[raw|e] s'];
      reflexivity.
  - destruct (is_kind NoSuchProcess e); reflexivity.
Qed.

Lemma calls_app (s s' : St W) evs :
  log s' = log s ++ evs -> calls s' = calls s ++ map ev_call evs.
Proof. unfold calls. intros ->. apply map_app. Qed.

(** One turn of [resolve_children]. *)
Lemma resolve_turn_eq (c : Process) (all_procs : list Process) (s : St W) :
  bind (try_ (Process_ (pid c)))
       (fun r => match r with
                 | Ok p => ret (all_procs ++ [p])
                 | Raise _ => ret all_procs
                 end) s =
  (Ok (match fst (psutil_Process (pid c) (world s)) with
       | Ok ct => all_procs ++ [mkProcess (pid c) ct]
       | Raise _ => all_procs
       end),
   after_Process (pid c) s).
Proof.
  unfold bind. rewrite try_eq, Process_eq. unfold after_Process. simpl.
  destruct (fst (psutil_Process (pid c) (world s))); reflexivity.
Qed.

(** Resolving the children asks psutil for each of them in turn, and
    keeps handles for pids among theirs. *)
Lemma resolve_children_spec (children : list Process) (s : St W) :
  exists resolved s' evs,
    resolve_children children s = (Ok resolved, s') /\
    log s' = log s ++ evs /\
    map ev_call evs = map (fun c => CProcess (pid c)) children /\
    (forall p, In p resolved -> In (pid p) (map pid children)).
Proof.
  unfold resolve_children.
  destruct (for_each_calls (fun c => CProcess (pid c)) children
              (fun c all_procs =>
                 bind (try_ (Process_ (pid c)))
                   (fun r => match r with
                             | Ok p => ret (all_procs ++ [p])
                             | Raise _ => ret all_procs
                             end))) with (acc := @nil Process) (s := s)
    as [resolved [s' [evs [E [L C]]]]].
  - intros c acc t. rewrite resolve_turn_eq.
    eexists _, _, _. split; [reflexivity|]. split; reflexivity.
  - exists resolved, s', evs. repeat split; try assumption.
    refine (for_each_invariant
              (fun acc => forall p, In p acc -> In (pid p) (map pid children))
              children _ _ [] s resolved s' _ E).
    + intros c acc t acc' t' Hc Hacc E' p Hp.
      rewrite resolve_turn_eq in E'. inversion E'; subst; clear E'.
      destruct (fst (psutil_Process (pid c) (world t))); [|auto].
      apply in_app_or in Hp. destruct Hp as [Hp|[<-|[]]]; [auto|].
      simpl. apply in_map. exact Hc.
    + intros p [].
Qed.

(** The children [collect_tree] reads for [parent] in state [s]. *)
Lemma collect_tree_spec (parent : Process) (s : St W) :
  exists resolved s' evs,
    collect_tree parent s = (Ok (resolved ++ [parent]), s') /\
    log s' = log s ++ evs /\
    Forall (fun ev => is_signal (ev_call ev) = false
                      /\ is_wait (ev_call ev) = false) evs /\
    (forall p, In p resolved ->
       match fst (proc_children parent (world s)) with
       | Ok cs => In (pid p) (map pid cs)
       | Raise _ => False
       end).
Proof.
  unfold collect_tree, bind at 1. rewrite try_eq, host_eq. simpl.
  set (s1 := mkSt _ _ _).
  set (children := match fst (proc_children parent (world s)) with
                   | Ok cs => cs | Raise _ => []
                   end).
  destruct (resolve_children_spec children s1)
    as [resolved [s' [evs [E [L [C P]]]]]].
  exists resolved, s', (mkEvent (CChildren parent)
                          (raised (fst (proc_children parent (world s))))
                        :: evs).
  rewrite (bind_ok _ _ _ _ _ E). split; [reflexivity|].
  split; [rewrite L; subst s1; simpl; rewrite <- app_assoc; reflexivity|].
  split.
  - constructor; [simpl; auto|].
    apply Forall_forall. intros ev Hev.
    assert (Hc : In (ev_call ev) (map ev_call evs)) by (apply in_map; exact Hev).
    rewrite C in Hc. apply in_map_iff in Hc. destruct Hc as [c [<- _]].
    simpl. auto.
  - intros p Hp. apply P in Hp. subst children.
    destruct (fst (proc_children parent (world s))); [exact Hp|destruct Hp].
Qed.

(** One turn of the graceful loop. *)
Lemma graceful_turn_eq (p : Process) (result : Outcome) (s : St W) :
  bind (try_ (host (CTerminate p) (proc_terminate p)))
       (fun r => match r with
                 | Ok _ => ret result
                 | Raise e =>
                     ret (append_failed result
                            (getattr_pid p,
                             ("terminate error: " ++ str_exn e)%string))
                 end) s =
  (Ok (match fst (proc_terminate p (world s)) with
       | Ok _ => result
       | Raise e =>
           append_failed result
             (getattr_pid p, ("terminate error: " ++ str_exn e)%string)
       end),
   mkSt (snd (proc_terminate p (world s))) (stdin s)
        (log s ++ [mkEvent (CTerminate p)
                     (raised (fst (proc_terminate p (world s))))])).
Proof.
  unfold bind. rewrite try_eq, host_eq. simpl.
  destruct (fst (proc_terminate p (world s))); reflexivity.
Qed.

(** The graceful phase sends one request to each handle, in the order of
    the list, and never raises. *)
Lemma graceful_phase_calls (all_procs : list Process) result (s : St W) :
  exists result' s' evs,
    graceful_phase all_procs result s = (Ok result', s') /\
    log s' = log s ++ evs /\
    map ev_call evs = map CTerminate all_procs.
Proof.
  unfold graceful_phase. apply for_each_calls.
  intros p acc t. rewrite graceful_turn_eq.
  eexists _, _, _. split; [reflexivity|]. split; reflexivity.
Qed.

Lemma wait_timeouts_app cs1 cs2 :
  wait_timeouts (cs1 ++ cs2) = wait_timeouts cs1 ++ wait_timeouts cs2.
Proof.
  induction cs1 as [|c cs1 IH]; simpl; [reflexivity|].
  destruct c; simpl; rewrite ?IH; reflexivity.
Qed.

Lemma wait_timeouts_none cs :
  Forall (fun c => is_wait c = false) cs -> wait_timeouts cs = [].
Proof.
  induction 1 as [|c cs Hc _ IH]; simpl; [reflexivity|].
  destruct c; simpl in *; try exact IH. discriminate Hc.
Qed.

(** The wait phase calls [wait_procs] once, with the primary timeout, and
    after that only asks handles whether they run. *)
Lemma wait_phase_log (all_procs : list Process) timeout (s : St W) :
  exists ev evs,
    log (snd (wait_phase all_procs timeout s)) = log s ++ ev :: evs /\
    ev_call ev = CWaitProcs all_procs timeout /\
    Forall (fun ev => is_probe (ev_call ev) = true) evs.
Proof.
  unfold wait_phase, bind at 1. rewrite try_eq, host_eq. simpl.
  set (s1 := mkSt _ _ _).
  destruct (fst (psutil_wait_procs all_procs timeout (world s))) as [ga|e].
  - eexists _, []. simpl. split; [reflexivity|]. split; [reflexivity|constructor].
  - assert (Hf : emits (fun c => is_probe c = true)
                   (filter_m (fun p => host (CIsRunning p) (proc_is_running p))
                             all_procs)).
    { apply emits_filter_m. intros p. apply emits_host. reflexivity. }
    assert (Hb : emits (fun c => is_probe c = true)
                   (bind (filter_m (fun p => host (CIsRunning p)
                                                  (proc_is_running p))
                                   all_procs)
                         (fun alive => ret (@nil Process, alive)))).
    { apply emits_bind; [exact Hf | intros; apply emits_ret]. }
    destruct (Hb s1) as [evs [L F]].
    eexists _, evs. rewrite L. subst s1. simpl. rewrite <- app_assoc.
    split; [reflexivity|]. split; [reflexivity | exact F].
Qed.

(** One turn of the kill loop. *)
Lemma kill_turn_eq (p : Process) (result : Outcome) (s : St W) :
  bind (try_ (host (CKill p) (proc_kill p)))
       (fun r => match r with
                 | Ok _ => ret result
                 | Raise e =>
                     if is_kind NoSuchProcess e
                     then ret (append_terminated result (getattr_pid p))
                     else ret (append_failed result
                                 (getattr_pid p,
                                  ("kill error: " ++ str_exn e)%string))
                 end) s =
  (Ok (match fst (proc_kill p (world s)) with
       | Ok _ => result
       | Raise e =>
           if is_kind NoSuchProcess e
           then append_terminated result (getattr_pid p)
           else append_failed result
                  (getattr_pid p, ("kill error: " ++ str_exn e)%string)
       end),
   mkSt (snd (proc_kill p (world s))) (stdin s)
        (log s ++ [mkEvent (CKill p) (raised (fst (proc_kill p (world s))))])).
Proof.
  unfold bind. rewrite try_eq, host_eq. simpl.
  destruct (fst (proc_kill p (world s))) as [u|e]; [reflexivity|].
  destruct (is_kind NoSuchProcess e); reflexivity.
Qed.

Lemma kill_loop_calls (alive : list Process) result (s : St W) :
  exists result' s' evs,
    kill_loop alive result s = (Ok result', s') /\
    log s' = log s ++ evs /\
    map ev_call evs = map CKill alive.
Proof.
  unfold kill_loop. apply for_each_calls.
  intros p acc t. rewrite kill_turn_eq.
  eexists _, _, _. split; [reflexivity|]. split; reflexivity.
Qed.

(** One turn of the fallback of the second wait. *)
Lemma fallback_turn_eq (p : Process) (result : Outcome) (s : St W) :
  bind (try_ (host (CIsRunning p) (proc_is_running p)))
       (fun r => match r with
                 | Ok false =>
                     if negb (pyint_in (Some (pid p)) (terminated result))
                     then ret (append_killed result (Some (pid p)))
                     else ret result
                 | Ok true =>
                     ret (append_failed result
                            (getattr_pid p, "still alive after kill"))
                 | Raise _ =>
                     ret (append_failed result (getattr_pid p, "unknown state"))
                 end) s =
  (Ok (match fst (proc_is_running p (world s)) with
       | Ok false =>
           if negb (pyint_in (Some (pid p)) (terminated result))
           then append_killed result (Some (pid p))
           else result
       | Ok true =>
           append_failed result (getattr_pid p, "still alive after kill")
       | Raise _ => append_failed result (getattr_pid p, "unknown state")
       end),
   mkSt (snd (proc_is_running p (world s))) (stdin s)
        (log s ++ [mkEvent (CIsRunning p)
                     (raised (fst (proc_is_running p (world s))))])).
Proof.
  unfold bind. rewrite try_eq, host_eq. simpl.
  destruct (fst (proc_is_running p (world s))) as [[|]|e]; try reflexivity.
  destruct (negb _); reflexivity.
Qed.

Lemma rewait_fallback_calls (alive : list Process) result (s : St W) :
  exists result' s' evs,
    rewait_fallback alive result s = (Ok result', s') /\
    log s' = log s ++ evs /\
    map ev_call evs = map CIsRunning alive.
Proof.
  unfold rewait_fallback. apply for_each_calls.
  intros p acc t. rewrite fallback_turn_eq.
  eexists _, _, _. split; [reflexivity|]. split; reflexivity.
Qed.

(** The escalation phase never raises.  With nobody alive it does nothing;
    otherwise it sends the forced kills, then waits once for
    [kill_wait_timeout], and after that only asks handles whether they
    run. *)
Lemma escalation_phase_log (alive : list Process) result (s : St W) :
  exists result' s' evs,
    escalation_phase alive result s = (Ok result', s') /\
    log s' = log s ++ evs /\
    ((alive = [] /\ evs = []) \/
     exists rs,
       map ev_call evs =
         map CKill alive ++ CWaitProcs alive kill_wait_timeout :: rs /\
       Forall (fun c => is_probe c = true) rs).
Proof.
  destruct alive as [|a alive'].
  - exists result, s, []. simpl. rewrite app_nil_r. auto.
  - unfold escalation_phase. set (alive := a :: alive'). clearbody alive.
    unfold force_kill.
    destruct (kill_loop_calls alive result s) as [r1 [s1 [evs1 [E1 [L1 C1]]]]].
    rewrite (bind_ok _ _ _ _ _ E1).
    unfold bind at 1. rewrite try_eq, host_eq. simpl.
    set (s2 := mkSt _ _ _).
    assert (L2 : log s2 = log s ++ evs1 ++
                   [mkEvent (CWaitProcs alive kill_wait_timeout)
                      (raised (fst (psutil_wait_procs alive kill_wait_timeout
                                      (world s1))))]).
    { subst s2. simpl. rewrite L1, <- app_assoc. reflexivity. }
    destruct (fst (psutil_wait_procs alive kill_wait_timeout (world s1)))
      as [[gone2 alive2]|e].
    + eexists _, s2, _. split; [reflexivity|]. split; [exact L2|].
      right. exists []. rewrite map_app, C1. simpl. auto.
    + destruct (rewait_fallback_calls alive r1 s2)
        as [r3 [s3 [evs3 [E3 [L3 C3]]]]].
      exists r3, s3, ((evs1 ++ [mkEvent (CWaitProcs alive kill_wait_timeout)
                                  (Some e)]) ++ evs3).
      split; [exact E3|]. split.
      * rewrite L3, L2. simpl. rewrite <- !app_assoc. reflexivity.
      * right. exists (map CIsRunning alive).
        rewrite !map_app, C1, C3. simpl. rewrite <- app_assoc. simpl.
        split; [reflexivity|].
        apply Forall_forall. intros c Hc. apply in_map_iff in Hc.
        destruct Hc as [p [<- _]]. reflexivity.
Qed.

Lemma probes_not_terminate cs :
  Forall (fun c => is_probe c = true) cs ->
  Forall (fun c => is_terminate c = false) cs.
Proof.
  apply Forall_impl. intros c Hc. destruct c; simpl in *; congruence.
Qed.

Lemma probes_not_wait cs :
  Forall (fun c => is_probe c = true) cs ->
  Forall (fun c => is_wait c = false) cs.
Proof.
  apply Forall_impl. intros c Hc. destruct c; simpl in *; congruence.
Qed.

Lemma kills_not_terminate (ps : list Process) :
  Forall (fun c => is_terminate c = false) (map CKill ps).
Proof.
  apply Forall_forall. intros c Hc. apply in_map_iff in Hc.
  destruct Hc as [p [<- _]]. reflexivity.
Qed.

Lemma kills_not_wait (ps : list Process) :
  Forall (fun c => is_wait c = false) (map CKill ps).
Proof.
  apply Forall_forall. intros c Hc. apply in_map_iff in Hc.
  destruct Hc as [p [<- _]]. reflexivity.
Qed.

Lemma Forall_map_ev (P : call -> Prop) (evs : list event) :
  Forall (fun ev => P (ev_call ev)) evs -> Forall P (map ev_call evs).
Proof. intros F. apply Forall_map. exact F. Qed.

(** The calls of the signalling part: the graceful requests in list order,
    the primary wait, and then a rest that holds no graceful request and at
    most one more wait, which is for [kill_wait_timeout]. *)
Lemma signal_tree_calls (all_procs : list Process) timeout result (s : St W) :
  exists rest,
    calls (snd (signal_tree all_procs timeout result s)) =
      calls s ++ map CTerminate all_procs
              ++ CWaitProcs all_procs timeout :: rest /\
    Forall (fun c => is_terminate c = false) rest /\
    (wait_timeouts rest = [] \/ wait_timeouts rest = [kill_wait_timeout]).
Proof.
  unfold signal_tree.
  destruct (graceful_phase_calls all_procs result s)
    as [r1 [s1 [evs1 [E1 [L1 C1]]]]].
  rewrite (bind_ok _ _ _ _ _ E1).
  destruct (wait_phase_log all_procs timeout s1) as [ev [evs2 [L2 [C2 F2]]]].
  apply (Forall_map_ev (fun c => is_probe c = true)) in F2.
  unfold bind. destruct (wait_phase all_procs timeout s1) as [[[gone alive]|e] s2];
    simpl in L2.
  - destruct (escalation_phase_log alive (record_gone gone r1) s2)
      as [r3 [s3 [evs3 [E3 [L3 Sh]]]]].
    rewrite E3. simpl.
    exists (map ev_call evs2 ++ map ev_call evs3).
    split.
    { rewrite (calls_app s2 s3 evs3 L3), (calls_app s1 s2 _ L2),
        (calls_app s s1 evs1 L1), C1. simpl. rewrite C2.
      rewrite <- !app_assoc. simpl. reflexivity. }
    destruct Sh as [[_ ->] | [rs [C3 F3]]].
    + simpl. rewrite app_nil_r. split; [apply probes_not_terminate, F2|].
      left. apply wait_timeouts_none, probes_not_wait, F2.
    + rewrite C3. split.
      * apply Forall_app. split; [apply probes_not_terminate, F2|].
        apply Forall_app. split; [apply kills_not_terminate|].
        constructor; [reflexivity | apply probes_not_terminate, F3].
      * right. rewrite !wait_timeouts_app. simpl.
        rewrite (wait_timeouts_none _ (probes_not_wait _ F2)).
        rewrite (wait_timeouts_none _ (kills_not_wait alive)).
        rewrite (wait_timeouts_none _ (probes_not_wait _ F3)). reflexivity.
  - simpl. exists (map ev_call evs2). split.
    { rewrite (calls_app s1 s2 _ L2), (calls_app s s1 evs1 L1), C1.
      simpl. rewrite C2, <- !app_assoc. reflexivity. }
    split; [apply probes_not_terminate, F2|].
    left. apply wait_timeouts_none, probes_not_wait, F2.
Qed.

End TerminatorFacts.

(** ** The terminator: claims about the order of calls *)

Section TerminatorOrder.
Context {W : Type} {H : Host W}.

Lemma discover_inv root (s : St W) all_procs s1 :
  discover root s = (Ok all_procs, s1) ->
  exists ct,
    fst (psutil_Process root (world s)) = Ok ct /\
    collect_tree (mkProcess root ct) (after_Process root s) = (Ok all_procs, s1).
Proof.
  unfold discover. intros E. apply bind_inv in E.
  destruct E as [parent [s0 [E0 E1]]]. rewrite Process_eq in E0.
  destruct (fst (psutil_Process root (world s))) as [ct|e] eqn:EP;
    inversion E0; subst.
  exists ct. split; [reflexivity|].
  unfold after_Process. rewrite EP. exact E1.
Qed.

Lemma snd_clean (x : pyresult Outcome * St W) :
  snd (match x with
       | (Ok raw, s') => (Ok (clean_lists raw), s')
       | (Raise e, s') => (Raise e, s')
       end) = snd x.
Proof. destruct x as [[raw|e] s']; reflexivity. Qed.

Lemma terminate_resolved_eq parent timeout result (s : St W) all_procs s1 :
  collect_tree parent s = (Ok all_procs, s1) ->
  terminate_resolved parent timeout result s =
  signal_tree all_procs timeout result s1.
Proof.
  intros E. unfold terminate_resolved.
  exact (bind_ok _ (fun ps => signal_tree ps timeout result) _ _ _ E).
Qed.

(** A root that [psutil.Process] refuses. *)
Lemma terminate_unresolved (w : W) input root timeout e :
  fst (psutil_Process root w) = Raise e ->
  exists s',
    terminate_process_tree root timeout (init w input) =
      (Ok (if is_kind NoSuchProcess e then mkOutcome [] [] []
           else mkOutcome [] []
                  [(Some root,
                    ("cannot access process: " ++ str_exn e)%string)]),
       s') /\
    calls s' = [CProcess root].
Proof.
  intros E.
  rewrite terminate_process_tree_eq. simpl. rewrite E.
  eexists. split.
  - destruct (is_kind NoSuchProcess e); reflexivity.
  - unfold calls, after_Process. reflexivity.
Qed.

End TerminatorOrder.

(** C3: when [psutil.Process(root)] raises, the call returns at once and
    the only call made to the host is that one: no enumeration of
    children, no signal, no wait.  For [NoSuchProcess] all three buckets
    are empty; for any other exception [failed] holds exactly one entry,
    for the root pid, and [terminated] and [killed] are empty. *)
Theorem unresolved_root_returns_at_once :
  forall (W : Type) (H : Host W) (w : W) (input : list string)
         (root : Z) (timeout : Q) (e : exn),
    fst (psutil_Process root w) = Raise e ->
    exists s',
      terminate_process_tree root timeout (init w input) =
        (Ok (if is_kind NoSuchProcess e then mkOutcome [] [] []
             else mkOutcome [] []
                    [(Some root,
                      ("cannot access process: " ++ str_exn e)%string)]),
         s') /\
      calls s' = [CProcess root].
Proof.
  intros W H w input root timeout e E.
  apply terminate_unresolved. exact E.
Qed.

Lemma unresolved_root_returns_at_once_witness :
  (exists s',
     terminate_process_tree 999 5%Q (init child_already_gone []) =
       (Ok (mkOutcome [] [] []), s') /\
     calls s' = [CProcess 999]) /\
  (exists s',
     terminate_process_tree 42 5%Q (init unreadable_owner []) =
       (Ok (mkOutcome [] [] [(Some 42, "cannot access process: (pid=42)")]),
        s') /\
     calls s' = [CProcess 42]).
Proof.
  split.
  - exact (unresolved_root_returns_at_once Script Script_Host
             child_already_gone [] 999 5%Q (no_such_process 999) eq_refl).
  - exact (unresolved_root_returns_at_once Script Script_Host
             unreadable_owner [] 42 5%Q (access_denied 42) eq_refl).
Defined.

(** C10: an outcome that went through the final cleanup, which is every
    outcome of a call whose root was resolved, has a duplicate-free
    [terminated], a duplicate-free [killed] that shares no pid with
    [terminated], and no pid equal to 0 or [None] in [terminated], in
    [killed] or in an entry of [failed]. *)
Theorem cleaned_outcome_invariants :
  forall (W : Type) (H : Host W) (w : W) (input : list string)
         (root : Z) (timeout : Q) (out : Outcome) (s' : St W) (ct : nat),
    terminate_process_tree root timeout (init w input) = (Ok out, s') ->
    fst (psutil_Process root w) = Ok ct ->
    NoDup (terminated out) /\ NoDup (killed out) /\
    (forall x, In x (killed out) -> ~ In x (terminated out)) /\
    (forall x, In x (terminated out) -> x <> None /\ x <> Some 0) /\
    (forall x, In x (killed out) -> x <> None /\ x <> Some 0) /\
    (forall x msg, In (x, msg) (failed out) -> x <> None /\ x <> Some 0).
Proof.
  intros W H w input root timeout out s' ct E R.
  rewrite terminate_process_tree_eq in E. simpl in E. rewrite R in E.
  destruct (terminate_resolved _ _ _ _) as [[raw|e] s2]; inversion E; subst.
  apply clean_lists_invariants.
Qed.

Lemma cleaned_outcome_invariants_witness :
  let out := mkOutcome [Some 101; Some 100] [Some 102] [] in
  NoDup (terminated out) /\ NoDup (killed out) /\
  (forall x, In x (killed out) -> ~ In x (terminated out)) /\
  (forall x, In x (terminated out) -> x <> None /\ x <> Some 0) /\
  (forall x, In x (killed out) -> x <> None /\ x <> Some 0) /\
  (forall x msg, In (x, msg) (failed out) -> x <> None /\ x <> Some 0).
Proof.
  apply (cleaned_outcome_invariants Script Script_Host stubborn_child []
           100 5%Q _
           (snd (terminate_process_tree 100 5%Q (init stubborn_child [])))
           1%nat).
  - vm_compute. reflexivity.
  - reflexivity.
Defined.

(** ** The terminator: who is asked, and when *)

Section TerminatorRequests.
Context {W : Type} {H : Host W}.

Lemma resolve_loop_reopened (children : list Process) :
  forall acc (s : St W),
    fst (for_each children
           (fun c all_procs =>
              bind (try_ (Process_ (pid c)))
                (fun r => match r with
                          | Ok p => ret (all_procs ++ [p])
                          | Raise _ => ret all_procs
                          end))
           acc s) =
    Ok (acc ++ reopened children (world s)).
Proof.
  induction children as [|c children IH]; intros acc s;
    cbn [for_each reopened].
  - cbn. rewrite app_nil_r. reflexivity.
  - rewrite (bind_ok _ _ _ _ _ (resolve_turn_eq c acc s)).
    rewrite IH. unfold after_Process. cbn [world].
    destruct (psutil_Process (pid c) (world s)) as [[ct|e] w1];
      cbn [fst snd]; [rewrite <- app_assoc|]; reflexivity.
Qed.

(** What [collect_tree] asks the host, and what it returns. *)
Lemma collect_tree_reopened (parent : Process) (s : St W) :
  exists s',
    collect_tree parent s =
      (Ok (reopened
             (match fst (proc_children parent (world s)) with
              | Ok cs => cs
              | Raise _ => []
              end)
             (snd (proc_children parent (world s))) ++ [parent]), s') /\
    calls s' =
      calls s ++ CChildren parent
              :: map (fun c => CProcess (pid c))
                   (match fst (proc_children parent (world s)) with
                    | Ok cs => cs
                    | Raise _ => []
                    end).
Proof.
  unfold collect_tree, bind at 1. rewrite try_eq, host_eq. simpl.
  set (s1 := mkSt _ _ _).
  set (children := match fst (proc_children parent (world s)) with
                   | Ok cs => cs | Raise _ => []
                   end).
  destruct (resolve_children_spec children s1)
    as [resolved [s' [evs [E [L [C _]]]]]].
  pose proof (resolve_loop_reopened children [] s1) as R.
  unfold resolve_children in E. rewrite E in R. cbn [fst app] in R.
  inversion R; subst resolved.
  exists s'. fold (resolve_children children) in E.
  rewrite (bind_ok _ _ _ _ _ E). split; [reflexivity|].
  rewrite (calls_app _ _ _ L), C. subst s1. unfold calls. cbn [log].
  rewrite map_app, <- app_assoc. reflexivity.
Qed.

Lemma reopened_pids (children : list Process) :
  forall w : W, incl (map pid (reopened children w)) (map pid children).
Proof.
  induction children as [|c children IH]; intros w; cbn [reopened map].
  - apply incl_refl.
  - destruct (psutil_Process (pid c) w) as [[ct|e] w1]; cbn [map pid].
    + apply incl_cons; [left; reflexivity|].
      apply incl_tl, IH.
    + apply incl_tl, IH.
Qed.

Lemma reopened_length (children : list Process) :
  forall w : W,
    (List.length (reopened children w) <= List.length children)%nat.
Proof.
  induction children as [|c children IH]; intros w; cbn [reopened];
    [apply Nat.le_refl|].
  destruct (psutil_Process (pid c) w) as [[ct|e] w1]; cbn [List.length];
    specialize (IH w1); lia.
Qed.

(** When none was left out, the handles opened again are handles of the
    children reported, one for one. *)
Lemma reopened_all (children : list Process) :
  forall w : W,
    List.length (reopened children w) = List.length children ->
    map pid (reopened children w) = map pid children.
Proof.
  induction children as [|c children IH]; intros w; cbn [reopened];
    [reflexivity|].
  pose proof (reopened_length children) as Hl.
  destruct (psutil_Process (pid c) w) as [[ct|e] w1];
    cbn [List.length map pid]; intros E.
  - f_equal. apply IH. lia.
  - specialize (Hl w1). lia.
Qed.

End TerminatorRequests.

Lemma occurs_before_In {A} (a b : A) l :
  occurs_before a b l -> In a l /\ In b l.
Proof.
  intros [l1 [l2 [l3 ->]]]. split.
  - apply in_or_app. right. left. reflexivity.
  - apply in_or_app. right. right. apply in_or_app. right. left. reflexivity.
Qed.

(** C2, as stated, fails on both counts.  The child 101 is discovered
    below the root and is never sent a graceful request, because it cannot
    be opened again; and with a negative timeout the primary wait raises
    at once, and the root, found running, is sent its forced kill without
    any wait having elapsed. *)
Lemma unopened_descendant_is_never_asked :
  let s' := snd (terminate_process_tree 100 (-1) (init unopenable_child [])) in
  In 101 (discovered_pids 100 unopenable_child) /\
  ~ descendants_asked_before_root 100 unopenable_child (calls s') /\
  In (CKill (mkProcess 100 1)) (calls s') /\
  ~ kills_follow_completed_wait (log s').
Proof.
  intros s'.
  set (wait_error := mkExn ValueError "timeout must be a positive integer").
  assert (L : log s' =
              [mkEvent (CProcess 100) None;
               mkEvent (CChildren (mkProcess 100 1)) None;
               mkEvent (CProcess 101) (Some (no_such_process 101));
               mkEvent (CTerminate (mkProcess 100 1)) None;
               mkEvent (CWaitProcs [mkProcess 100 1] (-1)) (Some wait_error);
               mkEvent (CIsRunning (mkProcess 100 1)) None;
               mkEvent (CKill (mkProcess 100 1)) None;
               mkEvent (CWaitProcs [mkProcess 100 1] 3) None])
    by (vm_compute; reflexivity).
  assert (C : calls s' =
              [CProcess 100; CChildren (mkProcess 100 1); CProcess 101;
               CTerminate (mkProcess 100 1);
               CWaitProcs [mkProcess 100 1] (-1);
               CIsRunning (mkProcess 100 1); CKill (mkProcess 100 1);
               CWaitProcs [mkProcess 100 1] 3])
    by (unfold calls; rewrite L; reflexivity).
  split; [|split; [|split]].
  - vm_compute. right. left. reflexivity.
  - intros D. destruct (D 101) as [p [parent [Ep [_ O]]]].
    + vm_compute. right. left. reflexivity.
    + discriminate.
    + apply occurs_before_In in O. destruct O as [O _]. rewrite C in O.
      cbn [In] in O.
      repeat (destruct O as [O|O]; [try discriminate O|]);
        [|destruct O].
      inversion O; subst p. discriminate Ep.
  - rewrite C. cbn [In]. tauto.
  - intros K.
    destruct (K [mkEvent (CProcess 100) None;
                 mkEvent (CChildren (mkProcess 100 1)) None;
                 mkEvent (CProcess 101) (Some (no_such_process 101));
                 mkEvent (CTerminate (mkProcess 100 1)) None;
                 mkEvent (CWaitProcs [mkProcess 100 1] (-1)) (Some wait_error);
                 mkEvent (CIsRunning (mkProcess 100 1)) None]
                (mkProcess 100 1) None
                [mkEvent (CWaitProcs [mkProcess 100 1] 3) None] L)
      as [ps [t Hin]].
    cbn [In] in Hin.
    repeat (destruct Hin as [Hin|Hin]; [discriminate Hin|]).
    destruct Hin.
Qed.

(** C2, as the code has it.  Within one call whose root was opened, the
    host is asked for the root, for its descendants, and for a handle of
    each descendant in turn; then the graceful requests go to the
    descendants that could be opened again, in the order reported, and to
    the root last; the primary [wait_procs], over these handles and with
    the caller's timeout, is called right after the root's request, and
    whatever follows it, the forced kills among it, holds no graceful
    request.  So every descendant that could be opened again is sent its
    graceful request strictly before the root, which is every descendant
    when none was left out; a descendant that could not is sent none; and
    every forced kill is sent after the primary wait has come back, by
    returning or by raising. *)
Theorem graceful_requests_reach_descendants_first :
  forall (W : Type) (H : Host W) (w : W) (input : list string)
         (root : Z) (timeout : Q) (ct : nat),
    fst (psutil_Process root w) = Ok ct ->
    let parent := mkProcess root ct in
    let w1 := snd (psutil_Process root w) in
    let children :=
      match fst (proc_children parent w1) with
      | Ok cs => cs
      | Raise _ => []
      end in
    let descendants := reopened children (snd (proc_children parent w1)) in
    (exists rest,
       calls (snd (terminate_process_tree root timeout (init w input))) =
         CProcess root :: CChildren parent
         :: map (fun c => CProcess (pid c)) children
         ++ map CTerminate descendants
         ++ CTerminate parent
         :: CWaitProcs (descendants ++ [parent]) timeout :: rest /\
       Forall (fun c => is_terminate c = false) rest) /\
    incl (map pid descendants) (map pid children) /\
    (List.length descendants = List.length children ->
     map pid descendants = map pid children).
Proof.
  intros W H w input root timeout ct R parent w1 children descendants.
  split; [|split; [apply reopened_pids|]].
  2:{ apply reopened_all. }
  destruct (collect_tree_reopened parent (after_Process root (init w input)))
    as [s1 [C Lc]].
  cbn [after_Process world init] in C, Lc.
  fold w1 in C, Lc. fold children in C, Lc. fold descendants in C.
  destruct (signal_tree_calls (descendants ++ [parent]) timeout
              empty_outcome s1) as [rest [Sh [Ft _]]].
  exists rest. split; [|exact Ft].
  rewrite terminate_process_tree_eq. simpl world. rewrite R, snd_clean.
  fold parent.
  rewrite (terminate_resolved_eq _ _ _ _ _ _ C), Sh, Lc.
  rewrite map_app. unfold calls, after_Process.
  cbn [log init map app ev_call]. rewrite <- !app_assoc. reflexivity.
Qed.

Lemma graceful_requests_reach_descendants_first_witness :
  (exists rest,
     calls (snd (terminate_process_tree 100 5%Q (init stubborn_child []))) =
       CProcess 100 :: CChildren (mkProcess 100 1)
       :: map (fun c => CProcess (pid c)) [mkProcess 101 1; mkProcess 102 1]
       ++ map CTerminate [mkProcess 101 1; mkProcess 102 1]
       ++ CTerminate (mkProcess 100 1)
       :: CWaitProcs
            ([mkProcess 101 1; mkProcess 102 1] ++ [mkProcess 100 1]) 5%Q
       :: rest /\
     Forall (fun c => is_terminate c = false) rest) /\
  incl (map pid [mkProcess 101 1; mkProcess 102 1]) [101; 102] /\
  (List.length [mkProcess 101 1; mkProcess 102 1] = 2%nat ->
   map pid [mkProcess 101 1; mkProcess 102 1] = [101; 102]).
Proof.
  exact (graceful_requests_reach_descendants_first Script Script_Host
           stubborn_child [] 100 5%Q 1%nat eq_refl).
Defined.

(** C5, as the code has it: the second wait does not depend on the primary
    timeout.  A call waits at most twice, first for the caller's timeout
    and then for [kill_wait_timeout], which is the constant 3; that is 3/5
    of the primary exactly when the primary is 5. *)
Theorem second_wait_is_three_seconds :
  forall (W : Type) (H : Host W) (w : W) (input : list string)
         (root : Z) (timeout : Q),
    let ts :=
      wait_timeouts
        (calls (snd (terminate_process_tree root timeout (init w input)))) in
    (ts = [] \/ ts = [timeout] \/ ts = [timeout; kill_wait_timeout]) /\
    kill_wait_timeout = 3%Q /\
    ((kill_wait_timeout == (3 # 5) * timeout)%Q <-> (timeout == 5)%Q).
Proof.
  intros W H w input root timeout ts. split; [|split; [reflexivity|]].
  - subst ts. rewrite terminate_process_tree_eq. simpl world.
    destruct (fst (psutil_Process root w)) as [ct|e] eqn:R.
    + rewrite snd_clean.
      destruct (collect_tree_spec (mkProcess root ct)
                  (after_Process root (init w input)))
        as [resolved [s1 [evs [C [L [F _]]]]]].
      rewrite (terminate_resolved_eq _ _ _ _ _ _ C).
      destruct (signal_tree_calls (resolved ++ [mkProcess root ct]) timeout
                  empty_outcome s1) as [rest [Sh [_ Fw]]].
      rewrite Sh, (calls_app _ _ _ L). unfold calls at 1. simpl.
      rewrite !wait_timeouts_app. simpl.
      rewrite (wait_timeouts_none (map ev_call evs)).
      * rewrite (wait_timeouts_none (map CTerminate _)).
        -- simpl. destruct Fw as [-> | ->]; auto.
        -- apply Forall_forall. intros c Hc. apply in_map_iff in Hc.
           destruct Hc as [p [<- _]]. reflexivity.
      * apply (Forall_map_ev (fun c => is_wait c = false)).
        eapply Forall_impl; [|exact F]. simpl. tauto.
    + left. reflexivity.
  - unfold kill_wait_timeout. split; intros E; lra.
Qed.

(** C5, as stated, fails: with a primary timeout of 10 the second wait is 3,
    not about 6. *)
Lemma second_wait_not_three_fifths :
  ~ secondary_wait_scales stubborn_root 100 10%Q.
Proof.
  intros S. specialize (S 10%Q 3%Q eq_refl).
  unfold about_three_fifths in S. vm_compute in S. apply S. reflexivity.
Qed.

(** ** The terminator: what the phases put in the buckets *)

Lemma record_gone_eq gone r :
  record_gone gone r =
  mkOutcome (terminated r ++ map (fun p => Some (pid p)) gone)
            (killed r) (failed r).
Proof.
  unfold record_gone. revert r. induction gone as [|p gone IH]; intros r; simpl.
  - rewrite app_nil_r. destruct r; reflexivity.
  - rewrite IH. simpl. rewrite <- app_assoc. reflexivity.
Qed.

Lemma record_alive2_eq alive2 r :
  record_alive2 alive2 r =
  mkOutcome (terminated r) (killed r)
            (failed r ++
             map (fun p => (getattr_pid p, "still alive after kill")) alive2).
Proof.
  unfold record_alive2. revert r.
  induction alive2 as [|p alive2 IH]; intros r; simpl.
  - rewrite app_nil_r. destruct r; reflexivity.
  - rewrite IH. simpl. rewrite <- app_assoc. reflexivity.
Qed.

(** [record_gone2] leaves [terminated] and [failed] alone, only adds to
    [killed], adds only pids of [gone2] that are not in [terminated], and
    leaves every pid of [gone2] in [terminated] or in [killed]. *)
Lemma record_gone2_spec gone2 r :
  let r' := record_gone2 gone2 r in
  terminated r' = terminated r /\ failed r' = failed r /\
  incl (killed r) (killed r') /\
  (forall x, In x (killed r') ->
     In x (killed r) \/
     (In x (map getattr_pid gone2) /\ ~ In x (terminated r))) /\
  (forall p, In p gone2 ->
     In (Some (pid p)) (terminated r) \/ In (Some (pid p)) (killed r')).
Proof.
  unfold record_gone2. revert r.
  induction gone2 as [|p gone2 IH]; intros r; simpl.
  - repeat split; auto using incl_refl. intros p [].
  - set (r1 := if negb (pyint_in (Some (pid p)) (terminated r))
               then append_killed r (Some (pid p)) else r).
    assert (T1 : terminated r1 = terminated r)
      by (subst r1; destruct (negb _); reflexivity).
    assert (F1 : failed r1 = failed r)
      by (subst r1; destruct (negb _); reflexivity).
    assert (K1 : incl (killed r) (killed r1)).
    { subst r1; destruct (negb _); simpl;
        [apply incl_appl|]; apply incl_refl. }
    assert (K1' : forall x, In x (killed r1) ->
              In x (killed r) \/
              (x = Some (pid p) /\ ~ In x (terminated r))).
    { subst r1. intros x.
      destruct (pyint_in (Some (pid p)) (terminated r)) eqn:E; simpl; auto.
      intros Hx. apply in_app_or in Hx. destruct Hx as [Hx|[<-|[]]]; auto.
      right. split; [reflexivity | apply pyint_in_not_In, E]. }
    assert (C1 : In (Some (pid p)) (terminated r) \/
                 In (Some (pid p)) (killed r1)).
    { subst r1.
      destruct (pyint_in (Some (pid p)) (terminated r)) eqn:E; simpl.
      - left. apply pyint_in_In, E.
      - right. apply in_or_app. right. left. reflexivity. }
    destruct (IH r1) as [T [F [K [K' C]]]].
    rewrite T, F, T1, F1. repeat split.
    + eapply incl_tran; eassumption.
    + intros x Hx. apply K' in Hx. rewrite T1 in Hx.
      destruct Hx as [Hx|[Hx Hn]]; [|right; auto].
      apply K1' in Hx. destruct Hx as [Hx|[-> Hn]]; [auto|].
      right. split; [left; reflexivity | exact Hn].
    + intros q [<-|Hq].
      * destruct C1 as [C1|C1]; [auto | right; apply K; exact C1].
      * apply C in Hq. rewrite T1 in Hq. exact Hq.
Qed.

Section TerminatorBuckets.
Context {W : Type} {H : Host W}.

(** The kill loop does not touch [killed], only adds to the other two
    buckets, and puts in [terminated] every handle whose forced kill raised
    [NoSuchProcess]. *)
Lemma kill_loop_cons (a : Process) alive result (s : St W) :
  kill_loop (a :: alive) result s =
  kill_loop alive
    (match fst (proc_kill a (world s)) with
     | Ok _ => result
     | Raise e =>
         if is_kind NoSuchProcess e
         then append_terminated result (getattr_pid a)
         else append_failed result
                (getattr_pid a, ("kill error: " ++ str_exn e)%string)
     end)
    (mkSt (snd (proc_kill a (world s))) (stdin s)
       (log s ++ [mkEvent (CKill a) (raised (fst (proc_kill a (world s))))])).
Proof.
  unfold kill_loop. cbn [for_each].
  rewrite (bind_ok _ _ _ _ _ (kill_turn_eq a result s)). reflexivity.
Qed.

Lemma kill_loop_spec (alive : list Process) :
  forall result (s : St W) result' s' evs,
    kill_loop alive result s = (Ok result', s') ->
    log s' = log s ++ evs ->
    killed result' = killed result /\
    incl (terminated result) (terminated result') /\
    incl (failed result) (failed result') /\
    (forall p e,
        In (mkEvent (CKill p) (Some e)) evs -> kind e = NoSuchProcess ->
        In (Some (pid p)) (terminated result')).
Proof.
  induction alive as [|a alive IH]; intros result s result' s' evs E L.
  - unfold kill_loop in E. cbn [for_each] in E. inversion E; subst.
    rewrite <- (app_nil_r (log s')) in L at 1. apply app_inv_head in L.
    subst evs. repeat split; auto using incl_refl. intros p e [].
  - rewrite kill_loop_cons in E.
    set (r1 := match fst (proc_kill a (world s)) with
               | Ok _ => result | Raise e => _ end) in E.
    set (s1 := mkSt _ _ _) in E.
    destruct (kill_loop_calls alive r1 s1) as [r2 [s2 [evs2 [E2' [L2 _]]]]].
    rewrite E in E2'. inversion E2'; subst r2 s2; clear E2'.
    destruct (IH r1 s1 result' s' evs2 E L2) as [K [T [F V]]].
    assert (Hevs : evs = mkEvent (CKill a)
                           (raised (fst (proc_kill a (world s)))) :: evs2).
    { rewrite L2 in L. subst s1. simpl in L.
      rewrite <- app_assoc in L. apply app_inv_head in L.
      symmetry. exact L. }
    assert (K1 : killed r1 = killed result).
    { subst r1. destruct (fst (proc_kill a (world s))) as [u|e];
        [reflexivity|]. destruct (is_kind NoSuchProcess e); reflexivity. }
    assert (T1 : incl (terminated result) (terminated r1)).
    { subst r1. destruct (fst (proc_kill a (world s))) as [u|e];
        [apply incl_refl|]. destruct (is_kind NoSuchProcess e); simpl;
        [apply incl_appl|]; apply incl_refl. }
    assert (F1 : incl (failed result) (failed r1)).
    { subst r1. destruct (fst (proc_kill a (world s))) as [u|e];
        [apply incl_refl|]. destruct (is_kind NoSuchProcess e); simpl;
        [|apply incl_appl]; apply incl_refl. }
    repeat split.
    + congruence.
    + eapply incl_tran; eassumption.
    + eapply incl_tran; eassumption.
    + intros p e Hin Hk. rewrite Hevs in Hin. destruct Hin as [Hin|Hin].
      * inversion Hin as [[Hp Hr]]. subst a.
        apply T. subst r1.
        destruct (fst (proc_kill p (world s))) as [u|e'];
          [discriminate Hr|]. simpl in Hr. inversion Hr; subst e'.
        apply is_kind_true in Hk. rewrite Hk. simpl.
        apply in_or_app. right. left. reflexivity.
      * eapply V; eassumption.
Qed.

(** The fallback of the second wait leaves [terminated] alone and adds to
    [killed] only pids that are not in [terminated]. *)
Lemma rewait_fallback_spec (alive : list Process) result (s : St W) result' s' :
  rewait_fallback alive result s = (Ok result', s') ->
  terminated result' = terminated result /\
  (forall x, In x (killed result') ->
     In x (killed result) \/ ~ In x (terminated result)).
Proof.
  unfold rewait_fallback. intros E.
  refine (for_each_invariant
            (fun acc => terminated acc = terminated result /\
                        forall x, In x (killed acc) ->
                          In x (killed result) \/ ~ In x (terminated result))
            alive _ _ result s result' s' _ E).
  - intros p acc t acc' t' _ [T K] E'.
    rewrite fallback_turn_eq in E'. inversion E' as [[R S]]; clear E'.
    destruct (fst (proc_is_running p (world t))) as [[|]|e]; simpl;
      try (split; [exact T | exact K]).
    destruct (pyint_in (Some (pid p)) (terminated acc)) eqn:Ein; simpl.
    + split; [exact T | exact K].
    + split; [exact T|]. intros x Hx. apply in_app_or in Hx.
      destruct Hx as [Hx|[<-|[]]]; [auto|].
      right. rewrite <- T. apply pyint_in_not_In, Ein.
  - split; [reflexivity | auto].
Qed.

(** After the kill loop no forced kill is sent, [terminated] is final, and
    [killed] only gains pids that are not in [terminated]. *)
Lemma force_kill_spec (alive : list Process) result (s : St W) result' s' evs :
  force_kill alive result s = (Ok result', s') ->
  log s' = log s ++ evs ->
  forall p e,
    In (mkEvent (CKill p) (Some e)) evs -> kind e = NoSuchProcess ->
    In (Some (pid p)) (terminated result') /\
    (~ In (Some (pid p)) (killed result) ->
     ~ In (Some (pid p)) (killed result')).
Proof.
  unfold force_kill. intros E L p e Hin Hk.
  apply bind_inv in E. destruct E as [r1 [s1 [E1 E2]]].
  destruct (kill_loop_calls alive result s) as [r1' [s1' [evs1 [E1' [L1 _]]]]].
  rewrite E1 in E1'. inversion E1'; subst r1' s1'; clear E1'.
  destruct (kill_loop_spec alive result s r1 s1 evs1 E1 L1) as [K1 [_ [_ V]]].
  unfold bind in E2. rewrite try_eq, host_eq in E2. simpl in E2.
  set (s2 := mkSt _ _ _) in E2.
  assert (Hlate : exists evs2,
            log s' = log s2 ++ evs2 /\
            Forall (fun ev => is_kill (ev_call ev) = false) evs2 /\
            terminated result' = terminated r1 /\
            (forall x, In x (killed result') ->
               In x (killed r1) \/ ~ In x (terminated r1))).
  { destruct (fst (psutil_wait_procs alive kill_wait_timeout (world s1)))
      as [[gone2 alive2]|e2].
    - inversion E2; subst. exists []. rewrite app_nil_r.
      split; [reflexivity|]. split; [constructor|].
      rewrite record_alive2_eq. simpl.
      destruct (record_gone2_spec gone2 r1) as [T [_ [_ [K _]]]].
      split; [exact T|]. intros x Hx. apply K in Hx. tauto.
    - destruct (rewait_fallback_calls alive r1 s2)
        as [r3 [s3 [evs3 [E3 [L3 C3]]]]].
      rewrite E2 in E3. inversion E3; subst r3 s3; clear E3.
      exists evs3. split; [exact L3|]. split.
      + apply Forall_forall. intros ev Hev.
        assert (Hc : In (ev_call ev) (map ev_call evs3))
          by (apply in_map; exact Hev).
        rewrite C3 in Hc. apply in_map_iff in Hc.
        destruct Hc as [q [<- _]]. reflexivity.
      + apply (rewait_fallback_spec alive r1 s2 result' s' E2). }
  destruct Hlate as [evs2 [L2 [F2 [T2 K2]]]].
  assert (Hevs : evs = evs1 ++
                   mkEvent (CWaitProcs alive kill_wait_timeout)
                     (raised (fst (psutil_wait_procs alive kill_wait_timeout
                                     (world s1)))) :: evs2).
  { rewrite L2 in L. subst s2. simpl in L. rewrite L1 in L.
    rewrite <- !app_assoc in L. apply app_inv_head in L.
    symmetry. exact L. }
  assert (Hin1 : In (mkEvent (CKill p) (Some e)) evs1).
  { rewrite Hevs in Hin. apply in_app_or in Hin.
    destruct Hin as [Hin|[Hin|Hin]]; [exact Hin | discriminate Hin|].
    rewrite Forall_forall in F2. apply F2 in Hin. discriminate Hin. }
  assert (Ht : In (Some (pid p)) (terminated r1)) by (eapply V; eassumption).
  split; [rewrite T2; exact Ht|].
  intros Hn Hk'. apply K2 in Hk'. rewrite K1 in Hk'. tauto.
Qed.

End TerminatorBuckets.

Section TerminatorRun.
Context {W : Type} {H : Host W}.

(** The graceful phase only adds to [failed], and only pids of the handles
    it signals. *)
Lemma graceful_phase_spec (all_procs : list Process) result (s : St W)
  result' s' :
  graceful_phase all_procs result s = (Ok result', s') ->
  terminated result' = terminated result /\
  killed result' = killed result /\
  incl (failed result) (failed result') /\
  (forall x, In x (map fst (failed result')) ->
     In x (map fst (failed result)) \/ In x (map getattr_pid all_procs)).
Proof.
  unfold graceful_phase. intros E.
  refine (for_each_invariant
            (fun acc =>
               terminated acc = terminated result /\
               killed acc = killed result /\
               incl (failed result) (failed acc) /\
               (forall x, In x (map fst (failed acc)) ->
                  In x (map fst (failed result)) \/
                  In x (map getattr_pid all_procs)))
            all_procs _ _ result s result' s' _ E).
  - intros p acc t acc' t' Hp [T [K [F P]]] E'.
    rewrite graceful_turn_eq in E'. inversion E' as [[R S]]; clear E' S.
    subst acc'.
    destruct (fst (proc_terminate p (world t))) as [u|e]; simpl.
    + repeat split; assumption.
    + repeat split; try assumption.
      * apply incl_appl. exact F.
      * intros x Hx. rewrite map_app in Hx. apply in_app_or in Hx.
        destruct Hx as [Hx|[<-|[]]]; [apply P; exact Hx|].
        right. simpl. apply (in_map getattr_pid). exact Hp.
  - repeat split; auto using incl_refl.
Qed.

Lemma escalation_phase_nil result (s : St W) :
  escalation_phase [] result s = (Ok result, s).
Proof. reflexivity. Qed.

(** A forced kill that raised [NoSuchProcess] in the escalation phase. *)
Lemma escalation_phase_vanished (alive : list Process) result (s : St W)
  result' s' evs p e :
  escalation_phase alive result s = (Ok result', s') ->
  log s' = log s ++ evs ->
  In (mkEvent (CKill p) (Some e)) evs -> kind e = NoSuchProcess ->
  In (Some (pid p)) (terminated result') /\
  (~ In (Some (pid p)) (killed result) ->
   ~ In (Some (pid p)) (killed result')).
Proof.
  destruct alive as [|a alive'].
  - rewrite escalation_phase_nil. intros E L Hin _. inversion E; subst.
    rewrite <- (app_nil_r (log s')) in L at 1. apply app_inv_head in L.
    subst evs. destruct Hin.
  - intros E L Hin Hk.
    exact (force_kill_spec _ _ _ _ _ _ E L p e Hin Hk).
Qed.

(** The stages of a signalling run that returned. *)
Lemma signal_tree_inv (all_procs : list Process) timeout result (s : St W)
  raw s' :
  signal_tree all_procs timeout result s = (Ok raw, s') ->
  exists r1 s1 gone alive s2 evs evs',
    graceful_phase all_procs result s = (Ok r1, s1) /\
    wait_phase all_procs timeout s1 = (Ok (gone, alive), s2) /\
    escalation_phase alive (record_gone gone r1) s2 = (Ok raw, s') /\
    log s2 = log s ++ evs /\
    Forall (fun ev => is_kill (ev_call ev) = false) evs /\
    log s' = log s2 ++ evs'.
Proof.
  unfold signal_tree. intros E.
  apply bind_inv in E. destruct E as [r1 [s1 [E1 E2]]].
  apply bind_inv in E2. destruct E2 as [[gone alive] [s2 [E2 E3]]].
  destruct (graceful_phase_calls all_procs result s)
    as [r1' [s1' [evs1 [E1' [L1 C1]]]]].
  rewrite E1 in E1'. inversion E1'; subst r1' s1'; clear E1'.
  destruct (wait_phase_log all_procs timeout s1) as [ev [evs2 [L2 [C2 F2]]]].
  rewrite E2 in L2. simpl in L2.
  destruct (escalation_phase_log alive (record_gone gone r1) s2)
    as [r3 [s3 [evs3 [E3' [L3 _]]]]].
  rewrite E3 in E3'. inversion E3'; subst r3 s3; clear E3'.
  exists r1, s1, gone, alive, s2, (evs1 ++ ev :: evs2), evs3.
  repeat split; try assumption.
  - rewrite L2, L1, <- app_assoc. reflexivity.
  - apply Forall_app. split.
    + apply Forall_forall. intros x Hx.
      assert (Hc : In (ev_call x) (map ev_call evs1)) by (apply in_map; exact Hx).
      rewrite C1 in Hc. apply in_map_iff in Hc. destruct Hc as [q [<- _]].
      reflexivity.
    + constructor; [rewrite C2; reflexivity|].
      eapply Forall_impl; [|exact F2]. intros x Hx. cbv beta in Hx.
      destruct (ev_call x); try reflexivity; discriminate Hx.
Qed.

(** A run that returned after resolving its root. *)
Lemma terminate_process_tree_inv root timeout (w : W) input out s' ct :
  terminate_process_tree root timeout (init w input) = (Ok out, s') ->
  fst (psutil_Process root w) = Ok ct ->
  exists resolved s1 raw evs,
    collect_tree (mkProcess root ct) (after_Process root (init w input)) =
      (Ok (resolved ++ [mkProcess root ct]), s1) /\
    signal_tree (resolved ++ [mkProcess root ct]) timeout empty_outcome s1 =
      (Ok raw, s') /\
    out = clean_lists raw /\
    log s1 = evs /\
    Forall (fun ev => is_kill (ev_call ev) = false) evs /\
    (forall p, In p resolved ->
       match fst (proc_children (mkProcess root ct)
                    (snd (psutil_Process root w))) with
       | Ok cs => In (pid p) (map pid cs)
       | Raise _ => False
       end).
Proof.
  intros E R. rewrite terminate_process_tree_eq in E. simpl world in E.
  rewrite R in E.
  destruct (collect_tree_spec (mkProcess root ct)
              (after_Process root (init w input)))
    as [resolved [s1 [evs [C [L [F P]]]]]].
  rewrite (terminate_resolved_eq _ _ _ _ _ _ C) in E.
  destruct (signal_tree _ _ _ s1) as [[raw|e] s2] eqn:Sg; inversion E; subst.
  exists resolved, s1, raw, (log s1).
  repeat split; try assumption; try reflexivity.
  rewrite L. unfold after_Process. simpl.
  constructor; [reflexivity|].
  eapply Forall_impl; [|exact F]. intros ev [Hs _].
  unfold is_signal in Hs. apply orb_false_iff in Hs. tauto.
Qed.

End TerminatorRun.

(** C4: a handle whose forced kill raises [NoSuchProcess] is credited to
    the graceful phase.  In the escalation phase its pid is appended to
    [terminated] and is not added to [killed]; in the outcome the call
    returns its pid is not in [killed], and it is in [terminated] whenever
    it survives the final cleanup, that is, whenever it is not 0. *)
Theorem vanished_at_kill_is_terminated :
  forall (W : Type) (H : Host W),
    (forall (alive : list Process) (result : Outcome) (s : St W)
            (result' : Outcome) (s' : St W) (evs : list event)
            (p : Process) (e : exn),
       escalation_phase alive result s = (Ok result', s') ->
       log s' = log s ++ evs ->
       In (mkEvent (CKill p) (Some e)) evs ->
       kind e = NoSuchProcess ->
       In (Some (pid p)) (terminated result') /\
       (~ In (Some (pid p)) (killed result) ->
        ~ In (Some (pid p)) (killed result'))) /\
    (forall (w : W) (input : list string) (root : Z) (timeout : Q)
            (out : Outcome) (s' : St W) (p : Process) (e : exn),
       terminate_process_tree root timeout (init w input) = (Ok out, s') ->
       In (mkEvent (CKill p) (Some e)) (log s') ->
       kind e = NoSuchProcess ->
       ~ In (Some (pid p)) (killed out) /\
       (pid p <> 0 -> In (Some (pid p)) (terminated out))).
Proof.
  intros W H. split.
  - intros alive result s result' s' evs p e.
    apply escalation_phase_vanished.
  - intros w input root timeout out s' p e E Hin Hk.
    destruct (fst (psutil_Process root w)) as [ct|e0] eqn:R.
    + destruct (terminate_process_tree_inv root timeout w input out s' ct E R)
        as [resolved [s1 [raw [evs1 [_ [Sg [-> [L1 [F1 _]]]]]]]]].
      destruct (signal_tree_inv _ _ _ _ _ _ Sg)
        as [r1 [s1' [gone [alive [s2 [evs [evs' [G [_ [Es [L2 [F2 L3]]]]]]]]]]]].
      assert (Hin' : In (mkEvent (CKill p) (Some e)) evs').
      { rewrite L3, L2, L1 in Hin.
        apply in_app_or in Hin. destruct Hin as [Hin|Hin]; [|exact Hin].
        apply in_app_or in Hin. destruct Hin as [Hin|Hin].
        - rewrite Forall_forall in F1. apply F1 in Hin. discriminate Hin.
        - rewrite Forall_forall in F2. apply F2 in Hin. discriminate Hin. }
      destruct (escalation_phase_vanished _ _ _ _ _ _ _ _ Es L3 Hin' Hk)
        as [T K].
      destruct (graceful_phase_spec _ _ _ _ _ G) as [_ [K1 _]].
      split.
      * intros Hc. apply clean_killed_In in Hc. destruct Hc as [Hc _].
        apply K; [|exact Hc]. rewrite record_gone_eq. simpl.
        rewrite K1. simpl. tauto.
      * intros Hp. apply clean_terminated_In. split; [exact T|].
        apply pyint_truthy_some, Hp.
    + exfalso.
      destruct (terminate_unresolved w input root timeout e0 R)
        as [s0 [E0 C0]].
      rewrite E in E0. inversion E0; subst s0.
      assert (Hc : In (CKill p) (calls s'))
        by (apply (in_map ev_call) in Hin; exact Hin).
      rewrite C0 in Hc. destruct Hc as [Hc|[]]. discriminate Hc.
Qed.

Lemma vanished_at_kill_is_terminated_witness :
  ~ In (Some 100) (killed (mkOutcome [Some 100] [] [])) /\
  (100 <> 0 -> In (Some 100) (terminated (mkOutcome [Some 100] [] []))).
Proof.
  apply (proj2 (vanished_at_kill_is_terminated Script Script_Host)
           gone_at_kill [] 100 5%Q (mkOutcome [Some 100] [] [])
           (snd (terminate_process_tree 100 5%Q (init gone_at_kill [])))
           (mkProcess 100 1) (no_such_process 100)).
  - vm_compute. reflexivity.
  - vm_compute. right. right. right. right. left. reflexivity.
  - reflexivity.
Defined.

(** ** The terminator: which pids the buckets hold *)

Lemma bucket_pids_In o x :
  In x (bucket_pids o) <->
  In x (terminated o) \/ In x (killed o) \/ In x (map fst (failed o)).
Proof. unfold bucket_pids. rewrite !in_app_iff. tauto. Qed.

Lemma grows_within_refl ps r : grows_within ps r r.
Proof. unfold grows_within. auto using incl_refl. Qed.

Lemma grows_within_trans ps r1 r2 r3 :
  grows_within ps r1 r2 -> grows_within ps r2 r3 -> grows_within ps r1 r3.
Proof.
  intros [T1 [K1 [F1 P1]]] [T2 [K2 [F2 P2]]].
  repeat split; try (eapply incl_tran; eassumption).
  intros x Hx. apply P2 in Hx. destruct Hx as [Hx|Hx]; auto.
Qed.

Lemma grows_within_incl ps ps' r r' :
  incl ps ps' -> grows_within ps r r' -> grows_within ps' r r'.
Proof.
  intros I [T [K [F P]]]. repeat split; try assumption.
  intros x Hx. apply P in Hx. destruct Hx as [Hx|Hx]; [auto|].
  right. apply in_map_iff in Hx. destruct Hx as [p [<- Hp]].
  apply in_map, I, Hp.
Qed.

Lemma grows_within_terminated ps r p :
  In p ps -> grows_within ps r (append_terminated r (getattr_pid p)).
Proof.
  intros Hp. repeat split; simpl; auto using incl_refl, incl_appl.
  intros x Hx. apply bucket_pids_In in Hx. simpl in Hx.
  rewrite in_app_iff in Hx. rewrite bucket_pids_In.
  destruct Hx as [[Hx|[<-|[]]]|[Hx|Hx]]; auto.
  right. apply in_map, Hp.
Qed.

Lemma grows_within_killed ps r p :
  In p ps -> grows_within ps r (append_killed r (Some (pid p))).
Proof.
  intros Hp. repeat split; simpl; auto using incl_refl, incl_appl.
  intros x Hx. apply bucket_pids_In in Hx. simpl in Hx.
  rewrite in_app_iff in Hx. rewrite bucket_pids_In.
  destruct Hx as [Hx|[[Hx|[<-|[]]]|Hx]]; auto.
  right. apply (in_map getattr_pid), Hp.
Qed.

Lemma grows_within_failed ps r p msg :
  In p ps -> grows_within ps r (append_failed r (getattr_pid p, msg)).
Proof.
  intros Hp. repeat split; simpl; auto using incl_refl, incl_appl.
  intros x Hx. apply bucket_pids_In in Hx. simpl in Hx.
  rewrite map_app, in_app_iff in Hx. rewrite bucket_pids_In.
  destruct Hx as [Hx|[Hx|[Hx|[<-|[]]]]]; auto.
  right. simpl. apply (in_map getattr_pid), Hp.
Qed.

Lemma record_gone_grows ps gone r :
  incl gone ps -> grows_within ps r (record_gone gone r).
Proof.
  intros I. rewrite record_gone_eq.
  repeat split; simpl; auto using incl_refl, incl_appl.
  intros x Hx. apply bucket_pids_In in Hx. simpl in Hx.
  rewrite in_app_iff in Hx. rewrite bucket_pids_In.
  destruct Hx as [[Hx|Hx]|[Hx|Hx]]; auto.
  right. apply in_map_iff in Hx. destruct Hx as [p [<- Hp]].
  apply (in_map getattr_pid), I, Hp.
Qed.

Lemma record_alive2_grows ps alive2 r :
  incl alive2 ps -> grows_within ps r (record_alive2 alive2 r).
Proof.
  intros I. rewrite record_alive2_eq.
  repeat split; simpl; auto using incl_refl, incl_appl.
  intros x Hx. apply bucket_pids_In in Hx. simpl in Hx.
  rewrite map_app, in_app_iff, map_map in Hx. rewrite bucket_pids_In.
  destruct Hx as [Hx|[Hx|[Hx|Hx]]]; auto.
  right. simpl in Hx. apply in_map_iff in Hx. destruct Hx as [p [<- Hp]].
  apply in_map, I, Hp.
Qed.

Lemma record_gone2_grows ps gone2 r :
  incl gone2 ps -> grows_within ps r (record_gone2 gone2 r).
Proof.
  intros I. destruct (record_gone2_spec gone2 r) as [T [F [K [K' _]]]].
  repeat split.
  - rewrite T. apply incl_refl.
  - exact K.
  - rewrite F. apply incl_refl.
  - intros x Hx. apply bucket_pids_In in Hx. rewrite T, F in Hx.
    rewrite bucket_pids_In. destruct Hx as [Hx|[Hx|Hx]]; auto.
    apply K' in Hx. destruct Hx as [Hx|[Hx _]]; auto.
    right. apply in_map_iff in Hx. destruct Hx as [p [<- Hp]].
    apply in_map, I, Hp.
Qed.

Section TerminatorWithin.
Context {W : Type} {H : Host W}.

Lemma graceful_phase_grows (all_procs : list Process) result (s : St W)
  result' s' :
  graceful_phase all_procs result s = (Ok result', s') ->
  grows_within all_procs result result'.
Proof.
  intros E. destruct (graceful_phase_spec _ _ _ _ _ E) as [T [K [F P]]].
  repeat split.
  - rewrite T. apply incl_refl.
  - rewrite K. apply incl_refl.
  - exact F.
  - intros x Hx. apply bucket_pids_In in Hx. rewrite T, K in Hx.
    rewrite bucket_pids_In. destruct Hx as [Hx|[Hx|Hx]]; auto.
    apply P in Hx. tauto.
Qed.

Lemma kill_loop_grows (alive : list Process) result (s : St W) result' s' :
  kill_loop alive result s = (Ok result', s') ->
  grows_within alive result result'.
Proof.
  unfold kill_loop. intros E.
  refine (for_each_invariant (fun acc => grows_within alive result acc)
            alive _ _ result s result' s' _ E).
  - intros p acc t acc' t' Hp G E'.
    rewrite kill_turn_eq in E'. inversion E' as [[R S]]; clear E' S.
    subst acc'. eapply grows_within_trans; [exact G|].
    destruct (fst (proc_kill p (world t))) as [u|e];
      [apply grows_within_refl|].
    destruct (is_kind NoSuchProcess e).
    + apply grows_within_terminated, Hp.
    + apply grows_within_failed, Hp.
  - apply grows_within_refl.
Qed.

End TerminatorWithin.

Lemma clean_bucket_pids_incl raw x :
  In x (bucket_pids (clean_lists raw)) -> In x (bucket_pids raw).
Proof.
  rewrite !bucket_pids_In. intros [Hx|[Hx|Hx]].
  - apply clean_terminated_In in Hx. tauto.
  - apply clean_killed_In in Hx. tauto.
  - apply in_map_iff in Hx. destruct Hx as [[y msg] [<- Hy]].
    apply clean_failed_In in Hy. destruct Hy as [Hy _]. right. right.
    apply (in_map fst) in Hy. exact Hy.
Qed.

Lemma clean_bucket_pids_keep raw x :
  In x (bucket_pids raw) -> pyint_truthy x = true ->
  In x (bucket_pids (clean_lists raw)).
Proof.
  rewrite !bucket_pids_In. intros Hx Tx.
  destruct Hx as [Hx|[Hx|Hx]].
  - left. apply clean_terminated_In. auto.
  - destruct (pyint_in x (terminated (clean_lists raw))) eqn:Et.
    + left. apply pyint_in_In, Et.
    + right. left. apply clean_killed_In.
      apply pyint_in_not_In in Et. auto.
  - right. right. apply in_map_iff in Hx. destruct Hx as [[y msg] [E Hy]].
    simpl in E. subst y. apply in_map_iff. exists (x, msg).
    split; [reflexivity | apply clean_failed_In; auto].
Qed.

Example run_exited_and_stubborn :
  fst (terminate_process_tree 100 5%Q (init exited_and_stubborn [])) =
  Ok (mkOutcome [Some 101; Some 100] [Some 102]
        [(Some 101, "terminate error: process no longer exists (pid=101)")]).
Proof. vm_compute. reflexivity. Qed.

Lemma Tame_wait_procs_split ps t (w : Tame) gone alive w' :
  psutil_wait_procs ps t w = (Ok (gone, alive), w') ->
  incl gone ps /\ incl alive ps /\
  (forall p, In p ps -> In p gone \/ In p alive).
Proof.
  cbn. destruct (Qle_bool 0 t); [|discriminate].
  destruct (Qeq_bool t kill_wait_timeout).
  - intros E. inversion E; subst. repeat split; auto using incl_refl.
    intros p [].
  - destruct (partition (fun p => negb (mem_pid (tame_stubborn w) p)) ps)
      as [g a] eqn:P.
    intros E. inversion E; subst.
    pose proof (elements_in_partition _ _ P) as Hp.
    repeat split.
    + intros p Hi. apply Hp. auto.
    + intros p Hi. apply Hp. auto.
    + intros p Hi. apply Hp, Hi.
Qed.

Lemma Tame_wait_procs_sound : @wait_procs_sound Tame Tame_Host.
Proof.
  intros ps t w gone alive w' E.
  destruct (Tame_wait_procs_split ps t w gone alive w' E) as [Ig [Ia _]].
  auto.
Qed.

Lemma Tame_wait_procs_complete : @wait_procs_complete Tame Tame_Host.
Proof.
  intros ps t w gone alive w' E.
  exact (proj2 (proj2 (Tame_wait_procs_split ps t w gone alive w' E))).
Qed.

(** C1, as stated, fails on two counts, and this on a host whose
    [wait_procs] keeps psutil's contract.  A child that has exited before
    it is sent the graceful request is recorded in [failed] (the request
    raised) and in [terminated] (the wait found it gone): the buckets are
    not disjoint.  And when the primary wait raises, as it does for a
    negative timeout, the handles found not running are followed up no
    further: the root and a child were resolved and are in no bucket. *)
Lemma failed_overlaps_terminated :
  wait_procs_sound (W := Tame) /\ wait_procs_complete (W := Tame) /\
  (exists out s',
     terminate_process_tree 100 5%Q (init exited_and_stubborn []) =
       (Ok out, s') /\
     ~ pairwise_disjoint out) /\
  (exists out s',
     terminate_process_tree 100 (-1) (init exited_and_stubborn []) =
       (Ok out, s') /\
     fst (discover 100 (init exited_and_stubborn [])) =
       Ok [mkProcess 101 1; mkProcess 102 1; mkProcess 100 1] /\
     ~ In (Some 100) (bucket_pids out) /\
     ~ In (Some 102) (bucket_pids out)).
Proof.
  split; [exact Tame_wait_procs_sound|].
  split; [exact Tame_wait_procs_complete|]. split.
  - eexists. eexists. split; [vm_compute; reflexivity|].
    intros [_ [D _]]. apply (D (Some 101)); simpl; auto.
  - eexists. eexists. split; [vm_compute; reflexivity|].
    split; [vm_compute; reflexivity|].
    split; cbn; intros [E|[]]; discriminate E.
Qed.

(** ** The snapshot provider *)

Section SnapshotFacts.
Context {W : Type} {H : Host W}.

(** The body of the outer [try] never raises: both reads are guarded. *)
Lemma snapshot_entry_eq (p : Process) (info : Info) (s : St W) :
  exists s',
    snapshot_entry p info s = (Ok (fst (read_entry p info (world s))), s') /\
    world s' = snd (read_entry p info (world s)).
Proof.
  unfold snapshot_entry, read_entry, bind.
  rewrite try_eq, host_eq. cbn [fst snd]. rewrite try_eq, host_eq.
  cbn [fst snd world].
  destruct (proc_cpu_percent p (world s)) as [r1 w1]. cbn [fst snd].
  destruct (proc_threads p w1) as [r2 w2]. cbn [fst snd].
  eexists. split; reflexivity.
Qed.

(** One turn of the second loop. *)
Lemma snapshot_turn_eq (p : Process) (info : Info) procs (s : St W) :
  exists s',
    bind (try_ (snapshot_entry p info))
      (fun r =>
         match r with
         | Ok entry => ret (procs ++ [entry])
         | Raise e =>
             if is_kind NoSuchProcess e || is_kind AccessDenied e
             then ret procs else raise e
         end) s =
    (Ok (procs ++ [fst (read_entry p info (world s))]), s') /\
    world s' = snd (read_entry p info (world s)).
Proof.
  destruct (snapshot_entry_eq p info s) as [s' [E Ew]].
  exists s'. unfold bind. rewrite try_eq, E. simpl. auto.
Qed.

Lemma snapshot_loop_eq (ps : list (Process * Info)) :
  forall procs (s : St W),
    exists s',
      for_each ps
        (fun '(p, info) procs =>
           bind (try_ (snapshot_entry p info))
             (fun r =>
                match r with
                | Ok entry => ret (procs ++ [entry])
                | Raise e =>
                    if is_kind NoSuchProcess e || is_kind AccessDenied e
                    then ret procs else raise e
                end))
        procs s =
      (Ok (procs ++ read_all ps (world s)), s').
Proof.
  induction ps as [|[p info] ps IH]; intros procs s.
  - exists s. cbn [for_each read_all]. rewrite app_nil_r. reflexivity.
  - cbn [for_each read_all].
    destruct (snapshot_turn_eq p info procs s) as [s1 [E1 Ew]].
    rewrite (bind_ok _ _ _ _ _ E1).
    destruct (IH (procs ++ [fst (read_entry p info (world s))]) s1)
      as [s2 E2].
    exists s2. rewrite E2, Ew.
    destruct (read_entry p info (world s)) as [entry w']. cbn [fst snd].
    rewrite <- app_assoc. reflexivity.
Qed.

Lemma snapshot_all_eq (ps : list (Process * Info)) (s : St W) :
  exists s', snapshot_all ps s = (Ok (read_all ps (world s)), s').
Proof.
  destruct (snapshot_loop_eq ps [] s) as [s' E]. exists s'. exact E.
Qed.

Lemma read_all_pids (ps : list (Process * Info)) (w : W) :
  map entry_pid (read_all ps w) =
  map (fun pi => match info_pid (snd pi) with Some z => z | None => 0 end) ps.
Proof.
  revert w. induction ps as [|[p info] ps IH]; intros w; cbn [read_all map].
  - reflexivity.
  - unfold read_entry.
    destruct (proc_cpu_percent p w) as [r1 w1].
    destruct (proc_threads p w1) as [r2 w2].
    cbn [map]. rewrite IH. reflexivity.
Qed.

Lemma warm_up_returns (s : St W) : exists s1, warm_up s = (Ok tt, s1).
Proof.
  assert (R : returns warm_up).
  { unfold warm_up. apply returns_bind; [apply returns_host_total|].
    intros ps. apply returns_bind; [|intros; apply returns_host_total].
    apply returns_for_each. intros [p info] acc.
    apply returns_bind; [apply returns_try | intros; apply returns_ret]. }
  destruct (R s) as [[] [s1 E]]. exists s1. exact E.
Qed.

End SnapshotFacts.

(** C7, as the code has it: the snapshot never raises, and it returns one
    entry for every process the second enumeration yields, in order.  A
    failed CPU sample or thread listing (the process vanished, access was
    denied) is swallowed and replaced by its default, 0.0 or the empty
    list, and the process is still returned. *)
Theorem snapshot_returns_every_process :
  forall (W : Type) (H : Host W) (s : St W),
    exists s1,
      warm_up s = (Ok tt, s1) /\
      exists entries s',
        fetch_processes_real_time s = (Ok entries, s') /\
        entries =
          read_all (fst (psutil_process_iter (world s1)))
                   (snd (psutil_process_iter (world s1))) /\
        map entry_pid entries =
          map (fun pi => match info_pid (snd pi) with
                         | Some z => z | None => 0 end)
              (fst (psutil_process_iter (world s1))).
Proof.
  intros W H s. destruct (warm_up_returns s) as [s1 E1].
  exists s1. split; [exact E1|].
  unfold fetch_processes_real_time. rewrite (bind_ok _ _ _ _ _ E1).
  unfold bind, host_total. rewrite host_eq. cbn [fst snd].
  destruct (psutil_process_iter (world s1)) as [ps w2]. cbn [fst snd].
  set (s2 := mkSt _ _ _).
  destruct (snapshot_all_eq ps s2) as [s' E2].
  exists (read_all ps w2), s'. split; [exact E2|].
  split; [reflexivity | apply read_all_pids].
Qed.

(** C7, as stated, fails: a process that exits after the enumeration has
    yielded it, so that reading its threads raises [NoSuchProcess], is not
    left out of the snapshot. *)
Lemma vanished_process_is_kept : ~ omits_failed_reads vanishing_process.
Proof.
  intros O.
  assert (R : fetch_processes_real_time (init vanishing_process []) =
              (Ok [mkEntry 7 "worker" (Some "alice") 0%Q 1048576 "1.0 MB"
                     "User" (Some "/usr/bin/worker") ["worker"] []],
               snd (fetch_processes_real_time (init vanishing_process []))))
    by (vm_compute; reflexivity).
  assert (T : In (mkEvent (CThreads (mkProcess 7 1))
                    (Some (no_such_process 7)))
                 (log (snd (fetch_processes_real_time
                              (init vanishing_process [])))))
    by (vm_compute; do 5 right; left; reflexivity).
  refine (O _ _ R (mkProcess 7 1) (no_such_process 7) T
            (or_introl eq_refl) _).
  simpl. left. reflexivity.
Qed.

(** ** The port probe *)

Lemma dict_set_keys d k v x :
  In x (map fst (dict_set d k v)) <-> In x (map fst d) \/ x = k.
Proof.
  induction d as [|[k' v'] d IH]; simpl.
  - intuition auto.
  - destruct (k' =? k) eqn:E; simpl.
    + apply Z.eqb_eq in E. subst k'. intuition auto.
    + rewrite IH. intuition auto.
Qed.

Lemma dict_set_NoDup d k v :
  NoDup (map fst d) -> NoDup (map fst (dict_set d k v)).
Proof.
  induction d as [|[k' v'] d IH]; simpl; intros N.
  - constructor; [intros [] | constructor].
  - inversion N as [|? ? Hn N']; subst.
    destruct (k' =? k) eqn:E; simpl.
    + apply Z.eqb_eq in E. subst k'. constructor; assumption.
    + apply Z.eqb_neq in E. constructor; [|apply IH, N'].
      rewrite dict_set_keys. intros [Hin|Heq]; [contradiction | congruence].
Qed.

Lemma dict_set_values d k v :
  (forall k' v', In (k', v') d -> pid v' = k') -> pid v = k ->
  forall k' v', In (k', v') (dict_set d k v) -> pid v' = k'.
Proof.
  induction d as [|[k0 v0] d IH]; simpl; intros Hd Hv k' v' Hin.
  - destruct Hin as [Hin|[]]. inversion Hin; subst. reflexivity.
  - destruct (k0 =? k) eqn:E; simpl in Hin.
    + destruct Hin as [Hin|Hin]; [inversion Hin; subst; reflexivity|].
      apply Hd. right. exact Hin.
    + destruct Hin as [Hin|Hin].
      * apply Hd. left. exact Hin.
      * apply IH; auto.
Qed.

Lemma dedupe_fold procs :
  forall d,
    NoDup (map fst d) ->
    (forall k v, In (k, v) d -> pid v = k) ->
    let d' := fold_left (fun unique p => dict_set unique (pid p) p) procs d in
    NoDup (map fst d') /\
    (forall k v, In (k, v) d' -> pid v = k) /\
    (forall x, In x (map fst d') <-> In x (map fst d) \/ In x (map pid procs)).
Proof.
  induction procs as [|p procs IH]; intros d N V; simpl.
  - repeat split; auto. intros [Hx|[]]. exact Hx.
  - destruct (IH (dict_set d (pid p) p)) as [N' [V' K']].
    + apply dict_set_NoDup, N.
    + apply dict_set_values; auto.
    + repeat split; auto.
      * intros Hx. apply K' in Hx. rewrite dict_set_keys in Hx.
        intuition auto.
      * intros Hx. apply K'. rewrite dict_set_keys. intuition auto.
Qed.

Lemma values_pids (d : list (Z * Process)) :
  (forall k v, In (k, v) d -> pid v = k) ->
  map pid (map snd d) = map fst d.
Proof.
  induction d as [|[k v] d IH]; simpl; intros V; [reflexivity|].
  rewrite IH by (intros k' v' Hin; apply V; right; exact Hin).
  rewrite (V k v) by (left; reflexivity). reflexivity.
Qed.

(** Deduplication keeps one handle per pid and loses no pid. *)
Lemma dedupe_by_pid_spec procs :
  NoDup (map pid (dedupe_by_pid procs)) /\
  (forall n, In n (map pid (dedupe_by_pid procs)) <-> In n (map pid procs)).
Proof.
  unfold dedupe_by_pid.
  destruct (dedupe_fold procs []) as [N [V K]].
  - constructor.
  - intros k v [].
  - rewrite (values_pids _ V). split; [exact N|].
    intros n. rewrite K. simpl. tauto.
Qed.

Section PortProbeFacts.
Context {W : Type} {H : Host W}.

(** One turn of the scan. *)
Lemma scan_turn_eq (conn : sconn) (port : Z) procs (s : St W) :
  bind (try_ (match conn_match conn port with
              | Some n => bind (Process_ n) (fun p => ret (procs ++ [p]))
              | None => ret procs
              end))
       (fun r => match r with
                 | Ok procs' => ret procs'
                 | Raise _ => ret procs
                 end) s =
  match conn_match conn port with
  | None => (Ok procs, s)
  | Some n =>
      (Ok (match fst (psutil_Process n (world s)) with
           | Ok ct => procs ++ [mkProcess n ct]
           | Raise _ => procs
           end),
       after_Process n s)
  end.
Proof.
  unfold bind at 1. rewrite try_eq.
  destruct (conn_match conn port) as [n|]; [|reflexivity].
  unfold bind. rewrite Process_eq. unfold after_Process.
  destruct (fst (psutil_Process n (world s))); reflexivity.
Qed.

(** The scan resolves the pid of every matching connection, in table
    order, and keeps a handle for those that resolve. *)
Lemma scan_loop_spec (port : Z) (conns : list sconn) :
  forall procs (s : St W),
    exists procs' s' evs,
      for_each conns
        (fun conn procs =>
           bind (try_ (match conn_match conn port with
                       | Some n =>
                           bind (Process_ n) (fun p => ret (procs ++ [p]))
                       | None => ret procs
                       end))
                (fun r => match r with
                          | Ok procs' => ret procs'
                          | Raise _ => ret procs
                          end))
        procs s = (Ok procs', s') /\
      log s' = log s ++ evs /\
      map ev_call evs = map CProcess (matching_pids conns port) /\
      (forall n, In n (map pid procs') <->
                 In n (map pid procs) \/ In (mkEvent (CProcess n) None) evs).
Proof.
  induction conns as [|conn conns IH]; intros procs s.
  - exists procs, s, []. cbn [for_each]. rewrite app_nil_r.
    repeat split; auto. intros [Hn|[]]. exact Hn.
  - cbn [for_each matching_pids].
    rewrite (bind_ok _ _ _ _ _ (eq_refl : _ = (_, _)))
      || idtac.
    pose proof (scan_turn_eq conn port procs s) as T.
    destruct (conn_match conn port) as [n|].
    + rewrite (bind_ok _ _ _ _ _ T).
      set (procs1 := match fst (psutil_Process n (world s)) with
                     | Ok ct => procs ++ [mkProcess n ct]
                     | Raise _ => procs
                     end).
      destruct (IH procs1 (after_Process n s))
        as [procs' [s' [evs [E [L [C P]]]]]].
      exists procs', s',
        (mkEvent (CProcess n) (raised (fst (psutil_Process n (world s))))
         :: evs).
      split; [exact E|]. split.
      { rewrite L. unfold after_Process. simpl. rewrite <- app_assoc.
        reflexivity. }
      split; [simpl; rewrite C; reflexivity|].
      intros m. rewrite P. subst procs1. simpl.
      destruct (fst (psutil_Process n (world s))) as [ct|e]; simpl.
      * rewrite map_app, in_app_iff. simpl. split.
        -- intros [[Hm|[Hm|[]]]|Hm]; auto. subst m. auto.
        -- intros [Hm|[Hm|Hm]]; auto.
           inversion Hm; subst. auto.
      * split.
        -- intros [Hm|Hm]; auto.
        -- intros [Hm|[Hm|Hm]]; auto. discriminate Hm.
    + rewrite (bind_ok _ _ _ _ _ T). apply IH.
Qed.

Lemma scan_connections_eq (port : Z) (s : St W) :
  scan_connections port s =
  match fst (psutil_net_connections (world s)) with
  | Ok conns =>
      for_each conns
        (fun conn procs =>
           bind (try_ (match conn_match conn port with
                       | Some n =>
                           bind (Process_ n) (fun p => ret (procs ++ [p]))
                       | None => ret procs
                       end))
                (fun r => match r with
                          | Ok procs' => ret procs'
                          | Raise _ => ret procs
                          end))
        []
        (mkSt (snd (psutil_net_connections (world s))) (stdin s)
              (log s ++ [mkEvent CNetConnections None]))
  | Raise e =>
      (Raise e,
       mkSt (snd (psutil_net_connections (world s))) (stdin s)
            (log s ++ [mkEvent CNetConnections (Some e)]))
  end.
Proof.
  unfold scan_connections, bind. rewrite host_eq.
  destruct (fst (psutil_net_connections (world s))); reflexivity.
Qed.

Lemma find_processes_using_port_eq (port : Z) (s : St W) :
  find_processes_using_port port s =
  (Ok (dedupe_by_pid
         match fst (scan_connections port
                      (mkSt (world s) (stdin s)
                         (log s ++ [mkEvent (CFindProcessesUsingPort port)
                                      None]))) with
         | Ok procs => procs
         | Raise _ => []
         end),
   snd (scan_connections port
          (mkSt (world s) (stdin s)
             (log s ++ [mkEvent (CFindProcessesUsingPort port) None])))).
Proof.
  unfold find_processes_using_port, bind, host_total. rewrite host_eq.
  cbn [fst snd raised]. rewrite try_eq. reflexivity.
Qed.

End PortProbeFacts.

(** C8, as the code has it: the lookup resolves the owning pid of every
    inet connection whose local port is the requested one and whose pid is
    not 0 or [None], and returns one handle per pid for exactly the pids
    that resolved; a connection whose owner cannot be resolved is skipped,
    and when the connection table cannot be read the result is empty.  With
    no matching connection the result is empty. *)
Theorem find_processes_using_port_spec :
  forall (W : Type) (H : Host W) (w : W) (input : list string) (port : Z),
    exists procs s',
      find_processes_using_port port (init w input) = (Ok procs, s') /\
      NoDup (map pid procs) /\
      match fst (psutil_net_connections w) with
      | Raise _ =>
          procs = [] /\
          calls s' = [CFindProcessesUsingPort port; CNetConnections]
      | Ok conns =>
          calls s' =
            CFindProcessesUsingPort port :: CNetConnections
              :: map CProcess (matching_pids conns port) /\
          (forall n, In n (map pid procs) <->
                     In (mkEvent (CProcess n) None) (log s')) /\
          (matching_pids conns port = [] -> procs = [])
      end.
Proof.
  intros W H w input port.
  rewrite find_processes_using_port_eq, scan_connections_eq.
  cbn [world stdin log init app].
  destruct (psutil_net_connections w) as [[conns|e] w1]; cbn [fst snd].
  - set (s1 := mkSt _ _ _).
    destruct (scan_loop_spec port conns [] s1)
      as [procs [s' [evs [E [L [C P]]]]]].
    rewrite E. cbn [fst snd].
    exists (dedupe_by_pid procs), s'.
    destruct (dedupe_by_pid_spec procs) as [N D].
    split; [reflexivity|]. split; [exact N|].
    split; [|split].
    + unfold calls. rewrite L. subst s1. simpl. rewrite C. reflexivity.
    + intros n. rewrite D, P, L. subst s1. simpl. split.
      * intros [[]|Hn]. right. right. exact Hn.
      * intros [Hn|[Hn|Hn]]; [discriminate Hn | discriminate Hn | auto].
    + intros Hm. rewrite Hm in C. destruct evs; [|discriminate C].
      destruct procs as [|p procs]; [reflexivity|].
      exfalso. destruct (P (pid p)) as [P1 _].
      destruct P1 as [[]|[]]. left. reflexivity.
  - eexists _, _. split; [reflexivity|].
    split; [constructor|]. split; reflexivity.
Qed.

(** C8, as stated, fails: pid 42 holds port 8080 and cannot be opened, so
    the lookup returns nothing for a port that has an owner. *)
Lemma unresolved_owner_is_skipped : ~ listeners_exact unreadable_owner 8080.
Proof.
  intros L.
  assert (R : find_processes_using_port 8080 (init unreadable_owner []) =
              (Ok [], snd (find_processes_using_port 8080
                             (init unreadable_owner []))))
    by (vm_compute; reflexivity).
  destruct (L [mkConn (Some ("0.0.0.0", 8080)) (Some 42)] [] _ eq_refl R 42)
    as [_ B].
  apply B. left. reflexivity.
Qed.

(** ** Operator input and the interactive flows *)

Section ConsoleFacts.
Context {W : Type} {H : Host W}.

Lemma log_grows {A} (P : call -> Prop) (m : M W A) :
  emits P m ->
  forall s ev, In ev (log s) -> In ev (log (snd (m s))).
Proof.
  intros Hm s ev Hin. destruct (Hm s) as [evs [L _]].
  rewrite L. apply in_or_app. left. exact Hin.
Qed.

Lemma emits_for_each_in {A S} P (l : list A) (body : A -> S -> M W S) :
  (forall x acc, In x l -> emits P (body x acc)) ->
  forall acc, emits P (for_each l body acc).
Proof.
  induction l as [|x l IH]; intros Hb acc; cbn [for_each].
  - apply emits_ret.
  - apply emits_bind.
    + apply Hb. left. reflexivity.
    + intros a. apply IH. intros y b Hy. apply Hb. right. exact Hy.
Qed.

Lemma emits_get_world P : emits (W := W) P get_world.
Proof. intros s. exists []. simpl. rewrite app_nil_r. auto. Qed.

Lemma emits_input P : P CInput -> emits (W := W) P input.
Proof.
  intros Pi s. unfold input. destruct (stdin s) as [|line rest]; simpl.
  - eexists. split; [reflexivity | repeat constructor; exact Pi].
  - eexists. split; [reflexivity | repeat constructor; exact Pi].
Qed.

Lemma emits_int P (str : string) : emits (W := W) P (int_ str).
Proof.
  unfold int_. destruct (int_of_string str); [apply emits_ret | apply emits_raise].
Qed.

(** The save menu only reads the console and writes the file. *)
Lemma emits_save_menu_turn P name :
  P CInput -> (forall f, P (CSave f)) -> emits P (save_menu_turn name).
Proof.
  intros Pi Ps. unfold save_menu_turn.
  apply emits_bind; [apply emits_input, Pi | intros line].
  destruct (String.eqb (strip line) "1").
  - apply emits_bind; [apply emits_input, Pi | intros line2].
    apply emits_bind; [apply emits_get_world | intros w].
    apply emits_bind.
    + apply emits_try. apply emits_bind; [apply emits_host, Ps|].
      intros _. apply emits_input, Pi.
    + intros [u|e]; [apply emits_ret|].
      apply emits_bind; [apply emits_input, Pi | intros; apply emits_ret].
  - destruct (String.eqb (strip line) "2"); apply emits_ret.
Qed.

Lemma emits_save_menu_loop P name turns :
  P CInput -> (forall f, P (CSave f)) -> emits P (save_menu_loop turns name).
Proof.
  intros Pi Ps. induction turns as [|turns IH]; cbn [save_menu_loop].
  - apply emits_raise.
  - apply emits_bind; [apply emits_save_menu_turn; assumption|].
    intros [u|]; [apply emits_ret | exact IH].
Qed.

Lemma emits_save_or_return_menu P name :
  P CInput -> (forall f, P (CSave f)) -> emits P (save_or_return_menu name).
Proof.
  intros Pi Ps s. unfold save_or_return_menu.
  apply (emits_save_menu_loop P name _ Pi Ps s).
Qed.

(** *** Every function only adds to the log *)

Lemma emits_any_Process n : emits any_call (Process_ n).
Proof.
  unfold Process_. apply emits_bind; [apply emits_host; exact I|].
  intros; apply emits_ret.
Qed.

Lemma emits_any_collect_tree parent : emits any_call (collect_tree parent).
Proof.
  unfold collect_tree.
  apply emits_bind; [apply emits_try, emits_host; exact I | intros r].
  apply emits_bind; [|intros; apply emits_ret].
  unfold resolve_children. apply emits_for_each. intros c acc.
  apply emits_bind; [apply emits_try, emits_any_Process|].
  intros [p|e]; apply emits_ret.
Qed.

Lemma emits_any_signal_tree all_procs timeout result :
  emits any_call (signal_tree all_procs timeout result).
Proof.
  unfold signal_tree. apply emits_bind.
  { unfold graceful_phase. apply emits_for_each. intros p acc.
    apply emits_bind; [apply emits_try, emits_host; exact I|].
    intros [u|e]; apply emits_ret. }
  intros r1. apply emits_bind.
  { unfold wait_phase.
    apply emits_bind; [apply emits_try, emits_host; exact I|].
    intros [ga|e]; [apply emits_ret|].
    apply emits_bind; [|intros; apply emits_ret].
    apply emits_filter_m. intros p. apply emits_host. exact I. }
  intros [gone alive]. unfold escalation_phase.
  destruct alive as [|a alive']; [apply emits_ret|].
  unfold force_kill. apply emits_bind.
  { unfold kill_loop. apply emits_for_each. intros p acc.
    apply emits_bind; [apply emits_try, emits_host; exact I|].
    intros [u|e]; [apply emits_ret|].
    destruct (is_kind NoSuchProcess e); apply emits_ret. }
  intros r2. apply emits_bind; [apply emits_try, emits_host; exact I|].
  intros [[gone2 alive2]|e2]; [apply emits_ret|].
  unfold rewait_fallback. apply emits_for_each. intros p acc.
  apply emits_bind; [apply emits_try, emits_host; exact I|].
  intros [[|]|e3]; try apply emits_ret.
  destruct (negb _); apply emits_ret.
Qed.

Lemma emits_any_terminate_process_tree root timeout :
  emits any_call (terminate_process_tree root timeout).
Proof.
  unfold terminate_process_tree.
  apply emits_bind; [apply emits_try, emits_any_Process|].
  intros [parent|e].
  - apply emits_bind; [|intros; apply emits_ret].
    unfold terminate_resolved.
    apply emits_bind; [apply emits_any_collect_tree|].
    intros all_procs. apply emits_any_signal_tree.
  - destruct (is_kind NoSuchProcess e); apply emits_ret.
Qed.

Lemma emits_any_scan_connections port : emits any_call (scan_connections port).
Proof.
  unfold scan_connections.
  apply emits_bind; [apply emits_host; exact I | intros conns].
  apply emits_for_each. intros conn procs.
  apply emits_bind; [|intros [procs'|e]; apply emits_ret].
  apply emits_try. destruct (conn_match conn port) as [n|]; [|apply emits_ret].
  apply emits_bind; [apply emits_any_Process | intros; apply emits_ret].
Qed.

Lemma emits_any_find_processes_using_port port :
  emits any_call (find_processes_using_port port).
Proof.
  unfold find_processes_using_port.
  apply emits_bind; [apply emits_host_total; exact I | intros _].
  apply emits_bind; [apply emits_try, emits_any_scan_connections|].
  intros; apply emits_ret.
Qed.

Lemma emits_any_describe_candidate p : emits any_call (describe_candidate p).
Proof.
  unfold describe_candidate.
  apply emits_bind; [apply emits_try, emits_host; exact I | intros r1].
  apply emits_bind; [apply emits_try, emits_host; exact I | intros r2].
  apply emits_bind; [apply emits_host; exact I | intros _].
  apply emits_bind; [apply emits_host; exact I | intros name].
  apply emits_bind; [apply emits_host; exact I | intros cmdline].
  apply emits_ret.
Qed.

(** What [free_port_interactive] does once it holds a port. *)
Lemma emits_any_free_port_tail port procs :
  emits any_call
    (match procs with
     | [] => ret tt
     | _ :: _ =>
         bind (for_each procs
                 (fun p candidates =>
                    bind (describe_candidate p)
                         (fun c => ret (candidates ++ [c])))
                 [])
           (fun candidates =>
              bind input
                (fun line =>
                   let confirm := lower (strip line) in
                   if negb (String.eqb confirm "y") then ret tt
                   else
                     bind (for_each candidates
                             (fun c total_summary =>
                                bind (terminate_process_tree (cand_pid c) 5%Q)
                                  (fun res =>
                                     ret (extend_summary total_summary res)))
                             empty_outcome)
                       (fun total_summary =>
                          bind (host_total (CSleep (3 # 10))
                                  (fun w => (tt, time_sleep (3 # 10) w)))
                            (fun _ =>
                               bind (find_processes_using_port port)
                                 (fun still =>
                                    save_or_return_menu
                                      ("port_" ++ string_of_Z port
                                       ++ "_processes")%string)))))
     end).
Proof.
  destruct procs as [|p0 procs']; [apply emits_ret|].
  apply emits_bind.
  { apply emits_for_each. intros p acc.
    apply emits_bind; [apply emits_any_describe_candidate|].
    intros; apply emits_ret. }
  intros candidates. apply emits_bind; [apply emits_input; exact I|].
  intros line. cbv zeta. destruct (negb _); [apply emits_ret|].
  apply emits_bind.
  { apply emits_for_each. intros c acc.
    apply emits_bind; [apply emits_any_terminate_process_tree|].
    intros; apply emits_ret. }
  intros total. apply emits_bind; [apply emits_host_total; exact I|].
  intros _. apply emits_bind; [apply emits_any_find_processes_using_port|].
  intros still. apply emits_save_or_return_menu; [exact I | intros; exact I].
Qed.

End ConsoleFacts.

Section InteractiveFacts.
Context {W : Type} {H : Host W}.

Lemma int_of_string_raises str e :
  int_of_string str = Raise e -> kind e = ValueError.
Proof.
  unfold int_of_string.
  destruct (match strip str with
            | EmptyString => (1, strip str)
            | String c rest =>
                if Ascii.eqb c "-" then (-1, rest)
                else if Ascii.eqb c "+" then (1, rest)
                else (1, strip str)
            end) as [sign digits].
  destruct (parse_digits digits 0 false); intros E; inversion E.
  reflexivity.
Qed.

(** What [free_port_interactive] does after a line that parses. *)
Lemma free_port_parsed (w : W) line rest port :
  strip line <> EmptyString ->
  int_of_string (strip line) = Ok port ->
  free_port_interactive (init w (line :: rest)) =
  bind (find_processes_using_port port)
    (fun procs =>
       match procs with
       | [] => ret tt
       | _ :: _ =>
           bind (for_each procs
                   (fun p candidates =>
                      bind (describe_candidate p)
                           (fun c => ret (candidates ++ [c])))
                   [])
             (fun candidates =>
                bind input
                  (fun line =>
                     let confirm := lower (strip line) in
                     if negb (String.eqb confirm "y") then ret tt
                     else
                       bind (for_each candidates
                               (fun c total_summary =>
                                  bind (terminate_process_tree (cand_pid c) 5%Q)
                                    (fun res =>
                                       ret (extend_summary total_summary res)))
                               empty_outcome)
                         (fun total_summary =>
                            bind (host_total (CSleep (3 # 10))
                                    (fun w => (tt, time_sleep (3 # 10) w)))
                              (fun _ =>
                                 bind (find_processes_using_port port)
                                   (fun still =>
                                      save_or_return_menu
                                        ("port_" ++ string_of_Z port
                                         ++ "_processes")%string)))))
       end)
    (mkSt w rest [mkEvent CInput None]).
Proof.
  intros Hne Hp.
  assert (P : bind input
                (fun line =>
                   if String.eqb (strip line) EmptyString then ret None
                   else bind (int_ (strip line))
                          (fun port => ret (Some port)))
                (init w (line :: rest)) =
              (Ok (Some port), mkSt w rest [mkEvent CInput None])).
  { unfold bind, input, init. cbn [stdin world log app].
    apply String.eqb_neq in Hne. rewrite Hne.
    unfold int_. rewrite Hp. reflexivity. }
  unfold free_port_interactive, bind at 1. rewrite try_eq, P. reflexivity.
Qed.

(** A line that parses is looked up, whatever the number. *)
Lemma free_port_looks_up_parsed_port (w : W) line rest port :
  strip line <> EmptyString ->
  int_of_string (strip line) = Ok port ->
  In (CFindProcessesUsingPort port)
     (calls (snd (free_port_interactive (init w (line :: rest))))).
Proof.
  intros Hne Hp. rewrite (free_port_parsed w line rest port Hne Hp).
  set (s1 := mkSt w rest [mkEvent CInput None]).
  set (marker := mkEvent (CFindProcessesUsingPort port) None).
  unfold calls. apply (in_map ev_call _ marker).
  destruct (find_processes_using_port port s1) as [[procs|e] s2] eqn:F.
  - rewrite (bind_ok _ _ _ _ _ F).
    apply (log_grows any_call _ (emits_any_free_port_tail port procs)).
    replace s2 with (snd (find_processes_using_port port s1))
      by (rewrite F; reflexivity).
    rewrite find_processes_using_port_eq. cbn [snd].
    apply (log_grows any_call _ (emits_any_scan_connections port)).
    simpl. right. left. reflexivity.
  - rewrite find_processes_using_port_eq in F. discriminate F.
Qed.

(** A line that is not a number ends the flow at once. *)
Lemma free_port_rejects_non_numeric (w : W) line rest e :
  int_of_string (strip line) = Raise e ->
  strip line <> EmptyString ->
  free_port_interactive (init w (line :: rest)) =
  (Ok tt, mkSt w rest [mkEvent CInput None]).
Proof.
  intros Hp Hne.
  assert (P : bind input
                (fun line =>
                   if String.eqb (strip line) EmptyString then ret None
                   else bind (int_ (strip line))
                          (fun port => ret (Some port)))
                (init w (line :: rest)) =
              (Raise e, mkSt w rest [mkEvent CInput None])).
  { unfold bind, input, init. cbn [stdin world log app].
    apply String.eqb_neq in Hne. rewrite Hne.
    unfold int_. rewrite Hp. reflexivity. }
  unfold free_port_interactive, bind at 1. rewrite try_eq, P. cbn [fst snd].
  apply int_of_string_raises in Hp. apply is_kind_true in Hp. rewrite Hp.
  reflexivity.
Qed.

Lemma range_In start stop port :
  In port (range start stop) -> start <= port < stop.
Proof.
  unfold range. intros Hin. apply in_map_iff in Hin.
  destruct Hin as [i [<- Hi]]. apply in_seq in Hi. lia.
Qed.

(** [show_ports_range] probes only ports between 1 and 65535. *)
Lemma show_ports_range_probes_valid_ports :
  emits probes_valid_port show_ports_range.
Proof.
  assert (Pi : probes_valid_port CInput) by (intros port E; discriminate E).
  assert (Ps : forall f, probes_valid_port (CSave f))
    by (intros f port E; discriminate E).
  unfold show_ports_range. apply emits_bind.
  { apply emits_try.
    apply emits_bind; [apply emits_input, Pi | intros line1].
    apply emits_bind; [apply emits_int | intros start].
    apply emits_bind; [apply emits_input, Pi | intros line2].
    apply emits_bind; [apply emits_int | intros end_].
    apply emits_ret. }
  intros [[start end_]|e].
  - destruct ((start <? 1) || (end_ >? 65535) || (start >? end_)) eqn:Chk;
      [apply emits_ret|].
    apply orb_false_iff in Chk. destruct Chk as [Chk C3].
    apply orb_false_iff in Chk. destruct Chk as [C1 C2].
    apply Z.ltb_ge in C1. rewrite Z.gtb_ltb in C2, C3.
    apply Z.ltb_ge in C2. apply Z.ltb_ge in C3.
    apply emits_bind.
    + apply emits_for_each_in. intros port acc Hin.
      apply range_In in Hin.
      apply emits_bind; [|intros; apply emits_ret].
      apply emits_host. intros port' E. inversion E; subst port'.
      unfold valid_port. lia.
    + intros results. apply emits_save_or_return_menu; assumption.
  - destruct (is_kind ValueError e); [apply emits_ret | apply emits_raise].
Qed.

End InteractiveFacts.

(** C9, at the input where the code departs from it: the operator answers
    "Enter port to free:" with 70000.  The line parses as an int, so
    [free_port_interactive] goes on to [find_processes_using_port 70000]:
    the listener lookup is invoked with a port outside 1..65535, which
    [show_ports_range] would have rejected. *)
Theorem free_port_looks_up_out_of_range_port :
  forall (W : Type) (H : Host W) (w : W) (rest : list string),
    In (CFindProcessesUsingPort 70000)
       (calls (snd (free_port_interactive (init w ("70000" :: rest))))) /\
    ~ valid_port 70000.
Proof.
  intros W H w rest. split.
  - apply free_port_looks_up_parsed_port.
    + discriminate.
    + reflexivity.
  - unfold valid_port. lia.
Qed.

(** * Further properties of the code *)

(** ** The terminator: when it raises, whom it signals, what it reports *)

Section TerminatorSafety.
Context {W : Type} {H : Host W}.

Lemma probe_filter_cons (x : Process) (l : list Process) (s : St W) :
  filter_m (fun p => host (CIsRunning p) (proc_is_running p)) (x :: l) s =
  match fst (proc_is_running x (world s)) with
  | Ok b =>
      match filter_m (fun p => host (CIsRunning p) (proc_is_running p)) l
              (mkSt (snd (proc_is_running x (world s))) (stdin s)
                    (log s ++ [mkEvent (CIsRunning x) None])) with
      | (Ok rest, s2) => (Ok (if b then x :: rest else rest), s2)
      | (Raise e, s2) => (Raise e, s2)
      end
  | Raise e =>
      (Raise e,
       mkSt (snd (proc_is_running x (world s))) (stdin s)
            (log s ++ [mkEvent (CIsRunning x) (Some e)]))
  end.
Proof.
  cbn [filter_m]. unfold bind. rewrite host_eq.
  destruct (fst (proc_is_running x (world s))) as [b|e]; [|reflexivity].
  cbn [raised].
  destruct (filter_m _ l _) as [[rest|e] s2]; reflexivity.
Qed.

(** The fallback probe of the wait phase keeps handles of its list, and
    raises only what [is_running] raised. *)
Lemma probe_filter_spec (l : list Process) :
  forall (s : St W),
    exists evs,
      log (snd (filter_m (fun p => host (CIsRunning p) (proc_is_running p))
                         l s)) = log s ++ evs /\
      match fst (filter_m (fun p => host (CIsRunning p) (proc_is_running p))
                          l s) with
      | Ok l' => incl l' l
      | Raise e => exists p, In (mkEvent (CIsRunning p) (Some e)) evs
      end.
Proof.
  induction l as [|x l IH]; intros s.
  - exists []. cbn [filter_m ret fst snd]. rewrite app_nil_r.
    split; [reflexivity | apply incl_refl].
  - rewrite probe_filter_cons.
    destruct (fst (proc_is_running x (world s))) as [b|e].
    + set (s1 := mkSt _ _ _). destruct (IH s1) as [evs [L P]].
      destruct (filter_m (fun p => host (CIsRunning p) (proc_is_running p))
                         l s1) as [[l'|e'] s2]; cbn [fst snd] in *.
      * exists (mkEvent (CIsRunning x) None :: evs). split.
        -- rewrite L. subst s1. simpl. rewrite <- app_assoc. reflexivity.
        -- destruct b.
           ++ apply incl_cons; [left; reflexivity | apply incl_tl, P].
           ++ apply incl_tl, P.
      * exists (mkEvent (CIsRunning x) None :: evs). split.
        -- rewrite L. subst s1. simpl. rewrite <- app_assoc. reflexivity.
        -- destruct P as [p Hp]. exists p. right. exact Hp.
    + exists [mkEvent (CIsRunning x) (Some e)]. cbn [fst snd]. split.
      * reflexivity.
      * exists x. left. reflexivity.
Qed.

Lemma wait_phase_eq (all_procs : list Process) timeout (s : St W) :
  wait_phase all_procs timeout s =
  match fst (psutil_wait_procs all_procs timeout (world s)) with
  | Ok ga =>
      (Ok ga,
       mkSt (snd (psutil_wait_procs all_procs timeout (world s))) (stdin s)
            (log s ++ [mkEvent (CWaitProcs all_procs timeout) None]))
  | Raise e0 =>
      match filter_m (fun p => host (CIsRunning p) (proc_is_running p))
              all_procs
              (mkSt (snd (psutil_wait_procs all_procs timeout (world s)))
                    (stdin s)
                    (log s ++ [mkEvent (CWaitProcs all_procs timeout)
                                 (Some e0)])) with
      | (Ok alive, s2) => (Ok ([], alive), s2)
      | (Raise e, s2) => (Raise e, s2)
      end
  end.
Proof.
  unfold wait_phase, bind. rewrite try_eq, host_eq. cbn [fst snd].
  destruct (fst (psutil_wait_procs all_procs timeout (world s))) as [ga|e0];
    [reflexivity|].
  cbn [raised]. destruct (filter_m _ all_procs _) as [[alive|e] s2];
    reflexivity.
Qed.

(** How the wait phase ends: with handles of its list when [wait_procs]
    hands back only such, or with the exception of a probe after
    [wait_procs] itself has raised. *)
Lemma wait_phase_outcome (all_procs : list Process) timeout (s : St W) :
  exists evs,
    log (snd (wait_phase all_procs timeout s)) = log s ++ evs /\
    match fst (wait_phase all_procs timeout s) with
    | Ok (gone, alive) =>
        wait_procs_sound -> incl gone all_procs /\ incl alive all_procs
    | Raise e =>
        (exists e0, In (mkEvent (CWaitProcs all_procs timeout) (Some e0)) evs)
        /\ (exists p, In (mkEvent (CIsRunning p) (Some e)) evs)
    end.
Proof.
  rewrite wait_phase_eq.
  destruct (psutil_wait_procs all_procs timeout (world s)) as [[[g a]|e0] w']
    eqn:Ew; cbn [fst snd].
  - eexists. split; [reflexivity|].
    intros Hs. apply (Hs _ _ _ _ _ _ Ew).
  - set (s1 := mkSt _ _ _).
    destruct (probe_filter_spec all_procs s1) as [evs [L P]].
    destruct (filter_m (fun p => host (CIsRunning p) (proc_is_running p))
                       all_procs s1) as [[l'|e] s2]; cbn [fst snd] in *.
    + exists (mkEvent (CWaitProcs all_procs timeout) (Some e0) :: evs).
      split.
      * rewrite L. subst s1. simpl. rewrite <- app_assoc. reflexivity.
      * intros _. split; [intros x [] | exact P].
    + exists (mkEvent (CWaitProcs all_procs timeout) (Some e0) :: evs).
      split.
      * rewrite L. subst s1. simpl. rewrite <- app_assoc. reflexivity.
      * split; [exists e0; left; reflexivity|].
        destruct P as [p Hp]. exists p. right. exact Hp.
Qed.

(** A signalling run that raises has seen [wait_procs] raise and then a
    probe raise. *)
Lemma signal_tree_raises (all_procs : list Process) timeout result (s : St W)
  e s' :
  signal_tree all_procs timeout result s = (Raise e, s') ->
  exists evs,
    log s' = log s ++ evs /\
    (exists e0, In (mkEvent (CWaitProcs all_procs timeout) (Some e0)) evs) /\
    (exists p, In (mkEvent (CIsRunning p) (Some e)) evs).
Proof.
  unfold signal_tree. intros E.
  destruct (graceful_phase_calls all_procs result s)
    as [r1 [s1 [evs1 [E1 [L1 _]]]]].
  rewrite (bind_ok _ _ _ _ _ E1) in E.
  destruct (wait_phase_outcome all_procs timeout s1) as [evs2 [L2 P2]].
  unfold bind in E.
  destruct (wait_phase all_procs timeout s1) as [[[gone alive]|e2] s2];
    cbn [fst snd] in *.
  - destruct (escalation_phase_log alive (record_gone gone r1) s2)
      as [r3 [s3 [evs3 [E3 _]]]].
    rewrite E3 in E. discriminate E.
  - inversion E; subst e2 s2. exists (evs1 ++ evs2).
    split; [rewrite L2, L1, app_assoc; reflexivity|].
    destruct P2 as [[e0 H0] [p Hp]]. split.
    + exists e0. apply in_or_app. right. exact H0.
    + exists p. apply in_or_app. right. exact Hp.
Qed.

End TerminatorSafety.

(** X1: [terminate_process_tree] raises in one situation only: the primary
    [wait_procs] raised, and then [is_running], asked in the fallback that
    replaces the wait, raised for some handle; the exception that comes out
    is that of [is_running].  In every other case the call returns an
    outcome. *)
Theorem raises_only_after_failed_wait_and_probe :
  forall (W : Type) (H : Host W) (w : W) (input : list string)
         (root : Z) (timeout : Q) (e : exn) (s' : St W),
    terminate_process_tree root timeout (init w input) = (Raise e, s') ->
    (exists ps e0, In (mkEvent (CWaitProcs ps timeout) (Some e0)) (log s')) /\
    (exists p, In (mkEvent (CIsRunning p) (Some e)) (log s')).
Proof.
  intros W H w input root timeout e s' E.
  rewrite terminate_process_tree_eq in E. simpl world in E.
  destruct (fst (psutil_Process root w)) as [ct|e0] eqn:R; [|discriminate E].
  destruct (collect_tree_spec (mkProcess root ct)
              (after_Process root (init w input)))
    as [resolved [s1 [evs [C _]]]].
  rewrite (terminate_resolved_eq _ _ _ _ _ _ C) in E.
  destruct (signal_tree (resolved ++ [mkProcess root ct]) timeout
              empty_outcome s1) as [[raw|e1] s2] eqn:Sg; inversion E; subst.
  destruct (signal_tree_raises _ _ _ _ _ _ Sg) as [evs2 [L [[e0 H0] [p Hp]]]].
  split.
  - exists (resolved ++ [mkProcess root ct]), e0.
    rewrite L. apply in_or_app. right. exact H0.
  - exists p. rewrite L. apply in_or_app. right. exact Hp.
Qed.

Lemma raises_only_after_failed_wait_and_probe_witness :
  (exists ps e0,
     In (mkEvent (CWaitProcs ps 5%Q) (Some e0))
        (log (snd (terminate_process_tree 100 5%Q
                     (init wait_and_probe_fail []))))) /\
  (exists p,
     In (mkEvent (CIsRunning p) (Some (access_denied 100)))
        (log (snd (terminate_process_tree 100 5%Q
                     (init wait_and_probe_fail []))))).
Proof.
  apply (raises_only_after_failed_wait_and_probe Script Script_Host
           wait_and_probe_fail [] 100 5%Q (access_denied 100)).
  vm_compute. reflexivity.
Defined.

Section TerminatorReports.
Context {W : Type} {H : Host W}.

(** The kill loop adds to [terminated] only pids of the handles it is
    given. *)
Lemma kill_loop_origin (alive : list Process) result (s : St W) result' s' :
  kill_loop alive result s = (Ok result', s') ->
  forall x, In x (terminated result') ->
    In x (terminated result) \/ In x (map getattr_pid alive).
Proof.
  unfold kill_loop. intros E.
  refine (for_each_invariant
            (fun acc => forall x, In x (terminated acc) ->
               In x (terminated result) \/ In x (map getattr_pid alive))
            alive _ _ result s result' s' _ E).
  - intros p acc t acc' t' Hp I E'.
    rewrite kill_turn_eq in E'. inversion E' as [[R S]]; clear E' S.
    subst acc'. intros x Hx.
    destruct (fst (proc_kill p (world t))) as [u|e]; [apply I, Hx|].
    destruct (is_kind NoSuchProcess e); [|apply I, Hx].
    simpl in Hx. apply in_app_or in Hx. destruct Hx as [Hx|[<-|[]]].
    + apply I, Hx.
    + right. apply in_map, Hp.
  - auto.
Qed.

(** The fallback of the second wait adds to [killed] only pids of the
    handles it is given. *)
Lemma rewait_fallback_origin (alive : list Process) result (s : St W)
  result' s' :
  rewait_fallback alive result s = (Ok result', s') ->
  forall x, In x (killed result') ->
    In x (killed result) \/ In x (map getattr_pid alive).
Proof.
  unfold rewait_fallback. intros E.
  refine (for_each_invariant
            (fun acc => forall x, In x (killed acc) ->
               In x (killed result) \/ In x (map getattr_pid alive))
            alive _ _ result s result' s' _ E).
  - intros p acc t acc' t' Hp I E'.
    rewrite fallback_turn_eq in E'. inversion E' as [[R S]]; clear E' S.
    subst acc'. intros x Hx.
    destruct (fst (proc_is_running p (world t))) as [[|]|e];
      try (apply I, Hx).
    destruct (negb _); [|apply I, Hx].
    simpl in Hx. apply in_app_or in Hx. destruct Hx as [Hx|[<-|[]]].
    + apply I, Hx.
    + right. apply (in_map getattr_pid), Hp.
  - auto.
Qed.

(** With a sound [wait_procs], whatever the escalation phase adds to
    [terminated] or [killed] is the pid of a handle that was alive. *)
Lemma escalation_phase_origin (alive : list Process) result (s : St W)
  result' s' :
  wait_procs_sound ->
  escalation_phase alive result s = (Ok result', s') ->
  (forall x, In x (terminated result') ->
     In x (terminated result) \/ In x (map getattr_pid alive)) /\
  (forall x, In x (killed result') ->
     In x (killed result) \/ In x (map getattr_pid alive)).
Proof.
  intros Hs E. destruct alive as [|a alive'].
  - rewrite escalation_phase_nil in E. inversion E; subst. auto.
  - unfold escalation_phase in E. set (alive := a :: alive') in *.
    clearbody alive. unfold force_kill in E.
    apply bind_inv in E. destruct E as [r1 [s1 [E1 E2]]].
    pose proof (kill_loop_origin _ _ _ _ _ E1) as T1.
    destruct (kill_loop_calls alive result s) as [r1' [s1' [evs1 [E1' [L1 _]]]]].
    rewrite E1 in E1'. inversion E1'; subst r1' s1'; clear E1'.
    destruct (kill_loop_spec alive result s r1 s1 evs1 E1 L1) as [K1 _].
    unfold bind in E2. rewrite try_eq, host_eq in E2. cbn [fst snd] in E2.
    destruct (psutil_wait_procs alive kill_wait_timeout (world s1))
      as [[[gone2 alive2]|e] w'] eqn:Ew; cbn [fst snd] in E2.
    + inversion E2; subst result'. clear E2.
      destruct (Hs _ _ _ _ _ _ Ew) as [Ig _].
      rewrite record_alive2_eq. cbn [terminated killed].
      destruct (record_gone2_spec gone2 r1) as [T [_ [_ [K _]]]].
      rewrite T. split; [exact T1|].
      intros x Hx. apply K in Hx. rewrite K1 in Hx.
      destruct Hx as [Hx|[Hx _]]; [auto|].
      right. apply in_map_iff in Hx. destruct Hx as [p [<- Hp]].
      apply in_map, Ig, Hp.
    + destruct (rewait_fallback_spec _ _ _ _ _ E2) as [T _].
      pose proof (rewait_fallback_origin _ _ _ _ _ E2) as K.
      rewrite T. split; [exact T1|].
      intros x Hx. apply K in Hx. rewrite K1 in Hx. exact Hx.
Qed.

(** With a sound [wait_procs]: the calls of the signalling part, the
    handles that can be sent a forced kill, and where the pids of
    [terminated] and [killed] come from. *)
Lemma signal_tree_sound (all_procs : list Process) timeout result (s : St W) :
  wait_procs_sound ->
  exists rest alive,
    calls (snd (signal_tree all_procs timeout result s)) =
      calls s ++ map CTerminate all_procs
              ++ CWaitProcs all_procs timeout :: rest /\
    Forall (fun c => is_terminate c = false) rest /\
    incl alive all_procs /\
    (forall p, In (CKill p) rest -> In p alive) /\
    (forall raw,
       fst (signal_tree all_procs timeout result s) = Ok raw ->
       (forall x, In x (terminated raw) ->
          In x (terminated result) \/ In x (map getattr_pid all_procs)) /\
       (forall x, In x (killed raw) ->
          In x (killed result) \/
          exists p, x = Some (pid p) /\ In (CKill p) rest)).
Proof.
  intros Hs. unfold signal_tree.
  destruct (graceful_phase_calls all_procs result s)
    as [r1 [s1 [evs1 [E1 [L1 C1]]]]].
  destruct (graceful_phase_spec _ _ _ _ _ E1) as [T1 [K1 _]].
  rewrite (bind_ok _ _ _ _ _ E1).
  destruct (wait_phase_log all_procs timeout s1) as [ev [evs2 [L2 [C2 F2]]]].
  apply (Forall_map_ev (fun c => is_probe c = true)) in F2.
  destruct (wait_phase_outcome all_procs timeout s1) as [evs2' [_ P2]].
  unfold bind.
  destruct (wait_phase all_procs timeout s1) as [[[gone alive]|e] s2];
    cbn [fst snd] in *.
  - destruct (P2 Hs) as [Ig Ia].
    destruct (escalation_phase_log alive (record_gone gone r1) s2)
      as [r3 [s3 [evs3 [E3 [L3 Sh]]]]].
    destruct (escalation_phase_origin _ _ _ _ _ Hs E3) as [To Ko].
    rewrite E3. cbn [fst snd].
    assert (Kills : forall p, In (CKill p) (map ev_call evs3) -> In p alive).
    { intros p Hp. destruct Sh as [[_ ->] | [rs [C3 F3]]]; [destruct Hp|].
      rewrite C3 in Hp. apply in_app_or in Hp.
      destruct Hp as [Hp|[Hp|Hp]].
      - apply in_map_iff in Hp. destruct Hp as [q [Eq Hq]].
        inversion Eq; subst q. exact Hq.
      - discriminate Hp.
      - rewrite Forall_forall in F3. apply F3 in Hp. discriminate Hp. }
    assert (Sent : forall p, In p alive -> In (CKill p) (map ev_call evs3)).
    { intros p Hp. destruct Sh as [[-> _] | [rs [C3 _]]]; [destruct Hp|].
      rewrite C3. apply in_or_app. left. apply in_map, Hp. }
    exists (map ev_call evs2 ++ map ev_call evs3), alive.
    split.
    { rewrite (calls_app s2 s3 evs3 L3), (calls_app s1 s2 _ L2),
        (calls_app s s1 evs1 L1), C1. simpl. rewrite C2.
      rewrite <- !app_assoc. simpl. reflexivity. }
    split.
    { apply Forall_app. split; [apply probes_not_terminate, F2|].
      destruct Sh as [[_ ->] | [rs [C3 F3]]]; [constructor|].
      rewrite C3. apply Forall_app. split; [apply kills_not_terminate|].
      constructor; [reflexivity | apply probes_not_terminate, F3]. }
    split; [exact Ia|]. split.
    { intros p Hp. apply in_app_or in Hp. destruct Hp as [Hp|Hp].
      - rewrite Forall_forall in F2. apply F2 in Hp. discriminate Hp.
      - apply Kills, Hp. }
    intros raw Er. inversion Er; subst raw. split.
    + intros x Hx. apply To in Hx. rewrite record_gone_eq in Hx.
      cbn [terminated] in Hx. rewrite T1 in Hx.
      destruct Hx as [Hx|Hx].
      * apply in_app_or in Hx. destruct Hx as [Hx|Hx]; [auto|].
        right. apply in_map_iff in Hx. destruct Hx as [p [<- Hp]].
        apply (in_map getattr_pid), Ig, Hp.
      * right. apply in_map_iff in Hx. destruct Hx as [p [<- Hp]].
        apply in_map, Ia, Hp.
    + intros x Hx. apply Ko in Hx. rewrite record_gone_eq in Hx.
      cbn [killed] in Hx. rewrite K1 in Hx.
      destruct Hx as [Hx|Hx]; [auto|].
      right. apply in_map_iff in Hx. destruct Hx as [p [<- Hp]].
      exists p. split; [reflexivity|].
      apply in_or_app. right. apply Sent, Hp.
  - exists (map ev_call evs2), []. split.
    { rewrite (calls_app s1 s2 _ L2), (calls_app s s1 evs1 L1), C1.
      simpl. rewrite C2, <- !app_assoc. reflexivity. }
    split; [apply probes_not_terminate, F2|].
    split; [intros x []|]. split.
    + intros p Hp. rewrite Forall_forall in F2. apply F2 in Hp.
      discriminate Hp.
    + intros raw Er. discriminate Er.
Qed.

(** The pids of the handles that are signalled are discovered pids. *)
Lemma tree_pids_discovered (w : W) root ct resolved :
  fst (psutil_Process root w) = Ok ct ->
  (forall p, In p resolved ->
     match fst (proc_children (mkProcess root ct)
                  (snd (psutil_Process root w))) with
     | Ok cs => In (pid p) (map pid cs)
     | Raise _ => False
     end) ->
  forall p, In p (resolved ++ [mkProcess root ct]) ->
    In (pid p) (discovered_pids root w).
Proof.
  intros R P p Hp. unfold discovered_pids.
  destruct (psutil_Process root w) as [r0 w1]. cbn [fst snd] in *. subst r0.
  apply in_app_or in Hp. destruct Hp as [Hp|[<-|[]]].
  - apply P in Hp. destruct (proc_children (mkProcess root ct) w1)
      as [[cs|e] w2]; cbn [fst] in Hp; [right; exact Hp | destruct Hp].
  - destruct (proc_children (mkProcess root ct) w1) as [[cs|e] w2];
      left; reflexivity.
Qed.

(** With a sound [wait_procs]: the whole trace of a call whose root was
    resolved. *)
Lemma terminate_process_tree_sound (w : W) input root timeout ct :
  wait_procs_sound ->
  fst (psutil_Process root w) = Ok ct ->
  exists pre all_procs rest,
    calls (snd (terminate_process_tree root timeout (init w input))) =
      pre ++ map CTerminate all_procs
          ++ CWaitProcs all_procs timeout :: rest /\
    Forall (fun c => is_signal c = false) pre /\
    Forall (fun c => is_terminate c = false) rest /\
    (forall p, In p all_procs -> In (pid p) (discovered_pids root w)) /\
    (forall p, In (CKill p) rest -> In p all_procs) /\
    (forall out,
       fst (terminate_process_tree root timeout (init w input)) = Ok out ->
       (forall x, In x (terminated out) ->
          exists p, x = Some (pid p) /\ In p all_procs) /\
       (forall x, In x (killed out) ->
          exists p, x = Some (pid p) /\ In (CKill p) rest)).
Proof.
  intros Hs R.
  destruct (collect_tree_spec (mkProcess root ct)
              (after_Process root (init w input)))
    as [resolved [s1 [evs [C [L [F P]]]]]].
  destruct (signal_tree_sound (resolved ++ [mkProcess root ct]) timeout
              empty_outcome s1 Hs) as [rest [alive [Sh [Ft [Ia [Kl Rep]]]]]].
  exists (calls s1), (resolved ++ [mkProcess root ct]), rest.
  rewrite terminate_process_tree_eq. simpl world. rewrite R.
  rewrite (terminate_resolved_eq _ _ _ _ _ _ C).
  split; [rewrite snd_clean; exact Sh|].
  split.
  { rewrite (calls_app _ _ _ L). unfold calls, after_Process. simpl.
    constructor; [reflexivity|].
    apply (Forall_map_ev (fun c => is_signal c = false)).
    eapply Forall_impl; [|exact F]. simpl. tauto. }
  split; [exact Ft|].
  split; [apply (tree_pids_discovered w root ct resolved R P)|].
  split; [intros p Hp; apply Ia, Kl, Hp|].
  intros out Eo.
  destruct (signal_tree (resolved ++ [mkProcess root ct]) timeout
              empty_outcome s1) as [[raw|e] s2]; [|discriminate Eo].
  cbn [fst] in Eo. inversion Eo; subst out.
  destruct (Rep raw eq_refl) as [To Ko]. split.
  - intros x Hx. apply clean_terminated_In in Hx. destruct Hx as [Hx _].
    apply To in Hx. destruct Hx as [[]|Hx].
    apply in_map_iff in Hx. destruct Hx as [p [<- Hp]].
    exists p. split; [reflexivity | exact Hp].
  - intros x Hx. apply clean_killed_In in Hx. destruct Hx as [Hx _].
    apply Ko in Hx. destruct Hx as [[]|Hx]. exact Hx.
Qed.

End TerminatorReports.

(** ** The terminator: the buckets and the tree *)

Section TerminatorBuckets.
Context {W : Type} {H : Host W}.

Lemma grows_within_bucket ps r r' x :
  grows_within ps r r' -> In x (bucket_pids r) -> In x (bucket_pids r').
Proof.
  intros [T [K [F _]]]. rewrite !bucket_pids_In.
  intros [Hx|[Hx|Hx]]; [left; apply T, Hx | right; left; apply K, Hx|].
  right. right. apply in_map_iff in Hx. destruct Hx as [y [<- Hy]].
  apply in_map, F, Hy.
Qed.

Lemma rewait_fallback_grows (alive : list Process) result (s : St W)
  result' s' :
  rewait_fallback alive result s = (Ok result', s') ->
  grows_within alive result result'.
Proof.
  unfold rewait_fallback. intros E.
  refine (for_each_invariant (fun acc => grows_within alive result acc)
            alive _ _ result s result' s' _ E).
  - intros p acc t acc' t' Hp G E'.
    rewrite fallback_turn_eq in E'. inversion E' as [[R S]]; clear E' S.
    subst acc'. eapply grows_within_trans; [exact G|].
    destruct (fst (proc_is_running p (world t))) as [[|]|e].
    + apply grows_within_failed, Hp.
    + destruct (negb (pyint_in (Some (pid p)) (terminated acc)));
        [apply grows_within_killed, Hp | apply grows_within_refl].
    + apply grows_within_failed, Hp.
  - apply grows_within_refl.
Qed.

(** The fallback of the second wait files every handle it goes through. *)
Lemma rewait_fallback_covers (alive : list Process) :
  forall result (s : St W) result' s',
    rewait_fallback alive result s = (Ok result', s') ->
    forall p, In p alive -> In (Some (pid p)) (bucket_pids result').
Proof.
  induction alive as [|a alive IH]; intros result s result' s' E p Hp;
    [destruct Hp|].
  unfold rewait_fallback in E. cbn [for_each] in E.
  apply bind_inv in E. destruct E as [r1 [s1 [E1 E2]]].
  fold (rewait_fallback alive r1) in E2.
  destruct Hp as [<-|Hp]; [|exact (IH r1 s1 result' s' E2 p Hp)].
  apply (grows_within_bucket alive r1 result');
    [exact (rewait_fallback_grows alive r1 s1 result' s' E2)|].
  rewrite fallback_turn_eq in E1. inversion E1 as [[R S]]; clear E1 S.
  apply bucket_pids_In.
  destruct (fst (proc_is_running a (world s))) as [[|]|e].
  - right. right. cbn. rewrite map_app, in_app_iff. right. left. reflexivity.
  - destruct (pyint_in (Some (pid a)) (terminated result)) eqn:Ein;
      cbn [negb].
    + left. apply pyint_in_In, Ein.
    + right. left. cbn. apply in_or_app. right. left. reflexivity.
  - right. right. cbn. rewrite map_app, in_app_iff. right. left. reflexivity.
Qed.

Lemma wait_phase_within (all_procs : list Process) timeout (s : St W)
  gone alive s' :
  wait_procs_sound ->
  wait_phase all_procs timeout s = (Ok (gone, alive), s') ->
  incl gone all_procs /\ incl alive all_procs.
Proof.
  intros Hs E. destruct (wait_phase_outcome all_procs timeout s) as [evs [_ O]].
  rewrite E in O. exact (O Hs).
Qed.

(** The second wait and what is recorded from it. *)
Lemma force_kill_inv (alive : list Process) result (s : St W) result' s' :
  force_kill alive result s = (Ok result', s') ->
  exists r1 s1,
    kill_loop alive result s = (Ok r1, s1) /\
    ((exists gone2 alive2 w',
        psutil_wait_procs alive kill_wait_timeout (world s1) =
          (Ok (gone2, alive2), w') /\
        result' = record_alive2 alive2 (record_gone2 gone2 r1)) \/
     (exists s2, rewait_fallback alive r1 s2 = (Ok result', s'))).
Proof.
  unfold force_kill. intros E.
  apply bind_inv in E. destruct E as [r1 [s1 [E1 E2]]].
  exists r1, s1. split; [exact E1|].
  unfold bind in E2. rewrite try_eq, host_eq in E2. cbn [fst snd] in E2.
  destruct (psutil_wait_procs alive kill_wait_timeout (world s1))
    as [[[gone2 alive2]|e] w'] eqn:Ew; cbn [fst snd] in E2.
  - left. exists gone2, alive2, w'. split; [reflexivity|].
    unfold ret in E2. inversion E2. reflexivity.
  - right. eexists. exact E2.
Qed.

(** With a sound [wait_procs], the escalation phase adds only pids of the
    handles still alive. *)
Lemma escalation_phase_grows :
  wait_procs_sound ->
  forall (alive : list Process) result (s : St W) result' s',
    escalation_phase alive result s = (Ok result', s') ->
    grows_within alive result result'.
Proof.
  intros Hs alive result s result' s' E.
  destruct alive as [|a alive'].
  - rewrite escalation_phase_nil in E. inversion E; subst.
    apply grows_within_refl.
  - unfold escalation_phase in E. set (alive := a :: alive') in *.
    clearbody alive.
    destruct (force_kill_inv alive result s result' s' E)
      as [r1 [s1 [E1 [[gone2 [alive2 [w' [Ew ->]]]]|[s2 E2]]]]];
      apply kill_loop_grows in E1;
      (eapply grows_within_trans; [exact E1|]).
    + destruct (Hs _ _ _ _ _ _ Ew) as [Ig Ia].
      eapply grows_within_trans;
        [apply record_gone2_grows, Ig | apply record_alive2_grows, Ia].
    + exact (rewait_fallback_grows alive r1 s2 result' s' E2).
Qed.

(** The escalation phase takes nothing out of [terminated]. *)
Lemma escalation_phase_keeps (alive : list Process) result (s : St W)
  result' s' :
  escalation_phase alive result s = (Ok result', s') ->
  incl (terminated result) (terminated result').
Proof.
  intros E. destruct alive as [|a alive'].
  - rewrite escalation_phase_nil in E. inversion E; subst. apply incl_refl.
  - unfold escalation_phase in E. set (alive := a :: alive') in *.
    clearbody alive.
    destruct (force_kill_inv alive result s result' s' E)
      as [r1 [s1 [E1 [[gone2 [alive2 [w' [Ew ->]]]]|[s2 E2]]]]];
      apply kill_loop_grows in E1; destruct E1 as [T1 _].
    + rewrite record_alive2_eq. cbn [terminated].
      destruct (record_gone2_spec gone2 r1) as [T _]. rewrite T. exact T1.
    + destruct (rewait_fallback_spec alive r1 s2 result' s' E2) as [T _].
      rewrite T. exact T1.
Qed.

(** With a complete [wait_procs], the escalation phase files every handle
    still alive. *)
Lemma escalation_phase_covers :
  wait_procs_complete ->
  forall (alive : list Process) result (s : St W) result' s',
    escalation_phase alive result s = (Ok result', s') ->
    forall p, In p alive -> In (Some (pid p)) (bucket_pids result').
Proof.
  intros Hc alive result s result' s' E p Hp.
  destruct alive as [|a alive']; [destruct Hp|].
  unfold escalation_phase in E. set (alive := a :: alive') in *.
  clearbody alive.
  destruct (force_kill_inv alive result s result' s' E)
    as [r1 [s1 [E1 [[gone2 [alive2 [w' [Ew ->]]]]|[s2 E2]]]]].
  - apply bucket_pids_In. rewrite record_alive2_eq. cbn [terminated killed failed].
    destruct (record_gone2_spec gone2 r1) as [T [_ [_ [_ Cov]]]].
    destruct (Hc _ _ _ _ _ _ Ew p Hp) as [Hg|Ha].
    + apply Cov in Hg. rewrite T. tauto.
    + right. right. rewrite map_app, in_app_iff, map_map. right. cbn [fst].
      apply (in_map getattr_pid) in Ha. exact Ha.
  - exact (rewait_fallback_covers alive r1 s2 result' s' E2 p Hp).
Qed.

(** With a sound [wait_procs], the signalling part puts only pids of the
    tree in the buckets. *)
Lemma signal_tree_within :
  wait_procs_sound ->
  forall (all_procs : list Process) timeout result (s : St W) raw s',
    signal_tree all_procs timeout result s = (Ok raw, s') ->
    grows_within all_procs result raw.
Proof.
  intros Hs all_procs timeout result s raw s' E.
  destruct (signal_tree_inv _ _ _ _ _ _ E)
    as [r1 [s1 [gone [alive [s2 [evs [evs' [G [Wt [Es _]]]]]]]]]].
  apply graceful_phase_grows in G.
  destruct (wait_phase_within _ _ _ _ _ _ Hs Wt) as [Ig Ia].
  pose proof (escalation_phase_grows Hs _ _ _ _ _ Es) as Ge.
  eapply grows_within_trans; [exact G|].
  eapply grows_within_trans; [apply record_gone_grows, Ig|].
  eapply grows_within_incl; [exact Ia | exact Ge].
Qed.

(** With a complete [wait_procs], the signalling part files every handle
    of the tree, unless the primary wait, its first, raised. *)
Lemma signal_tree_covers :
  wait_procs_complete ->
  forall (all_procs : list Process) timeout result (s : St W) raw s',
    signal_tree all_procs timeout result s = (Ok raw, s') ->
    forall p, In p all_procs ->
      In (Some (pid p)) (bucket_pids raw) \/
      exists e evs post,
        log s' =
          log s ++ evs
                ++ mkEvent (CWaitProcs all_procs timeout) (Some e) :: post /\
        Forall (fun ev => is_wait (ev_call ev) = false) evs.
Proof.
  intros Hc all_procs timeout result s raw s' E p Hp.
  destruct (signal_tree_inv _ _ _ _ _ _ E)
    as [r1 [s1 [gone [alive [s2 [evs [evs' [G [Wt [Es [_ [_ L3]]]]]]]]]]]].
  destruct (graceful_phase_calls all_procs result s)
    as [r1' [s1' [evs1 [G' [L1 C1]]]]].
  rewrite G in G'. inversion G'; subst r1' s1'; clear G'.
  rewrite wait_phase_eq in Wt.
  destruct (psutil_wait_procs all_procs timeout (world s1))
    as [[ga|e0] w'] eqn:Ew; cbn [fst snd] in Wt.
  - left. inversion Wt; subst ga s2; clear Wt.
    destruct (Hc _ _ _ _ _ _ Ew p Hp) as [Hg|Ha].
    + apply bucket_pids_In. left.
      apply (escalation_phase_keeps _ _ _ _ _ Es).
      rewrite record_gone_eq. cbn [terminated]. apply in_or_app. right.
      apply (in_map (fun q => Some (pid q))) in Hg. exact Hg.
    + exact (escalation_phase_covers Hc _ _ _ _ _ Es p Ha).
  - right.
    destruct (probe_filter_spec all_procs
                (mkSt w' (stdin s1)
                   (log s1 ++ [mkEvent (CWaitProcs all_procs timeout)
                                 (Some e0)]))) as [evs0 [L0 _]].
    destruct (filter_m _ all_procs _) as [[alive0|e] s2'] eqn:Fm;
      inversion Wt; subst. cbn [snd] in L0.
    exists e0, evs1, (evs0 ++ evs'). split.
    + rewrite L3, L0. cbn [log]. rewrite L1, <- !app_assoc. reflexivity.
    + apply Forall_forall. intros x Hx.
      assert (Hin : In (ev_call x) (map ev_call evs1))
        by (apply in_map; exact Hx).
      rewrite C1 in Hin. apply in_map_iff in Hin.
      destruct Hin as [q [<- _]]. reflexivity.
Qed.

End TerminatorBuckets.

(** C1, as the code has it: [terminated] and [killed] share no pid in any
    outcome, while [failed] is a log of errors that may name a pid of
    either.  When [wait_procs] hands back only handles it was given, every
    pid in a bucket is the root's or that of a descendant discovered at
    the call.  When [wait_procs] accounts for every handle it was given,
    every handle of the tree that was resolved and whose pid is not 0 has
    its pid in at least one bucket, unless the primary wait, the first
    [wait_procs] of the call, raised: then only the handles found running
    are followed up. *)
Theorem outcome_buckets_within_tree :
  forall (W : Type) (H : Host W)
         (w : W) (input : list string) (root : Z) (timeout : Q)
         (out : Outcome) (s' : St W),
    terminate_process_tree root timeout (init w input) = (Ok out, s') ->
    (forall x, In x (terminated out) -> ~ In x (killed out)) /\
    (wait_procs_sound ->
     forall x, In x (bucket_pids out) ->
       exists n, x = Some n /\ In n (discovered_pids root w)) /\
    (wait_procs_complete ->
     forall all_procs s1,
       discover root (init w input) = (Ok all_procs, s1) ->
       forall p, In p all_procs -> pid p <> 0 ->
         In (Some (pid p)) (bucket_pids out) \/
         exists e pre post,
           log s' =
             pre ++ mkEvent (CWaitProcs all_procs timeout) (Some e) :: post /\
           Forall (fun ev => is_wait (ev_call ev) = false) pre).
Proof.
  intros W H w input root timeout out s' E.
  destruct (fst (psutil_Process root w)) as [ct|e] eqn:R.
  - destruct (terminate_process_tree_inv root timeout w input out s' ct E R)
      as [resolved [s1 [raw [evs1 [C [Sg [-> [_ [_ P]]]]]]]]].
    split; [|split].
    + intros x Hx Hk. apply clean_killed_In in Hk. tauto.
    + intros Hs x Hx.
      destruct (signal_tree_within Hs _ _ _ _ _ _ Sg) as [_ [_ [_ G]]].
      apply clean_bucket_pids_incl in Hx. apply G in Hx.
      destruct Hx as [Hx|Hx]; [destruct Hx|].
      apply in_map_iff in Hx. destruct Hx as [p [<- Hp]].
      exists (pid p). split; [reflexivity|].
      unfold discovered_pids.
      destruct (psutil_Process root w) as [r0 w1] eqn:EP. simpl in R, P.
      subst r0. apply in_app_or in Hp. destruct Hp as [Hp|[<-|[]]].
      * apply P in Hp. destruct (proc_children (mkProcess root ct) w1)
          as [[cs|e] w2]; simpl in Hp; [right; exact Hp | destruct Hp].
      * destruct (proc_children (mkProcess root ct) w1) as [[cs|e] w2];
          left; reflexivity.
    + intros Hc all_procs s0 D p Hp Hz.
      apply discover_inv in D. destruct D as [ct' [R' C']].
      simpl world in R'. rewrite R in R'. inversion R'; subst ct'.
      rewrite C in C'. inversion C'; subst all_procs s0.
      destruct (signal_tree_covers Hc _ _ _ _ _ _ Sg p Hp)
        as [Hb|[e0 [evs [post [L F]]]]].
      * left. apply clean_bucket_pids_keep; [exact Hb|].
        apply pyint_truthy_some, Hz.
      * right.
        destruct (collect_tree_spec (mkProcess root ct)
                    (after_Process root (init w input)))
          as [resolved' [s1' [evs0 [C0 [L0 [F0 _]]]]]].
        rewrite C in C0. inversion C0; subst s1'; clear C0.
        exists e0, (log s1 ++ evs), post. split.
        -- rewrite L, <- app_assoc. reflexivity.
        -- apply Forall_app. split; [|exact F].
           rewrite L0. unfold after_Process. cbn [log init app].
           constructor; [reflexivity|].
           eapply Forall_impl; [|exact F0]. intros ev [_ Hw]. exact Hw.
  - destruct (terminate_unresolved w input root timeout e R)
      as [s0 [E0 _]].
    rewrite E in E0. inversion E0 as [[Eo Es]]; clear E0.
    split; [|split].
    + intros x Hx. destruct (is_kind NoSuchProcess e); destruct Hx.
    + intros _ x Hx. unfold discovered_pids.
      destruct (psutil_Process root w) as [r0 w1]. simpl in R. subst r0.
      destruct (is_kind NoSuchProcess e); simpl in Hx; [destruct Hx|].
      destruct Hx as [<-|[]]. exists root. split; [reflexivity | left; reflexivity].
    + intros _ all_procs s1 D. apply discover_inv in D.
      destruct D as [ct [R' _]]. simpl world in R'. congruence.
Qed.

Lemma outcome_buckets_within_tree_witness :
  let out :=
    mkOutcome [Some 101; Some 100] [Some 102]
      [(Some 101, "terminate error: process no longer exists (pid=101)")] in
  (forall x, In x (terminated out) -> ~ In x (killed out)) /\
  (forall x, In x (bucket_pids out) ->
     exists n, x = Some n /\ In n [100; 101; 102]) /\
  (forall all_procs s1,
     discover 100 (init exited_and_stubborn []) = (Ok all_procs, s1) ->
     forall p, In p all_procs -> pid p <> 0 ->
       In (Some (pid p)) (bucket_pids out) \/
       exists e pre post,
         log (snd (terminate_process_tree 100 5%Q
                     (init exited_and_stubborn []))) =
           pre ++ mkEvent (CWaitProcs all_procs 5) (Some e) :: post /\
         Forall (fun ev => is_wait (ev_call ev) = false) pre).
Proof.
  intros out.
  assert (E : terminate_process_tree 100 5%Q (init exited_and_stubborn []) =
              (Ok out,
               snd (terminate_process_tree 100 5%Q
                      (init exited_and_stubborn []))))
    by (vm_compute; reflexivity).
  destruct (outcome_buckets_within_tree Tame Tame_Host
              exited_and_stubborn [] 100 5%Q out _ E) as [D [S C]].
  split; [exact D|]. split.
  - exact (S Tame_wait_procs_sound).
  - exact (C Tame_wait_procs_complete).
Defined.

(** X2: [terminate_process_tree] never signals outside the tree.  When
    [wait_procs] hands back only handles it was given, every handle that
    is sent a graceful request or a forced kill has the pid of the root or
    of a descendant that [children(recursive=True)] reported at the call. *)
Theorem signals_stay_in_tree :
  forall (W : Type) (H : Host W),
    wait_procs_sound ->
    forall (w : W) (input : list string) (root : Z) (timeout : Q)
           (p : Process),
      In (CTerminate p)
         (calls (snd (terminate_process_tree root timeout (init w input)))) \/
      In (CKill p)
         (calls (snd (terminate_process_tree root timeout (init w input)))) ->
      In (pid p) (discovered_pids root w).
Proof.
  intros W H Hs w input root timeout p Hp.
  destruct (fst (psutil_Process root w)) as [ct|e] eqn:R.
  - destruct (terminate_process_tree_sound w input root timeout ct Hs R)
      as [pre [all_procs [rest [Sh [Fp [Fr [D [Kl _]]]]]]]].
    rewrite Sh in Hp. rewrite Forall_forall in Fp, Fr.
    apply D. destruct Hp as [Hp|Hp].
    + apply in_app_or in Hp. destruct Hp as [Hp|Hp].
      { apply Fp in Hp. discriminate Hp. }
      apply in_app_or in Hp. destruct Hp as [Hp|[Hp|Hp]].
      * apply in_map_iff in Hp. destruct Hp as [q [Eq Hq]].
        inversion Eq; subst q. exact Hq.
      * discriminate Hp.
      * apply Fr in Hp. discriminate Hp.
    + apply in_app_or in Hp. destruct Hp as [Hp|Hp].
      { apply Fp in Hp. discriminate Hp. }
      apply in_app_or in Hp. destruct Hp as [Hp|[Hp|Hp]].
      * apply in_map_iff in Hp. destruct Hp as [q [Eq _]]. discriminate Eq.
      * discriminate Hp.
      * apply Kl, Hp.
  - exfalso. destruct (terminate_unresolved w input root timeout e R)
      as [s0 [E0 C0]].
    rewrite E0 in Hp. cbn [snd] in Hp. rewrite C0 in Hp.
    destruct Hp as [[Hp|[]]|[Hp|[]]]; discriminate Hp.
Qed.

Lemma signals_stay_in_tree_witness :
  In 102 (discovered_pids 100 exited_and_stubborn).
Proof.
  apply (signals_stay_in_tree Tame Tame_Host Tame_wait_procs_sound
           exited_and_stubborn [] 100 5%Q (mkProcess 102 1)).
  right. vm_compute. do 8 right. left. reflexivity.
Defined.

(** X3: no process is force-killed without having been asked first.  When
    [wait_procs] hands back only handles it was given, every forced kill
    in a call comes after a graceful request to the same handle. *)
Theorem kill_follows_graceful_request :
  forall (W : Type) (H : Host W),
    wait_procs_sound ->
    forall (w : W) (input : list string) (root : Z) (timeout : Q)
           (p : Process),
      In (CKill p)
         (calls (snd (terminate_process_tree root timeout (init w input)))) ->
      occurs_before (CTerminate p) (CKill p)
        (calls (snd (terminate_process_tree root timeout (init w input)))).
Proof.
  intros W H Hs w input root timeout p Hp.
  destruct (fst (psutil_Process root w)) as [ct|e] eqn:R.
  - destruct (terminate_process_tree_sound w input root timeout ct Hs R)
      as [pre [all_procs [rest [Sh [Fp [Fr [_ [Kl _]]]]]]]].
    rewrite Sh in Hp |- *. rewrite Forall_forall in Fp.
    assert (Hr : In (CKill p) rest).
    { apply in_app_or in Hp. destruct Hp as [Hp|Hp].
      { apply Fp in Hp. discriminate Hp. }
      apply in_app_or in Hp. destruct Hp as [Hp|[Hp|Hp]].
      - apply in_map_iff in Hp. destruct Hp as [q [Eq _]]. discriminate Eq.
      - discriminate Hp.
      - exact Hp. }
    assert (Ht : In (CTerminate p) (map CTerminate all_procs))
      by (apply in_map, Kl, Hr).
    apply in_split in Ht. destruct Ht as [m1 [m2 Em]].
    apply in_split in Hr. destruct Hr as [r1 [r2 Er]].
    exists (pre ++ m1), (m2 ++ CWaitProcs all_procs timeout :: r1), r2.
    rewrite Em, Er. rewrite <- ?app_assoc. simpl.
    rewrite <- ?app_assoc. reflexivity.
  - exfalso. destruct (terminate_unresolved w input root timeout e R)
      as [s0 [E0 C0]].
    rewrite E0 in Hp. cbn [snd] in Hp. rewrite C0 in Hp.
    destruct Hp as [Hp|[]]. discriminate Hp.
Qed.

Lemma kill_follows_graceful_request_witness :
  occurs_before (CTerminate (mkProcess 102 1)) (CKill (mkProcess 102 1))
    (calls (snd (terminate_process_tree 100 5%Q
                   (init exited_and_stubborn [])))).
Proof.
  apply (kill_follows_graceful_request Tame Tame_Host Tame_wait_procs_sound
           exited_and_stubborn [] 100 5%Q (mkProcess 102 1)).
  vm_compute. do 8 right. left. reflexivity.
Defined.

(** X4: the outcome reports only what was done.  When [wait_procs] hands
    back only handles it was given, every pid in [terminated] is the pid
    of a handle that was sent a graceful request, and every pid in
    [killed] is the pid of a handle that was sent a forced kill. *)
Theorem reported_pids_were_signalled :
  forall (W : Type) (H : Host W),
    wait_procs_sound ->
    forall (w : W) (input : list string) (root : Z) (timeout : Q)
           (out : Outcome) (s' : St W),
      terminate_process_tree root timeout (init w input) = (Ok out, s') ->
      (forall x, In x (terminated out) ->
         exists p, x = Some (pid p) /\ In (CTerminate p) (calls s')) /\
      (forall x, In x (killed out) ->
         exists p, x = Some (pid p) /\ In (CKill p) (calls s')).
Proof.
  intros W H Hs w input root timeout out s' E.
  destruct (fst (psutil_Process root w)) as [ct|e] eqn:R.
  - destruct (terminate_process_tree_sound w input root timeout ct Hs R)
      as [pre [all_procs [rest [Sh [_ [_ [_ [_ Rep]]]]]]]].
    rewrite E in Sh, Rep. cbn [fst snd] in Sh, Rep.
    destruct (Rep out eq_refl) as [To Ko]. split.
    + intros x Hx. apply To in Hx. destruct Hx as [p [-> Hp]].
      exists p. split; [reflexivity|]. rewrite Sh.
      apply in_or_app. right. apply in_or_app. left. apply in_map, Hp.
    + intros x Hx. apply Ko in Hx. destruct Hx as [p [-> Hp]].
      exists p. split; [reflexivity|]. rewrite Sh.
      apply in_or_app. right. apply in_or_app. right. right. exact Hp.
  - destruct (terminate_unresolved w input root timeout e R)
      as [s0 [E0 _]].
    rewrite E in E0. inversion E0 as [[Eo Es]].
    split; intros x Hx; destruct (is_kind NoSuchProcess e); destruct Hx.
Qed.

Lemma reported_pids_were_signalled_witness :
  let out :=
    mkOutcome [Some 101; Some 100] [Some 102]
      [(Some 101, "terminate error: process no longer exists (pid=101)")] in
  let s' := snd (terminate_process_tree 100 5%Q (init exited_and_stubborn []))
  in
  (forall x, In x (terminated out) ->
     exists p, x = Some (pid p) /\ In (CTerminate p) (calls s')) /\
  (forall x, In x (killed out) ->
     exists p, x = Some (pid p) /\ In (CKill p) (calls s')).
Proof.
  apply (reported_pids_were_signalled Tame Tame_Host Tame_wait_procs_sound
           exited_and_stubborn [] 100 5%Q).
  vm_compute. reflexivity.
Defined.

(** ** The final cleanup, once more *)

Lemma filter_all_true {A} (f : A -> bool) (l : list A) :
  (forall x, In x l -> f x = true) -> filter f l = l.
Proof.
  induction l as [|x l IH]; intros Hf; simpl; [reflexivity|].
  rewrite (Hf x) by (left; reflexivity).
  rewrite IH by (intros y Hy; apply Hf; right; exact Hy). reflexivity.
Qed.

Lemma fromkeys_acc_NoDup_id l :
  forall seen,
    NoDup l -> (forall x, In x l -> ~ In x seen) ->
    fromkeys_acc seen l = l.
Proof.
  induction l as [|x l IH]; intros seen N D; simpl; [reflexivity|].
  inversion N as [|? ? Hx N']; subst.
  assert (E : pyint_in x seen = false).
  { apply pyint_in_not_In. apply D. left. reflexivity. }
  rewrite E. f_equal. apply IH; [exact N'|].
  intros y Hy [<-|Hs]; [contradiction|].
  apply (D y); [right; exact Hy | exact Hs].
Qed.

Lemma dict_fromkeys_NoDup_id l : NoDup l -> dict_fromkeys l = l.
Proof.
  intros N. apply fromkeys_acc_NoDup_id; [exact N | intros x _ []].
Qed.

(** X5: the cleanup is idempotent: cleaning an outcome that has been
    cleaned changes nothing, so the order and the content of the three
    buckets of a returned outcome are stable under a second cleanup. *)
Theorem clean_lists_idempotent :
  forall r : Outcome, clean_lists (clean_lists r) = clean_lists r.
Proof.
  intros r.
  destruct (clean_lists_invariants r) as [Nt [Nk [D [Tt [Tk Tf]]]]].
  set (c := clean_lists r) in *.
  assert (Et : dict_fromkeys (filter pyint_truthy (terminated c)) =
               terminated c).
  { rewrite filter_all_true.
    - apply dict_fromkeys_NoDup_id, Nt.
    - intros x Hx. apply pyint_truthy_spec, Tt, Hx. }
  assert (Ek : dict_fromkeys
                 (filter (fun x => pyint_truthy x
                                   && negb (pyint_in x (terminated c)))
                         (killed c)) = killed c).
  { rewrite filter_all_true.
    - apply dict_fromkeys_NoDup_id, Nk.
    - intros x Hx. apply andb_true_iff. split.
      + apply pyint_truthy_spec, Tk, Hx.
      + apply negb_true_iff, pyint_in_not_In, D, Hx. }
  assert (Ef : filter (fun '(pid, msg) => pyint_truthy pid) (failed c) =
               failed c).
  { apply filter_all_true. intros [x msg] Hx.
    apply pyint_truthy_spec. apply (Tf x msg), Hx. }
  unfold clean_lists at 1. rewrite Et, Ek, Ef.
  clearbody c. destruct c; reflexivity.
Qed.

(** ** The snapshot provider, once more *)

Example select_by_category_examples :
  let idle := entry_of (mkInfo (Some 0) (Some "System Idle Process") None
                          None None None) 0%Q [] in
  let svc := entry_of (mkInfo (Some 900) (Some "PrintService") (Some "bob")
                         None None None) 0%Q [] in
  let usr := entry_of (mkInfo (Some 901) (Some "editor") (Some "bob")
                         None None None) 0%Q [] in
  select_by_category "0" [idle; svc; usr] = [usr; svc] /\
  select_by_category "3" [idle; svc; usr] = [svc] /\
  select_by_category "6" [idle; svc; usr] = [] /\
  select_by_category "x" [idle; svc; usr] = [].
Proof. vm_compute. repeat split. Qed.

Section SnapshotTrace.
Context {W : Type} {H : Host W}.

(** The body of the second loop: the two reads, in this order. *)
Lemma snapshot_entry_log (p : Process) (info : Info) (s : St W) :
  exists entry s' ev1 ev2,
    snapshot_entry p info s = (Ok entry, s') /\
    log s' = log s ++ [ev1; ev2] /\
    ev_call ev1 = CCpuPercent p /\ ev_call ev2 = CThreads p.
Proof.
  unfold snapshot_entry, bind.
  rewrite try_eq, host_eq. cbn [fst snd]. rewrite try_eq, host_eq.
  cbn [fst snd world log]. unfold ret.
  eexists _, _, _, _. split; [reflexivity|].
  split; [rewrite <- app_assoc; reflexivity|]. split; reflexivity.
Qed.

Lemma snapshot_loop_calls (ps : list (Process * Info)) :
  forall procs (s : St W),
    exists evs,
      log (snd (for_each ps
                  (fun '(p, info) procs =>
                     bind (try_ (snapshot_entry p info))
                       (fun r =>
                          match r with
                          | Ok entry => ret (procs ++ [entry])
                          | Raise e =>
                              if is_kind NoSuchProcess e
                                 || is_kind AccessDenied e
                              then ret procs else raise e
                          end))
                  procs s)) = log s ++ evs /\
      map ev_call evs =
        flat_map (fun pi => [CCpuPercent (fst pi); CThreads (fst pi)]) ps.
Proof.
  induction ps as [|[p info] ps IH]; intros procs s.
  - exists []. cbn [for_each ret snd]. rewrite app_nil_r. auto.
  - cbn [for_each flat_map fst].
    destruct (snapshot_entry_log p info s)
      as [entry [s1 [ev1 [ev2 [E [L [C1 C2]]]]]]].
    assert (T : bind (try_ (snapshot_entry p info))
                  (fun r =>
                     match r with
                     | Ok entry => ret (procs ++ [entry])
                     | Raise e =>
                         if is_kind NoSuchProcess e || is_kind AccessDenied e
                         then ret procs else raise e
                     end) s = (Ok (procs ++ [entry]), s1)).
    { unfold bind. rewrite try_eq, E. reflexivity. }
    rewrite (bind_ok _ _ _ _ _ T).
    destruct (IH (procs ++ [entry]) s1) as [evs [L' C']].
    exists (ev1 :: ev2 :: evs). split.
    + rewrite L', L, <- app_assoc. reflexivity.
    + simpl. rewrite C1, C2, C'. reflexivity.
Qed.

Lemma warm_up_calls (s : St W) :
  exists s1 evs,
    warm_up s = (Ok tt, s1) /\
    log s1 = log s ++ evs /\
    map ev_call evs =
      CProcessIter
        :: map (fun pi => CCpuPercent (fst pi))
               (fst (psutil_process_iter (world s)))
        ++ [CSleep (1 # 10)].
Proof.
  unfold warm_up, bind at 1, host_total. rewrite host_eq.
  destruct (psutil_process_iter (world s)) as [ps w1]. cbn [fst snd raised].
  set (s0 := mkSt _ _ _).
  destruct (for_each_calls (fun pi : Process * Info => CCpuPercent (fst pi)) ps
              (fun '(p, _) (_ : unit) =>
                 bind (try_ (host (CCpuPercent p) (proc_cpu_percent p)))
                      (fun _ => ret tt))) with (acc := tt) (s := s0)
    as [u [s1 [evs [E [L C]]]]].
  { intros [p info] acc t. unfold bind. rewrite try_eq, host_eq.
    eexists _, _, _. split; [reflexivity|]. split; reflexivity. }
  rewrite (bind_ok _ _ _ _ _ E). rewrite host_eq. cbn [fst snd raised].
  eexists _, (mkEvent CProcessIter None :: evs
              ++ [mkEvent (CSleep (1 # 10)) None]).
  split; [reflexivity|]. split.
  - cbn [log]. rewrite L. subst s0. cbn [log].
    rewrite <- !app_assoc. reflexivity.
  - simpl. rewrite map_app, C. reflexivity.
Qed.

(** Every entry of the second loop is built by [entry_of]. *)
Lemma read_all_In (ps : list (Process * Info)) :
  forall (w : W) entry,
    In entry (read_all ps w) ->
    exists info cpu threads, entry = entry_of info cpu threads.
Proof.
  induction ps as [|[p info] ps IH]; intros w entry Hin;
    cbn [read_all] in Hin.
  - destruct Hin.
  - unfold read_entry in Hin.
    destruct (proc_cpu_percent p w) as [r1 w1].
    destruct (proc_threads p w1) as [r2 w2].
    destruct Hin as [<-|Hin]; [eauto | eapply IH; exact Hin].
Qed.

End SnapshotTrace.

Lemma str_or_not_empty x default :
  default <> EmptyString -> str_or x default <> EmptyString.
Proof.
  intros Hd. unfold str_or. destruct x as [s|]; [|exact Hd].
  destruct (String.eqb s EmptyString) eqn:E; [exact Hd|].
  apply String.eqb_neq, E.
Qed.

(** What [entry_of] guarantees for the fields it derives. *)
Lemma entry_of_well_formed info cpu threads :
  let entry := entry_of info cpu threads in
  entry_name entry <> EmptyString /\
  In (entry_category entry) snapshot_categories /\
  (entry_category entry = "System Idle" <-> entry_pid entry = 0) /\
  entry_mem_human entry = human_mem_mb (entry_mem entry).
Proof.
  cbn zeta. unfold entry_of. cbn [entry_name entry_category entry_pid
                                  entry_mem_human entry_mem].
  set (n := match info_pid info with Some z => z | None => 0 end).
  set (name := str_or (info_name info) "<unknown>").
  assert (Hn : name <> EmptyString)
    by (apply str_or_not_empty; discriminate).
  split; [exact Hn|].
  assert (Ht : truthy (PyStr name) = true).
  { simpl. apply negb_true_iff, String.eqb_neq, Hn. }
  unfold Categorizer.categorize_process, Categorizer.categorize_try.
  cbn [py_eq_int py_le_int].
  destruct (n =? 0) eqn:E0.
  { apply Z.eqb_eq in E0. split; [left; reflexivity|].
    split; [tauto | reflexivity]. }
  apply Z.eqb_neq in E0.
  destruct (n <=? 4).
  { split; [right; left; reflexivity|].
    split; [split; [discriminate | contradiction] | reflexivity]. }
  destruct (info_username info) as [u|]; cbn [pyval_of_user].
  - rewrite Ht. cbn [py_lower].
    destruct (contains "service" (lower name) || _ || _).
    + split; [do 3 right; left; reflexivity|].
      split; [split; [discriminate | contradiction] | reflexivity].
    + split; [do 4 right; left; reflexivity|].
      split; [split; [discriminate | contradiction] | reflexivity].
  - split; [do 2 right; left; reflexivity|].
    split; [split; [discriminate | contradiction] | reflexivity].
Qed.

Section SnapshotEntries.
Context {W : Type} {H : Host W}.

(** The entries of a snapshot are those of [read_all]. *)
Lemma fetch_entries_built (s : St W) entries s' entry :
  fetch_processes_real_time s = (Ok entries, s') ->
  In entry entries ->
  exists info cpu threads, entry = entry_of info cpu threads.
Proof.
  intros E Hin. destruct (warm_up_returns s) as [s1 E1].
  unfold fetch_processes_real_time in E. rewrite (bind_ok _ _ _ _ _ E1) in E.
  unfold bind, host_total in E. rewrite host_eq in E. cbn [fst snd] in E.
  destruct (psutil_process_iter (world s1)) as [ps w2]. cbn [fst snd] in E.
  set (s2 := mkSt _ _ _) in E.
  destruct (snapshot_all_eq ps s2) as [s3 E2].
  rewrite E2 in E. inversion E; subst entries s3.
  eapply read_all_In. exact Hin.
Qed.

End SnapshotEntries.

(** X6: the snapshot only reads.  Its calls are exactly: one enumeration,
    one CPU sample per process to start the measurement, one sleep of a
    tenth of a second, a second enumeration, and for each process of the
    second enumeration one CPU sample followed by one thread listing.  No
    process is signalled. *)
Theorem snapshot_only_reads :
  forall (W : Type) (H : Host W) (w : W) (input : list string),
    calls (snd (fetch_processes_real_time (init w input))) =
      CProcessIter
        :: map (fun pi => CCpuPercent (fst pi)) (fst (psutil_process_iter w))
        ++ CSleep (1 # 10) :: CProcessIter
        :: flat_map (fun pi => [CCpuPercent (fst pi); CThreads (fst pi)])
             (fst (psutil_process_iter
                     (world (snd (warm_up (init w input)))))).
Proof.
  intros W H w input.
  destruct (warm_up_calls (init w input)) as [s1 [evs [E1 [L1 C1]]]].
  cbn [world init] in C1.
  unfold fetch_processes_real_time. rewrite (bind_ok _ _ _ _ _ E1).
  rewrite E1. cbn [snd].
  unfold bind, host_total. rewrite host_eq. cbn [fst snd].
  destruct (psutil_process_iter (world s1)) as [ps w2]. cbn [fst snd raised].
  set (s2 := mkSt _ _ _).
  destruct (snapshot_loop_calls ps [] s2) as [evs2 [L2 C2]].
  unfold snapshot_all, calls. rewrite L2. subst s2. cbn [log].
  rewrite L1. cbn [init log app]. rewrite !map_app, C1, C2. cbn [map ev_call].
  cbn [app]. f_equal.
  rewrite <- !app_assoc. reflexivity.
Qed.

(** X7: every entry of a snapshot has a name that is not empty (a missing
    name reads "<unknown>"), a category among System Idle, System,
    Background, Services and User (never Other, since the pid is an int and
    the name a str), the category System Idle exactly when its pid is 0,
    and a [mem_human] that is the formatting of its [mem]. *)
Theorem snapshot_entries_well_formed :
  forall (W : Type) (H : Host W) (s : St W) (entries : list Entry)
         (s' : St W) (entry : Entry),
    fetch_processes_real_time s = (Ok entries, s') ->
    In entry entries ->
    entry_name entry <> EmptyString /\
    In (entry_category entry) snapshot_categories /\
    (entry_category entry = "System Idle" <-> entry_pid entry = 0) /\
    entry_mem_human entry = human_mem_mb (entry_mem entry).
Proof.
  intros W H s entries s' entry E Hin.
  destruct (fetch_entries_built s entries s' entry E Hin)
    as [info [cpu [threads ->]]].
  apply entry_of_well_formed.
Qed.

Lemma snapshot_entries_well_formed_witness :
  let entry := mkEntry 7 "worker" (Some "alice") 0%Q 1048576 "1.0 MB" "User"
                 (Some "/usr/bin/worker") ["worker"] [] in
  entry_name entry <> EmptyString /\
  In (entry_category entry) snapshot_categories /\
  (entry_category entry = "System Idle" <-> entry_pid entry = 0) /\
  entry_mem_human entry = human_mem_mb (entry_mem entry).
Proof.
  apply (snapshot_entries_well_formed Script Script_Host
           (init vanishing_process [])
           [mkEntry 7 "worker" (Some "alice") 0%Q 1048576 "1.0 MB" "User"
              (Some "/usr/bin/worker") ["worker"] []]
           (snd (fetch_processes_real_time (init vanishing_process [])))).
  - vm_compute. reflexivity.
  - left. reflexivity.
Defined.

(** What the listing of choice 1 can show, whatever it is given. *)
Lemma select_by_category_In sel procs entry :
  In entry (select_by_category sel procs) ->
  In entry procs /\ In (entry_category entry) THREAD_TYPES.
Proof.
  unfold select_by_category.
  destruct (String.eqb sel "0").
  - intros Hin. apply in_flat_map in Hin. destruct Hin as [cat [Hc Hin]].
    unfold of_category in Hin. apply filter_In in Hin.
    destruct Hin as [Hin Ec]. apply String.eqb_eq in Ec.
    split; [exact Hin | rewrite Ec; exact Hc].
  - destruct (existsb _ _) eqn:Ex; [|intros []].
    apply existsb_exists in Ex. destruct Ex as [lit [Hl El]].
    apply String.eqb_eq in El. subst lit.
    change (map string_of_Z
              (range 1 (Z.of_nat (List.length THREAD_TYPES) + 1)))
      with ["1"; "2"; "3"; "4"; "5"] in Hl.
    assert (Hnth : forall i, int_of_string sel = Ok i ->
              In (nth (Z.to_nat (i - 1)) THREAD_TYPES EmptyString)
                 THREAD_TYPES).
    { intros i Ei.
      destruct Hl as [<-|[<-|[<-|[<-|[<-|[]]]]]];
        vm_compute in Ei; inversion Ei; subst i; vm_compute; tauto. }
    destruct (int_of_string sel) as [i|e]; [|intros []].
    intros Hin. unfold of_category in Hin. apply filter_In in Hin.
    destruct Hin as [Hin Ec]. apply String.eqb_eq in Ec.
    split; [exact Hin | rewrite Ec; apply Hnth; reflexivity].
Qed.

(** X8: "Show processes" lists, under any selection, only entries of the
    snapshot whose category is one of the configured THREAD_TYPES.  The
    category System Idle is not among them, so the process with pid 0 is
    never listed, not even under "All". *)
Theorem listing_never_shows_idle_process :
  forall (W : Type) (H : Host W) (s : St W) (entries : list Entry)
         (s' : St W) (sel : string) (entry : Entry),
    fetch_processes_real_time s = (Ok entries, s') ->
    In entry (select_by_category sel entries) ->
    In entry entries /\
    In (entry_category entry) THREAD_TYPES /\
    entry_pid entry <> 0.
Proof.
  intros W H s entries s' sel entry E Hin.
  apply select_by_category_In in Hin. destruct Hin as [He Hc].
  split; [exact He|]. split; [exact Hc|].
  destruct (fetch_entries_built s entries s' entry E He)
    as [info [cpu [threads ->]]].
  destruct (entry_of_well_formed info cpu threads) as [_ [_ [Idle _]]].
  intros Hz. apply Idle in Hz. rewrite Hz in Hc.
  simpl in Hc. intuition discriminate.
Qed.

Lemma listing_never_shows_idle_process_witness :
  let entry := mkEntry 7 "worker" (Some "alice") 0%Q 1048576 "1.0 MB" "User"
                 (Some "/usr/bin/worker") ["worker"] [] in
  In entry [entry] /\
  In (entry_category entry) THREAD_TYPES /\
  entry_pid entry <> 0.
Proof.
  apply (listing_never_shows_idle_process Script Script_Host
           (init vanishing_process [])
           [mkEntry 7 "worker" (Some "alice") 0%Q 1048576 "1.0 MB" "User"
              (Some "/usr/bin/worker") ["worker"] []]
           (snd (fetch_processes_real_time (init vanishing_process [])))
           "0").
  - vm_compute. reflexivity.
  - vm_compute. left. reflexivity.
Defined.

(** ** The save menu *)

Section SaveMenu.
Context {W : Type} {H : Host W}.

Lemma save_menu_turn_invalid name (w : W) line rest log0 :
  invalid_choice line ->
  save_menu_turn name (mkSt w (line :: rest) log0) =
  (Ok None, mkSt w rest (log0 ++ [mkEvent CInput None])).
Proof.
  intros [H1 H2]. apply String.eqb_neq in H1. apply String.eqb_neq in H2.
  unfold save_menu_turn, bind, input. cbn [stdin world log].
  rewrite H1, H2. reflexivity.
Qed.

Lemma save_menu_turn_return name (w : W) line rest log0 :
  strip line = "2" ->
  save_menu_turn name (mkSt w (line :: rest) log0) =
  (Ok (Some tt), mkSt w rest (log0 ++ [mkEvent CInput None])).
Proof.
  intros H2. unfold save_menu_turn, bind, input. cbn [stdin world log].
  rewrite H2. reflexivity.
Qed.

Lemma save_menu_turn_save name (w : W) l1 l2 l3 rest log0 :
  strip l1 = "1" ->
  save_menu_turn name (mkSt w (l1 :: l2 :: l3 :: rest) log0) =
  (Ok (Some tt),
   mkSt (snd (save_file (save_filename w name l2) w)) rest
     (log0 ++ [mkEvent CInput None; mkEvent CInput None;
               mkEvent (CSave (save_filename w name l2))
                 (raised (fst (save_file (save_filename w name l2) w)));
               mkEvent CInput None])).
Proof.
  intros H1. unfold save_filename.
  unfold save_menu_turn, bind, input, get_world, try_, host.
  cbn [stdin world log]. rewrite H1. cbn [String.eqb Ascii.eqb Bool.eqb stdin world log].
  destruct (save_file _ w) as [[u|e] w1];
    cbn [fst snd raised stdin world log];
    rewrite <- !app_assoc; reflexivity.
Qed.

(** One turn that does not ask for another read a line that is neither
    1 nor 2. *)
Lemma save_menu_turn_again name (s s' : St W) :
  save_menu_turn name s = (Ok None, s') ->
  exists line rest,
    stdin s = line :: rest /\ invalid_choice line /\
    s' = mkSt (world s) rest (log s ++ [mkEvent CInput None]).
Proof.
  destruct s as [w inp log0]. destruct inp as [|line rest].
  - unfold save_menu_turn, bind, input. cbn [stdin world log].
    intros E. discriminate E.
  - destruct (String.eqb (strip line) "1") eqn:E1.
    + apply String.eqb_eq in E1. destruct rest as [|l2 [|l3 rest]].
      * unfold save_menu_turn, bind, input. cbn [stdin world log].
        rewrite E1. cbn [String.eqb Ascii.eqb Bool.eqb stdin world log].
        intros E; discriminate E.
      * unfold save_menu_turn, bind, input, get_world, try_, host.
        cbn [stdin world log]. rewrite E1.
        cbn [String.eqb Ascii.eqb Bool.eqb stdin world log].
        destruct (save_file _ w) as [[u|e] w1];
          cbn [raised stdin world log]; intros E; discriminate E.
      * rewrite (save_menu_turn_save name w line l2 l3 rest log0 E1).
        intros E; discriminate E.
    + destruct (String.eqb (strip line) "2") eqn:E2.
      * apply String.eqb_eq in E2.
        rewrite (save_menu_turn_return name w line rest log0 E2).
        intros E; discriminate E.
      * apply String.eqb_neq in E1. apply String.eqb_neq in E2.
        rewrite (save_menu_turn_invalid name w line rest log0 (conj E1 E2)).
        intros E. inversion E; subst s'. exists line, rest.
        split; [reflexivity|]. split; [exact (conj E1 E2) | reflexivity].
Qed.

(** A turn saves only after a line that reads 1, and under the name made
    from the line that follows. *)
Lemma save_menu_turn_saves name (s : St W) f :
  In (CSave f) (calls (snd (save_menu_turn name s))) ->
  In (CSave f) (calls s) \/
  exists l1 l2 rest,
    stdin s = l1 :: l2 :: rest /\ strip l1 = "1" /\
    f = save_filename (world s) name l2.
Proof.
  destruct s as [w inp log0]. unfold calls. cbn [log stdin world].
  destruct inp as [|line rest].
  - unfold save_menu_turn, bind, input. cbn [stdin world log snd].
    rewrite map_app. intros Hin. apply in_app_or in Hin.
    destruct Hin as [Hin|[Hin|[]]]; [left; exact Hin | discriminate Hin].
  - destruct (String.eqb (strip line) "1") eqn:E1.
    + apply String.eqb_eq in E1. destruct rest as [|l2 [|l3 rest]].
      * unfold save_menu_turn, bind, input. cbn [stdin world log].
        rewrite E1. cbn [String.eqb Ascii.eqb Bool.eqb stdin world log snd].
        rewrite !map_app. intros Hin.
        apply in_app_or in Hin. destruct Hin as [Hin|[Hin|[]]];
          [|discriminate Hin].
        apply in_app_or in Hin. destruct Hin as [Hin|[Hin|[]]];
          [left; exact Hin | discriminate Hin].
      * intros Hin.
        assert (Hc : In (CSave f) (map ev_call log0) \/
                     f = save_filename w name l2).
        { revert Hin. unfold save_filename.
          unfold save_menu_turn, bind, input, get_world, try_, host.
          cbn [stdin world log]. rewrite E1.
          cbn [String.eqb Ascii.eqb Bool.eqb stdin world log].
          destruct (save_file _ w) as [[u|e] w1];
            cbn [raised stdin world log snd]; rewrite !map_app;
            cbn [map ev_call]; intros Hin;
            repeat (apply in_app_or in Hin;
                    destruct Hin as [Hin|[Hin|[]]];
                    [|first [discriminate Hin
                            | inversion Hin; right; reflexivity]]);
            left; exact Hin. }
        destruct Hc as [Hc|Hc]; [left; exact Hc|].
        right. exists line, l2, []. split; [reflexivity|].
        split; [exact E1 | exact Hc].
      * rewrite (save_menu_turn_save name w line l2 l3 rest log0 E1).
        cbn [snd log]. rewrite map_app. cbn [map ev_call]. intros Hin.
        apply in_app_or in Hin. destruct Hin as [Hin|Hin];
          [left; exact Hin|].
        right. exists line, l2, (l3 :: rest). split; [reflexivity|].
        split; [exact E1|].
        destruct Hin as [Hin|[Hin|[Hin|[Hin|[]]]]];
          first [discriminate Hin | inversion Hin; reflexivity].
    + intros Hin. left.
      destruct (String.eqb (strip line) "2") eqn:E2.
      * apply String.eqb_eq in E2.
        rewrite (save_menu_turn_return name w line rest log0 E2) in Hin.
        cbn [snd log] in Hin. rewrite map_app in Hin.
        apply in_app_or in Hin. destruct Hin as [Hin|[Hin|[]]];
          [exact Hin | discriminate Hin].
      * apply String.eqb_neq in E1. apply String.eqb_neq in E2.
        rewrite (save_menu_turn_invalid name w line rest log0 (conj E1 E2))
          in Hin.
        cbn [snd log] in Hin. rewrite map_app in Hin.
        apply in_app_or in Hin. destruct Hin as [Hin|[Hin|[]]];
          [exact Hin | discriminate Hin].
Qed.

(** The loop passes over the lines that are neither 1 nor 2. *)
Lemma save_menu_loop_skips name (w : W) junk :
  Forall invalid_choice junk ->
  forall tail log0 k,
    save_menu_loop (List.length junk + k) name (mkSt w (junk ++ tail) log0) =
    save_menu_loop k name
      (mkSt w tail
         (log0 ++ repeat (mkEvent CInput None) (List.length junk))).
Proof.
  induction 1 as [|line junk Hl Hj IH]; intros tail log0 k.
  - cbn [List.length repeat app Nat.add]. rewrite app_nil_r. reflexivity.
  - cbn [List.length Nat.add app save_menu_loop].
    rewrite (bind_ok _ _ _ _ _
               (save_menu_turn_invalid name w line (junk ++ tail) log0 Hl)).
    rewrite IH. cbn [repeat]. rewrite <- app_assoc. reflexivity.
Qed.

Lemma save_or_return_menu_skips name (w : W) junk tail :
  Forall invalid_choice junk ->
  save_or_return_menu name (init w (junk ++ tail)) =
  save_menu_loop (S (List.length tail)) name
    (mkSt w tail (repeat (mkEvent CInput None) (List.length junk))).
Proof.
  intros Hj. unfold save_or_return_menu, init. cbn [stdin].
  rewrite length_app, <- Nat.add_succ_r.
  rewrite (save_menu_loop_skips name w junk Hj). reflexivity.
Qed.

Lemma save_menu_loop_saves name turns :
  forall (s : St W) f,
    In (CSave f) (calls (snd (save_menu_loop turns name s))) ->
    In (CSave f) (calls s) \/
    exists junk l1 l2 rest,
      stdin s = junk ++ l1 :: l2 :: rest /\ Forall invalid_choice junk /\
      strip l1 = "1" /\ f = save_filename (world s) name l2.
Proof.
  induction turns as [|turns IH]; intros s f; cbn [save_menu_loop].
  - intros Hin. left. exact Hin.
  - unfold bind at 1.
    destruct (save_menu_turn name s) as [[[u|]|e] s1] eqn:T.
    + intros Hin. cbn [snd ret] in Hin.
      assert (Hin' : In (CSave f) (calls (snd (save_menu_turn name s))))
        by (rewrite T; exact Hin).
      apply save_menu_turn_saves in Hin'.
      destruct Hin' as [Hl|[l1 [l2 [rest [E [E1 Ef]]]]]]; [left; exact Hl|].
      right. exists [], l1, l2, rest. auto.
    + intros Hin. apply save_menu_turn_again in T.
      destruct T as [line [rest [Es [Hl ->]]]].
      apply IH in Hin. cbn [stdin world] in Hin.
      destruct Hin as [Hin|[junk [l1 [l2 [rest' [E [Hj [E1 Ef]]]]]]]].
      * unfold calls in Hin. cbn [log] in Hin. rewrite map_app in Hin.
        apply in_app_or in Hin. destruct Hin as [Hin|[Hin|[]]];
          [left; exact Hin | discriminate Hin].
      * right. exists (line :: junk), l1, l2, rest'.
        rewrite Es, E. auto.
    + intros Hin. cbn [snd] in Hin.
      assert (Hin' : In (CSave f) (calls (snd (save_menu_turn name s))))
        by (rewrite T; exact Hin).
      apply save_menu_turn_saves in Hin'.
      destruct Hin' as [Hl|[l1 [l2 [rest [E [E1 Ef]]]]]]; [left; exact Hl|].
      right. exists [], l1, l2, rest. auto.
Qed.

End SaveMenu.

(** X9: the save menu lets go on "2".  It passes over every line that is
    neither 1 nor 2 and returns at the first line that reads 2 (blanks
    around it ignored): it has read these lines and no more, written no
    file and left the host as it was. *)
Theorem save_menu_returns_on_two :
  forall (W : Type) (H : Host W) (w : W) (name : string)
         (junk : list string) (line : string) (rest : list string),
    Forall invalid_choice junk ->
    strip line = "2" ->
    save_or_return_menu name (init w (junk ++ line :: rest)) =
    (Ok tt,
     mkSt w rest (repeat (mkEvent CInput None) (S (List.length junk)))).
Proof.
  intros W H w name junk line rest Hj H2.
  rewrite (save_or_return_menu_skips name w junk (line :: rest) Hj).
  cbn [save_menu_loop].
  rewrite (bind_ok _ _ _ _ _ (save_menu_turn_return name w line rest _ H2)).
  unfold ret. rewrite <- repeat_cons. reflexivity.
Qed.

Lemma save_menu_returns_on_two_witness :
  save_or_return_menu "ports" (init two_listeners (["x"; " 3 "] ++ " 2 " :: ["y"])) =
  (Ok tt, mkSt two_listeners ["y"] (repeat (mkEvent CInput None) 3)).
Proof.
  apply (save_menu_returns_on_two Script Script_Host two_listeners "ports"
           ["x"; " 3 "] " 2 " ["y"]).
  - repeat constructor; discriminate.
  - reflexivity.
Defined.

(** X10: the save menu writes one file on "1".  After any lines that are
    neither 1 nor 2, a line that reads 1 makes it read a name, write
    [<name>_<timestamp>.json] ([<default>_...] when the name is blank),
    wait for one more line and return, whether or not the write
    succeeded. *)
Theorem save_menu_writes_named_file :
  forall (W : Type) (H : Host W) (w : W) (name : string)
         (junk : list string) (l1 l2 l3 : string) (rest : list string),
    Forall invalid_choice junk ->
    strip l1 = "1" ->
    exists s',
      save_or_return_menu name (init w (junk ++ l1 :: l2 :: l3 :: rest)) =
        (Ok tt, s') /\
      stdin s' = rest /\
      world s' = snd (save_file (save_filename w name l2) w) /\
      calls s' =
        repeat CInput (List.length junk + 2)
          ++ [CSave (save_filename w name l2); CInput].
Proof.
  intros W H w name junk l1 l2 l3 rest Hj H1.
  rewrite (save_or_return_menu_skips name w junk _ Hj).
  cbn [save_menu_loop].
  rewrite (bind_ok _ _ _ _ _ (save_menu_turn_save name w l1 l2 l3 rest _ H1)).
  eexists. split; [reflexivity|]. cbn [stdin world].
  split; [reflexivity|]. split; [reflexivity|].
  unfold calls. cbn [log]. rewrite map_app, map_repeat. cbn [map ev_call].
  rewrite repeat_app. cbn [repeat]. rewrite <- app_assoc. reflexivity.
Qed.

Lemma save_menu_writes_named_file_witness :
  exists s',
    save_or_return_menu "ports"
      (init two_listeners (["x"] ++ " 1" :: "  " :: "go" :: ["y"])) =
      (Ok tt, s') /\
    stdin s' = ["y"] /\
    world s' = snd (save_file (save_filename two_listeners "ports" "  ")
                      two_listeners) /\
    calls s' =
      repeat CInput (List.length ["x"] + 2)
        ++ [CSave (save_filename two_listeners "ports" "  "); CInput].
Proof.
  apply (save_menu_writes_named_file Script Script_Host two_listeners "ports"
           ["x"] " 1" "  " "go" ["y"]).
  - repeat constructor; discriminate.
  - reflexivity.
Defined.

(** X11: the save menu writes nothing it was not asked to.  Whatever is
    typed, a file is written only when, after lines that are neither 1 nor
    2, a line reads 1; the file then carries the name made from the line
    that follows it. *)
Theorem save_menu_writes_only_on_one :
  forall (W : Type) (H : Host W) (w : W) (name : string)
         (input : list string) (f : string),
    In (CSave f) (calls (snd (save_or_return_menu name (init w input)))) ->
    exists junk l1 l2 rest,
      input = junk ++ l1 :: l2 :: rest /\ Forall invalid_choice junk /\
      strip l1 = "1" /\ f = save_filename w name l2.
Proof.
  intros W H w name input f Hin. unfold save_or_return_menu in Hin.
  apply save_menu_loop_saves in Hin. destruct Hin as [[]|Hin]. exact Hin.
Qed.

Lemma save_menu_writes_only_on_one_witness :
  exists junk l1 l2 rest,
    ["x"; "1"; "out"; "ok"] = junk ++ l1 :: l2 :: rest /\
    Forall invalid_choice junk /\ strip l1 = "1" /\
    "out_20240101_000000.json" = save_filename two_listeners "ports" l2.
Proof.
  apply (save_menu_writes_only_on_one Script Script_Host two_listeners "ports"
           ["x"; "1"; "out"; "ok"] "out_20240101_000000.json").
  vm_compute. do 3 right. left. reflexivity.
Defined.

(** ** The port grid: [show_ports_range] *)

Section ShowPorts.
Context {W : Type} {H : Host W}.

Lemma filter_none {A} (f : A -> bool) (l : list A) :
  Forall (fun x => f x = false) l -> filter f l = [].
Proof.
  induction 1 as [|x l Hx Hl IH]; [reflexivity|].
  cbn [filter]. rewrite Hx. exact IH.
Qed.

(** A loop whose turns each make exactly one call, for the elements of its
    list. *)
Lemma for_each_calls_in {A S} (c : A -> call) (l : list A)
  (body : A -> S -> M W S) :
  (forall x acc s, In x l -> exists acc' s' ev,
      body x acc s = (Ok acc', s') /\
      log s' = log s ++ [ev] /\ ev_call ev = c x) ->
  forall acc s, exists acc' s' evs,
    for_each l body acc s = (Ok acc', s') /\
    log s' = log s ++ evs /\ map ev_call evs = map c l.
Proof.
  induction l as [|x l IH]; intros Hb acc s; cbn [for_each].
  - exists acc, s, []. rewrite app_nil_r. auto.
  - destruct (Hb x acc s (or_introl eq_refl)) as [a1 [s1 [ev [E1 [L1 C1]]]]].
    destruct (IH (fun y b t Hy => Hb y b t (or_intror Hy)) a1 s1)
      as [a2 [s2 [evs [E2 [L2 C2]]]]].
    exists a2, s2, (ev :: evs).
    rewrite (bind_ok _ _ _ _ _ E1). split; [exact E2|].
    rewrite L2, L1, <- app_assoc. cbn [app map]. rewrite C1, C2. auto.
Qed.

(** The two numbers are read from the first two lines. *)
Lemma show_ports_parse_ok (w : W) lines start end_ s1 :
  bind input
    (fun line =>
       bind (int_ (strip line))
         (fun start =>
            bind input
              (fun line =>
                 bind (int_ (strip line))
                   (fun end_ => ret (start, end_)))))
    (init w lines) = (Ok (start, end_), s1) ->
  exists l1 l2 rest,
    lines = l1 :: l2 :: rest /\
    int_of_string (strip l1) = Ok start /\
    int_of_string (strip l2) = Ok end_ /\
    s1 = mkSt w rest [mkEvent CInput None; mkEvent CInput None].
Proof.
  intros E.
  apply bind_inv in E. destruct E as [line1 [t1 [I1 E]]].
  apply bind_inv in E. destruct E as [a [t2 [P1 E]]].
  apply bind_inv in E. destruct E as [line2 [t3 [I2 E]]].
  apply bind_inv in E. destruct E as [b [t4 [P2 E]]].
  unfold ret in E. inversion E; subst a b t4. clear E.
  unfold input, init in I1. cbn [stdin world log app] in I1.
  destruct lines as [|l1 lines]; [discriminate I1|].
  inversion I1; subst line1 t1. clear I1.
  unfold int_ in P1. destruct (int_of_string (strip l1)) as [n1|e1] eqn:N1;
    [|discriminate P1].
  unfold ret in P1. inversion P1; subst n1 t2. clear P1.
  unfold input in I2. cbn [stdin world log app] in I2.
  destruct lines as [|l2 rest]; [discriminate I2|].
  inversion I2; subst line2 t3. clear I2.
  unfold int_ in P2. destruct (int_of_string (strip l2)) as [n2|e2] eqn:N2;
    [|discriminate P2].
  unfold ret in P2. inversion P2; subst n2 s1. clear P2.
  exists l1, l2, rest. auto.
Qed.

Lemma show_ports_parse_emits :
  emits (W := W) (fun c => c = CInput)
    (bind input
       (fun line =>
          bind (int_ (strip line))
            (fun start =>
               bind input
                 (fun line =>
                    bind (int_ (strip line))
                      (fun end_ => ret (start, end_)))))).
Proof.
  apply emits_bind; [apply emits_input; reflexivity | intros line1].
  apply emits_bind; [apply emits_int | intros start].
  apply emits_bind; [apply emits_input; reflexivity | intros line2].
  apply emits_bind; [apply emits_int | intros end_].
  apply emits_ret.
Qed.

(** What [show_ports_range] does once it holds the two numbers. *)
Lemma show_ports_range_parsed (w : W) l1 l2 rest start end_ :
  int_of_string (strip l1) = Ok start ->
  int_of_string (strip l2) = Ok end_ ->
  show_ports_range (init w (l1 :: l2 :: rest)) =
  (if (start <? 1) || (end_ >? 65535) || (start >? end_) then ret tt
   else
     bind (for_each (range start (end_ + 1))
             (fun port results =>
                bind (host (CConnectEx port) (socket_connect_ex port))
                  (fun rc =>
                     ret (results ++
                          [mkPortStatus port
                             (if rc =? 0 then "OCCUPIED" else "FREE")])))
             [])
       (fun results =>
          save_or_return_menu
            ("ports_" ++ string_of_Z start ++ "_" ++ string_of_Z end_)%string))
    (mkSt w rest [mkEvent CInput None; mkEvent CInput None]).
Proof.
  intros N1 N2.
  assert (P : bind input
                (fun line =>
                   bind (int_ (strip line))
                     (fun start =>
                        bind input
                          (fun line =>
                             bind (int_ (strip line))
                               (fun end_ => ret (start, end_)))))
                (init w (l1 :: l2 :: rest)) =
              (Ok (start, end_),
               mkSt w rest [mkEvent CInput None; mkEvent CInput None])).
  { unfold bind, input, init, int_, ret. cbn [stdin world log app].
    rewrite N1. cbn [stdin world log app]. rewrite N2. reflexivity. }
  unfold show_ports_range, bind at 1. rewrite try_eq, P. reflexivity.
Qed.

End ShowPorts.

(** X12: the port grid probes only what was asked for.  Whatever is typed,
    a port is probed only when the first two lines parse as numbers
    [start] and [end] with [1 <= start <= end <= 65535], and the port lies
    between them. *)
Theorem show_ports_range_probes_within_bounds :
  forall (W : Type) (H : Host W) (w : W) (lines : list string) (port : Z),
    In (CConnectEx port) (calls (snd (show_ports_range (init w lines)))) ->
    exists l1 l2 rest start end_,
      lines = l1 :: l2 :: rest /\
      int_of_string (strip l1) = Ok start /\
      int_of_string (strip l2) = Ok end_ /\
      1 <= start /\ start <= port <= end_ /\ end_ <= 65535.
Proof.
  intros W H w lines port Hin.
  destruct (bind input
              (fun line =>
                 bind (int_ (strip line))
                   (fun start =>
                      bind input
                        (fun line =>
                           bind (int_ (strip line))
                             (fun end_ => ret (start, end_)))))
              (init w lines)) as [[[start end_]|e] s1] eqn:P.
  - apply show_ports_parse_ok in P.
    destruct P as [l1 [l2 [rest [-> [N1 [N2 ->]]]]]].
    exists l1, l2, rest, start, end_.
    split; [reflexivity|]. split; [exact N1|]. split; [exact N2|].
    rewrite (show_ports_range_parsed w l1 l2 rest start end_ N1 N2) in Hin.
    destruct ((start <? 1) || (end_ >? 65535) || (start >? end_)) eqn:Chk.
    + cbn in Hin. destruct Hin as [Hin|[Hin|[]]]; discriminate Hin.
    + apply orb_false_iff in Chk. destruct Chk as [Chk C3].
      apply orb_false_iff in Chk. destruct Chk as [C1 C2].
      apply Z.ltb_ge in C1. rewrite Z.gtb_ltb in C2, C3.
      apply Z.ltb_ge in C2. apply Z.ltb_ge in C3.
      split; [exact C1|]. split; [|exact C2].
      set (inside := fun c : call =>
                       forall p, c = CConnectEx p -> start <= p <= end_).
      assert (Em : emits inside
                (bind (for_each (range start (end_ + 1))
                         (fun port results =>
                            bind (host (CConnectEx port)
                                    (socket_connect_ex port))
                              (fun rc =>
                                 ret (results ++
                                      [mkPortStatus port
                                         (if rc =? 0 then "OCCUPIED"
                                          else "FREE")])))
                         [])
                   (fun results =>
                      save_or_return_menu
                        ("ports_" ++ string_of_Z start ++ "_"
                         ++ string_of_Z end_)%string))).
      { apply emits_bind.
        - apply emits_for_each_in. intros q acc Hq. apply range_In in Hq.
          apply emits_bind; [|intros; apply emits_ret].
          apply emits_host. intros p E. inversion E; subst p. lia.
        - intros results. apply emits_save_or_return_menu.
          + intros p E. discriminate E.
          + intros f p E. discriminate E. }
      destruct (Em (mkSt w rest [mkEvent CInput None; mkEvent CInput None]))
        as [evs [L F]].
      unfold calls in Hin. rewrite L in Hin. cbn [log] in Hin.
      rewrite map_app in Hin. apply in_app_or in Hin.
      destruct Hin as [[Hin|[Hin|[]]]|Hin]; try discriminate Hin.
      apply in_map_iff in Hin. destruct Hin as [ev [Ec Hev]].
      rewrite Forall_forall in F. apply (F ev Hev port Ec).
  - exfalso. unfold show_ports_range, bind at 1 in Hin.
    rewrite try_eq, P in Hin. cbn [fst snd] in Hin.
    assert (Hs : In (CConnectEx port) (calls s1)).
    { destruct (is_kind ValueError e); exact Hin. }
    destruct (show_ports_parse_emits (init w lines)) as [evs [L F]].
    rewrite P in L. cbn [snd init log app] in L.
    unfold calls in Hs. rewrite L in Hs.
    apply in_map_iff in Hs. destruct Hs as [ev [Ec Hev]].
    rewrite Forall_forall in F. specialize (F ev Hev).
    rewrite Ec in F. discriminate F.
Qed.

Lemma show_ports_range_probes_within_bounds_witness :
  exists l1 l2 rest start end_,
    [" 8079"; "8081 "; "2"] = l1 :: l2 :: rest /\
    int_of_string (strip l1) = Ok start /\
    int_of_string (strip l2) = Ok end_ /\
    1 <= start /\ start <= 8080 <= end_ /\ end_ <= 65535.
Proof.
  apply (show_ports_range_probes_within_bounds Script Script_Host
           two_listeners [" 8079"; "8081 "; "2"] 8080).
  vm_compute. do 3 right. left. reflexivity.
Defined.

(** X13: the port grid probes every port of the range once, in ascending
    order.  When the two numbers typed are a valid range and [connect_ex]
    answers with an error code rather than an exception for the ports of
    the range, the probes of the run are exactly those of
    [start], [start + 1], ..., [end]. *)
Theorem show_ports_range_probes_every_port_once :
  forall (W : Type) (H : Host W) (w : W) (l1 l2 : string)
         (rest : list string) (start end_ : Z),
    (forall port w0, start <= port <= end_ ->
       exists rc w1, socket_connect_ex port w0 = (Ok rc, w1)) ->
    int_of_string (strip l1) = Ok start ->
    int_of_string (strip l2) = Ok end_ ->
    1 <= start -> start <= end_ -> end_ <= 65535 ->
    filter is_connect
      (calls (snd (show_ports_range (init w (l1 :: l2 :: rest))))) =
    map CConnectEx (range start (end_ + 1)).
Proof.
  intros W H w l1 l2 rest start end_ Hc N1 N2 B1 B2 B3.
  rewrite (show_ports_range_parsed w l1 l2 rest start end_ N1 N2).
  assert (Chk : (start <? 1) || (end_ >? 65535) || (start >? end_) = false).
  { rewrite !Z.gtb_ltb. apply orb_false_iff. split.
    - apply orb_false_iff. split; apply Z.ltb_ge; lia.
    - apply Z.ltb_ge; lia. }
  rewrite Chk.
  set (s0 := mkSt w rest [mkEvent CInput None; mkEvent CInput None]).
  destruct (for_each_calls_in CConnectEx (range start (end_ + 1))
              (fun port results =>
                 bind (host (CConnectEx port) (socket_connect_ex port))
                   (fun rc =>
                      ret (results ++
                           [mkPortStatus port
                              (if rc =? 0 then "OCCUPIED" else "FREE")]))))
    with (acc := @nil PortStatus) (s := s0)
    as [results [s1 [evs [E [L C]]]]].
  { intros q acc s Hq. apply range_In in Hq.
    destruct (Hc q (world s)) as [rc [w1 Eq]]; [lia|].
    eexists _, _, _. unfold bind. rewrite host_eq, Eq. cbn [fst snd raised].
    unfold ret. split; [reflexivity|]. split; reflexivity. }
  rewrite (bind_ok _ _ _ _ _ E).
  destruct (emits_save_or_return_menu
              (fun c => is_connect c = false)
              ("ports_" ++ string_of_Z start ++ "_" ++ string_of_Z end_)%string
              eq_refl (fun f => eq_refl) s1) as [evs2 [L2 F2]].
  unfold calls. rewrite L2, L. subst s0. cbn [log].
  rewrite !map_app, !filter_app, C. cbn [map ev_call filter is_connect app].
  rewrite filter_all_true.
  - rewrite filter_none; [apply app_nil_r|].
    apply Forall_forall. intros c Hin. apply in_map_iff in Hin.
    destruct Hin as [ev [<- Hev]]. rewrite Forall_forall in F2.
    apply F2, Hev.
  - intros c Hin. apply in_map_iff in Hin. destruct Hin as [q [<- _]].
    reflexivity.
Qed.

Lemma show_ports_range_probes_every_port_once_witness :
  filter is_connect
    (calls (snd (show_ports_range
                   (init two_listeners ["8079"; "8081"; "2"])))) =
  map CConnectEx (range 8079 (8081 + 1)).
Proof.
  apply (show_ports_range_probes_every_port_once Script Script_Host
           two_listeners "8079" "8081" ["2"] 8079 8081).
  - intros port w0 _. exists 111, w0. reflexivity.
  - reflexivity.
  - reflexivity.
  - lia.
  - lia.
  - lia.
Defined.

(** ** Flows that ask before they signal *)

Section Quiet.
Context {W : Type} {H : Host W}.

Lemma quiet_ret {A} P (a : A) : quiet (W := W) P (ret a).
Proof.
  intros s. split; [reflexivity|]. exists []. cbn. rewrite app_nil_r. auto.
Qed.

Lemma quiet_raise {A} P e : quiet (W := W) (A := A) P (raise e).
Proof.
  intros s. split; [reflexivity|]. exists []. cbn. rewrite app_nil_r. auto.
Qed.

Lemma quiet_bind {A B} P (m : M W A) (k : A -> M W B) :
  quiet P m -> (forall a, quiet P (k a)) -> quiet P (bind m k).
Proof.
  intros Hm Hk s. destruct (Hm s) as [I [evs [E F]]].
  unfold bind. destruct (m s) as [[a|e] s1]; cbn [snd] in *.
  - destruct (Hk a s1) as [I' [evs' [E' F']]].
    split; [rewrite I'; exact I|].
    exists (evs ++ evs'). rewrite E', E, app_assoc.
    split; [reflexivity | apply Forall_app; auto].
  - split; [exact I|]. exists evs. auto.
Qed.

Lemma quiet_try {A} P (m : M W A) : quiet P m -> quiet P (try_ m).
Proof. intros Hm s. rewrite try_eq. cbn [snd]. apply Hm. Qed.

Lemma quiet_host {A} (P : call -> Prop) c (f : W -> pyresult A * W) :
  P c -> quiet P (host c f).
Proof.
  intros Pc s. rewrite host_eq. cbn [snd stdin log].
  split; [reflexivity|].
  eexists. split; [reflexivity | repeat constructor; exact Pc].
Qed.

Lemma quiet_host_total {A} (P : call -> Prop) c (f : W -> A * W) :
  P c -> quiet P (host_total c f).
Proof. intros Pc. unfold host_total. apply quiet_host, Pc. Qed.

Lemma quiet_for_each {A S} P (l : list A) (body : A -> S -> M W S) :
  (forall x acc, quiet P (body x acc)) ->
  forall acc, quiet P (for_each l body acc).
Proof.
  intros Hb. induction l as [|x l IH]; intros acc; cbn [for_each].
  - apply quiet_ret.
  - apply quiet_bind; auto.
Qed.

Lemma quiet_Process P n : P (CProcess n) -> quiet P (Process_ n).
Proof.
  intros Pc. unfold Process_.
  apply quiet_bind; [apply quiet_host, Pc | intros; apply quiet_ret].
Qed.

Lemma quiet_find_processes_using_port port :
  quiet no_signal (find_processes_using_port port).
Proof.
  unfold find_processes_using_port.
  apply quiet_bind; [apply quiet_host_total; reflexivity | intros _].
  apply quiet_bind; [|intros; apply quiet_ret].
  apply quiet_try. unfold scan_connections.
  apply quiet_bind; [apply quiet_host; reflexivity | intros conns].
  apply quiet_for_each. intros conn procs.
  apply quiet_bind; [|intros [procs'|e]; apply quiet_ret].
  apply quiet_try. destruct (conn_match conn port) as [n|]; [|apply quiet_ret].
  apply quiet_bind; [apply quiet_Process; reflexivity | intros; apply quiet_ret].
Qed.

Lemma quiet_describe_candidate p : quiet no_signal (describe_candidate p).
Proof.
  unfold describe_candidate.
  apply quiet_bind; [apply quiet_try, quiet_host; reflexivity | intros r1].
  apply quiet_bind; [apply quiet_try, quiet_host; reflexivity | intros r2].
  apply quiet_bind; [apply quiet_host; reflexivity | intros _].
  apply quiet_bind; [apply quiet_host; reflexivity | intros name].
  apply quiet_bind; [apply quiet_host; reflexivity | intros cmdline].
  apply quiet_ret.
Qed.

Lemma quiet_fetch_processes_real_time :
  quiet no_signal fetch_processes_real_time.
Proof.
  unfold fetch_processes_real_time.
  apply quiet_bind.
  { unfold warm_up.
    apply quiet_bind; [apply quiet_host_total; reflexivity | intros ps].
    apply quiet_bind; [|intros; apply quiet_host_total; reflexivity].
    apply quiet_for_each. intros [p info] acc.
    apply quiet_bind; [apply quiet_try, quiet_host; reflexivity|].
    intros; apply quiet_ret. }
  intros _.
  apply quiet_bind; [apply quiet_host_total; reflexivity | intros ps].
  unfold snapshot_all. apply quiet_for_each. intros [p info] procs.
  apply quiet_bind.
  { apply quiet_try. unfold snapshot_entry.
    apply quiet_bind; [apply quiet_try, quiet_host; reflexivity | intros r1].
    apply quiet_bind; [apply quiet_try, quiet_host; reflexivity | intros r2].
    apply quiet_ret. }
  intros [entry|e]; [apply quiet_ret|].
  destruct (is_kind NoSuchProcess e || is_kind AccessDenied e);
    [apply quiet_ret | apply quiet_raise].
Qed.

Lemma input_cons (s : St W) line rest :
  stdin s = line :: rest ->
  input s =
  (Ok line, mkSt (world s) rest (log s ++ [mkEvent CInput None])).
Proof. intros E. unfold input. rewrite E. reflexivity. Qed.

Lemma input_nil (s : St W) :
  stdin s = [] ->
  exists e,
    input s = (Raise e, mkSt (world s) [] (log s ++ [mkEvent CInput (Some e)])).
Proof. intros E. unfold input. rewrite E. eexists. reflexivity. Qed.

Lemma no_signal_grows (s s' : St W) evs :
  Forall no_signal (calls s) ->
  log s' = log s ++ evs ->
  Forall (fun ev => no_signal (ev_call ev)) evs ->
  Forall no_signal (calls s').
Proof.
  intros F L Fe. rewrite (calls_app s s' evs L).
  apply Forall_app. split; [exact F | apply Forall_map_ev, Fe].
Qed.

Lemma no_signal_input (s : St W) :
  Forall no_signal (calls s) ->
  Forall no_signal (calls (snd (input s))).
Proof.
  intros F. destruct (emits_input no_signal eq_refl s) as [evs [L Fe]].
  exact (no_signal_grows s _ evs F L Fe).
Qed.

(** A signal in a log shows that the log is not free of signals. *)
Lemma signal_found (cs : list call) c :
  In c cs -> is_signal c = true -> ~ Forall no_signal cs.
Proof.
  intros Hin Hs F. rewrite Forall_forall in F. specialize (F c Hin).
  unfold no_signal in F. rewrite Hs in F. discriminate F.
Qed.

(** Reading the answer to a "(y/n)" question: either the next line reads
    y, or what follows is [ret tt]. *)
Lemma confirm_or_cancel (k : M W unit) (s : St W) :
  Forall no_signal (calls s) ->
  (exists l2 rest, stdin s = l2 :: rest /\ lower (strip l2) = "y") \/
  Forall no_signal
    (calls (snd (bind input
                   (fun line =>
                      if negb (String.eqb (lower (strip line)) "y")
                      then ret tt else k) s))).
Proof.
  intros F. destruct (stdin s) as [|l2 rest] eqn:Es.
  - right. destruct (input_nil s Es) as [e Ei].
    rewrite (bind_raise _ _ _ _ _ Ei). cbn [snd].
    eapply (no_signal_grows s);
      [exact F | cbn [log]; reflexivity | repeat constructor].
  - destruct (String.eqb (lower (strip l2)) "y") eqn:Ey.
    + left. exists l2, rest. split; [reflexivity|].
      apply String.eqb_eq, Ey.
    + right. rewrite (bind_ok _ _ _ _ _ (input_cons s l2 rest Es)).
      rewrite Ey. cbn [negb snd ret].
      eapply (no_signal_grows s);
        [exact F | cbn [log]; reflexivity | repeat constructor].
Qed.

(** *** Freeing a port *)

Lemma free_port_parse_ok (w : W) lines port s1 :
  bind input
    (fun line =>
       if String.eqb (strip line) EmptyString then ret None
       else bind (int_ (strip line)) (fun port => ret (Some port)))
    (init w lines) = (Ok (Some port), s1) ->
  exists l1 rest,
    lines = l1 :: rest /\ int_of_string (strip l1) = Ok port /\
    s1 = mkSt w rest [mkEvent CInput None].
Proof.
  intros E. apply bind_inv in E. destruct E as [line [t1 [I1 E]]].
  unfold input, init in I1. cbn [stdin world log app] in I1.
  destruct lines as [|l1 rest]; [discriminate I1|].
  inversion I1; subst line t1. clear I1.
  destruct (String.eqb (strip l1) EmptyString); [discriminate E|].
  apply bind_inv in E. destruct E as [n [t2 [P1 E]]].
  unfold int_ in P1. destruct (int_of_string (strip l1)) as [n1|e1] eqn:N1;
    [|discriminate P1].
  unfold ret in P1, E. inversion P1; subst n1 t2.
  inversion E; subst n s1.
  exists l1, rest. auto.
Qed.

Lemma free_port_parse_emits :
  emits (W := W) no_signal
    (bind input
       (fun line =>
          if String.eqb (strip line) EmptyString then ret None
          else bind (int_ (strip line)) (fun port => ret (Some port)))).
Proof.
  apply emits_bind; [apply emits_input; reflexivity | intros line].
  destruct (String.eqb (strip line) EmptyString); [apply emits_ret|].
  apply emits_bind; [apply emits_int | intros; apply emits_ret].
Qed.

Lemma free_port_confirmed (w : W) lines :
  (exists l1 l2 rest port,
     lines = l1 :: l2 :: rest /\ int_of_string (strip l1) = Ok port /\
     lower (strip l2) = "y") \/
  Forall no_signal (calls (snd (free_port_interactive (init w lines)))).
Proof.
  unfold free_port_interactive, bind at 1. rewrite try_eq.
  destruct (free_port_parse_emits (init w lines)) as [evs0 [L0 F0]].
  destruct (bind input
              (fun line =>
                 if String.eqb (strip line) EmptyString then ret None
                 else bind (int_ (strip line)) (fun port => ret (Some port)))
              (init w lines)) as [[[port|]|e] s1] eqn:P; cbn [fst snd] in *.
  - apply free_port_parse_ok in P. destruct P as [l1 [rest [-> [N1 ->]]]].
    set (s1 := mkSt w rest [mkEvent CInput None]).
    assert (F1 : Forall no_signal (calls s1)) by (repeat constructor).
    destruct (quiet_find_processes_using_port port s1) as [I2 [evs2 [L2 F2]]].
    destruct (find_processes_using_port port s1) as [[procs|e] s2] eqn:Fd;
      cbn [snd] in *.
    2:{ right. rewrite (bind_raise _ _ _ _ _ Fd). cbn [snd].
        exact (no_signal_grows s1 s2 evs2 F1 L2 F2). }
    rewrite (bind_ok _ _ _ _ _ Fd).
    assert (F2' : Forall no_signal (calls s2))
      by exact (no_signal_grows s1 s2 evs2 F1 L2 F2).
    destruct procs as [|p0 procs]; [right; exact F2'|].
    destruct (quiet_for_each no_signal (p0 :: procs)
                (fun p candidates =>
                   bind (describe_candidate p)
                     (fun c => ret (candidates ++ [c])))
                (fun p acc =>
                   quiet_bind no_signal _ _ (quiet_describe_candidate p)
                     (fun c => quiet_ret no_signal _))
                [] s2) as [I3 [evs3 [L3 F3]]].
    destruct (for_each (p0 :: procs)
                (fun p candidates =>
                   bind (describe_candidate p)
                     (fun c => ret (candidates ++ [c])))
                [] s2) as [[candidates|e] s3] eqn:Ds; cbn [snd] in *.
    2:{ right. rewrite (bind_raise _ _ _ _ _ Ds). cbn [snd].
        exact (no_signal_grows s2 s3 evs3 F2' L3 F3). }
    rewrite (bind_ok _ _ _ _ _ Ds).
    assert (F3' : Forall no_signal (calls s3))
      by exact (no_signal_grows s2 s3 evs3 F2' L3 F3).
    match goal with
    | |- _ \/ Forall _ (calls (snd (bind input (fun line =>
                 if negb (String.eqb (lower (strip line)) "y")
                 then ret tt else ?k) s3))) =>
        destruct (confirm_or_cancel k s3 F3') as [[l2 [rest' [Es Ey]]]|Fc]
    end.
    + left. exists l1, l2, rest', port.
      rewrite I3, I2 in Es. cbn [stdin s1] in Es. rewrite Es. auto.
    + right. exact Fc.
  - right. unfold ret. cbn [snd].
    apply (no_signal_grows (init w lines) s1 evs0); [constructor| exact L0 | exact F0].
  - right.
    assert (F1 : Forall no_signal (calls s1)).
    { apply (no_signal_grows (init w lines) s1 evs0);
        [constructor | exact L0 | exact F0]. }
    destruct (is_kind ValueError e); exact F1.
Qed.

End Quiet.

(** X14: freeing a port signals nothing without a yes.  Whatever is typed
    and whatever the host answers, [free_port_interactive] sends a
    graceful request or a forced kill only when the first line parsed as a
    port number and the second line, the answer to the confirmation, reads
    y (in either case, blanks around it ignored). *)
Theorem free_port_signals_only_after_yes :
  forall (W : Type) (H : Host W) (w : W) (lines : list string) (c : call),
    In c (calls (snd (free_port_interactive (init w lines)))) ->
    is_signal c = true ->
    exists l1 l2 rest port,
      lines = l1 :: l2 :: rest /\ int_of_string (strip l1) = Ok port /\
      lower (strip l2) = "y".
Proof.
  intros W H w lines c Hin Hs.
  destruct (free_port_confirmed w lines) as [Hy|F]; [exact Hy|].
  exfalso. exact (signal_found _ c Hin Hs F).
Qed.

Lemma free_port_signals_only_after_yes_witness :
  exists l1 l2 rest port,
    ["8080"; " Y "; "2"] = l1 :: l2 :: rest /\
    int_of_string (strip l1) = Ok port /\ lower (strip l2) = "y".
Proof.
  apply (free_port_signals_only_after_yes Script Script_Host two_listeners
           ["8080"; " Y "; "2"] (CTerminate (mkProcess 42 1))).
  - vm_compute. tauto.
  - reflexivity.
Defined.

(** ** Killing from the menu *)

Section MenuKillFacts.
Context {W : Type} {H : Host W}.

Lemma bind_try {A B} (m : M W A) (k : pyresult A -> M W B) (s : St W) :
  bind (try_ m) k s = k (fst (m s)) (snd (m s)).
Proof. unfold bind. rewrite try_eq. reflexivity. Qed.

Lemma int_eq (str : string) (s : St W) :
  int_ str s =
  (match int_of_string str with Ok n => Ok n | Raise e => Raise e end, s).
Proof. unfold int_. destruct (int_of_string str); reflexivity. Qed.

Lemma kill_by_pid_confirmed (w : W) lines :
  (exists l1 l2 rest root ct,
     lines = l1 :: l2 :: rest /\ int_of_string (strip l1) = Ok root /\
     fst (psutil_Process root w) = Ok ct /\
     lower (strip l2) = "y") \/
  Forall no_signal (calls (snd (kill_by_pid (init w lines)))).
Proof.
  unfold kill_by_pid. destruct lines as [|l1 rest].
  - right. destruct (input_nil (init w []) eq_refl) as [e Ei].
    rewrite (bind_raise _ _ _ _ _ Ei). repeat constructor.
  - rewrite (bind_ok _ _ _ _ _
               (input_cons (init w (l1 :: rest)) l1 rest eq_refl)).
    cbv beta zeta. cbn [init world log app].
    set (s1 := mkSt w rest [mkEvent CInput None]).
    assert (F1 : Forall no_signal (calls s1)) by (repeat constructor).
    rewrite bind_try, int_eq.
    destruct (int_of_string (strip l1)) as [root|e1] eqn:N1; cbn [fst snd];
      [|right; exact F1].
    set (block := bind (Process_ root)
                    (fun p =>
                       bind (host (CName p) (proc_name p))
                         (fun _ =>
                            bind (host (CCmdline p) (proc_cmdline p))
                              (fun _ => ret tt)))).
    assert (Qb : quiet no_signal block).
    { apply quiet_bind; [apply quiet_Process; reflexivity | intros p].
      apply quiet_bind; [apply quiet_host; reflexivity | intros _].
      apply quiet_bind; [apply quiet_host; reflexivity | intros _].
      apply quiet_ret. }
    rewrite bind_try.
    destruct (Qb s1) as [I2 [evs2 [L2 F2]]].
    assert (F2' : Forall no_signal (calls (snd (block s1))))
      by exact (no_signal_grows s1 _ evs2 F1 L2 F2).
    destruct (block s1) as [[u|e] s2] eqn:B; cbn [fst snd] in *;
      [|right; exact F2'].
    match goal with
    | |- _ \/ Forall _ (calls (snd (bind input (fun line =>
                 if negb (String.eqb (lower (strip line)) "y")
                 then ret tt else ?k) s2))) =>
        destruct (confirm_or_cancel k s2 F2') as [[l2 [rest' [Es Ey]]]|Fc]
    end; [|right; exact Fc].
    left. subst block. apply bind_inv in B. destruct B as [p [t [Bp _]]].
    rewrite Process_eq in Bp. cbn [world s1] in Bp.
    destruct (fst (psutil_Process root w)) as [ct|e] eqn:R;
      [|discriminate Bp].
    exists l1, l2, rest', root, ct.
    rewrite I2 in Es. cbn [stdin s1] in Es. rewrite Es. auto.
Qed.

Lemma kill_by_name_confirmed (w : W) lines :
  (exists l1 l2 rest,
     lines = l1 :: l2 :: rest /\ strip l1 <> EmptyString /\
     lower (strip l2) = "y") \/
  Forall no_signal (calls (snd (kill_by_name (init w lines)))).
Proof.
  unfold kill_by_name. destruct lines as [|l1 rest].
  - right. destruct (input_nil (init w []) eq_refl) as [e Ei].
    rewrite (bind_raise _ _ _ _ _ Ei). repeat constructor.
  - rewrite (bind_ok _ _ _ _ _
               (input_cons (init w (l1 :: rest)) l1 rest eq_refl)).
    cbv beta zeta. cbn [init world log app].
    set (s1 := mkSt w rest [mkEvent CInput None]).
    assert (F1 : Forall no_signal (calls s1)) by (repeat constructor).
    destruct (String.eqb (strip l1) EmptyString) eqn:Ne; [right; exact F1|].
    apply String.eqb_neq in Ne.
    destruct (quiet_fetch_processes_real_time s1) as [I2 [evs2 [L2 F2]]].
    assert (F2' : Forall no_signal
                    (calls (snd (fetch_processes_real_time s1))))
      by exact (no_signal_grows s1 _ evs2 F1 L2 F2).
    destruct (fetch_processes_real_time s1) as [[procs|e] s2] eqn:Fe;
      cbn [snd] in *.
    2:{ right. rewrite (bind_raise _ _ _ _ _ Fe). exact F2'. }
    rewrite (bind_ok _ _ _ _ _ Fe).
    destruct (filter (name_matches (strip l1)) procs) as [|t0 targets];
      [right; exact F2'|].
    match goal with
    | |- _ \/ Forall _ (calls (snd (bind input (fun line =>
                 if negb (String.eqb (lower (strip line)) "y")
                 then ret tt else ?k) s2))) =>
        destruct (confirm_or_cancel k s2 F2') as [[l2 [rest' [Es Ey]]]|Fc]
    end; [|right; exact Fc].
    left. exists l1, l2, rest'.
    rewrite I2 in Es. cbn [stdin s1] in Es. rewrite Es. auto.
Qed.

End MenuKillFacts.

(** X15: "Kill process by PID" signals nothing without a yes.  Whatever is
    typed and whatever the host answers, choice 3 sends a graceful request
    or a forced kill only when the first line parsed as a number, a
    process with that pid was found, and the second line, the answer to
    the confirmation, reads y (in either case, blanks around it
    ignored). *)
Theorem kill_by_pid_signals_only_after_yes :
  forall (W : Type) (H : Host W) (w : W) (lines : list string) (c : call),
    In c (calls (snd (kill_by_pid (init w lines)))) ->
    is_signal c = true ->
    exists l1 l2 rest root ct,
      lines = l1 :: l2 :: rest /\ int_of_string (strip l1) = Ok root /\
      fst (psutil_Process root w) = Ok ct /\
      lower (strip l2) = "y".
Proof.
  intros W H w lines c Hin Hs.
  destruct (kill_by_pid_confirmed w lines) as [Hy|F]; [exact Hy|].
  exfalso. exact (signal_found _ c Hin Hs F).
Qed.

Lemma kill_by_pid_signals_only_after_yes_witness :
  exists l1 l2 rest root ct,
    [" 42"; "y "] = l1 :: l2 :: rest /\
    int_of_string (strip l1) = Ok root /\
    fst (psutil_Process root two_listeners) = Ok ct /\
    lower (strip l2) = "y".
Proof.
  apply (kill_by_pid_signals_only_after_yes Script Script_Host two_listeners
           [" 42"; "y "] (CTerminate (mkProcess 42 1))).
  - vm_compute. tauto.
  - reflexivity.
Defined.

(** X16: "Kill processes by name" signals nothing without a yes.  Whatever
    is typed and whatever the host answers, choice 4 sends a graceful
    request or a forced kill only when the first line held a fragment that
    is not blank and the second line, the answer to the confirmation,
    reads y (in either case, blanks around it ignored). *)
Theorem kill_by_name_signals_only_after_yes :
  forall (W : Type) (H : Host W) (w : W) (lines : list string) (c : call),
    In c (calls (snd (kill_by_name (init w lines)))) ->
    is_signal c = true ->
    exists l1 l2 rest,
      lines = l1 :: l2 :: rest /\ strip l1 <> EmptyString /\
      lower (strip l2) = "y".
Proof.
  intros W H w lines c Hin Hs.
  destruct (kill_by_name_confirmed w lines) as [Hy|F]; [exact Hy|].
  exfalso. exact (signal_found _ c Hin Hs F).
Qed.

Lemma kill_by_name_signals_only_after_yes_witness :
  exists l1 l2 rest,
    ["work"; "Y"] = l1 :: l2 :: rest /\ strip l1 <> EmptyString /\
    lower (strip l2) = "y".
Proof.
  apply (kill_by_name_signals_only_after_yes Script Script_Host worker_running
           ["work"; "Y"] (CTerminate (mkProcess 7 1))).
  - vm_compute. tauto.
  - reflexivity.
Defined.

(** ** The terminator inside a longer run *)

Section Frames.
Context {W : Type} {H : Host W}.

Lemma frames_ret {A} (a : A) : frames (W := W) (ret a).
Proof. intros w inp l0 l. reflexivity. Qed.

Lemma frames_bind {A B} (m : M W A) (k : A -> M W B) :
  frames m -> (forall a, frames (k a)) -> frames (bind m k).
Proof.
  intros Hm Hk w inp l0 l. unfold bind. rewrite Hm.
  destruct (m (mkSt w inp l)) as [[a|e] [w1 i1 l1]];
    cbn [fst snd world stdin log].
  - apply Hk.
  - reflexivity.
Qed.

Lemma frames_try {A} (m : M W A) : frames m -> frames (try_ m).
Proof.
  intros Hm w inp l0 l. unfold try_. rewrite Hm.
  destruct (m (mkSt w inp l)) as [r [w1 i1 l1]]. reflexivity.
Qed.

Lemma frames_host {A} c (f : W -> pyresult A * W) : frames (host c f).
Proof.
  intros w inp l0 l. rewrite !host_eq. cbn [fst snd world stdin log].
  rewrite app_assoc. reflexivity.
Qed.

Lemma frames_for_each {A S} (l : list A) (body : A -> S -> M W S) :
  (forall x acc, frames (body x acc)) ->
  forall acc, frames (for_each l body acc).
Proof.
  intros Hb. induction l as [|x l IH]; intros acc; cbn [for_each].
  - apply frames_ret.
  - apply frames_bind; auto.
Qed.

Lemma frames_filter_m {A} (test : A -> M W bool) (l : list A) :
  (forall x, frames (test x)) -> frames (filter_m test l).
Proof.
  intros Ht. induction l as [|x l IH]; cbn [filter_m].
  - apply frames_ret.
  - apply frames_bind; [apply Ht | intros b].
    apply frames_bind; [exact IH | intros rest; apply frames_ret].
Qed.

Lemma frames_Process n : frames (Process_ n).
Proof.
  unfold Process_. apply frames_bind; [apply frames_host|].
  intros; apply frames_ret.
Qed.

Lemma frames_signal_tree all_procs timeout result :
  frames (signal_tree all_procs timeout result).
Proof.
  unfold signal_tree. apply frames_bind.
  { unfold graceful_phase. apply frames_for_each. intros p acc.
    apply frames_bind; [apply frames_try, frames_host|].
    intros [u|e]; apply frames_ret. }
  intros r1. apply frames_bind.
  { unfold wait_phase.
    apply frames_bind; [apply frames_try, frames_host|].
    intros [ga|e]; [apply frames_ret|].
    apply frames_bind; [|intros; apply frames_ret].
    apply frames_filter_m. intros p. apply frames_host. }
  intros [gone alive]. unfold escalation_phase.
  destruct alive as [|a alive']; [apply frames_ret|].
  unfold force_kill. apply frames_bind.
  { unfold kill_loop. apply frames_for_each. intros p acc.
    apply frames_bind; [apply frames_try, frames_host|].
    intros [u|e]; [apply frames_ret|].
    destruct (is_kind NoSuchProcess e); apply frames_ret. }
  intros r2. apply frames_bind; [apply frames_try, frames_host|].
  intros [[gone2 alive2]|e2]; [apply frames_ret|].
  unfold rewait_fallback. apply frames_for_each. intros p acc.
  apply frames_bind; [apply frames_try, frames_host|].
  intros [[|]|e3]; try apply frames_ret.
  destruct (negb _); apply frames_ret.
Qed.

Lemma frames_terminate_process_tree root timeout :
  frames (terminate_process_tree root timeout).
Proof.
  unfold terminate_process_tree.
  apply frames_bind; [apply frames_try, frames_Process|].
  intros [parent|e].
  - apply frames_bind; [|intros; apply frames_ret].
    unfold terminate_resolved. apply frames_bind.
    + unfold collect_tree.
      apply frames_bind; [apply frames_try, frames_host | intros r].
      apply frames_bind; [|intros; apply frames_ret].
      unfold resolve_children. apply frames_for_each. intros c acc.
      apply frames_bind; [apply frames_try, frames_Process|].
      intros [p|e]; apply frames_ret.
    + intros all_procs. apply frames_signal_tree.
  - destruct (is_kind NoSuchProcess e); apply frames_ret.
Qed.

(** The calls of [terminate_process_tree] in the middle of a run are the
    calls it makes from the same host at the start of one. *)
Lemma terminate_process_tree_calls_framed root timeout (s : St W) :
  calls (snd (terminate_process_tree root timeout s)) =
  calls s ++
  calls (snd (terminate_process_tree root timeout (init (world s) (stdin s)))).
Proof.
  destruct s as [w inp l0]. cbn [world stdin]. unfold init.
  pose proof (frames_terminate_process_tree root timeout w inp l0 []) as F.
  rewrite app_nil_r in F. rewrite F. unfold calls. cbn [snd log].
  apply map_app.
Qed.

(** With a sound [wait_procs], whoever is signalled was discovered. *)
Lemma signalled_pids_discovered (w : W) input root timeout p :
  wait_procs_sound ->
  In (CTerminate p)
     (calls (snd (terminate_process_tree root timeout (init w input)))) \/
  In (CKill p)
     (calls (snd (terminate_process_tree root timeout (init w input)))) ->
  In (pid p) (discovered_pids root w).
Proof.
  intros Hs Hp.
  destruct (fst (psutil_Process root w)) as [ct|e] eqn:R.
  - destruct (terminate_process_tree_sound w input root timeout ct Hs R)
      as [pre [all_procs [rest [Sh [Fp [Fr [D [Kl _]]]]]]]].
    rewrite Sh in Hp. rewrite Forall_forall in Fp, Fr.
    apply D. destruct Hp as [Hp|Hp].
    + apply in_app_or in Hp. destruct Hp as [Hp|Hp].
      { apply Fp in Hp. discriminate Hp. }
      apply in_app_or in Hp. destruct Hp as [Hp|[Hp|Hp]].
      * apply in_map_iff in Hp. destruct Hp as [q [Eq Hq]].
        inversion Eq; subst q. exact Hq.
      * discriminate Hp.
      * apply Fr in Hp. discriminate Hp.
    + apply in_app_or in Hp. destruct Hp as [Hp|Hp].
      { apply Fp in Hp. discriminate Hp. }
      apply in_app_or in Hp. destruct Hp as [Hp|[Hp|Hp]].
      * apply in_map_iff in Hp. destruct Hp as [q [Eq _]]. discriminate Eq.
      * discriminate Hp.
      * apply Kl, Hp.
  - exfalso. destruct (terminate_unresolved w input root timeout e R)
      as [s0 [E0 C0]].
    rewrite E0 in Hp. cbn [snd] in Hp. rewrite C0 in Hp.
    destruct Hp as [[Hp|[]]|[Hp|[]]]; discriminate Hp.
Qed.

Lemma calls_bind_ret {A} (m : M W A) (s : St W) :
  calls (snd (bind m (fun _ => ret tt) s)) = calls (snd (m s)).
Proof. unfold bind. destruct (m s) as [[a|e] s1]; reflexivity. Qed.

(** Opening the process and reading its name and command line. *)
Lemma lookup_block_eq root (s : St W) :
  bind (Process_ root)
    (fun p =>
       bind (host (CName p) (proc_name p))
         (fun _ =>
            bind (host (CCmdline p) (proc_cmdline p)) (fun _ => ret tt))) s =
  match psutil_Process root (world s) with
  | (Raise e, w1) =>
      (Raise e,
       mkSt w1 (stdin s) (log s ++ [mkEvent (CProcess root) (Some e)]))
  | (Ok ct, w1) =>
      match proc_name (mkProcess root ct) w1 with
      | (Raise e, w2) =>
          (Raise e,
           mkSt w2 (stdin s)
             (log s ++ [mkEvent (CProcess root) None;
                        mkEvent (CName (mkProcess root ct)) (Some e)]))
      | (Ok _, w2) =>
          match proc_cmdline (mkProcess root ct) w2 with
          | (r, w3) =>
              (match r with Ok _ => Ok tt | Raise e => Raise e end,
               mkSt w3 (stdin s)
                 (log s ++ [mkEvent (CProcess root) None;
                            mkEvent (CName (mkProcess root ct)) None;
                            mkEvent (CCmdline (mkProcess root ct))
                              (raised r)]))
          end
      end
  end.
Proof.
  unfold Process_, bind, host, ret. cbv beta.
  destruct (psutil_Process root (world s)) as [[ct|e] w1];
    cbn [world stdin log raised]; [|reflexivity].
  destruct (proc_name (mkProcess root ct) w1) as [[nm|e] w2];
    cbn [world stdin log raised]; [|rewrite <- app_assoc; reflexivity].
  destruct (proc_cmdline (mkProcess root ct) w2) as [[cl|e] w3];
    cbn [world stdin log raised]; rewrite <- !app_assoc; reflexivity.
Qed.

(** The run of choice 3 up to the confirmation. *)
Lemma kill_by_pid_lookup (w : W) l1 rest root :
  int_of_string (strip l1) = Ok root ->
  (exists ct s2,
     fst (psutil_Process root w) = Ok ct /\
     world s2 = world_after_lookup root ct w /\ stdin s2 = rest /\
     Forall no_signal (calls s2) /\
     kill_by_pid (init w (l1 :: rest)) =
     bind input
       (fun line =>
          if negb (String.eqb (lower (strip line)) "y") then ret tt
          else bind (terminate_process_tree root 5%Q) (fun _ => ret tt))
       s2) \/
  Forall no_signal (calls (snd (kill_by_pid (init w (l1 :: rest))))).
Proof.
  intros N1. unfold kill_by_pid.
  rewrite (bind_ok _ _ _ _ _
             (input_cons (init w (l1 :: rest)) l1 rest eq_refl)).
  cbv beta zeta. cbn [init world log app].
  set (s1 := mkSt w rest [mkEvent CInput None]).
  rewrite bind_try, int_eq, N1. cbn [fst snd].
  rewrite bind_try, lookup_block_eq. cbn [world stdin log s1].
  destruct (psutil_Process root w) as [[ct|e] w1] eqn:R; cbn [fst snd];
    [|right; repeat constructor].
  destruct (proc_name (mkProcess root ct) w1) as [[nm|e] w2] eqn:Nm;
    cbn [fst snd]; [|right; repeat constructor].
  destruct (proc_cmdline (mkProcess root ct) w2) as [[cl|e] w3] eqn:Cl;
    cbn [fst snd raised]; [|right; repeat constructor].
  left. eexists ct, _. split; [reflexivity|].
  split; [|split; [|split; [|reflexivity]]].
  - unfold world_after_lookup. rewrite R. cbn [snd]. rewrite Nm. cbn [snd].
    rewrite Cl. reflexivity.
  - reflexivity.
  - repeat constructor.
Qed.

End Frames.

(** X17: "Kill process by PID" stays inside the tree of the pid typed.
    When [wait_procs] hands back only handles it was given, every handle
    that choice 3 sends a graceful request or a forced kill has the pid
    typed on the first line or the pid of a descendant that
    [children(recursive=True)] reported for it after the confirmation. *)
Theorem kill_by_pid_signals_stay_in_tree :
  forall (W : Type) (H : Host W),
    wait_procs_sound ->
    forall (w : W) (lines : list string) (p : Process),
      In (CTerminate p) (calls (snd (kill_by_pid (init w lines)))) \/
      In (CKill p) (calls (snd (kill_by_pid (init w lines)))) ->
      exists l1 rest root ct,
        lines = l1 :: rest /\ int_of_string (strip l1) = Ok root /\
        fst (psutil_Process root w) = Ok ct /\
        In (pid p) (discovered_pids root (world_after_lookup root ct w)).
Proof.
  intros W H Hs w lines p Hp.
  assert (Hc : exists c, In c (calls (snd (kill_by_pid (init w lines)))) /\
                         is_signal c = true /\
                         (c = CTerminate p \/ c = CKill p)).
  { destruct Hp as [Hp|Hp]; eexists; (split; [exact Hp|]); auto. }
  clear Hp. destruct Hc as [c [Hin [Sc Ec]]].
  destruct lines as [|l1 rest].
  { exfalso. destruct (kill_by_pid_confirmed w []) as [Hy|F].
    - destruct Hy as [? [? [? [? [? [E _]]]]]]. discriminate E.
    - exact (signal_found _ c Hin Sc F). }
  destruct (int_of_string (strip l1)) as [root|e] eqn:N1.
  2:{ exfalso. destruct (kill_by_pid_confirmed w (l1 :: rest)) as [Hy|F].
      - destruct Hy as [? [? [? [? [? [E [N _]]]]]]].
        inversion E; subst. rewrite N1 in N. discriminate N.
      - exact (signal_found _ c Hin Sc F). }
  destruct (kill_by_pid_lookup w l1 rest root N1)
    as [[ct [s2 [R [Ew [Es [F2 Run]]]]]]|F];
    [|exfalso; exact (signal_found _ c Hin Sc F)].
  exists l1, rest, root, ct.
  split; [reflexivity|]. split; [exact N1|]. split; [exact R|].
  rewrite Run in Hin.
  destruct (stdin s2) as [|l2 rest'] eqn:Es2.
  { exfalso. destruct (input_nil s2 Es2) as [e Ei].
    rewrite (bind_raise _ _ _ _ _ Ei) in Hin. cbn [snd] in Hin.
    apply (signal_found _ c Hin Sc).
    eapply (no_signal_grows s2);
      [exact F2 | cbn [log]; reflexivity | repeat constructor]. }
  rewrite (bind_ok _ _ _ _ _ (input_cons s2 l2 rest' Es2)) in Hin.
  set (s3 := mkSt (world s2) rest' (log s2 ++ [mkEvent CInput None])) in Hin.
  assert (F3 : Forall no_signal (calls s3)).
  { eapply (no_signal_grows s2);
      [exact F2 | cbn [log]; reflexivity | repeat constructor]. }
  destruct (negb (String.eqb (lower (strip l2)) "y")).
  { exfalso. exact (signal_found _ c Hin Sc F3). }
  rewrite calls_bind_ret, terminate_process_tree_calls_framed in Hin.
  apply in_app_or in Hin. destruct Hin as [Hin|Hin].
  { exfalso. exact (signal_found _ c Hin Sc F3). }
  cbn [world stdin s3] in Hin. rewrite Ew in Hin.
  apply (signalled_pids_discovered _ rest' root 5%Q p Hs).
  destruct Ec as [->| ->]; [left | right]; exact Hin.
Qed.

Lemma kill_by_pid_signals_stay_in_tree_witness :
  exists l1 rest root ct,
    ["100"; "y"] = l1 :: rest /\ int_of_string (strip l1) = Ok root /\
    fst (psutil_Process root exited_and_stubborn) = Ok ct /\
    In 102 (discovered_pids root
              (world_after_lookup root ct exited_and_stubborn)).
Proof.
  apply (kill_by_pid_signals_stay_in_tree Tame Tame_Host Tame_wait_procs_sound
           exited_and_stubborn ["100"; "y"] (mkProcess 102 1)).
  right. vm_compute. tauto.
Defined.

(** ** Sorting and slicing *)

Section SortDesc.
Context {A : Type} (leb : A -> A -> bool).
Hypothesis leb_total : forall a b, leb a b = true \/ leb b a = true.
Hypothesis leb_trans :
  forall a b c, leb a b = true -> leb b c = true -> leb a c = true.

Lemma insert_desc_perm x l : Permutation (insert_desc leb x l) (x :: l).
Proof.
  induction l as [|y l IH]; cbn [insert_desc]; [reflexivity|].
  destruct (leb y x); [reflexivity|].
  rewrite IH. apply perm_swap.
Qed.

Lemma sort_desc_perm l : Permutation (sort_desc leb l) l.
Proof.
  induction l as [|x l IH]; cbn [sort_desc fold_right]; [reflexivity|].
  fold (sort_desc leb l). rewrite insert_desc_perm. apply perm_skip, IH.
Qed.

Lemma insert_desc_sorted x l :
  StronglySorted (fun a b => leb b a = true) l ->
  StronglySorted (fun a b => leb b a = true) (insert_desc leb x l).
Proof.
  induction 1 as [|y l Hs IH Hy]; cbn [insert_desc].
  - constructor; constructor.
  - destruct (leb y x) eqn:Eyx.
    + constructor; [constructor; assumption|].
      constructor; [exact Eyx|].
      rewrite Forall_forall in Hy |- *. intros b Hb.
      apply (leb_trans b y x); [apply Hy, Hb | exact Eyx].
    + constructor; [exact IH|].
      rewrite Forall_forall in Hy |- *. intros b Hb.
      apply (Permutation_in _ (insert_desc_perm x l)) in Hb.
      destruct Hb as [<-|Hb]; [|apply Hy, Hb].
      destruct (leb_total x y) as [E|E]; [exact E|].
      rewrite E in Eyx. discriminate Eyx.
Qed.

Lemma sort_desc_sorted l :
  StronglySorted (fun a b => leb b a = true) (sort_desc leb l).
Proof.
  induction l as [|x l IH]; cbn [sort_desc fold_right]; [constructor|].
  apply insert_desc_sorted, IH.
Qed.

End SortDesc.

Lemma sorted_firstn_skipn {A} (R : A -> A -> Prop) (l : list A) :
  StronglySorted R l ->
  forall n a b, In a (firstn n l) -> In b (skipn n l) -> R a b.
Proof.
  induction 1 as [|x l Hs IH Hx]; intros n a b Ha Hb.
  - destruct n; destruct Ha.
  - destruct n as [|n]; [destruct Ha|].
    cbn [firstn skipn] in Ha, Hb. destruct Ha as [<-|Ha].
    + rewrite Forall_forall in Hx. apply Hx.
      rewrite <- (firstn_skipn n l). apply in_or_app. right. exact Hb.
    + exact (IH n a b Ha Hb).
Qed.

Lemma firstn_min_length {A} n (l : list A) :
  firstn (Nat.min n (List.length l)) l = firstn n l.
Proof.
  destruct (Nat.le_gt_cases n (List.length l)) as [Hn|Hn].
  - rewrite Nat.min_l by exact Hn. reflexivity.
  - rewrite Nat.min_r by lia. rewrite firstn_all.
    symmetry. apply firstn_all2. lia.
Qed.

(** [l[:n]] for a count that is not negative. *)
Lemma slice_head {A} (l : list A) n :
  0 <= n -> slice l 0 n = firstn (Z.to_nat n) l.
Proof.
  intros Hn. unfold slice, slice_index.
  replace (0 <? 0) with false by reflexivity.
  replace (n <? 0) with false by (symmetry; apply Z.ltb_ge; exact Hn).
  replace (Z.to_nat (Z.min 0 (Z.of_nat (List.length l)))) with 0%nat by lia.
  cbn [skipn].
  replace (Z.to_nat (Z.min n (Z.of_nat (List.length l))
                     - Z.min 0 (Z.of_nat (List.length l))))
    with (Nat.min (Z.to_nat n) (List.length l)) by lia.
  apply firstn_min_length.
Qed.

Lemma top_count_pos line : 0 < top_count line.
Proof.
  unfold top_count. destruct (int_of_string (strip line)) as [n|e]; [|lia].
  destruct (n <=? 0) eqn:E; [lia|]. apply Z.leb_gt in E. exact E.
Qed.

Lemma cpu_leb_total a b : cpu_leb a b = true \/ cpu_leb b a = true.
Proof.
  unfold cpu_leb. rewrite !Qle_bool_iff.
  destruct (Qlt_le_dec (entry_cpu a) (entry_cpu b)) as [L|L].
  - left. apply Qlt_le_weak, L.
  - right. exact L.
Qed.

Lemma cpu_leb_trans a b c :
  cpu_leb a b = true -> cpu_leb b c = true -> cpu_leb a c = true.
Proof. unfold cpu_leb. rewrite !Qle_bool_iff. apply Qle_trans. Qed.

Lemma mem_leb_total a b : mem_leb a b = true \/ mem_leb b a = true.
Proof. unfold mem_leb. rewrite !Z.leb_le. lia. Qed.

Lemma mem_leb_trans a b c :
  mem_leb a b = true -> mem_leb b c = true -> mem_leb a c = true.
Proof. unfold mem_leb. rewrite !Z.leb_le. lia. Qed.

(** X18: "Show Top processes" shows the top ones.  The list has as many
    entries as were asked for (5 when the answer is not a positive
    number), or the whole snapshot when that is shorter; together with the
    entries left out it is the snapshot; and no entry left out has a
    higher CPU share (for sort choice 1, the default) or more memory (for
    any other choice) than one that is shown. *)
Theorem top_processes_are_top :
  forall (sort_line count_line : string) (procs : list Entry),
    let out := top_processes sort_line count_line procs in
    List.length out =
      Nat.min (Z.to_nat (top_count count_line)) (List.length procs) /\
    exists rest,
      Permutation (out ++ rest) procs /\
      forall a b, In a out -> In b rest ->
        if String.eqb (str_or (Some (strip sort_line)) "1") "1"
        then (entry_cpu b <= entry_cpu a)%Q
        else entry_mem b <= entry_mem a.
Proof.
  intros sort_line count_line procs. cbv zeta. unfold top_processes.
  pose proof (top_count_pos count_line) as Hn.
  rewrite !slice_head by lia.
  set (n := Z.to_nat (top_count count_line)).
  destruct (String.eqb (str_or (Some (strip sort_line)) "1") "1").
  - split.
    + rewrite length_firstn.
      rewrite (Permutation_length (sort_desc_perm cpu_leb procs)).
      reflexivity.
    + exists (skipn n (sort_desc cpu_leb procs)). split.
      * rewrite firstn_skipn. apply sort_desc_perm.
      * intros a b Ha Hb. apply Qle_bool_iff.
        exact (sorted_firstn_skipn _ _
                 (sort_desc_sorted cpu_leb cpu_leb_total cpu_leb_trans procs)
                 n a b Ha Hb).
  - split.
    + rewrite length_firstn.
      rewrite (Permutation_length (sort_desc_perm mem_leb procs)).
      reflexivity.
    + exists (skipn n (sort_desc mem_leb procs)). split.
      * rewrite firstn_skipn. apply sort_desc_perm.
      * intros a b Ha Hb. apply Z.leb_le.
        exact (sorted_firstn_skipn _ _
                 (sort_desc_sorted mem_leb mem_leb_total mem_leb_trans procs)
                 n a b Ha Hb).
Qed.

Example sort_desc_is_stable :
  sort_desc (fun a b : Z * string => fst a <=? fst b)
    [(1, "a"); (3, "b"); (2, "c"); (3, "d"); (1, "e")] =
  [(3, "b"); (3, "d"); (2, "c"); (1, "a"); (1, "e")].
Proof. reflexivity. Qed.

(** ** The pages of the thread monitor *)

Lemma firstn_add {A} (a b : nat) (l : list A) :
  firstn (a + b) l = firstn a l ++ firstn b (skipn a l).
Proof.
  revert l. induction a as [|a IH]; intros l; [reflexivity|].
  destruct l as [|x l]; cbn [Nat.add firstn skipn app].
  - rewrite firstn_nil. reflexivity.
  - rewrite IH. reflexivity.
Qed.

(** The slice of page [k], for a positive page size. *)
Lemma slice_page {A} (rows : list A) (p k : nat) :
  slice rows (Z.of_nat k * Z.of_nat p) (Z.of_nat k * Z.of_nat p + Z.of_nat p) =
  firstn p (skipn (k * p) rows).
Proof.
  unfold slice, slice_index.
  replace (Z.of_nat k * Z.of_nat p <? 0) with false
    by (symmetry; apply Z.ltb_ge; lia).
  replace (Z.of_nat k * Z.of_nat p + Z.of_nat p <? 0) with false
    by (symmetry; apply Z.ltb_ge; lia).
  destruct (Nat.le_gt_cases (k * p) (List.length rows)) as [Hk|Hk].
  - replace (Z.to_nat (Z.min (Z.of_nat k * Z.of_nat p)
                         (Z.of_nat (List.length rows))))
      with (k * p)%nat by lia.
    replace (Z.to_nat
               (Z.min (Z.of_nat k * Z.of_nat p + Z.of_nat p)
                  (Z.of_nat (List.length rows))
                - Z.min (Z.of_nat k * Z.of_nat p)
                    (Z.of_nat (List.length rows))))
      with (Nat.min p (List.length (skipn (k * p) rows)))
      by (rewrite length_skipn; lia).
    apply firstn_min_length.
  - replace (Z.to_nat (Z.min (Z.of_nat k * Z.of_nat p)
                         (Z.of_nat (List.length rows))))
      with (List.length rows) by lia.
    rewrite skipn_all. rewrite (skipn_all2 rows) by lia.
    rewrite !firstn_nil. reflexivity.
Qed.

Lemma pages_concat {A} (rows : list A) (p T : nat) :
  List.concat (map (fun k => firstn p (skipn (k * p) rows)) (seq 0 T)) =
  firstn (T * p) rows.
Proof.
  induction T as [|T IH]; [reflexivity|].
  rewrite seq_S, map_app, concat_app, IH. cbn [map List.concat Nat.add].
  rewrite app_nil_r. replace (S T * p)%nat with (T * p + p)%nat by lia.
  symmetry. apply firstn_add.
Qed.

Lemma map_snd_combine_eq {A B} (l1 : list A) (l2 : list B) :
  List.length l1 = List.length l2 -> map snd (combine l1 l2) = l2.
Proof.
  revert l2. induction l1 as [|a l1 IH]; intros [|b l2] E;
    try discriminate E; [reflexivity|].
  cbn [combine map snd]. rewrite IH; [reflexivity|].
  injection E as E. exact E.
Qed.

Lemma print_table_rows_snd {A} (rows : list A) page_size page :
  map snd (print_table_rows rows page_size page) =
  slice rows (page * page_size) (page * page_size + page_size).
Proof.
  unfold print_table_rows. apply map_snd_combine_eq.
  rewrite length_map, length_seq. reflexivity.
Qed.

Lemma total_pages_covers n page_size :
  0 < page_size -> 0 <= n ->
  exists total,
    total_pages n page_size = Ok total /\
    1 <= total /\ n <= total * page_size.
Proof.
  intros Hp Hn. unfold total_pages, floordiv.
  assert (E : (page_size =? 0) = false) by (apply Z.eqb_neq; lia).
  rewrite E. eexists. split; [reflexivity|].
  pose proof (Z.div_mod (n + page_size - 1) page_size ltac:(lia)) as D.
  pose proof (Z.mod_pos_bound (n + page_size - 1) page_size Hp) as B.
  split; [lia|]. nia.
Qed.

Lemma total_pages_pos n page_size total :
  total_pages n page_size = Ok total -> 1 <= total.
Proof.
  unfold total_pages. destruct (floordiv _ _) as [q|e]; [|discriminate].
  intros E. inversion E. lia.
Qed.

(** X19: paging through the monitor table shows every row exactly once.
    For a positive page size the page count is computed, and the rows
    printed on the pages 0, 1, ..., [total_pages - 1], one page after the
    other, are the rows of the list, in order. *)
Theorem pages_show_every_row_once :
  forall (A : Type) (rows : list A) (page_size : Z),
    0 < page_size ->
    exists total,
      total_pages (Z.of_nat (List.length rows)) page_size = Ok total /\
      List.concat
        (map (fun page => map snd (print_table_rows rows page_size page))
             (range 0 total)) =
      rows.
Proof.
  intros A rows page_size Hp.
  destruct (total_pages_covers (Z.of_nat (List.length rows)) page_size Hp
              ltac:(lia)) as [T [ET [T1 Tc]]].
  exists T. split; [exact ET|].
  unfold range. rewrite map_map.
  replace (Z.to_nat (T - 0)) with (Z.to_nat T) by lia.
  rewrite (map_ext _
             (fun k => firstn (Z.to_nat page_size)
                         (skipn (k * Z.to_nat page_size) rows))).
  - rewrite pages_concat. apply firstn_all2. nia.
  - intros k. rewrite print_table_rows_snd. cbn [Z.add].
    rewrite <- (Z2Nat.id page_size) at 1 2 3 by lia.
    apply slice_page.
Qed.

Lemma pages_show_every_row_once_witness :
  exists total,
    total_pages (Z.of_nat (List.length ["a"; "b"; "c"; "d"; "e"])) 2 =
      Ok total /\
    List.concat
      (map (fun page =>
              map snd (print_table_rows ["a"; "b"; "c"; "d"; "e"] 2 page))
           (range 0 total)) =
    ["a"; "b"; "c"; "d"; "e"].
Proof.
  apply (pages_show_every_row_once string ["a"; "b"; "c"; "d"; "e"] 2).
  lia.
Defined.

Lemma in_combine_nth {A B} (l1 : list A) (l2 : list B) a b :
  In (a, b) (combine l1 l2) ->
  exists j, nth_error l1 j = Some a /\ nth_error l2 j = Some b.
Proof.
  revert l2. induction l1 as [|x l1 IH]; intros l2 Hin; [destruct Hin|].
  destruct l2 as [|y l2]; [destruct Hin|].
  cbn [combine] in Hin. destruct Hin as [Hin|Hin].
  - inversion Hin; subst. exists 0%nat. auto.
  - destruct (IH l2 Hin) as [j [E1 E2]]. exists (S j). auto.
Qed.

(** *** Numbers as they are printed and read back *)

Lemma digit_char c :
  is_digit c = true ->
  is_space c = false /\ Ascii.eqb c "-" = false /\ Ascii.eqb c "+" = false /\
  Ascii.eqb (lower_ascii c) "q" = false /\
  Ascii.eqb (lower_ascii c) "n" = false /\
  Ascii.eqb (lower_ascii c) "p" = false /\
  Ascii.eqb (lower_ascii c) "r" = false /\
  Ascii.eqb (lower_ascii c) "s" = false.
Proof.
  destruct c as [[] [] [] [] [] [] [] []]; vm_compute; intros E;
    try discriminate E; repeat split.
Qed.

Lemma digits_of_uint (d : Decimal.uint) :
  forallb is_digit (list_ascii_of_string (NilEmpty.string_of_uint d)) = true.
Proof.
  induction d; cbn [NilEmpty.string_of_uint list_ascii_of_string forallb];
    try rewrite IHd; reflexivity.
Qed.

Lemma parse_digits_of_uint_acc (d : Decimal.uint) :
  forall acc : positive,
    parse_digits (NilEmpty.string_of_uint d) (Z.pos acc) true =
    Some (Z.pos (Pos.of_uint_acc d acc)).
Proof.
  induction d; intros acc;
    cbn [NilEmpty.string_of_uint parse_digits Pos.of_uint_acc];
    try reflexivity;
    match goal with
    | |- context [is_digit ?c] =>
        change (is_digit c) with true; cbv iota;
        rewrite <- IHd; f_equal;
        let v := eval vm_compute in (digit_value c) in
        change (digit_value c) with v; lia
    end.
Qed.

Lemma parse_digits_of_uint (d : Decimal.uint) :
  d <> Decimal.Nil ->
  forall b, parse_digits (NilEmpty.string_of_uint d) 0 b =
            Some (Z.of_N (Pos.of_uint d)).
Proof.
  induction d; intros Hd b; [congruence| |..];
    cbn [NilEmpty.string_of_uint parse_digits Pos.of_uint];
    match goal with
    | |- context [is_digit ?c] => change (is_digit c) with true; cbv iota
    end;
    try (change (0 * 10 + digit_value _) with (Z.pos 1) ||
         change (0 * 10 + digit_value _) with (Z.pos 2) ||
         change (0 * 10 + digit_value _) with (Z.pos 3) ||
         change (0 * 10 + digit_value _) with (Z.pos 4) ||
         change (0 * 10 + digit_value _) with (Z.pos 5) ||
         change (0 * 10 + digit_value _) with (Z.pos 6) ||
         change (0 * 10 + digit_value _) with (Z.pos 7) ||
         change (0 * 10 + digit_value _) with (Z.pos 8) ||
         change (0 * 10 + digit_value _) with (Z.pos 9));
    try (rewrite parse_digits_of_uint_acc; reflexivity).
  change (0 * 10 + digit_value "0") with 0.
  destruct d; try (apply IHd; discriminate). reflexivity.
Qed.

Lemma rev_string_twice s :
  forall a b, rev_string (rev_string s a) b = rev_string a (s ++ b)%string.
Proof.
  induction s as [|c s IH]; intros a b; cbn [rev_string append];
    [reflexivity|].
  rewrite IH. reflexivity.
Qed.

Lemma append_empty s : (s ++ EmptyString)%string = s.
Proof. induction s as [|c s IH]; cbn; [|rewrite IH]; reflexivity. Qed.

Lemma rev_string_digits s :
  forallb is_digit (list_ascii_of_string s) = true ->
  forall acc,
    forallb is_digit (list_ascii_of_string acc) = true ->
    forallb is_digit (list_ascii_of_string (rev_string s acc)) = true.
Proof.
  induction s as [|c s IH]; intros Hs acc Ha; cbn [rev_string];
    [exact Ha|].
  cbn [list_ascii_of_string forallb] in Hs.
  apply andb_true_iff in Hs. destruct Hs as [Hc Hs].
  apply IH; [exact Hs|]. cbn [list_ascii_of_string forallb].
  rewrite Hc, Ha. reflexivity.
Qed.

Lemma lstrip_digits s :
  forallb is_digit (list_ascii_of_string s) = true -> lstrip s = s.
Proof.
  destruct s as [|c s]; [reflexivity|].
  cbn [list_ascii_of_string forallb lstrip]. intros Hs.
  apply andb_true_iff in Hs. destruct Hs as [Hc _].
  destruct (digit_char c Hc) as [-> _]. reflexivity.
Qed.

Lemma strip_digits s :
  forallb is_digit (list_ascii_of_string s) = true -> strip s = s.
Proof.
  intros Hs. unfold strip, rstrip. rewrite (lstrip_digits s Hs).
  rewrite lstrip_digits by (apply rev_string_digits; [exact Hs | reflexivity]).
  rewrite rev_string_twice. cbn [rev_string]. apply append_empty.
Qed.

(** A positive number as [str] prints it: digits that [isdigit] accepts,
    that [int] reads back as the number, and that are no command of the
    monitor. *)
Lemma printed_number_reads_back i :
  0 < i ->
  isdigit (string_of_Z i) = true /\
  int_of_string (string_of_Z i) = Ok i /\
  String.eqb (string_of_Z i) EmptyString = false /\
  String.eqb (lower (string_of_Z i)) "q" = false /\
  String.eqb (lower (string_of_Z i)) "n" = false /\
  String.eqb (lower (string_of_Z i)) "p" = false /\
  String.eqb (lower (string_of_Z i)) "r" = false /\
  String.eqb (lower (string_of_Z i)) "s" = false.
Proof.
  intros Hi. destruct i as [|p|p]; try lia.
  unfold string_of_Z. cbn [Z.to_int NilZero.string_of_int].
  pose proof (Unsigned.to_uint_nonnil p) as Hn.
  pose proof (Unsigned.of_to p) as Ho.
  set (d := Pos.to_uint p) in *.
  assert (Es : NilZero.string_of_uint d = NilEmpty.string_of_uint d)
    by (destruct d; [congruence | reflexivity..]).
  rewrite Es.
  pose proof (digits_of_uint d) as Dg.
  pose proof (parse_digits_of_uint d Hn false) as Pd.
  rewrite Ho in Pd. cbn [Z.of_N] in Pd.
  assert (St : strip (NilEmpty.string_of_uint d) = NilEmpty.string_of_uint d)
    by exact (strip_digits _ Dg).
  destruct (NilEmpty.string_of_uint d) as [|c rest] eqn:Ed.
  { destruct d; [congruence | discriminate Ed..]. }
  assert (Hc : is_digit c = true).
  { cbn [list_ascii_of_string forallb] in Dg.
    apply andb_true_iff in Dg. exact (proj1 Dg). }
  destruct (digit_char c Hc) as [_ [Hm [Hpl [Hq [Hn' [Hp' [Hr Hs]]]]]]].
  split; [|split].
  - unfold isdigit. cbn [String.eqb negb andb]. exact Dg.
  - unfold int_of_string. rewrite St. rewrite Hm, Hpl. rewrite Pd.
    reflexivity.
  - unfold lower. cbn [String.eqb map_string].
    rewrite Hq, Hn', Hp', Hr, Hs. repeat split.
Qed.

Lemma index_selects_row :
  forall (procs : list Row) (page_size page i : Z) (r : Row),
    0 < page_size -> 0 <= page ->
    In (i, r) (print_table_rows procs page_size page) ->
    (forall r', In r' procs -> row_pid r' <> i) ->
    select_row procs i = Some (row_pid r).
Proof.
  intros procs page_size page i r Hp Hg Hin Hno.
  unfold print_table_rows in Hin. cbv zeta in Hin.
  apply in_combine_nth in Hin. destruct Hin as [j [E1 E2]].
  assert (Hj : (j < List.length
                      (slice procs (page * page_size)
                         (page * page_size + page_size)))%nat).
  { apply nth_error_Some. rewrite E2. discriminate. }
  rewrite nth_error_map in E1. rewrite nth_error_seq in E1.
  destruct (Nat.ltb_spec j (List.length
                      (slice procs (page * page_size)
                         (page * page_size + page_size)))) as [_|Hge];
    [|lia].
  cbn [option_map Nat.add] in E1. injection E1 as Ei.
  assert (Ei' : i = 1 + page * page_size + Z.of_nat j)
    by (symmetry; exact Ei).
  clear Ei. subst i.
  revert Hj E2. unfold slice, slice_index.
  replace (page * page_size <? 0) with false
    by (symmetry; apply Z.ltb_ge; nia).
  replace (page * page_size + page_size <? 0) with false
    by (symmetry; apply Z.ltb_ge; nia).
  set (len := Z.of_nat (List.length procs)).
  set (a := Z.to_nat (Z.min (page * page_size) len)).
  set (m := Z.to_nat (Z.min (page * page_size + page_size) len
                      - Z.min (page * page_size) len)).
  intros Hj E2.
  rewrite length_firstn, length_skipn in Hj.
  assert (Ea : Z.of_nat a = page * page_size) by (subst a len; lia).
  rewrite nth_error_firstn in E2.
  destruct (Nat.ltb_spec j m) as [Hjm|Hjm]; [|lia].
  rewrite nth_error_skipn in E2.
  unfold select_row.
  assert (Ex : existsb (fun r0 => row_pid r0 =? 1 + page * page_size + Z.of_nat j)
                 procs = false).
  { apply not_true_is_false. intros Ex. apply existsb_exists in Ex.
    destruct Ex as [r' [Hr' Er']]. apply Z.eqb_eq in Er'.
    apply (Hno r' Hr'). exact Er'. }
  rewrite Ex.
  replace ((1 <=? 1 + page * page_size + Z.of_nat j)
           && (1 + page * page_size + Z.of_nat j
               <=? Z.of_nat (List.length procs))) with true.
  - replace (Z.to_nat (1 + page * page_size + Z.of_nat j - 1))
      with (a + j)%nat by lia.
    rewrite E2. reflexivity.
  - symmetry. apply andb_true_iff. rewrite !Z.leb_le. subst len. nia.
Qed.


Section IndexCommand.
Context {W : Type} {H : Host W}.

(** What the monitor does at a line that reads as the number [i] of a
    row it has printed. *)
Lemma table_prompt_number procs total st (s : St W) line rest i n :
  0 < i ->
  stdin s = line :: rest ->
  strip line = string_of_Z i ->
  select_row procs i = Some n ->
  table_prompt procs total st s =
  (show_threads_of_pid n ;;; _ <- input ;; ret (Continue st))
    (mkSt (world s) rest (log s ++ [mkEvent CInput None])).
Proof.
  intros Hi Es El Sel.
  destruct (printed_number_reads_back i Hi)
    as [Dg [Rd [Ne [Nq [Nn [Np [Nr Ns]]]]]]].
  unfold table_prompt. rewrite (bind_ok _ _ _ _ _ (input_cons s _ _ Es)).
  cbv zeta. rewrite El, Ne, Nq, Nn, Np, Nr, Ns, Dg.
  assert (Ei : forall s0 : St W, int_ (string_of_Z i) s0 = (Ok i, s0))
    by (intros s0; rewrite int_eq, Rd; reflexivity).
  rewrite (bind_ok _ _ _ _ _ (Ei _)). rewrite Sel. reflexivity.
Qed.

End IndexCommand.

(** X20: the index printed beside a row opens that row.  On any page of
    the table, for a positive page size, when the operator types the index
    printed beside a row (spaces around it ignored), the monitor shows the
    threads of the process of that row and waits for Enter, its variables
    unchanged, unless the number is the pid of a listed process: pids are
    looked up first. *)
Theorem printed_index_selects_row :
  forall (W : Type) (H : Host W) (procs : list Row)
         (total page_size page i : Z) (r : Row) (st : MonitorState)
         (s : St W) (line : string) (rest : list string),
    0 < page_size -> 0 <= page ->
    In (i, r) (print_table_rows procs page_size page) ->
    (forall r', In r' procs -> row_pid r' <> i) ->
    stdin s = line :: rest ->
    strip line = string_of_Z i ->
    table_prompt procs total st s =
    (show_threads_of_pid (row_pid r) ;;; _ <- input ;; ret (Continue st))
      (mkSt (world s) rest (log s ++ [mkEvent CInput None])).
Proof.
  intros W H procs total page_size page i r st s line rest
    Hp Hg Hin Hno Es El.
  assert (Hi : 0 < i).
  { unfold print_table_rows in Hin. cbv zeta in Hin.
    apply in_combine_nth in Hin. destruct Hin as [j [E1 _]].
    rewrite nth_error_map in E1.
    destruct (nth_error (seq 0 _) j) as [k|]; [|discriminate E1].
    cbn [option_map] in E1. injection E1 as Ei.
    assert (Ei' : i = 1 + page * page_size + Z.of_nat k)
      by (symmetry; exact Ei).
    nia. }
  apply (table_prompt_number procs total st s line rest i (row_pid r)
           Hi Es El).
  exact (index_selects_row procs page_size page i r Hp Hg Hin Hno).
Qed.

Lemma printed_index_selects_row_witness :
  table_prompt
    [mkRow 500 "a" 3 0%Q 0; mkRow 501 "b" 2 0%Q 0; mkRow 502 "c" 1 0%Q 0]
    2 (mkMonitorState "" 1 2) (init worker_running ["  3 "; ""; "q"]) =
  (show_threads_of_pid 502 ;;; _ <- input ;; ret (Continue (mkMonitorState "" 1 2)))
    (mkSt worker_running [""; "q"] [mkEvent CInput None]).
Proof.
  apply (printed_index_selects_row Script Script_Host
           [mkRow 500 "a" 3 0%Q 0; mkRow 501 "b" 2 0%Q 0;
            mkRow 502 "c" 1 0%Q 0] 2 2 1 3 (mkRow 502 "c" 1 0%Q 0)
           (mkMonitorState "" 1 2) (init worker_running ["  3 "; ""; "q"])
           "  3 " [""; "q"]).
  - lia.
  - lia.
  - vm_compute. left. reflexivity.
  - intros r' [<-|[<-|[<-|[]]]]; discriminate.
  - reflexivity.
  - reflexivity.
Defined.

(** X21: the commands [n] and [p] stay on the pages and undo each other.
    For a positive page size, the page count computed for it and a page of
    the table, the next and the previous page are pages of the table
    again, wrapping round at the ends, and each command takes back the
    other. *)
Theorem page_commands_wrap_and_invert :
  forall (n page_size page total : Z),
    0 < page_size ->
    total_pages n page_size = Ok total ->
    0 <= page < total ->
    0 <= next_page page total < total /\
    0 <= prev_page page total < total /\
    next_page page total = (if page + 1 =? total then 0 else page + 1) /\
    prev_page page total = (if page =? 0 then total - 1 else page - 1) /\
    prev_page (next_page page total) total = page /\
    next_page (prev_page page total) total = page.
Proof.
  intros n page_size page total Hp ET Hpage.
  assert (Ht : 1 <= total) by exact (total_pages_pos _ _ _ ET).
  assert (Nx : next_page page total =
               (if page + 1 =? total then 0 else page + 1)).
  { unfold next_page. destruct (Z.eqb_spec (page + 1) total) as [E|E].
    - rewrite E. apply Z.mod_same. lia.
    - apply Z.mod_small. lia. }
  assert (Pv : forall q, 0 <= q < total ->
               prev_page q total = (if q =? 0 then total - 1 else q - 1)).
  { intros q Hq. unfold prev_page. destruct (Z.eqb_spec q 0) as [E|E].
    - subst q. symmetry. apply (Z.mod_unique _ _ (-1)); lia.
    - apply Z.mod_small. lia. }
  assert (Nn : forall q, 0 <= q < total ->
               next_page q total = (if q + 1 =? total then 0 else q + 1)).
  { intros q Hq. unfold next_page. destruct (Z.eqb_spec (q + 1) total) as [E|E].
    - rewrite E. apply Z.mod_same. lia.
    - apply Z.mod_small. lia. }
  split; [unfold next_page; apply Z.mod_pos_bound; lia|].
  split; [unfold prev_page; apply Z.mod_pos_bound; lia|].
  split; [exact Nx|]. split; [apply Pv, Hpage|].
  split.
  - rewrite Nx. destruct (Z.eqb_spec (page + 1) total) as [E|E].
    + rewrite Pv by lia. cbn. lia.
    + rewrite Pv by lia. destruct (Z.eqb_spec (page + 1) 0); lia.
  - rewrite (Pv page Hpage). destruct (Z.eqb_spec page 0) as [E|E].
    + rewrite Nn by lia. destruct (Z.eqb_spec (total - 1 + 1) total); lia.
    + rewrite Nn by lia. destruct (Z.eqb_spec (page - 1 + 1) total); lia.
Qed.

Lemma page_commands_wrap_and_invert_witness :
  total_pages 45 20 = Ok 3 /\
  0 <= next_page 2 3 < 3 /\
  0 <= prev_page 2 3 < 3 /\
  next_page 2 3 = (if 2 + 1 =? 3 then 0 else 2 + 1) /\
  prev_page 2 3 = (if 2 =? 0 then 3 - 1 else 2 - 1) /\
  prev_page (next_page 2 3) 3 = 2 /\
  next_page (prev_page 2 3) 3 = 2.
Proof.
  split; [reflexivity|].
  apply (page_commands_wrap_and_invert 45 20 2 3).
  - lia.
  - reflexivity.
  - lia.
Defined.

(** ** The rows of the thread monitor *)

Section MonitorFacts.
Context {W : Type} {H : Host W}.

Lemma matching_row_spec filter_name p info (s : St W) row s' :
  matching_row filter_name p info s = (Ok (Some row), s') ->
  row_name row = str_or (info_name info) "<unknown>" /\
  (filter_name <> EmptyString ->
   contains (lower filter_name) (lower (row_name row)) = true) /\
  0 <= row_thread_count row.
Proof.
  unfold matching_row.
  destruct (negb (String.eqb filter_name EmptyString)
            && negb (contains (lower filter_name)
                       (lower (str_or (info_name info) "<unknown>"))))
    eqn:C; [intros E; discriminate E|].
  intros E. apply bind_inv in E. destruct E as [r1 [s1 [_ E]]].
  apply bind_inv in E. destruct E as [r2 [s2 [_ E]]].
  unfold ret in E. inversion E; subst row s'. cbn [row_name row_thread_count].
  split; [reflexivity|]. split.
  - intros Hf. apply andb_false_iff in C. destruct C as [C|C].
    + apply negb_false_iff, String.eqb_eq in C. contradiction.
    + apply negb_false_iff in C. exact C.
  - destruct r2 as [ts|e]; lia.
Qed.

End MonitorFacts.

(** X22: the thread monitor lists only what matches.  Every row that
    [_fetch_matching_processes] returns has a name that is not empty (a
    missing name reads "<unknown>"), a thread count that is not negative,
    and, when a filter is given, a name that contains the filter, letter
    case ignored. *)
Theorem monitor_rows_match_filter :
  forall (W : Type) (H : Host W) (filter_name : string) (s : St W)
         (rows : list Row) (s' : St W) (row : Row),
    fetch_matching_processes filter_name s = (Ok rows, s') ->
    In row rows ->
    row_name row <> EmptyString /\
    0 <= row_thread_count row /\
    (filter_name <> EmptyString ->
     contains (lower filter_name) (lower (row_name row)) = true).
Proof.
  intros W H filter_name s rows s' row E Hin.
  unfold fetch_matching_processes in E.
  apply bind_inv in E. destruct E as [ps0 [t0 [_ E]]].
  apply bind_inv in E. destruct E as [u1 [t1 [_ E]]].
  apply bind_inv in E. destruct E as [u2 [t2 [_ E]]].
  apply bind_inv in E. destruct E as [ps [t3 [_ E]]].
  revert row Hin.
  refine (for_each_invariant
            (fun procs : list Row =>
               forall row, In row procs ->
                 row_name row <> EmptyString /\
                 0 <= row_thread_count row /\
                 (filter_name <> EmptyString ->
                  contains (lower filter_name) (lower (row_name row)) = true))
            ps _ _ [] t3 rows s' _ E); [|intros row []].
  intros [p info] acc st acc' st' _ Iacc Eb.
  rewrite bind_try in Eb.
  destruct (matching_row filter_name p info st) as [[[r|]|e] st1] eqn:M;
    cbn [fst snd] in Eb.
  - unfold ret in Eb. inversion Eb; subst acc' st'.
    intros row Hin. apply in_app_or in Hin. destruct Hin as [Hin|[<-|[]]].
    + apply Iacc, Hin.
    + destruct (matching_row_spec _ _ _ _ _ _ M) as [En [Ef Et]].
      split; [rewrite En; apply str_or_not_empty; discriminate|].
      split; [exact Et | exact Ef].
  - unfold ret in Eb. inversion Eb; subst acc' st'. exact Iacc.
  - destruct (is_kind NoSuchProcess e || is_kind AccessDenied e).
    + unfold ret in Eb. inversion Eb; subst acc' st'. exact Iacc.
    + discriminate Eb.
Qed.

Lemma monitor_rows_match_filter_witness :
  let row := mkRow 7 "Worker" 0 0%Q 1048576 in
  row_name row <> EmptyString /\
  0 <= row_thread_count row /\
  ("work" <> EmptyString ->
   contains (lower "work") (lower (row_name row)) = true).
Proof.
  apply (monitor_rows_match_filter Script Script_Host "work"
           (init worker_running [])
           [mkRow 7 "Worker" 0 0%Q 1048576]
           (snd (fetch_matching_processes "work" (init worker_running [])))).
  - vm_compute. reflexivity.
  - left. reflexivity.
Defined.

(** ** The monitor loop *)

Section MonitorLoopFacts.
Context {W : Type} {H : Host W}.

Lemma matching_row_returns filter_name p info :
  returns (matching_row filter_name p info).
Proof.
  unfold matching_row.
  destruct (negb (String.eqb filter_name EmptyString)
            && negb (contains (lower filter_name)
                       (lower (str_or (info_name info) "<unknown>"))));
    [apply returns_ret|].
  apply returns_bind; [apply returns_try | intros r1].
  apply returns_bind; [apply returns_try | intros r2].
  apply returns_ret.
Qed.

Lemma fetch_matching_processes_returns filter_name :
  returns (fetch_matching_processes filter_name).
Proof.
  unfold fetch_matching_processes.
  apply returns_bind; [apply returns_host_total | intros ps0].
  apply returns_bind.
  { apply returns_for_each. intros [p info] acc.
    apply returns_bind; [apply returns_try | intros; apply returns_ret]. }
  intros _. apply returns_bind; [apply returns_host_total | intros _].
  apply returns_bind; [apply returns_host_total | intros ps].
  apply returns_for_each. intros [p info] procs s.
  rewrite bind_try.
  destruct (matching_row_returns filter_name p info s) as [r [s1 E]].
  rewrite E. cbn [fst snd]. destruct r as [row|]; apply returns_ret.
Qed.

Lemma quiet_fetch_matching_processes filter_name :
  quiet is_read (fetch_matching_processes filter_name).
Proof.
  unfold fetch_matching_processes.
  apply quiet_bind; [apply quiet_host_total; exact I | intros ps0].
  apply quiet_bind.
  { apply quiet_for_each. intros [p info] acc.
    apply quiet_bind; [apply quiet_try, quiet_host; exact I|].
    intros; apply quiet_ret. }
  intros _. apply quiet_bind; [apply quiet_host_total; exact I | intros _].
  apply quiet_bind; [apply quiet_host_total; exact I | intros ps].
  apply quiet_for_each. intros [p info] procs.
  apply quiet_bind.
  { apply quiet_try. unfold matching_row.
    destruct (negb (String.eqb filter_name EmptyString)
              && negb (contains (lower filter_name)
                         (lower (str_or (info_name info) "<unknown>"))));
      [apply quiet_ret|].
    apply quiet_bind; [apply quiet_try, quiet_host; exact I | intros r1].
    apply quiet_bind; [apply quiet_try, quiet_host; exact I | intros r2].
    apply quiet_ret. }
  intros [[row|]|e]; try apply quiet_ret.
  destruct (is_kind NoSuchProcess e || is_kind AccessDenied e);
    [apply quiet_ret | apply quiet_raise].
Qed.

Lemma quiet_emits {A} P (m : M W A) : quiet P m -> emits P m.
Proof. intros Q s. apply (Q s). Qed.

Lemma emits_show_threads_of_pid n : emits (W := W) is_read (show_threads_of_pid n).
Proof.
  unfold show_threads_of_pid.
  apply emits_bind.
  { apply emits_try. unfold Process_.
    apply emits_bind; [apply emits_host; exact I | intros; apply emits_ret]. }
  intros [p|e]; [|apply emits_ret].
  apply emits_bind; [apply emits_try, emits_host; exact I|].
  intros [tlist|e]; [|apply emits_ret].
  apply emits_bind; [apply emits_host; exact I | intros; apply emits_ret].
Qed.

Lemma emits_short_prompt st : emits (W := W) is_read (short_prompt st).
Proof.
  unfold short_prompt.
  apply emits_bind; [apply emits_input; exact I | intros line].
  cbv zeta.
  destruct (String.eqb (strip line) EmptyString); [apply emits_ret|].
  destruct (String.eqb (lower (strip line)) "q"); [apply emits_ret|].
  destruct (String.eqb (lower (strip line)) "r"); [|apply emits_ret].
  apply emits_bind; [apply emits_input; exact I | intros; apply emits_ret].
Qed.

Lemma emits_table_prompt procs total st :
  emits (W := W) is_read (table_prompt procs total st).
Proof.
  unfold table_prompt.
  apply emits_bind; [apply emits_input; exact I | intros line].
  cbv zeta.
  destruct (String.eqb (strip line) EmptyString); [apply emits_ret|].
  destruct (String.eqb (lower (strip line)) "q"); [apply emits_ret|].
  destruct (String.eqb (lower (strip line)) "n"); [apply emits_ret|].
  destruct (String.eqb (lower (strip line)) "p"); [apply emits_ret|].
  destruct (String.eqb (lower (strip line)) "r").
  { apply emits_bind; [apply emits_input; exact I | intros; apply emits_ret]. }
  destruct (String.eqb (lower (strip line)) "s").
  { apply emits_bind.
    - apply emits_try.
      apply emits_bind; [apply emits_input; exact I | intros; apply emits_int].
    - intros [newsize|e]; [|apply emits_ret].
      destruct (newsize >? 0); apply emits_ret. }
  destruct (isdigit (strip line)).
  { apply emits_bind; [apply emits_int | intros num].
    destruct (select_row procs num) as [n|].
    - apply emits_bind; [apply emits_show_threads_of_pid | intros _].
      apply emits_bind; [apply emits_input; exact I | intros; apply emits_ret].
    - apply emits_bind; [apply emits_host_total; exact I|].
      intros; apply emits_ret. }
  apply emits_bind; [apply emits_host_total; exact I | intros _].
  apply emits_short_prompt.
Qed.

Lemma emits_monitor_turn st : emits (W := W) is_read (monitor_turn st).
Proof.
  unfold monitor_turn.
  apply emits_bind; [apply quiet_emits, quiet_fetch_matching_processes|].
  intros [|r procs]; [apply emits_short_prompt|]. cbv zeta.
  destruct (total_pages _ _) as [total|e];
    [apply emits_table_prompt | apply emits_raise].
Qed.

Lemma emits_monitor_loop turns :
  forall st, emits (W := W) is_read (monitor_loop turns st).
Proof.
  induction turns as [|turns IH]; intros st; cbn [monitor_loop].
  - apply emits_raise.
  - apply emits_bind; [apply emits_monitor_turn|].
    intros [st'|]; [apply IH | apply emits_ret].
Qed.

(** *** The variables stay in order *)

Lemma short_prompt_valid st (s : St W) st' s' :
  page_state_valid st ->
  short_prompt st s = (Ok (Continue st'), s') ->
  page_state_valid st'.
Proof.
  intros Hv E. unfold short_prompt in E.
  apply bind_inv in E. destruct E as [line [s1 [_ E]]]. cbv zeta in E.
  destruct (String.eqb (strip line) EmptyString);
    [unfold ret in E; inversion E; subst; exact Hv|].
  destruct (String.eqb (lower (strip line)) "q"); [discriminate E|].
  destruct (String.eqb (lower (strip line)) "r");
    [|unfold ret in E; inversion E; subst; exact Hv].
  apply bind_inv in E. destruct E as [line2 [s2 [_ E]]].
  unfold ret in E. inversion E; subst.
  destruct Hv as [Hp _]. split; [exact Hp | cbn; lia].
Qed.

Lemma table_prompt_valid procs total st (s : St W) st' s' :
  1 <= total ->
  page_state_valid st ->
  table_prompt procs total st s = (Ok (Continue st'), s') ->
  page_state_valid st'.
Proof.
  intros Ht Hv E. pose proof Hv as [Hp Hc]. unfold table_prompt in E.
  apply bind_inv in E. destruct E as [line [s1 [_ E]]]. cbv zeta in E.
  destruct (String.eqb (strip line) EmptyString);
    [unfold ret in E; inversion E; subst; exact Hv|].
  destruct (String.eqb (lower (strip line)) "q"); [discriminate E|].
  destruct (String.eqb (lower (strip line)) "n").
  { unfold ret in E. inversion E; subst. split; [exact Hp|].
    cbn [current_page]. unfold next_page. apply Z.mod_pos_bound. lia. }
  destruct (String.eqb (lower (strip line)) "p").
  { unfold ret in E. inversion E; subst. split; [exact Hp|].
    cbn [current_page]. unfold prev_page. apply Z.mod_pos_bound. lia. }
  destruct (String.eqb (lower (strip line)) "r").
  { apply bind_inv in E. destruct E as [line2 [s2 [_ E]]].
    unfold ret in E. inversion E; subst. split; [exact Hp | cbn; lia]. }
  destruct (String.eqb (lower (strip line)) "s").
  { rewrite bind_try in E.
    destruct (fst _) as [newsize|e] in E;
      [|unfold ret in E; inversion E; subst; exact Hv].
    destruct (newsize >? 0) eqn:En;
      [|unfold ret in E; inversion E; subst; exact Hv].
    unfold ret in E. inversion E; subst.
    split; cbn; [apply Z.gtb_lt in En; lia | lia]. }
  destruct (isdigit (strip line)).
  { apply bind_inv in E. destruct E as [num [s2 [_ E]]].
    destruct (select_row procs num) as [n|].
    - apply bind_inv in E. destruct E as [u [s3 [_ E]]].
      apply bind_inv in E. destruct E as [l3 [s4 [_ E]]].
      unfold ret in E. inversion E; subst. exact Hv.
    - apply bind_inv in E. destruct E as [u [s3 [_ E]]].
      unfold ret in E. inversion E; subst. exact Hv. }
  apply bind_inv in E. destruct E as [u [s2 [_ E]]].
  exact (short_prompt_valid st s2 st' s' Hv E).
Qed.

Lemma monitor_turn_valid st (s : St W) st' s' :
  page_state_valid st ->
  monitor_turn st s = (Ok (Continue st'), s') ->
  page_state_valid st'.
Proof.
  intros Hv E. unfold monitor_turn in E.
  apply bind_inv in E. destruct E as [procs [s1 [_ E]]].
  destruct procs as [|r procs]; [exact (short_prompt_valid st s1 st' s' Hv E)|].
  cbv zeta in E.
  destruct (total_pages _ _) as [total|e] eqn:ET; [|discriminate E].
  refine (table_prompt_valid _ _ _ s1 st' s' (total_pages_pos _ _ _ ET) _ E).
  destruct (current_page st >=? _); [|exact Hv].
  destruct Hv as [Hp _]. split; [exact Hp | cbn; lia].
Qed.

(** *** Refreshing and quitting *)

Lemma fetch_matching_processes_runs filter_name (s : St W) :
  exists procs s1,
    fetch_matching_processes filter_name s = (Ok procs, s1) /\
    stdin s1 = stdin s.
Proof.
  destruct (fetch_matching_processes_returns filter_name s) as [procs [s1 E]].
  exists procs, s1. split; [exact E|].
  destruct (quiet_fetch_matching_processes filter_name s) as [I _].
  rewrite E in I. exact I.
Qed.

Lemma total_pages_runs st n :
  page_state_valid st ->
  exists total, total_pages n (current_page_size st) = Ok total.
Proof.
  intros [Hp _]. unfold total_pages, floordiv.
  assert (E : (current_page_size st =? 0) = false) by (apply Z.eqb_neq; lia).
  rewrite E. eauto.
Qed.

Lemma monitor_turn_blank st (s : St W) line rest :
  page_state_valid st ->
  stdin s = line :: rest -> strip line = EmptyString ->
  exists st' s',
    monitor_turn st s = (Ok (Continue st'), s') /\ stdin s' = rest.
Proof.
  intros Hv Es Eb. unfold monitor_turn.
  destruct (fetch_matching_processes_runs (current_filter st) s)
    as [procs [s1 [E I]]].
  rewrite (bind_ok _ _ _ _ _ E). rewrite Es in I.
  destruct procs as [|r procs]; cbv zeta.
  - unfold short_prompt. rewrite (bind_ok _ _ _ _ _ (input_cons s1 _ _ I)).
    cbv zeta. rewrite Eb. cbn [String.eqb]. eexists _, _.
    split; reflexivity.
  - destruct (total_pages_runs st
                (Z.of_nat (List.length (sort_desc row_key_leb (r :: procs))))
                Hv) as [total ET].
    rewrite ET.
    unfold table_prompt. rewrite (bind_ok _ _ _ _ _ (input_cons s1 _ _ I)).
    cbv zeta. rewrite Eb. cbn [String.eqb]. eexists _, _.
    split; reflexivity.
Qed.

Lemma monitor_turn_quit st (s : St W) line rest :
  page_state_valid st ->
  stdin s = line :: rest -> lower (strip line) = "q" ->
  exists s', monitor_turn st s = (Ok Break, s') /\ stdin s' = rest.
Proof.
  intros Hv Es Eq.
  assert (Ne : String.eqb (strip line) EmptyString = false).
  { apply String.eqb_neq. intros E. rewrite E in Eq. discriminate Eq. }
  unfold monitor_turn.
  destruct (fetch_matching_processes_runs (current_filter st) s)
    as [procs [s1 [E I]]].
  rewrite (bind_ok _ _ _ _ _ E). rewrite Es in I.
  destruct procs as [|r procs]; cbv zeta.
  - unfold short_prompt. rewrite (bind_ok _ _ _ _ _ (input_cons s1 _ _ I)).
    cbv zeta. rewrite Ne, Eq. cbn [String.eqb Ascii.eqb Bool.eqb].
    eexists. split; reflexivity.
  - destruct (total_pages_runs st
                (Z.of_nat (List.length (sort_desc row_key_leb (r :: procs))))
                Hv) as [total ET].
    rewrite ET.
    unfold table_prompt. rewrite (bind_ok _ _ _ _ _ (input_cons s1 _ _ I)).
    cbv zeta. rewrite Ne, Eq. cbn [String.eqb Ascii.eqb Bool.eqb].
    eexists. split; reflexivity.
Qed.

Lemma monitor_loop_refresh_quit line rest blanks :
  Forall (fun l => strip l = EmptyString) blanks ->
  lower (strip line) = "q" ->
  forall turns st (s : St W),
    page_state_valid st ->
    stdin s = blanks ++ line :: rest ->
    (List.length blanks < turns)%nat ->
    exists s', monitor_loop turns st s = (Ok tt, s') /\ stdin s' = rest.
Proof.
  intros Hb Hq.
  induction Hb as [|b blanks Eb Hb IH]; intros turns st s Hv Es Ht.
  - destruct turns as [|turns]; [cbn in Ht; lia|]. cbn [monitor_loop].
    destruct (monitor_turn_quit st s line rest Hv Es Hq) as [s' [E I]].
    rewrite (bind_ok _ _ _ _ _ E). exists s'. split; [reflexivity | exact I].
  - destruct turns as [|turns]; [cbn in Ht; lia|]. cbn [monitor_loop].
    destruct (monitor_turn_blank st s b (blanks ++ line :: rest) Hv Es Eb)
      as [st' [s' [E I]]].
    rewrite (bind_ok _ _ _ _ _ E).
    apply (IH turns st' s' (monitor_turn_valid st s st' s' Hv E) I).
    cbn [List.length] in Ht. lia.
Qed.

(** A page size of 0 with a process listed: the page count raises. *)
Lemma monitor_turn_zero_page_size st (s : St W) r procs s1 :
  current_page_size st = 0 ->
  fetch_matching_processes (current_filter st) s = (Ok (r :: procs), s1) ->
  exists e,
    monitor_turn st s = (Raise e, s1) /\ kind e = ZeroDivisionError.
Proof.
  intros E0 F. unfold monitor_turn. rewrite (bind_ok _ _ _ _ _ F).
  cbv zeta. unfold total_pages, floordiv. rewrite E0. cbn [Z.eqb].
  eexists. split; reflexivity.
Qed.

End MonitorLoopFacts.

(** X23: the thread monitor only reads.  Whatever is typed and whatever
    the host answers, every call of [monitor_threads_by_process_name] into
    the host is an enumeration, a CPU sample, a thread listing, an opening
    of a process, a reading of its name, a sleep or a reading of the
    console: no process is signalled and no file is written. *)
Theorem monitor_only_reads :
  forall (W : Type) (H : Host W) (w : W) (lines : list string)
         (filter_name : string) (page_size : Z),
    Forall is_read
      (calls (snd (monitor_threads_by_process_name filter_name page_size
                     (init w lines)))).
Proof.
  intros W H w lines filter_name page_size.
  unfold monitor_threads_by_process_name.
  destruct (emits_monitor_loop (S (List.length (stdin (init w lines))))
              (mkMonitorState filter_name 0 page_size) (init w lines))
    as [evs [L F]].
  unfold calls. rewrite L. cbn [init log app].
  apply Forall_map_ev, F.
Qed.

(** X24: the variables of the monitor loop stay in order.  Started with a
    positive page size, after any number of turns the page size is still
    positive, so that the page count is never computed with a zero
    divisor, and the page index is not negative, so that the table slice
    never counts from the end of the list. *)
Theorem monitor_page_state_stays_valid :
  forall (W : Type) (H : Host W) (filter_name : string) (page_size : Z)
         (s : St W) (st' : MonitorState) (s' : St W),
    0 < page_size ->
    monitor_run (mkMonitorState filter_name 0 page_size) s st' s' ->
    page_state_valid st'.
Proof.
  intros W H filter_name page_size s st' s' Hp R.
  assert (Hv : page_state_valid (mkMonitorState filter_name 0 page_size))
    by (split; cbn; lia).
  revert Hv. induction R as [st s|st s st1 s1 st2 s2 E R IH]; intros Hv.
  - exact Hv.
  - apply IH. exact (monitor_turn_valid st s st1 s1 Hv E).
Qed.

Lemma monitor_page_state_stays_valid_witness :
  page_state_valid (mkMonitorState "work" 0 7).
Proof.
  apply (monitor_page_state_stays_valid Script Script_Host "work" 20
           (init worker_running ["S"; " 7 "; "q"])
           (mkMonitorState "work" 0 7)
           (snd (monitor_turn (mkMonitorState "work" 0 20)
                   (init worker_running ["S"; " 7 "; "q"])))).
  - lia.
  - eapply run_turn; [vm_compute; reflexivity | apply run_here].
Defined.

(** X25: Enter refreshes and q quits.  Started with a positive page
    size, whatever the host answers and whatever is listed, the monitor
    takes every blank line as a refresh and returns normally at the first
    line that reads q (in either case, blanks around it ignored), having
    read these lines and no more.  (With a page size of 0 and a process
    listed the first turn ends in [ZeroDivisionError] before a line is
    read.) *)
Theorem monitor_refreshes_then_quits :
  forall (W : Type) (H : Host W) (w : W) (filter_name : string)
         (page_size : Z) (blanks : list string) (line : string)
         (rest : list string),
    0 < page_size ->
    Forall (fun l => strip l = EmptyString) blanks ->
    lower (strip line) = "q" ->
    exists s',
      monitor_threads_by_process_name filter_name page_size
        (init w (blanks ++ line :: rest)) = (Ok tt, s') /\
      stdin s' = rest.
Proof.
  intros W H w filter_name page_size blanks line rest Hp Hb Hq.
  unfold monitor_threads_by_process_name.
  apply (monitor_loop_refresh_quit line rest blanks Hb Hq).
  - split; cbn; lia.
  - reflexivity.
  - cbn [init stdin]. rewrite length_app. lia.
Qed.

Lemma monitor_refreshes_then_quits_witness :
  exists s',
    monitor_threads_by_process_name "work" 20
      (init worker_running ([" "; "  "] ++ " Q " :: ["n"])) = (Ok tt, s') /\
    stdin s' = ["n"].
Proof.
  apply (monitor_refreshes_then_quits Script Script_Host worker_running
           "work" 20 [" "; "  "] " Q " ["n"]).
  - lia.
  - repeat constructor.
  - reflexivity.
Defined.

(** ** The bounds on the turns of the console loops

    [save_or_return_menu] and [monitor_threads_by_process_name] are
    [while True] loops; the embedding gives them one turn more than there
    are lines to read.  A turn that goes round again has taken a line, so
    the bound is never met: any larger bound gives the same run. *)

Section LoopBounds.
Context {W : Type} {H : Host W}.

Lemma reads_on_ret {A} (a : A) : reads_on (W := W) (ret a).
Proof. intros s. cbn. lia. Qed.

Lemma reads_on_bind {A B} (m : M W A) (k : A -> M W B) :
  reads_on m -> (forall a, reads_on (k a)) -> reads_on (bind m k).
Proof.
  intros Hm Hk s. specialize (Hm s). unfold bind.
  destruct (m s) as [[a|e] s1]; cbn [snd] in *; [|exact Hm].
  specialize (Hk a s1). lia.
Qed.

Lemma reads_on_try {A} (m : M W A) : reads_on m -> reads_on (try_ m).
Proof. intros Hm s. rewrite try_eq. cbn [snd]. apply Hm. Qed.

Lemma reads_on_quiet {A} P (m : M W A) : quiet P m -> reads_on m.
Proof. intros Q s. destruct (Q s) as [I _]. rewrite I. lia. Qed.

Lemma reads_on_input : reads_on (W := W) input.
Proof.
  intros s. unfold input. destruct (stdin s) as [|line rest]; cbn; lia.
Qed.

Lemma reads_on_int (str : string) : reads_on (W := W) (int_ str).
Proof. intros s. rewrite int_eq. cbn. lia. Qed.

Lemma consumes_input {A} (k : string -> M W A) :
  (forall line, reads_on (k line)) -> consumes (bind input k).
Proof.
  intros Hk s a s' E. apply bind_inv in E. destruct E as [line [s1 [I E]]].
  unfold input in I. destruct (stdin s) as [|l rest] eqn:Es;
    [discriminate I|].
  inversion I; subst line s1. specialize (Hk l (mkSt (world s) rest
    (log s ++ [mkEvent CInput None]))).
  rewrite E in Hk. cbn [snd stdin List.length] in *. lia.
Qed.

Lemma save_menu_loop_bound name :
  forall k1 k2 (s : St W),
    (List.length (stdin s) < k1)%nat -> (List.length (stdin s) < k2)%nat ->
    save_menu_loop k1 name s = save_menu_loop k2 name s.
Proof.
  induction k1 as [|k1 IH]; intros k2 s H1 H2; [lia|].
  destruct k2 as [|k2]; [lia|]. cbn [save_menu_loop].
  unfold bind. destruct (save_menu_turn name s) as [[[u|]|e] s1] eqn:T;
    try reflexivity.
  apply save_menu_turn_again in T. destruct T as [line [rest [Es [_ ->]]]].
  rewrite Es in H1, H2. cbn [List.length] in H1, H2.
  apply IH; cbn [stdin]; lia.
Qed.

Lemma reads_on_show_threads_of_pid n :
  reads_on (W := W) (show_threads_of_pid n).
Proof.
  apply (reads_on_quiet any_call). unfold show_threads_of_pid.
  apply quiet_bind; [apply quiet_try, quiet_Process; exact I|].
  intros [p|e]; [|apply quiet_ret].
  apply quiet_bind; [apply quiet_try, quiet_host; exact I|].
  intros [tlist|e]; [|apply quiet_ret].
  apply quiet_bind; [apply quiet_host; exact I | intros; apply quiet_ret].
Qed.

Lemma reads_on_short_prompt st : reads_on (W := W) (short_prompt st).
Proof.
  unfold short_prompt.
  apply reads_on_bind; [apply reads_on_input | intros line]. cbv zeta.
  destruct (String.eqb (strip line) EmptyString); [apply reads_on_ret|].
  destruct (String.eqb (lower (strip line)) "q"); [apply reads_on_ret|].
  destruct (String.eqb (lower (strip line)) "r"); [|apply reads_on_ret].
  apply reads_on_bind; [apply reads_on_input | intros; apply reads_on_ret].
Qed.

Lemma consumes_short_prompt st : consumes (W := W) (short_prompt st).
Proof.
  unfold short_prompt. apply consumes_input. intros line. cbv zeta.
  destruct (String.eqb (strip line) EmptyString); [apply reads_on_ret|].
  destruct (String.eqb (lower (strip line)) "q"); [apply reads_on_ret|].
  destruct (String.eqb (lower (strip line)) "r"); [|apply reads_on_ret].
  apply reads_on_bind; [apply reads_on_input | intros; apply reads_on_ret].
Qed.

Lemma consumes_table_prompt procs total st :
  consumes (W := W) (table_prompt procs total st).
Proof.
  unfold table_prompt. apply consumes_input. intros line. cbv zeta.
  destruct (String.eqb (strip line) EmptyString); [apply reads_on_ret|].
  destruct (String.eqb (lower (strip line)) "q"); [apply reads_on_ret|].
  destruct (String.eqb (lower (strip line)) "n"); [apply reads_on_ret|].
  destruct (String.eqb (lower (strip line)) "p"); [apply reads_on_ret|].
  destruct (String.eqb (lower (strip line)) "r").
  { apply reads_on_bind; [apply reads_on_input | intros; apply reads_on_ret]. }
  destruct (String.eqb (lower (strip line)) "s").
  { apply reads_on_bind.
    - apply reads_on_try.
      apply reads_on_bind; [apply reads_on_input | intros; apply reads_on_int].
    - intros [newsize|e]; [|apply reads_on_ret].
      destruct (newsize >? 0); apply reads_on_ret. }
  destruct (isdigit (strip line)).
  { apply reads_on_bind; [apply reads_on_int | intros num].
    destruct (select_row procs num) as [n|].
    - apply reads_on_bind; [apply reads_on_show_threads_of_pid | intros _].
      apply reads_on_bind; [apply reads_on_input | intros; apply reads_on_ret].
    - apply reads_on_bind;
        [apply (reads_on_quiet any_call), quiet_host_total; exact I|].
      intros; apply reads_on_ret. }
  apply reads_on_bind;
    [apply (reads_on_quiet any_call), quiet_host_total; exact I | intros _].
  apply reads_on_short_prompt.
Qed.

Lemma consumes_monitor_turn st : consumes (W := W) (monitor_turn st).
Proof.
  intros s a s' E. unfold monitor_turn in E.
  apply bind_inv in E. destruct E as [procs [s1 [F E]]].
  destruct (quiet_fetch_matching_processes (current_filter st) s) as [I _].
  rewrite F in I. cbn [snd] in I. rewrite <- I.
  destruct procs as [|r procs].
  - exact (consumes_short_prompt st s1 a s' E).
  - cbv zeta in E. destruct (total_pages _ _) as [total|e]; [|discriminate E].
    exact (consumes_table_prompt _ _ _ s1 a s' E).
Qed.

Lemma monitor_loop_bound :
  forall k1 k2 st (s : St W),
    (List.length (stdin s) < k1)%nat -> (List.length (stdin s) < k2)%nat ->
    monitor_loop k1 st s = monitor_loop k2 st s.
Proof.
  induction k1 as [|k1 IH]; intros k2 st s H1 H2; [lia|].
  destruct k2 as [|k2]; [lia|]. cbn [monitor_loop].
  unfold bind. destruct (monitor_turn st s) as [[[st'|]|e] s1] eqn:T;
    try reflexivity.
  apply consumes_monitor_turn in T. apply IH; lia.
Qed.

End LoopBounds.

(** X26: a port that cannot be read ends the flow at once.  When the
    answer to "Enter port to free" is blank or is not a number,
    [free_port_interactive] returns normally having read that one line:
    nothing is looked up, nothing is signalled, and the lines that follow
    are left for the menu. *)
Theorem free_port_stops_on_unreadable_port :
  forall (W : Type) (H : Host W) (w : W) (line : string)
         (rest : list string),
    strip line = EmptyString \/
    (exists e, int_of_string (strip line) = Raise e) ->
    free_port_interactive (init w (line :: rest)) =
    (Ok tt, mkSt w rest [mkEvent CInput None]).
Proof.
  intros W H w line rest Hl.
  destruct (String.eqb (strip line) EmptyString) eqn:Eb.
  - unfold free_port_interactive. rewrite bind_try.
    unfold bind, input, init. cbn [stdin world log app]. rewrite Eb.
    reflexivity.
  - apply String.eqb_neq in Eb. destruct Hl as [Hl|[e He]]; [contradiction|].
    exact (free_port_rejects_non_numeric w line rest e He Eb).
Qed.

Lemma free_port_stops_on_unreadable_port_witness :
  free_port_interactive (init two_listeners ["80 80"; "y"]) =
  (Ok tt, mkSt two_listeners ["y"] [mkEvent CInput None]).
Proof.
  apply (free_port_stops_on_unreadable_port Script Script_Host two_listeners
           "80 80" ["y"]).
  right. eexists. vm_compute. reflexivity.
Defined.

(** ** Loops of terminations *)

Section TerminationLoops.
Context {W : Type} {H : Host W}.
Hypothesis wait_sound : wait_procs_sound.

(** A loop that hands one root after the other to
    [terminate_process_tree] signals only inside the trees of its
    roots. *)
Lemma termination_loop_stays_in_trees {A S} (root : A -> Z)
  (k : A -> S -> Outcome -> S) (timeout : Q) (l : list A) (p : Process) :
  forall acc (s : St W),
    In (CTerminate p)
       (calls (snd (for_each l
                      (fun x acc =>
                         bind (terminate_process_tree (root x) timeout)
                           (fun res => ret (k x acc res)))
                      acc s))) \/
    In (CKill p)
       (calls (snd (for_each l
                      (fun x acc =>
                         bind (terminate_process_tree (root x) timeout)
                           (fun res => ret (k x acc res)))
                      acc s))) ->
    (In (CTerminate p) (calls s) \/ In (CKill p) (calls s)) \/
    exists x w',
      In x l /\ In (root x, w') (handled_in timeout (map root l) s) /\
      In (pid p) (discovered_pids (root x) w').
Proof.
  induction l as [|x l IH]; intros acc s Hp; cbn [for_each] in Hp.
  - left. exact Hp.
  - assert (Hone :
      forall s1,
        s1 = snd (terminate_process_tree (root x) timeout s) ->
        In (CTerminate p) (calls s1) \/ In (CKill p) (calls s1) ->
        (In (CTerminate p) (calls s) \/ In (CKill p) (calls s)) \/
        exists y w',
          In y (x :: l) /\
          In (root y, w') (handled_in timeout (map root (x :: l)) s) /\
          In (pid p) (discovered_pids (root y) w')).
    { intros s1 -> Hs1.
      rewrite terminate_process_tree_calls_framed in Hs1.
      assert (Hsplit :
        (In (CTerminate p) (calls s) \/ In (CKill p) (calls s)) \/
        (In (CTerminate p)
            (calls (snd (terminate_process_tree (root x) timeout
                           (init (world s) (stdin s))))) \/
         In (CKill p)
            (calls (snd (terminate_process_tree (root x) timeout
                           (init (world s) (stdin s))))))).
      { destruct Hs1 as [Hs1|Hs1]; apply in_app_or in Hs1;
          destruct Hs1 as [Hs1|Hs1]; auto. }
      destruct Hsplit as [Hl|Hr]; [left; exact Hl|].
      right. exists x, (world s). split; [left; reflexivity|].
      split; [left; reflexivity|].
      exact (signalled_pids_discovered (world s) (stdin s) (root x) timeout p
               wait_sound Hr). }
    destruct (terminate_process_tree (root x) timeout s) as [[res|e] s1] eqn:T.
    + assert (B : bind (terminate_process_tree (root x) timeout)
                    (fun res => ret (k x acc res)) s =
                  (Ok (k x acc res), s1))
        by (unfold bind; rewrite T; reflexivity).
      rewrite (bind_ok _ _ _ _ _ B) in Hp. apply IH in Hp.
      destruct Hp as [Hp|[y [w' [Hy [Hh Hd]]]]].
      * apply (Hone s1 eq_refl Hp).
      * right. exists y, w'. split; [right; exact Hy|].
        split; [|exact Hd]. cbn [map handled_in]. rewrite T. right. exact Hh.
    + assert (B : bind (terminate_process_tree (root x) timeout)
                    (fun res => ret (k x acc res)) s =
                  (Raise e, s1))
        by (unfold bind; rewrite T; reflexivity).
      rewrite (bind_raise _ _ _ _ _ B) in Hp.
      apply (Hone s1 eq_refl Hp).
Qed.

End TerminationLoops.

Lemma Calm_wait_procs_sound : @wait_procs_sound Calm Calm_Host.
Proof.
  intros ps t w gone alive w' E. cbn in E. inversion E; subst.
  split; [apply incl_refl | intros x []].
Qed.

Section ChosenTrees.
Context {W : Type} {H : Host W}.

Lemma describe_candidate_pid p (s : St W) c s' :
  describe_candidate p s = (Ok c, s') -> cand_pid c = pid p.
Proof.
  intros E. unfold describe_candidate in E.
  apply bind_inv in E. destruct E as [r1 [s1 [_ E]]].
  apply bind_inv in E. destruct E as [r2 [s2 [_ E]]].
  apply bind_inv in E. destruct E as [n0 [s3 [_ E]]].
  apply bind_inv in E. destruct E as [name [s4 [_ E]]].
  apply bind_inv in E. destruct E as [cmdline [s5 [_ E]]].
  unfold ret in E. inversion E; subst c. reflexivity.
Qed.

Lemma describe_loop_pids (procs : list Process) :
  forall acc (s : St W) cands s',
    for_each procs
      (fun p candidates =>
         bind (describe_candidate p) (fun c => ret (candidates ++ [c])))
      acc s = (Ok cands, s') ->
    map cand_pid cands = map cand_pid acc ++ map pid procs.
Proof.
  induction procs as [|p procs IH]; intros acc s cands s' E;
    cbn [for_each] in E.
  - unfold ret in E. inversion E; subst. cbn [map]. rewrite app_nil_r.
    reflexivity.
  - apply bind_inv in E. destruct E as [acc1 [s1 [B E]]].
    apply bind_inv in B. destruct B as [c [s2 [D B]]].
    unfold ret in B. inversion B; subst acc1 s2.
    apply IH in E. rewrite E, map_app. cbn [map].
    rewrite (describe_candidate_pid p s c s1 D), <- app_assoc. reflexivity.
Qed.

Lemma int_of_string_not_blank str n :
  int_of_string str = Ok n -> str = EmptyString -> False.
Proof. intros E ->. vm_compute in E. discriminate E. Qed.

(** The run of [free_port_interactive] once the port is read: up to the
    loop of terminations, the loop, and what follows it. *)
Lemma free_port_run (w : W) l1 l2 rest port :
  int_of_string (strip l1) = Ok port ->
  (exists procs s1 cands s3 after,
     find_processes_using_port port (mkSt w (l2 :: rest) [mkEvent CInput None]) =
       (Ok procs, s1) /\
     for_each procs
       (fun p candidates =>
          bind (describe_candidate p) (fun c => ret (candidates ++ [c])))
       [] s1 = (Ok cands, s3) /\
     map cand_pid cands = map pid procs /\
     Forall no_signal
       (calls (mkSt (world s3) rest (log s3 ++ [mkEvent CInput None]))) /\
     Forall no_signal after /\
     calls (snd (free_port_interactive (init w (l1 :: l2 :: rest)))) =
       calls (snd (for_each cands
                     (fun c total_summary =>
                        bind (terminate_process_tree (cand_pid c) 5%Q)
                          (fun res => ret (extend_summary total_summary res)))
                     empty_outcome
                     (mkSt (world s3) rest
                        (log s3 ++ [mkEvent CInput None]))))
       ++ after) \/
  Forall no_signal
    (calls (snd (free_port_interactive (init w (l1 :: l2 :: rest))))).
Proof.
  intros N1.
  assert (Ne : strip l1 <> EmptyString)
    by (intros E; exact (int_of_string_not_blank _ _ N1 E)).
  rewrite (free_port_parsed w l1 (l2 :: rest) port Ne N1).
  set (s1 := mkSt w (l2 :: rest) [mkEvent CInput None]).
  assert (F1 : Forall no_signal (calls s1)) by (repeat constructor).
  destruct (quiet_find_processes_using_port port s1) as [I2 [evs2 [L2 F2]]].
  destruct (find_processes_using_port port s1) as [[procs|e] s2] eqn:Fd;
    cbn [snd] in *.
  2:{ right. rewrite (bind_raise _ _ _ _ _ Fd). cbn [snd].
      exact (no_signal_grows s1 s2 evs2 F1 L2 F2). }
  rewrite (bind_ok _ _ _ _ _ Fd).
  assert (F2' : Forall no_signal (calls s2))
    by exact (no_signal_grows s1 s2 evs2 F1 L2 F2).
  destruct procs as [|p0 procs]; [right; exact F2'|].
  destruct (quiet_for_each no_signal (p0 :: procs)
              (fun p candidates =>
                 bind (describe_candidate p)
                   (fun c => ret (candidates ++ [c])))
              (fun p acc =>
                 quiet_bind no_signal _ _ (quiet_describe_candidate p)
                   (fun c => quiet_ret no_signal _))
              [] s2) as [I3 [evs3 [L3 F3]]].
  destruct (for_each (p0 :: procs)
              (fun p candidates =>
                 bind (describe_candidate p)
                   (fun c => ret (candidates ++ [c])))
              [] s2) as [[cands|e] s3] eqn:Ds; cbn [snd] in *.
  2:{ right. rewrite (bind_raise _ _ _ _ _ Ds). cbn [snd].
      exact (no_signal_grows s2 s3 evs3 F2' L3 F3). }
  rewrite (bind_ok _ _ _ _ _ Ds).
  assert (F3' : Forall no_signal (calls s3))
    by exact (no_signal_grows s2 s3 evs3 F2' L3 F3).
  pose proof Ds as Ds0.
  apply describe_loop_pids in Ds. cbn [map app] in Ds.
  assert (Es3 : stdin s3 = l2 :: rest) by (rewrite I3, I2; reflexivity).
  rewrite (bind_ok _ _ _ _ _ (input_cons s3 l2 rest Es3)).
  set (s4 := mkSt (world s3) rest (log s3 ++ [mkEvent CInput None])).
  assert (F4 : Forall no_signal (calls s4)).
  { eapply (no_signal_grows s3);
      [exact F3' | cbn [log]; reflexivity | repeat constructor]. }
  cbv zeta. destruct (negb (String.eqb (lower (strip l2)) "y"));
    [right; exact F4|].
  left.
  assert (Em : forall total : Outcome,
            emits no_signal
              (bind (host_total (CSleep (3 # 10))
                       (fun w0 : W => (tt, time_sleep (3 # 10) w0)))
                 (fun _ =>
                    bind (find_processes_using_port port)
                      (fun still =>
                         save_or_return_menu
                           ("port_" ++ string_of_Z port
                            ++ "_processes")%string)))).
  { intros total.
    apply emits_bind; [apply emits_host_total; reflexivity | intros _].
    apply emits_bind;
      [apply quiet_emits, quiet_find_processes_using_port | intros still].
    apply emits_save_or_return_menu; [reflexivity | intros; reflexivity]. }
  destruct (for_each cands
              (fun c total_summary =>
                 bind (terminate_process_tree (cand_pid c) 5%Q)
                   (fun res => ret (extend_summary total_summary res)))
              empty_outcome s4) as [[total|e] s5] eqn:Lp.
  - rewrite (bind_ok _ _ _ _ _ Lp).
    destruct (Em total s5) as [evs5 [L5 F5]].
    exists (p0 :: procs), s2, cands, s3, (map ev_call evs5).
    split; [reflexivity|]. split; [exact Ds0|]. split; [exact Ds|].
    split; [exact F4|].
    split; [apply Forall_map_ev, F5|].
    fold s4. rewrite Lp. cbn [snd]. apply calls_app, L5.
  - rewrite (bind_raise _ _ _ _ _ Lp).
    exists (p0 :: procs), s2, cands, s3, [].
    split; [reflexivity|]. split; [exact Ds0|]. split; [exact Ds|].
    split; [exact F4|].
    split; [constructor|]. fold s4. rewrite Lp. cbn [snd].
    rewrite app_nil_r.
    reflexivity.
Qed.

(** The run of choice 4 once the fragment is read. *)
Lemma kill_by_name_run (w : W) l1 l2 rest :
  (exists entries s1,
     fetch_processes_real_time (mkSt w (l2 :: rest) [mkEvent CInput None]) =
       (Ok entries, s1) /\
     Forall no_signal
       (calls (mkSt (world s1) rest (log s1 ++ [mkEvent CInput None]))) /\
     calls (snd (kill_by_name (init w (l1 :: l2 :: rest)))) =
       calls (snd (for_each (filter (name_matches (strip l1)) entries)
                     (fun p (_ : unit) =>
                        bind (terminate_process_tree (entry_pid p) 5%Q)
                          (fun _ => ret tt))
                     tt
                     (mkSt (world s1) rest
                        (log s1 ++ [mkEvent CInput None]))))) \/
  Forall no_signal (calls (snd (kill_by_name (init w (l1 :: l2 :: rest))))).
Proof.
  unfold kill_by_name.
  rewrite (bind_ok _ _ _ _ _
             (input_cons (init w (l1 :: l2 :: rest)) l1 (l2 :: rest) eq_refl)).
  cbv beta zeta. cbn [init world log app].
  set (s1 := mkSt w (l2 :: rest) [mkEvent CInput None]).
  assert (F1 : Forall no_signal (calls s1)) by (repeat constructor).
  destruct (String.eqb (strip l1) EmptyString); [right; exact F1|].
  destruct (quiet_fetch_processes_real_time s1) as [I2 [evs2 [L2 F2]]].
  assert (F2' : Forall no_signal
                  (calls (snd (fetch_processes_real_time s1))))
    by exact (no_signal_grows s1 _ evs2 F1 L2 F2).
  destruct (fetch_processes_real_time s1) as [[entries|e] s2] eqn:Fe;
    cbn [snd] in *.
  2:{ right. rewrite (bind_raise _ _ _ _ _ Fe). exact F2'. }
  rewrite (bind_ok _ _ _ _ _ Fe).
  destruct (filter (name_matches (strip l1)) entries) as [|t0 targets] eqn:Ft;
    [right; exact F2'|].
  assert (Es2 : stdin s2 = l2 :: rest) by exact I2.
  rewrite (bind_ok _ _ _ _ _ (input_cons s2 l2 rest Es2)).
  set (s3 := mkSt (world s2) rest (log s2 ++ [mkEvent CInput None])).
  assert (F3 : Forall no_signal (calls s3)).
  { eapply (no_signal_grows s2);
      [exact F2' | cbn [log]; reflexivity | repeat constructor]. }
  destruct (negb (String.eqb (lower (strip l2)) "y")); [right; exact F3|].
  left. exists entries, s2.
  split; [reflexivity|]. split; [exact F3 | rewrite Ft; reflexivity].
Qed.

(** *** The name test against the table of letters *)

Lemma in_all_ascii c : In c all_ascii.
Proof.
  unfold all_ascii. rewrite <- (ascii_nat_embedding c).
  apply in_map, in_seq. split; [lia|]. apply nat_ascii_bounded.
Qed.

Lemma lower_same_letter a b :
  Ascii.eqb (lower_ascii a) (lower_ascii b) = same_letter a b.
Proof.
  assert (T : forallb
                (fun a =>
                   forallb
                     (fun b =>
                        Bool.eqb (Ascii.eqb (lower_ascii a) (lower_ascii b))
                                 (same_letter a b))
                     all_ascii)
                all_ascii = true) by (vm_compute; reflexivity).
  rewrite forallb_forall in T. specialize (T a (in_all_ascii a)).
  rewrite forallb_forall in T. specialize (T b (in_all_ascii b)).
  apply Bool.eqb_prop in T. exact T.
Qed.

Lemma prefix_lower word :
  forall s, String.prefix (lower word) (lower s) = starts_spelling word s.
Proof.
  induction word as [|t word IH]; intros s; [destruct s; reflexivity|].
  destruct s as [|c s]; [reflexivity|].
  unfold lower in *. cbn [map_string String.prefix starts_spelling].
  rewrite <- (lower_same_letter t c), <- (IH s).
  destruct (ascii_dec (lower_ascii t) (lower_ascii c)) as [E|E].
  - rewrite E, Ascii.eqb_refl. reflexivity.
  - assert (N : Ascii.eqb (lower_ascii t) (lower_ascii c) = false)
      by (apply Ascii.eqb_neq; exact E).
    rewrite N. reflexivity.
Qed.

Lemma contains_lower word s :
  contains (lower word) (lower s) = mentions word s.
Proof.
  induction s as [|c s IH].
  - cbn [contains mentions]. rewrite <- (prefix_lower word EmptyString).
    reflexivity.
  - change (lower (String c s)) with (String (lower_ascii c) (lower s)).
    cbn [contains mentions]. rewrite IH.
    change (String (lower_ascii c) (lower s)) with (lower (String c s)).
    rewrite prefix_lower. reflexivity.
Qed.

(** The test of choice 4: the name mentions the fragment, letter case
    ignored. *)
Lemma name_matches_spec frag (e : Entry) :
  name_matches frag e = mentions frag (entry_name e).
Proof.
  unfold name_matches, str_or.
  destruct (String.eqb (entry_name e) EmptyString) eqn:E.
  - apply String.eqb_eq in E. rewrite E. apply contains_lower.
  - apply contains_lower.
Qed.

End ChosenTrees.

(** X27: freeing a port signals only the owners found and their
    descendants.  When [wait_procs] hands back only handles it was given,
    every handle that [free_port_interactive] sends a graceful request or
    a forced kill has the pid of a process that
    [find_processes_using_port] returned for the port typed, or of a
    descendant that [children(recursive=True)] reported for such a process
    in the host as it was when the loop of terminations reached that
    process: after the lookup of the owners, the reading of their details
    and the trees of the owners before it. *)
Theorem free_port_signals_stay_in_owner_trees :
  forall (W : Type) (H : Host W),
    wait_procs_sound ->
    forall (w : W) (lines : list string) (p : Process),
      In (CTerminate p)
         (calls (snd (free_port_interactive (init w lines)))) \/
      In (CKill p)
         (calls (snd (free_port_interactive (init w lines)))) ->
      exists l1 l2 rest port procs s1 cands s3 owner w',
        lines = l1 :: l2 :: rest /\ int_of_string (strip l1) = Ok port /\
        find_processes_using_port port
          (mkSt w (l2 :: rest) [mkEvent CInput None]) = (Ok procs, s1) /\
        for_each procs
          (fun p candidates =>
             bind (describe_candidate p) (fun c => ret (candidates ++ [c])))
          [] s1 = (Ok cands, s3) /\
        In owner procs /\
        In (pid owner, w')
           (handled_in 5 (map pid procs)
              (mkSt (world s3) rest (log s3 ++ [mkEvent CInput None]))) /\
        In (pid p) (discovered_pids (pid owner) w').
Proof.
  intros W H Hs w lines p Hp.
  assert (Hc : exists c,
            In c (calls (snd (free_port_interactive (init w lines)))) /\
            is_signal c = true /\ (c = CTerminate p \/ c = CKill p)).
  { destruct Hp as [Hp|Hp]; eexists; (split; [exact Hp|]); auto. }
  destruct Hc as [c [Hin [Sc Ec]]].
  destruct (free_port_confirmed w lines)
    as [[l1 [l2 [rest [port [-> [N1 _]]]]]]|F];
    [|exfalso; exact (signal_found _ c Hin Sc F)].
  destruct (free_port_run w l1 l2 rest port N1)
    as [[procs [s1 [cands [s3 [after [Fd [Dl [Ep [F4 [Fa Ec']]]]]]]]]]|F];
    [|exfalso; exact (signal_found _ c Hin Sc F)].
  rewrite Ec' in Hp.
  set (s4 := mkSt (world s3) rest (log s3 ++ [mkEvent CInput None])) in *.
  assert (Hloop :
    In (CTerminate p)
       (calls (snd (for_each cands
                      (fun c total_summary =>
                         bind (terminate_process_tree (cand_pid c) 5%Q)
                           (fun res => ret (extend_summary total_summary res)))
                      empty_outcome s4))) \/
    In (CKill p)
       (calls (snd (for_each cands
                      (fun c total_summary =>
                         bind (terminate_process_tree (cand_pid c) 5%Q)
                           (fun res => ret (extend_summary total_summary res)))
                      empty_outcome s4)))).
  { rewrite Forall_forall in Fa.
    destruct Hp as [Hp|Hp]; apply in_app_or in Hp;
      destruct Hp as [Hp|Hp]; auto;
      apply Fa in Hp; discriminate Hp. }
  apply (termination_loop_stays_in_trees Hs cand_pid
           (fun _ acc res => extend_summary acc res)) in Hloop.
  destruct Hloop as [Hb|[x [w' [Hx [Hh Hd]]]]].
  - exfalso. rewrite Forall_forall in F4.
    destruct Hb as [Hb|Hb]; apply F4 in Hb; discriminate Hb.
  - assert (Hq : In (cand_pid x) (map pid procs))
      by (rewrite <- Ep; apply in_map, Hx).
    apply in_map_iff in Hq. destruct Hq as [owner [Eo Ho]].
    exists l1, l2, rest, port, procs, s1, cands, s3, owner, w'.
    split; [reflexivity|]. split; [exact N1|]. split; [exact Fd|].
    split; [exact Dl|]. split; [exact Ho|].
    rewrite Eo, <- Ep. split; [exact Hh | exact Hd].
Qed.

Lemma free_port_signals_stay_in_owner_trees_witness :
  exists l1 l2 rest port procs s1 cands s3 owner w',
    ["8080"; "y"; "2"] = l1 :: l2 :: rest /\
    int_of_string (strip l1) = Ok port /\
    find_processes_using_port port
      (mkSt worker_with_child (l2 :: rest) [mkEvent CInput None]) =
      (Ok procs, s1) /\
    for_each procs
      (fun p candidates =>
         bind (describe_candidate p) (fun c => ret (candidates ++ [c])))
      [] s1 = (Ok cands, s3) /\
    In owner procs /\
    In (pid owner, w')
       (handled_in 5 (map pid procs)
          (mkSt (world s3) rest (log s3 ++ [mkEvent CInput None]))) /\
    In 8 (discovered_pids (pid owner) w').
Proof.
  apply (free_port_signals_stay_in_owner_trees Calm Calm_Host
           Calm_wait_procs_sound worker_with_child ["8080"; "y"; "2"]
           (mkProcess 8 1)).
  left. vm_compute. tauto.
Defined.

(** X28: "Kill processes by name" signals only matching processes and
    their descendants.  When [wait_procs] hands back only handles it was
    given, every handle that choice 4 sends a graceful request or a forced
    kill has the pid of an entry of the snapshot whose name mentions the
    fragment typed (letter case ignored), or of a descendant that
    [children(recursive=True)] reported for such a process in the host as
    it was when the loop of terminations reached that entry: after the
    snapshot and the trees of the matching entries before it.  Stated for
    ASCII text, where [lower] is [str.lower()]. *)
Theorem kill_by_name_signals_stay_in_matching_trees :
  forall (W : Type) (H : Host W),
    wait_procs_sound ->
    forall (w : W) (lines : list string) (p : Process),
      Forall (fun l => is_ascii l = true) lines ->
      (forall entries s1,
         fetch_processes_real_time
           (mkSt w (tl lines) [mkEvent CInput None]) = (Ok entries, s1) ->
         Forall (fun e => is_ascii (entry_name e) = true) entries) ->
      In (CTerminate p) (calls (snd (kill_by_name (init w lines)))) \/
      In (CKill p) (calls (snd (kill_by_name (init w lines)))) ->
      exists l1 l2 rest entries s1 target w',
        lines = l1 :: l2 :: rest /\
        fetch_processes_real_time
          (mkSt w (l2 :: rest) [mkEvent CInput None]) = (Ok entries, s1) /\
        In target entries /\
        mentions (strip l1) (entry_name target) = true /\
        In (entry_pid target, w')
           (handled_in 5
              (map entry_pid
                 (filter (fun e => mentions (strip l1) (entry_name e))
                    entries))
              (mkSt (world s1) rest (log s1 ++ [mkEvent CInput None]))) /\
        In (pid p) (discovered_pids (entry_pid target) w').
Proof.
  intros W H Hs w lines p _ _ Hp.
  assert (Hc : exists c,
            In c (calls (snd (kill_by_name (init w lines)))) /\
            is_signal c = true /\ (c = CTerminate p \/ c = CKill p)).
  { destruct Hp as [Hp|Hp]; eexists; (split; [exact Hp|]); auto. }
  destruct Hc as [c [Hin [Sc Ec]]].
  destruct (kill_by_name_confirmed w lines)
    as [[l1 [l2 [rest [-> _]]]]|F];
    [|exfalso; exact (signal_found _ c Hin Sc F)].
  destruct (kill_by_name_run w l1 l2 rest)
    as [[entries [s1 [Fe [F2 Ec']]]]|F];
    [|exfalso; exact (signal_found _ c Hin Sc F)].
  rewrite Ec' in Hp.
  apply (termination_loop_stays_in_trees Hs entry_pid
           (fun _ _ _ => tt)) in Hp.
  destruct Hp as [Hb|[target [w' [Ht [Hh Hd]]]]].
  - exfalso. rewrite Forall_forall in F2.
    destruct Hb as [Hb|Hb]; apply F2 in Hb; discriminate Hb.
  - rewrite (filter_ext _ _ (name_matches_spec (strip l1))) in Hh.
    apply filter_In in Ht. destruct Ht as [Hi Hm].
    rewrite name_matches_spec in Hm.
    exists l1, l2, rest, entries, s1, target, w'.
    split; [reflexivity|]. split; [exact Fe|]. split; [exact Hi|].
    split; [exact Hm|]. split; [exact Hh | exact Hd].
Qed.

Lemma kill_by_name_signals_stay_in_matching_trees_witness :
  exists l1 l2 rest entries s1 target w',
    ["work"; "y"] = l1 :: l2 :: rest /\
    fetch_processes_real_time
      (mkSt worker_with_child (l2 :: rest) [mkEvent CInput None]) =
      (Ok entries, s1) /\
    In target entries /\
    mentions (strip l1) (entry_name target) = true /\
    In (entry_pid target, w')
       (handled_in 5
          (map entry_pid
             (filter (fun e => mentions (strip l1) (entry_name e)) entries))
          (mkSt (world s1) rest (log s1 ++ [mkEvent CInput None]))) /\
    In 8 (discovered_pids (entry_pid target) w').
Proof.
  apply (kill_by_name_signals_stay_in_matching_trees Calm Calm_Host
           Calm_wait_procs_sound worker_with_child ["work"; "y"]
           (mkProcess 8 1)).
  - repeat constructor.
  - intros entries s1 E. vm_compute in E. inversion E. repeat constructor.
  - left. vm_compute. tauto.
Defined.
